(* ===== verification/_CoqProject ===== *)
-Q . S2P
Prelude.v
CppStd.v
Vercmp.v
Double.v
Json.v
Log.v
Inventory.v
Algorithms.v
Cve.v
Frame.v
Spool.v
SpoolLemmas.v
SpoolQueue.v
SpoolSpec.v
WinStr.v
Transport.v
WinHttp.v
Reporter.v
Inet.v
PlatformLinux.v
PlatformWindows.v
Agent.v
AgentThreads.v
CrashDump.v
LinuxStubs.v
Odbc.v
OdbcSql.v
OdbcSpec.v
OdbcProps.v
Nsctl.v
Ipc.v
IpcServer.v
Main.v
Usage.v
ServiceWindows.v
DbBench.v
