(* ===== verification/Prelude.v ===== *)
(** * nano-sensor: a verification development

    nano-sensor is an agent that inventories a host (packages, sockets, processes,
    interfaces), matches the packages against a CVE index, keeps reports in a spool
    on disk and delivers them to a cloud endpoint over mutually authenticated TLS.
    On Windows it runs as a service, stores scans in SQL Server and answers a
    console client over a named pipe.  The program is C++20; this library models it
    component by component and proves what makes each component correct and what
    they achieve together.

    ** The program and its parts

    [main] (src/main.cpp) parses the command line and runs one command.  [inventory]
    and [vuln] collect through the platform layer (src/platform/), print JSON
    (src/json.cpp, src/inventory.cpp) and match (src/cve.cpp, src/vercmp.cpp).
    [report] appends a record to the spool (src/spool.cpp) and drains it through a
    transport (src/transport*.cpp).  [run] hands a body to the service layer
    (src/service_*.cpp) that starts the agent (src/agent.cpp): a worker thread scans,
    writes to the database (src/db_odbc.cpp) and feeds the reporter; the pipe server
    (src/ipc_windows.cpp) calls the agent's handlers; a watchdog ends the process,
    with a dump (src/crashdump_windows.cpp), when something is stuck.  nsctl
    (src/nsctl.cpp) is the client of the pipe.  tools/dbbench.cpp loads synthetic
    hosts through the matcher and the storage.

    ** Which file models what

    - Prelude, CppStd, Double, Algorithms: bytes, machine integers (as [Z] with the
      wrap written out: [u32], [u64], [i32], [i64]), the standard library as the code
      uses it (getline, strtol and its family, to_string, streams), binary64 with
      exact printing and parsing, and what is promised, not computed: std::sort,
      std::unique on sorted data, the order of an unordered_map.
    - Vercmp: src/vercmp.cpp.  Json: src/json.cpp, with a JSON reader as the
      reference.  Log: src/log.cpp.  Inventory: src/inventory.cpp and the platform
      interface [Platform].  Cve: src/cve.cpp.
    - Frame, Spool, SpoolLemmas, SpoolQueue, SpoolSpec: src/spool.cpp.  The directory
      is a map from names to contents; what the file system refuses is an argument
      of every operation.  SpoolQueue relates it to an abstract bounded queue.
    - Transport: src/transport.cpp, src/transport_openssl.cpp, src/transport_none.cpp.
      WinHttp: src/transport_winhttp.cpp.  Reporter: the reporter of src/main.cpp
      over any transport.
    - Inet, PlatformLinux, PlatformWindows: the collectors, two instances of
      [Platform].
    - Agent, AgentThreads: src/agent.cpp, its operations and its threads.  The
      database is the interface [DbOps] with the laws [DbLaws].
    - WinStr: the UTF-16 conversions of the Windows files.  Odbc: src/db_odbc.cpp, an
      instance of [DbOps] over any driver; OdbcSql, OdbcSpec, OdbcProps: the tables
      of tools/db/schema.sql, what the statements mean by their SQL text, and the
      transaction.
    - Ipc, IpcServer: src/ipc_windows.cpp, one request from both ends and the
      server's threads.  Nsctl: src/nsctl.cpp and src/service_linux.cpp.
    - ServiceWindows: src/service_windows.cpp.  CrashDump: src/crashdump_windows.cpp
      and src/procinfo_windows.cpp.  LinuxStubs: src/windows_only_stubs.cpp.
    - Main, Usage: the command line of src/main.cpp.  DbBench: tools/dbbench.cpp.

    State is a record, a C++ enumeration an inductive type, an operation a function
    from state to state with its result; an error the code reports is a value of a
    sum or an option.  Threads are transition systems: one constructor per place a
    thread can stand, one step per statement that matters to others, and reachability
    as the closure of the steps.  Calls of the operating system and of libraries
    (OpenSSL, WinHTTP, ODBC, Win32, the clock, the random generator) are arguments or
    classes whose fields are what the code relies on; every class has an instance.

    ** What the theorems show

    - Spool and delivery: [append], [peek] and [commit] implement a bounded queue
      that drops the oldest and counts what it drops; a reopened or torn spool has
      exactly the records it should; a drain posts each batch as often as it should,
      releases only what the cloud has acknowledged, and ends.
    - Storage: a recorded scan is visible as a whole or not at all, and reads back,
      as long as rollbacks and the switches of the automatic mode work, whose
      answers the code does not look at.
    - Transports: no byte leaves before the pin matched, on either backend; every
      WinHTTP handle is closed once; the backends classify a response alike.
    - Threads: the agent's locks cannot deadlock, waiters outlive their requests, no
      wake-up is lost; the pipe always has a listener until it is to stop, every
      instance has one owner, the acceptor ends; the service's reports are in order
      up to the race of its two closing ones; one thread writes the crash dump.
    - Texts: what is written reads back (JSON documents, log lines, frames, the
      installed service's command line); the usage text and the parser agree; the
      CRC table computes CRC-32.
    - Matching: the findings of a package and of a scan are exactly the best
      applicable rules in order; resolution takes the longest alias; version
      comparison is antisymmetric, and transitive where words sort above
      prereleases.
    - Collectors: the listening sockets, interfaces and packages the system shows,
      each exactly once, with its reachability; on Windows with its owner, on Linux
      with the owner the code looks up under the wrong column ([owner_not_found]).
    - Some theorems show what the code does against its intent; they are stated like
      the others, on a concrete run or for all inputs, and their comments say so.

    ** Fuel and bounds

    Loops that the code bounds, or that consume their input, recurse on it.  Where a
    loop's end depends on the outside the model takes fuel and a theorem says how
    much is enough: the spool's loops take the number of bytes or segments that can
    be left (SpoolQueue); [drain] ends within the attempts or, if the cloud accepts,
    within the batches of a segment (Reporter); a pipe call reads a reply in at most
    one round per byte (Ipc); the JSON reader takes the length of the text (Json).
    Capacities are the code's: 4 KiB requests, eight pipe instances, 260 and 520 path
    units, four adapter queries.

    ** What is not modelled

    The printed numbers of the benchmark and their mean; the contents of a dump; the
    effect of fsync.  Whether standard error can be redirected to the log file, how
    long a query takes and what every call of the operating system answers are
    arguments.  Index data, Python tooling, unit tests and deployment files have no
    model.  A line of the log is a single step, as the mutex of src/log.cpp makes
    it.  A C++ assignment of one word is a single step where threads share it.

    ** Left to extend

    [run] as one system: the service layer's threads, the agent's and the pipe
    server's together, from the start to a clean stop; the retry schedule of the
    reporter over time; the spool under two processes. *)
From stdpp Require Export base list gmap strings sorting.
From Stdlib Require Export ZArith Lia.
From Stdlib Require Import Ascii.

#[local] Open Scope Z_scope.

(** ** Byte strings

    A [std::string] is a sequence of bytes; it is modelled as a list of
    [ascii] (eight bits each).  [lit] writes a literal. *)

Abbreviation byte := ascii.
Abbreviation str := (list ascii).

Definition lit (s : string) : str := String.list_ascii_of_string s.

(** The value of a byte as an unsigned integer, and back. *)
Definition code (c : byte) : Z := Z.of_N (N_of_ascii c).
Definition chr (z : Z) : byte := ascii_of_N (Z.to_N z).

(** Length as an integer, and dropping an integer number of bytes (an offset
    past the end leaves nothing). *)
Definition len (s : str) : Z := Z.of_nat (length s).
Definition drop_z (n : Z) (s : str) : str :=
  if n <? len s then drop (Z.to_nat n) s else [].

(** ** Machine integers: wrap-around at a width *)

Definition u16 (z : Z) : Z := z mod 2 ^ 16.
Definition u32 (z : Z) : Z := z mod 2 ^ 32.
Definition u64 (z : Z) : Z := z mod 2 ^ 64.
Definition sgn (w z : Z) : Z :=
  let m := z mod 2 ^ w in if m <? 2 ^ (w - 1) then m else m - 2 ^ w.
Definition i32 (z : Z) : Z := sgn 32 z.
Definition i64 (z : Z) : Z := sgn 64 z.

Definition u64_max : Z := 2 ^ 64 - 1.

(** ** Tactics *)

(** Turn the boolean tests of the code into propositions. *)
Ltac bools :=
  repeat match goal with
  | H : (_ && _)%bool = true |- _ => apply andb_true_iff in H as [? ?]
  | H : (_ || _)%bool = false |- _ => apply orb_false_iff in H as [? ?]
  | H : negb _ = true |- _ => apply negb_true_iff in H
  | H : negb _ = false |- _ => apply negb_false_iff in H
  | H : (_ <? _) = true |- _ => apply Z.ltb_lt in H
  | H : (_ <? _) = false |- _ => apply Z.ltb_ge in H
  | H : (_ <=? _) = true |- _ => apply Z.leb_le in H
  | H : (_ <=? _) = false |- _ => apply Z.leb_gt in H
  | H : (_ =? _) = true |- _ => apply Z.eqb_eq in H
  | H : (_ =? _) = false |- _ => apply Z.eqb_neq in H
  | H : Ascii.eqb _ _ = true |- _ => apply Ascii.eqb_eq in H
  | H : Ascii.eqb _ _ = false |- _ => apply Ascii.eqb_neq in H
  end.

(** Case split on the condition of the first [if] of the goal, named [H]. *)
Ltac case_if_as H :=
  match goal with |- context [if ?b then _ else _] => destruct b eqn:H end.

(** Case split on every [if] and [match] scrutinee in the goal. *)
Ltac split_ifs := repeat (let H := fresh "Hif" in case_if_as H); bools.

(** Case split on every integer comparison of the goal and the hypotheses. *)
Ltac zcases :=
  repeat match goal with
  | |- context [?a <? ?b] => destruct (Z.ltb_spec a b)
  | |- context [?a <=? ?b] => destruct (Z.leb_spec a b)
  | |- context [?a =? ?b] => destruct (Z.eqb_spec a b)
  | H : context [?a <? ?b] |- _ => destruct (Z.ltb_spec a b)
  | H : context [?a <=? ?b] |- _ => destruct (Z.leb_spec a b)
  | H : context [?a =? ?b] |- _ => destruct (Z.eqb_spec a b)
  end.

(** Normalise nested appends. *)
Ltac app_norm := repeat (progress (rewrite <- ?app_assoc, ?app_nil_r; simpl)).

(** ** Lemmas on machine integers *)

Lemma u64_small z : 0 <= z < 2 ^ 64 -> u64 z = z.
Proof. apply Z.mod_small. Qed.

Lemma u64_range z : 0 <= u64 z < 2 ^ 64.
Proof. apply Z.mod_pos_bound. lia. Qed.

(** A value that fits its signed width is unchanged. *)
Lemma i32_small n : - 2 ^ 31 <= n < 2 ^ 31 -> i32 n = n.
Proof.
  intros Hn. unfold i32, sgn. change (32 - 1) with 31.
  destruct (Z.lt_ge_cases n 0).
  - rewrite <- (Z.mod_unique n (2 ^ 32) (-1) (n + 2 ^ 32)) by lia.
    destruct (Z.ltb_spec (n + 2 ^ 32) (2 ^ 31)); lia.
  - rewrite Z.mod_small by lia. destruct (Z.ltb_spec n (2 ^ 31)); lia.
Qed.

Lemma i64_small n : - 2 ^ 63 <= n < 2 ^ 63 -> i64 n = n.
Proof.
  intros Hn. unfold i64, sgn. change (64 - 1) with 63.
  destruct (Z.lt_ge_cases n 0).
  - rewrite <- (Z.mod_unique n (2 ^ 64) (-1) (n + 2 ^ 64)) by lia.
    destruct (Z.ltb_spec (n + 2 ^ 64) (2 ^ 63)); lia.
  - rewrite Z.mod_small by lia. destruct (Z.ltb_spec n (2 ^ 63)); lia.
Qed.

Lemma u32_small z : 0 <= z < 2 ^ 32 -> u32 z = z.
Proof. apply Z.mod_small. Qed.

Lemma u32_range z : 0 <= u32 z < 2 ^ 32.
Proof. apply Z.mod_pos_bound. lia. Qed.

Lemma u64_idemp z : u64 (u64 z) = u64 z.
Proof. apply u64_small, u64_range. Qed.

Lemma u64_add_l x y : u64 (u64 x + y) = u64 (x + y).
Proof. unfold u64. by rewrite Zplus_mod_idemp_l. Qed.

Lemma u64_add_r x y : u64 (x + u64 y) = u64 (x + y).
Proof. unfold u64. by rewrite Zplus_mod_idemp_r. Qed.

(** ** Lemmas on bytes *)

Lemma code_range c : 0 <= code c < 256.
Proof.
  unfold code. pose proof (N_ascii_bounded c) as H.
  split; [apply N2Z.is_nonneg|].
  change 256 with (Z.of_N 256). by apply N2Z.inj_lt.
Qed.

Lemma chr_code c : chr (code c) = c.
Proof. unfold chr, code. by rewrite N2Z.id, ascii_N_embedding. Qed.

Lemma code_chr z : 0 <= z < 256 -> code (chr z) = z.
Proof.
  intros Hz. unfold chr, code.
  rewrite N_ascii_embedding; [by rewrite Z2N.id; lia|].
  change 256%N with (Z.to_N 256). apply Z2N.inj_lt; lia.
Qed.

Lemma code_inj c d : code c = code d -> c = d.
Proof. intros H. by rewrite <- (chr_code c), <- (chr_code d), H. Qed.

#[global] Instance code_Inj : Inj (=) (=) code.
Proof. intros c d. apply code_inj. Qed.

Lemma eqb_code c d : Ascii.eqb c d = (code c =? code d).
Proof.
  destruct (Ascii.eqb_spec c d) as [->|H]; symmetry.
  - apply Z.eqb_refl.
  - apply Z.eqb_neq. intros E. by apply H, code_inj.
Qed.

(** ** Lemmas on lengths and offsets *)

Lemma len_nonneg s : 0 <= len s.
Proof. unfold len. lia. Qed.

Lemma len_app s t : len (s ++ t) = len s + len t.
Proof. unfold len. rewrite length_app. lia. Qed.

Lemma len_cons c s : len (c :: s) = 1 + len s.
Proof. unfold len. simpl. lia. Qed.

Lemma len_nil_iff s : len s = 0 <-> s = [].
Proof. unfold len. destruct s; simpl; split; intros; try done; lia. Qed.

Lemma drop_z_0 s : drop_z 0 s = s.
Proof.
  unfold drop_z. split_ifs; [done|]. pose proof (len_nonneg s).
  assert (len s = 0) as H0 by lia. by apply len_nil_iff in H0.
Qed.

Lemma drop_z_app s t : drop_z (len s) (s ++ t) = t.
Proof.
  unfold drop_z. rewrite len_app. unfold len. split_ifs.
  - rewrite Nat2Z.id. by apply drop_app_length.
  - destruct t; [done|]. simpl in *. lia.
Qed.

Lemma drop_z_ge n s : len s <= n -> drop_z n s = [].
Proof. intros H. unfold drop_z. destruct (Z.ltb_spec n (len s)); [lia|done]. Qed.

Lemma drop_z_drop n s : 0 <= n -> drop_z n s = drop (Z.to_nat n) s.
Proof.
  intros Hn. unfold drop_z. split_ifs; [done|].
  symmetry. apply drop_ge. unfold len in *. lia.
Qed.

Lemma drop_z_add n m s : 0 <= n -> 0 <= m -> drop_z m (drop_z n s) = drop_z (n + m) s.
Proof.
  intros. rewrite !drop_z_drop by lia. rewrite drop_drop. f_equal. lia.
Qed.

Create HintDb nsdb.
#[export] Hint Resolve code_range u64_range u32_range len_nonneg : nsdb.
Create Rewrite HintDb nsrw.
#[export] Hint Rewrite len_app len_cons chr_code drop_z_0 drop_z_app : nsrw.
