(* ===== verification/CppStd.v ===== *)
(** * The C++ standard library the program uses

    Byte-string searching and slicing ([std::string]), character classes in the
    "C" locale, line and word splitting ([std::getline], [operator>>]), and
    conversions between text and integers.  Positions are natural numbers and
    [npos] is [None]. *)
From S2P Require Import Prelude.
From Stdlib Require Import Ascii.

#[local] Open Scope Z_scope.

(** ** Character classes *)

Definition isdigit (c : byte) : bool := (48 <=? code c) && (code c <=? 57).
Definition isspace (c : byte) : bool :=
  (code c =? 32) || ((9 <=? code c) && (code c <=? 13)).
Definition tolower (c : byte) : byte :=
  if (65 <=? code c) && (code c <=? 90) then chr (code c + 32) else c.
Definition digit_val (c : byte) : Z := code c - 48.

(** ** Searching and slicing *)

Definition str_eqb (a b : str) : bool := bool_decide (a = b).

(** [operator<] on strings: [char_traits<char>::compare], bytes as unsigned. *)
Fixpoint str_ltb (a b : str) : bool :=
  match a, b with
  | _, [] => false
  | [], _ :: _ => true
  | x :: a', y :: b' =>
      if code x <? code y then true
      else if code y <? code x then false else str_ltb a' b'
  end.

Fixpoint find_first (P : byte -> bool) (s : str) : option nat :=
  match s with
  | [] => None
  | x :: s' => if P x then Some O else S <$> find_first P s'
  end.

Fixpoint find_last (P : byte -> bool) (s : str) : option nat :=
  match s with
  | [] => None
  | x :: s' =>
      match find_last P s' with
      | Some i => Some (S i)
      | None => if P x then Some O else None
      end
  end.

Definition find_char (c : byte) (s : str) : option nat := find_first (Ascii.eqb c) s.
Definition rfind_char (c : byte) (s : str) : option nat := find_last (Ascii.eqb c) s.

Definition substr (s : str) (pos n : nat) : str := take n (drop pos s).

Fixpoint starts_with (p s : str) : bool :=
  match p, s with
  | [], _ => true
  | _ :: _, [] => false
  | x :: p', y :: s' => Ascii.eqb x y && starts_with p' s'
  end.

Fixpoint find_sub (p s : str) : option nat :=
  if starts_with p s then Some O
  else match s with [] => None | _ :: s' => S <$> find_sub p s' end.

Definition elem_of_set (set : str) (c : byte) : bool := existsb (Ascii.eqb c) set.

(** The longest prefix of [s] whose bytes satisfy [P], and the rest. *)
Fixpoint span (P : byte -> bool) (s : str) : str * str :=
  match s with
  | [] => ([], [])
  | x :: s' => if P x then let '(a, r) := span P s' in (x :: a, r) else ([], s)
  end.

(** ** Lines and words *)

(** One [std::getline(in, out, d)]: the bytes up to the delimiter, which is
    consumed and not stored; [None] when no byte is left. *)
Definition getline (d : byte) (s : str) : option (str * str) :=
  match s with
  | [] => None
  | _ => let '(a, r) := span (fun c => negb (Ascii.eqb c d)) s in Some (a, tail r)
  end.

(** [while (std::getline(in, line, d))]: every line in order.  [cur] holds the
    bytes of the line being read and [started] whether any was read. *)
Fixpoint getlines_from (d : byte) (s cur : str) (started : bool) : list str :=
  match s with
  | [] => if started then [cur] else []
  | c :: s' =>
      if Ascii.eqb c d then cur :: getlines_from d s' [] false
      else getlines_from d s' (cur ++ [c]) true
  end.
Definition getlines (d : byte) (s : str) : list str := getlines_from d s [] false.

(** [while (in >> tok)]: the whitespace-separated words in order. *)
Fixpoint words_from (s cur : str) : list str :=
  match s with
  | [] => match cur with [] => [] | _ => [cur] end
  | c :: s' =>
      if isspace c then
        match cur with [] => words_from s' [] | _ => cur :: words_from s' [] end
      else words_from s' (cur ++ [c])
  end.
Definition words (s : str) : list str := words_from s [].

(** ** Integers as text *)

(** The value of a run of decimal digits, most significant first. *)
Definition dec_value (ds : str) : Z :=
  fold_left (fun v c => v * 10 + digit_val c) ds 0.

Fixpoint to_digits (fuel : nat) (n : Z) (acc : str) : str :=
  match fuel with
  | O => acc
  | S f =>
      let acc' := chr (48 + n mod 10) :: acc in
      if n <? 10 then acc' else to_digits f (n / 10) acc'
  end.

(** [std::to_string] and [%llu]/[%lld]: decimal, no padding. *)
Definition to_string_u (n : Z) : str := to_digits (S (Z.to_nat (Z.log2 n))) n [].
Definition to_string (n : Z) : str :=
  if n <? 0 then "-"%char :: to_string_u (- n) else to_string_u n.

(** [%0<w>llu]. *)
Definition pad0 (w : nat) (s : str) : str := replicate (w - length s) "0"%char ++ s.

(** An optional sign, then a run of digits, as [strtol] and its family scan
    them after leading whitespace. *)
Definition scan_sign (s : str) : bool * str :=
  match s with
  | c :: s' =>
      if Ascii.eqb c "-"%char then (true, s')
      else if Ascii.eqb c "+"%char then (false, s') else (false, s)
  | [] => (false, s)
  end.

Definition skip_ws (s : str) : str := snd (span isspace s).

(** [strtoull(s, nullptr, 10)]: 0 when there is no digit, [ULLONG_MAX] on
    overflow, and the negation modulo 2^64 after a minus sign. *)
Definition strtoull10 (s : str) : Z :=
  let '(neg, s1) := scan_sign (skip_ws s) in
  let v := dec_value (fst (span isdigit s1)) in
  if u64_max <? v then u64_max else if neg then u64 (- v) else v.

(** [strtoll(s, nullptr, 10)]: saturates at the bounds of 64-bit [long long]. *)
Definition strtoll10 (s : str) : Z :=
  let '(neg, s1) := scan_sign (skip_ws s) in
  let v := dec_value (fst (span isdigit s1)) in
  let v := if neg then - v else v in
  Z.max (- 2 ^ 63) (Z.min (2 ^ 63 - 1) v).

(** [atoi]: [strtol] converted to [int]. *)
Definition atoi (s : str) : Z := i32 (strtoll10 s).

(** [in >> x] for an unsigned 64-bit [x] that held [old]: the new value, the
    unread input, and the [fail] and [eof] bits set by this extraction. *)
Record extraction := { ex_val : Z; ex_rest : str; ex_fail : bool; ex_eof : bool }.

Definition extract_u64 (old : Z) (s : str) : extraction :=
  match skip_ws s with
  | [] => {| ex_val := old; ex_rest := []; ex_fail := true; ex_eof := true |}
  | s0 =>
      let '(neg, s1) := scan_sign s0 in
      let '(ds, r) := span isdigit s1 in
      let at_end := match r with [] => true | _ => false end in
      match ds with
      | [] => {| ex_val := 0; ex_rest := r; ex_fail := true; ex_eof := at_end |}
      | _ =>
          let v := dec_value ds in
          if u64_max <? v then
            {| ex_val := u64_max; ex_rest := r; ex_fail := true; ex_eof := at_end |}
          else
            {| ex_val := if neg then u64 (- v) else v; ex_rest := r;
               ex_fail := false; ex_eof := at_end |}
      end
  end.

(** ** Lemmas: characters *)

Lemma isdigit_iff c : isdigit c = true <-> 48 <= code c <= 57.
Proof. unfold isdigit. rewrite andb_true_iff, !Z.leb_le. lia. Qed.

Lemma isspace_code c : isspace c = true <-> code c = 32 \/ 9 <= code c <= 13.
Proof.
  unfold isspace. rewrite orb_true_iff, andb_true_iff, Z.eqb_eq, !Z.leb_le. lia.
Qed.

Lemma isdigit_not_space c : isdigit c = true -> isspace c = false.
Proof.
  rewrite isdigit_iff. intros H. apply not_true_iff_false.
  rewrite isspace_code. lia.
Qed.

Lemma tolower_code c :
  code (tolower c) = if (65 <=? code c) && (code c <=? 90) then code c + 32 else code c.
Proof.
  unfold tolower. split_ifs; [|done]. apply code_chr. lia.
Qed.

Lemma tolower_idemp c : tolower (tolower c) = tolower c.
Proof.
  apply code_inj. rewrite (tolower_code (tolower c)), !(tolower_code c).
  split_ifs; lia.
Qed.

Lemma isdigit_chr d : 0 <= d < 10 -> isdigit (chr (48 + d)) = true.
Proof. intros. apply isdigit_iff. rewrite code_chr; lia. Qed.

Lemma digit_val_chr d : 0 <= d < 10 -> digit_val (chr (48 + d)) = d.
Proof. intros. unfold digit_val. rewrite code_chr; lia. Qed.

(** ** Lemmas: searching *)

Lemma str_eqb_eq a b : str_eqb a b = true <-> a = b.
Proof. apply bool_decide_eq_true. Qed.

Lemma str_eqb_refl a : str_eqb a a = true.
Proof. by apply str_eqb_eq. Qed.

Lemma str_eqb_neq a b : str_eqb a b = false <-> a <> b.
Proof. apply bool_decide_eq_false. Qed.

Lemma str_ltb_irrefl a : str_ltb a a = false.
Proof. induction a as [|x a IH]; simpl; [done|]. by rewrite Z.ltb_irrefl. Qed.

Lemma str_ltb_trans a b c : str_ltb a b = true -> str_ltb b c = true -> str_ltb a c = true.
Proof.
  revert b c. induction a as [|x a IH]; intros [|y b] [|z c]; simpl; try done.
  destruct (Z.ltb_spec (code x) (code y)), (Z.ltb_spec (code y) (code z)),
    (Z.ltb_spec (code x) (code z)), (Z.ltb_spec (code y) (code x)),
    (Z.ltb_spec (code z) (code y)), (Z.ltb_spec (code z) (code x));
    try lia; try done. apply IH.
Qed.

Lemma str_ltb_total a b : str_ltb a b = false -> str_ltb b a = false -> a = b.
Proof.
  revert b. induction a as [|x a IH]; intros [|y b]; simpl; try done.
  destruct (Z.ltb_spec (code x) (code y)), (Z.ltb_spec (code y) (code x)); try done.
  intros. f_equal; [apply code_inj; lia|by apply IH].
Qed.

Lemma str_ltb_asym a b : str_ltb a b = true -> str_ltb b a = false.
Proof.
  intros H. destruct (str_ltb b a) eqn:E; [|done].
  pose proof (str_ltb_trans _ _ _ H E) as C. by rewrite str_ltb_irrefl in C.
Qed.

Lemma starts_with_app p s : starts_with p (p ++ s) = true.
Proof. induction p as [|x p IH]; simpl; [done|]. by rewrite Ascii.eqb_refl. Qed.

Lemma starts_with_iff p s : starts_with p s = true <-> exists r, s = p ++ r.
Proof.
  split; [|intros [r ->]; apply starts_with_app].
  revert s. induction p as [|x p IH]; intros s; [by exists s|].
  destruct s as [|y s]; simpl; [done|]. intros H. bools. subst y.
  destruct (IH s) as [r ->]; [done|]. by exists r.
Qed.

Lemma span_app P s : fst (span P s) ++ snd (span P s) = s.
Proof.
  induction s as [|x s IH]; simpl; [done|].
  destruct (P x); [|done]. destruct (span P s). simpl in *. by f_equal.
Qed.

Lemma span_all P a r :
  Forall (fun c => P c = true) a ->
  match r with [] => True | c :: _ => P c = false end ->
  span P (a ++ r) = (a, r).
Proof.
  intros Ha Hr. induction Ha as [|x a Hx _ IH]; simpl.
  - destruct r as [|c r]; simpl; [done|]. by rewrite Hr.
  - by rewrite Hx, IH.
Qed.

Lemma span_fst_Forall P s : Forall (fun c => P c = true) (fst (span P s)).
Proof.
  induction s as [|x s IH]; simpl; [done|].
  destruct (P x) eqn:E; [|done]. destruct (span P s); simpl in *. by constructor.
Qed.

Lemma span_snd_head P s c r : snd (span P s) = c :: r -> P c = false.
Proof.
  induction s as [|x s IH]; simpl; [done|].
  destruct (P x) eqn:E; [|by intros [= -> ->]]. destruct (span P s). done.
Qed.

Lemma span_snd_length P s : (length (snd (span P s)) <= length s)%nat.
Proof. rewrite <- (span_app P s) at 2. rewrite length_app. lia. Qed.

Lemma span_app_stop P a c r :
  P c = false ->
  span P (a ++ c :: r) = (fst (span P a), snd (span P a) ++ c :: r).
Proof.
  intros Hc. induction a as [|x a IH]; simpl; [by rewrite Hc|].
  destruct (P x); [|done]. rewrite IH. by destruct (span P a).
Qed.

Lemma find_first_Some P s i :
  find_first P s = Some i ->
  exists c, s !! i = Some c /\ P c = true /\ Forall (fun x => P x = false) (take i s).
Proof.
  revert i. induction s as [|x s IH]; intros i; simpl; [done|].
  destruct (P x) eqn:E.
  - intros [= <-]. exists x. done.
  - destruct (find_first P s) as [j|]; simpl; [|done]. intros [= <-].
    destruct (IH j) as (c & ? & ? & ?); [done|]. exists c. simpl. auto.
Qed.

Lemma find_first_None P s : find_first P s = None -> Forall (fun x => P x = false) s.
Proof.
  induction s as [|x s IH]; simpl; [done|].
  destruct (P x) eqn:E; [done|]. destruct (find_first P s); simpl; [done|]. auto.
Qed.

Lemma find_first_app P a c r :
  Forall (fun x => P x = false) a -> P c = true ->
  find_first P (a ++ c :: r) = Some (length a).
Proof.
  intros Ha Hc. induction Ha as [|x a Hx _ IH]; simpl; [by rewrite Hc|].
  by rewrite Hx, IH.
Qed.

Lemma find_first_all P a : Forall (fun x => P x = false) a -> find_first P a = None.
Proof. induction 1 as [|x a Hx _ IH]; simpl; [done|]. by rewrite Hx, IH. Qed.

Lemma find_last_app P a c r :
  P c = true -> Forall (fun x => P x = false) r ->
  find_last P (a ++ c :: r) = Some (length a).
Proof.
  intros Hc Hr. induction a as [|x a IH]; simpl; [|by rewrite IH].
  replace (find_last P r) with (@None nat); [by rewrite Hc|].
  induction Hr as [|y r Hy _ IH]; simpl; [done|]. rewrite <- IH. by rewrite Hy.
Qed.

(** ** Lemmas: decimal text *)

Lemma dec_value_snoc ds c : dec_value (ds ++ [c]) = dec_value ds * 10 + digit_val c.
Proof. unfold dec_value. by rewrite fold_left_app. Qed.

Lemma dec_value_from v ds :
  fold_left (fun v c => v * 10 + digit_val c) ds v
  = v * 10 ^ Z.of_nat (length ds) + dec_value ds.
Proof.
  revert v. induction ds as [|c ds IH] using rev_ind; intros v; [unfold dec_value; simpl; lia|].
  rewrite fold_left_app, dec_value_snoc, length_app. simpl. rewrite IH.
  rewrite Nat2Z.inj_add, Z.pow_add_r by lia. simpl. lia.
Qed.

Lemma dec_value_nonneg ds : Forall (fun c => isdigit c = true) ds -> 0 <= dec_value ds.
Proof.
  induction ds as [|c ds IH] using rev_ind; [done|].
  rewrite dec_value_snoc, Forall_app, Forall_singleton.
  intros [H1 H2]. apply isdigit_iff in H2. apply IH in H1. unfold digit_val. lia.
Qed.

Lemma dec_value_lt ds :
  Forall (fun c => isdigit c = true) ds -> dec_value ds < 10 ^ Z.of_nat (length ds).
Proof.
  induction ds as [|c ds IH] using rev_ind; [done|].
  rewrite dec_value_snoc, Forall_app, Forall_singleton, length_app.
  intros [H1 H2]. apply isdigit_iff in H2. apply IH in H1.
  rewrite Nat2Z.inj_add, Z.pow_add_r by lia. unfold digit_val. simpl. lia.
Qed.

Lemma to_digits_spec fuel n acc :
  0 <= n < 2 ^ Z.of_nat fuel ->
  exists ds, to_digits fuel n acc = ds ++ acc /\ Forall (fun c => isdigit c = true) ds /\
    dec_value ds = n /\ (fuel <> O -> ds <> []).
Proof.
  revert n acc. induction fuel as [|f IH]; intros n acc Hn.
  { exists []. simpl in *. repeat split; try done. cbn. lia. }
  pose proof (Z.mod_pos_bound n 10 ltac:(lia)) as Hm.
  simpl. split_ifs.
  - exists [chr (48 + n mod 10)]. repeat split; try done.
    + constructor; [by apply isdigit_chr|constructor].
    + unfold dec_value. cbn [fold_left]. rewrite digit_val_chr by done. rewrite Z.mod_small; lia.
  - destruct (IH (n / 10) (chr (48 + n mod 10) :: acc)) as (ds & E & Hd & Hv & Hne).
    { rewrite Nat2Z.inj_succ, Z.pow_succ_r in Hn by lia.
      split; [apply Z.div_pos; lia|]. apply Z.div_lt_upper_bound; lia. }
    exists (ds ++ [chr (48 + n mod 10)]). rewrite E, <- app_assoc. repeat split; try done.
    + apply Forall_app. split; [done|]. constructor; [by apply isdigit_chr|constructor].
    + rewrite dec_value_snoc, Hv, digit_val_chr by lia. pose proof (Z.div_mod n 10). lia.
    + intros _ C. apply app_nil in C as [_ C]. done.
Qed.

Lemma to_string_u_spec n :
  0 <= n ->
  Forall (fun c => isdigit c = true) (to_string_u n) /\
  dec_value (to_string_u n) = n /\ to_string_u n <> [].
Proof.
  intros Hn. unfold to_string_u.
  destruct (to_digits_spec (S (Z.to_nat (Z.log2 n))) n []) as (ds & E & Hd & Hv & Hne).
  - split; [done|]. destruct (decide (n = 0)) as [->|]; [simpl; lia|].
    rewrite Nat2Z.inj_succ, Z2Nat.id by apply Z.log2_nonneg.
    apply Z.log2_spec. lia.
  - rewrite E, app_nil_r. auto.
Qed.

Lemma to_digits_head fuel n acc :
  0 < n < 2 ^ Z.of_nat fuel -> exists c r, to_digits fuel n acc = c :: r /\ code c <> 48.
Proof.
  revert n acc. induction fuel as [|f IH]; intros n acc Hn; [simpl in Hn; lia|].
  pose proof (Z.mod_pos_bound n 10 ltac:(lia)) as Hm. simpl. split_ifs.
  - eexists _, _. split; [done|]. rewrite code_chr by lia. rewrite Z.mod_small; lia.
  - apply IH. rewrite Nat2Z.inj_succ, Z.pow_succ_r in Hn by lia.
    split; [apply Z.div_str_pos; lia|]. apply Z.div_lt_upper_bound; lia.
Qed.

(** No leading zero, but for zero itself. *)
Lemma to_string_u_head n :
  0 <= n -> (exists c r, to_string_u n = c :: r /\ code c <> 48) \/ to_string_u n = lit "0".
Proof.
  intros Hn. destruct (decide (n = 0)) as [->|]; [by right|]. left.
  apply to_digits_head. rewrite Nat2Z.inj_succ, Z2Nat.id by apply Z.log2_nonneg.
  split; [lia|]. apply Z.log2_spec. lia.
Qed.

Lemma dec_value_ge c ds :
  isdigit c = true -> code c <> 48 -> Forall (fun c => isdigit c = true) ds ->
  10 ^ Z.of_nat (length ds) <= dec_value (c :: ds).
Proof.
  intros Hc H0 Hd. change (c :: ds) with ([c] ++ ds). unfold dec_value. rewrite fold_left_app.
  cbn [fold_left]. rewrite dec_value_from by done. apply isdigit_iff in Hc.
  pose proof (dec_value_nonneg ds Hd). unfold digit_val. nia.
Qed.

Lemma to_string_u_length n k :
  0 <= n < 10 ^ Z.of_nat k -> (0 < k)%nat -> (length (to_string_u n) <= k)%nat.
Proof.
  intros Hn Hk. destruct (to_string_u_spec n) as (Hd & Hv & _); [lia|].
  destruct (to_string_u_head n) as [(c & r & E & Hc)|E]; [lia| |rewrite E; simpl; lia].
  rewrite E in *. apply Forall_cons_iff in Hd as [Hc' Hr]. pose proof (dec_value_ge c r Hc' Hc Hr).
  assert (10 ^ Z.of_nat (length r) < 10 ^ Z.of_nat k) as Hlt by lia.
  apply Z.pow_lt_mono_r_iff in Hlt; simpl; lia.
Qed.

Lemma to_string_nonneg n : 0 <= n -> to_string n = to_string_u n.
Proof. intros. unfold to_string. destruct (Z.ltb_spec n 0); [lia|done]. Qed.

Lemma to_string_inj_nonneg n m : 0 <= n -> 0 <= m -> to_string_u n = to_string_u m -> n = m.
Proof.
  intros Hn Hm E. destruct (to_string_u_spec n Hn) as (_ & <- & _).
  destruct (to_string_u_spec m Hm) as (_ & <- & _). by rewrite E.
Qed.

Lemma dec_value_zeros k ds : dec_value (replicate k "0"%char ++ ds) = dec_value ds.
Proof.
  induction k as [|k IH]; [done|]. rewrite <- IH. unfold dec_value. simpl. done.
Qed.

Lemma digits_skip_ws ds r :
  Forall (fun c => isdigit c = true) ds -> ds <> [] -> skip_ws (ds ++ r) = ds ++ r.
Proof.
  intros Hd Hne. destruct Hd as [|c ds Hc _]; [done|].
  unfold skip_ws. simpl. by rewrite (isdigit_not_space c Hc).
Qed.

Lemma digits_scan_sign ds r :
  Forall (fun c => isdigit c = true) ds -> ds <> [] -> scan_sign (ds ++ r) = (false, ds ++ r).
Proof.
  intros Hd Hne. destruct Hd as [|c ds Hc _]; [done|]. apply isdigit_iff in Hc.
  simpl. rewrite !eqb_code. change (code "-") with 45. change (code "+") with 43.
  destruct (Z.eqb_spec (code c) 45); [lia|]. destruct (Z.eqb_spec (code c) 43); [lia|done].
Qed.

(** A run of digits that ends where the digits end reads back as its value. *)
Lemma strtoull10_digits ds r :
  Forall (fun c => isdigit c = true) ds -> ds <> [] ->
  match r with [] => True | c :: _ => isdigit c = false end ->
  dec_value ds < 2 ^ 64 ->
  strtoull10 (ds ++ r) = dec_value ds.
Proof.
  intros Hd Hne Hr Hv. unfold strtoull10.
  rewrite digits_skip_ws, digits_scan_sign, span_all by done. cbn [fst].
  unfold u64_max. destruct (Z.ltb_spec (2 ^ 64 - 1) (dec_value ds)); [lia|done].
Qed.

Lemma strtoll10_to_string n : - 2 ^ 63 <= n < 2 ^ 63 -> strtoll10 (to_string n) = n.
Proof.
  intros Hn. unfold strtoll10, to_string. destruct (Z.ltb_spec n 0).
  - destruct (to_string_u_spec (- n)) as (Hd & Hv & Hne); [lia|].
    change (skip_ws ("-"%char :: to_string_u (- n))) with ("-"%char :: to_string_u (- n)). cbn [scan_sign].
    change (Ascii.eqb "-" "-") with true. cbn match. rewrite <- (app_nil_r (to_string_u _)), span_all by done.
    cbn [fst]. rewrite Hv. lia.
  - destruct (to_string_u_spec n) as (Hd & Hv & Hne); [lia|].
    rewrite <- (app_nil_r (to_string_u _)), digits_skip_ws, digits_scan_sign, span_all by done.
    cbn [fst]. rewrite Hv. lia.
Qed.

Lemma extract_u64_to_string old n c r :
  0 <= n < 2 ^ 64 -> isdigit c = false ->
  extract_u64 old (to_string n ++ c :: r)
  = {| ex_val := n; ex_rest := c :: r; ex_fail := false; ex_eof := false |}.
Proof.
  intros Hn Hc. rewrite to_string_nonneg by lia.
  destruct (to_string_u_spec n) as (Hd & Hv & Hne); [lia|].
  unfold extract_u64. rewrite digits_skip_ws by done.
  destruct (to_string_u n ++ c :: r) eqn:E; [by destruct (to_string_u n)|]. rewrite <- E.
  rewrite digits_scan_sign, span_all by done.
  destruct (to_string_u n) eqn:E2; [done|]. rewrite <- E2 in *. rewrite Hv. unfold u64_max.
  destruct (Z.ltb_spec (2 ^ 64 - 1) n); [lia|done].
Qed.

Lemma extract_u64_ws old w s : isspace w = true -> extract_u64 old (w :: s) = extract_u64 old s.
Proof.
  intros Hw. unfold extract_u64. replace (skip_ws (w :: s)) with (skip_ws s); [done|].
  unfold skip_ws. simpl. rewrite Hw. by destruct (span isspace s).
Qed.

(** ** Lemmas: lines *)

Lemma getlines_from_step d a cur st r :
  Forall (fun c => Ascii.eqb c d = false) a ->
  getlines_from d (a ++ d :: r) cur st = (cur ++ a) :: getlines d r.
Proof.
  intros Ha. revert cur st. induction Ha as [|c a Hc _ IH]; intros cur st; simpl.
  - by rewrite Ascii.eqb_refl, app_nil_r.
  - rewrite Hc, IH. by rewrite <- app_assoc.
Qed.

Lemma getlines_cons d a r :
  Forall (fun c => Ascii.eqb c d = false) a ->
  getlines d (a ++ d :: r) = a :: getlines d r.
Proof. apply getlines_from_step. Qed.

Lemma getlines_concat d (l : list str) :
  Forall (Forall (fun c => Ascii.eqb c d = false)) l -> getlines d (concat ((fun x => x ++ [d]) <$> l)) = l.
Proof.
  induction 1 as [|x l Hx _ IH]; [done|]. rewrite fmap_cons. cbn [concat].
  rewrite <- app_assoc. cbn [app]. by rewrite getlines_cons, IH.
Qed.

(** ** Words *)

Definition word (w : str) : Prop := w <> [] /\ Forall (fun c => isspace c = false) w.

Lemma words_from_app w r cur :
  Forall (fun c => isspace c = false) w -> words_from (w ++ r) cur = words_from r (cur ++ w).
Proof.
  intros H. revert cur. induction H as [|c w Hc _ IH]; intros cur; simpl; [by rewrite app_nil_r|].
  by rewrite Hc, IH, <- app_assoc.
Qed.

Lemma words_space_cons w c r :
  word w -> isspace c = true -> words (w ++ c :: r) = w :: words r.
Proof.
  intros [Hne Hw] Hc. unfold words. rewrite words_from_app by done. simpl. rewrite Hc.
  by destruct w.
Qed.

Lemma words_single w : word w -> words w = [w].
Proof.
  intros [Hne Hw]. unfold words. rewrite <- (app_nil_r w) at 1.
  rewrite words_from_app by done. by destruct w.
Qed.

Lemma words_from_Forall (P : byte -> Prop) s cur :
  Forall P s -> Forall P cur -> Forall (fun c => isspace c = false) cur ->
  Forall (fun w => word w /\ Forall P w) (words_from s cur).
Proof.
  intros H. revert cur. induction H as [|c s Hc _ IH]; intros cur Hp Hs; simpl.
  - destruct cur; [constructor|]. apply Forall_singleton. by repeat split.
  - destruct (isspace c) eqn:E.
    + destruct cur; [by apply IH|]. constructor; [by repeat split|by apply IH].
    + apply IH; apply Forall_app; split; repeat constructor; done.
Qed.

Lemma words_Forall (P : byte -> Prop) s :
  Forall P s -> Forall (fun w => word w /\ Forall P w) (words s).
Proof. intros H. by apply words_from_Forall. Qed.
