(* ===== verification/Vercmp.v ===== *)
(** * Version comparison (src/vercmp.cpp, include/ns/vercmp.hpp)

    [strip_epoch], [tokenize], [version_compare], [version_in_range] and
    [version_upstream_part], translated one for one.  A scan position of the
    source is the unread suffix here, and [unsigned long long] arithmetic is
    [u64].

    Shown: the comparison is reflexive and antisymmetric on all inputs, numeric
    on digit runs, dominated by the epoch, and transitive whenever no
    non-prerelease word sorts below a prerelease word; without that side
    condition transitivity fails, and a concrete cycle is given. *)
From S2P Require Import Prelude CppStd.
From Stdlib Require Import Ascii.

#[local] Open Scope Z_scope.

(** ** Definitions *)

Inductive Kind := Tilde | Alpha | Numeric.

Record Token := mkToken { kind : Kind; text : str; num : Z }.

#[global] Instance Kind_eq_dec : EqDecision Kind.
Proof. solve_decision. Defined.

#[global] Instance Token_eq_dec : EqDecision Token.
Proof. solve_decision. Defined.

Definition is_digit (c : byte) : bool := (48 <=? code c) && (code c <=? 57).
Definition is_alpha (c : byte) : bool :=
  ((97 <=? code c) && (code c <=? 122)) || ((65 <=? code c) && (code c <=? 90)).
Definition lower (c : byte) : byte := tolower c.

Definition kWords : list str :=
  lit <$> ["rc"; "alpha"; "beta"; "pre"; "dev"; "preview"; "snapshot"; "nightly"; "a1"].

Definition is_prerelease_word (s : str) : bool := existsb (str_eqb s) kWords.

(** The value of one digit run: leading zeros dropped, saturated past 18
    significant digits. *)
Definition digits_value (digits : str) : Z :=
  match find_first (fun c => negb (Ascii.eqb c "0"%char)) digits with
  | None => 0
  | Some first =>
      let trimmed := drop first digits in
      if (18 <? length trimmed)%nat then u64_max
      else fold_left (fun value d => u64 (value * 10 + digit_val d)) trimmed 0
  end.

(** The [while (i < v.size())] loop; every iteration consumes a byte, so the
    length of the input bounds the iterations. *)
Fixpoint tokenize_loop (fuel : nat) (v : str) : list Token :=
  match fuel, v with
  | S f, c :: r =>
      if Ascii.eqb c "~"%char then mkToken Tilde [] 0 :: tokenize_loop f r
      else if is_digit c then
        let '(digits, rest) := span is_digit v in
        mkToken Numeric [] (digits_value digits) :: tokenize_loop f rest
      else if is_alpha c then
        let '(w, rest) := span is_alpha v in
        mkToken Alpha (lower <$> w) 0 :: tokenize_loop f rest
      else tokenize_loop f r
  | _, _ => []
  end.

Definition tokenize (v : str) : list Token := tokenize_loop (length v) v.

Definition rank (k : Kind) : Z :=
  match k with Tilde => 0 | Alpha => 1 | Numeric => 2 end.

Definition cmp_token (a b : Token) : Z :=
  if bool_decide (kind a = kind b) then
    match kind a with
    | Tilde => 0
    | Alpha => if str_eqb (text a) (text b) then 0
               else if str_ltb (text a) (text b) then -1 else 1
    | Numeric => if num a =? num b then 0 else if num a <? num b then -1 else 1
    end
  else if rank (kind a) <? rank (kind b) then -1 else 1.

Definition cmp_remainder (rest : list Token) (from : nat) : Z :=
  match rest !! from with
  | None => 0
  | Some next =>
      if bool_decide (kind next = Tilde) then -1
      else if bool_decide (kind next = Alpha) && is_prerelease_word (text next) then -1
      else 1
  end.

(** The returned view and the [epoch] out-parameter. *)
Definition strip_epoch (v : str) : str * Z :=
  match find_char ":"%char v with
  | None => (v, 0)
  | Some colon =>
      let digits := take colon v in
      if forallb is_digit digits then
        (drop (S colon) v, fold_left (fun e d => u64 (e * 10 + digit_val d)) digits 0)
      else (v, 0)
  end.

(** [for (i = 0; i < n; ++i) if (const int c = cmp_token(ta[i], tb[i])) return c;] *)
Fixpoint cmp_common (ta tb : list Token) : Z :=
  match ta, tb with
  | x :: ta', y :: tb' =>
      let c := cmp_token x y in if c =? 0 then cmp_common ta' tb' else c
  | _, _ => 0
  end.

(** The comparison after the epochs: the common positions, then what is left. *)
Definition compare_tokens (ta tb : list Token) : Z :=
  let n := Nat.min (length ta) (length tb) in
  let c := cmp_common ta tb in
  if c =? 0 then
    if (n <? length ta)%nat then cmp_remainder ta n
    else if (n <? length tb)%nat then - cmp_remainder tb n
    else 0
  else c.

Definition version_compare (a b : str) : Z :=
  let '(a, epoch_a) := strip_epoch a in
  let '(b, epoch_b) := strip_epoch b in
  if epoch_a =? epoch_b then compare_tokens (tokenize a) (tokenize b)
  else if epoch_a <? epoch_b then -1 else 1.

Definition empty (s : str) : bool := match s with [] => true | _ => false end.

Definition version_in_range (v start_including start_excluding end_including end_excluding : str) : bool :=
  if negb (empty start_including) && (version_compare v start_including <? 0) then false
  else if negb (empty start_excluding) && (version_compare v start_excluding <=? 0) then false
  else if negb (empty end_including) && (0 <? version_compare v end_including) then false
  else if negb (empty end_excluding) && (0 <=? version_compare v end_excluding) then false
  else true.

Definition version_upstream_part (v : str) : str :=
  let v := fst (strip_epoch v) in
  let v := match rfind_char "-"%char v with Some dash => take dash v | None => v end in
  match find_char "+"%char v with Some plus => take plus v | None => v end.

(** ** Specification vocabulary *)

(** Which side of the end of the string a token sorts on: [-1] below it, [1]
    above. *)
Definition tail_sign (t : Token) : Z := cmp_remainder [t] 0.

(** No word that sorts above the end of the string is lexicographically below
    one that sorts under it. *)
Definition pair_ordered (x y : Token) : bool :=
  if (bool_decide (kind x = Alpha) && negb (is_prerelease_word (text x)))
     && (bool_decide (kind y = Alpha) && is_prerelease_word (text y))
  then str_ltb (text y) (text x) else true.

Definition version_tokens (v : str) : list Token := tokenize (fst (strip_epoch v)).

Definition words_ordered (vs : list str) : bool :=
  let ts := vs ≫= version_tokens in
  forallb (fun x => forallb (pair_ordered x) ts) ts.

Definition sign (z : Z) : Z := if z <? 0 then -1 else if 0 <? z then 1 else 0.

(** ** Lemmas: tokens *)

Ltac elem := rewrite ?elem_of_app, ?elem_of_cons; tauto.

Lemma cmp_token_refl a : cmp_token a a = 0.
Proof. unfold cmp_token. rewrite bool_decide_true by done.
  destruct (kind a); [done|by rewrite str_eqb_refl|by rewrite Z.eqb_refl]. Qed.

Lemma cmp_token_antisym a b : cmp_token b a = - cmp_token a b.
Proof.
  destruct a as [ka ta na], b as [kb tb nb]. unfold cmp_token. simpl.
  destruct ka, kb; simpl; try done.
  - unfold str_eqb. repeat case_bool_decide; simplify_eq; try done.
    destruct (str_ltb tb ta) eqn:E1, (str_ltb ta tb) eqn:E2; try done.
    + by rewrite (str_ltb_asym _ _ E1) in E2.
    + by pose proof (str_ltb_total tb ta E1 E2).
  - split_ifs; lia.
Qed.

(** Equal tokens are interchangeable, on either side of a comparison. *)
Lemma cmp_token_eq a b :
  cmp_token a b = 0 -> (forall c, cmp_token a c = cmp_token b c) /\ tail_sign a = tail_sign b.
Proof.
  destruct a as [ka ta na], b as [kb tb nb]. unfold cmp_token, tail_sign, cmp_remainder. simpl.
  destruct ka, kb; simpl; try done.
  - unfold str_eqb. case_bool_decide; [by subst|]. by destruct (str_ltb ta tb).
  - destruct (Z.eqb_spec na nb); [by subst|]. by destruct (na <? nb).
Qed.

Lemma cmp_token_trans a b c :
  cmp_token a b = -1 -> cmp_token b c = -1 -> cmp_token a c = -1.
Proof.
  destruct a as [ka ta na], b as [kb tb nb], c as [kc tc nc]. unfold cmp_token. simpl.
  destruct ka, kb, kc; simpl; try done; unfold str_eqb.
  - repeat case_bool_decide; simplify_eq; try done.
    + destruct (str_ltb tc tb) eqn:E1; [|done]. destruct (str_ltb tb tc) eqn:E2; [|done].
      by rewrite (str_ltb_asym _ _ E1) in E2.
    + destruct (str_ltb ta tb) eqn:E1; [|done]. destruct (str_ltb tb tc) eqn:E2; [|done].
      by rewrite (str_ltb_trans _ _ _ E1 E2).
  - split_ifs; lia.
Qed.

Lemma cmp_token_range a b : cmp_token a b = -1 \/ cmp_token a b = 0 \/ cmp_token a b = 1.
Proof.
  unfold cmp_token. repeat case_match; auto.
Qed.

Lemma tail_sign_range t : tail_sign t = -1 \/ tail_sign t = 1.
Proof. unfold tail_sign, cmp_remainder. simpl. repeat case_match; auto. Qed.

(** ** Lemmas: token lists *)

Lemma compare_tokens_cons x a y b :
  compare_tokens (x :: a) (y :: b)
  = if cmp_token x y =? 0 then compare_tokens a b else cmp_token x y.
Proof.
  unfold compare_tokens. simpl. destruct (cmp_token x y =? 0) eqn:E; [|by rewrite E].
  done.
Qed.

Lemma compare_tokens_nil_r x a : compare_tokens (x :: a) [] = tail_sign x.
Proof. done. Qed.

Lemma compare_tokens_nil_l y b : compare_tokens [] (y :: b) = - tail_sign y.
Proof. done. Qed.

Lemma compare_tokens_refl a : compare_tokens a a = 0.
Proof. induction a as [|x a IH]; [done|]. by rewrite compare_tokens_cons, cmp_token_refl. Qed.

Lemma compare_tokens_antisym a b : compare_tokens b a = - compare_tokens a b.
Proof.
  revert b. induction a as [|x a IH]; intros [|y b]; try done.
  - rewrite compare_tokens_nil_l, compare_tokens_nil_r. lia.
  - rewrite !compare_tokens_cons, (cmp_token_antisym x y).
    destruct (Z.eqb_spec (cmp_token x y) 0), (Z.eqb_spec (- cmp_token x y) 0); try lia. apply IH.
Qed.

Lemma compare_tokens_range a b :
  compare_tokens a b = -1 \/ compare_tokens a b = 0 \/ compare_tokens a b = 1.
Proof.
  revert b. induction a as [|x a IH]; intros [|y b]; [auto| | |].
  - rewrite compare_tokens_nil_l. destruct (tail_sign_range y); lia.
  - rewrite compare_tokens_nil_r. destruct (tail_sign_range x); lia.
  - rewrite compare_tokens_cons. destruct (cmp_token x y =? 0); [apply IH|apply cmp_token_range].
Qed.

Lemma compare_tokens_app p a b : compare_tokens (p ++ a) (p ++ b) = compare_tokens a b.
Proof.
  induction p as [|x p IH]; [done|]. simpl. by rewrite compare_tokens_cons, cmp_token_refl.
Qed.

(** Tokens on opposite sides of the end are ordered accordingly. *)
Definition end_ordered (x y : Token) : Prop :=
  tail_sign x = 1 -> tail_sign y = -1 -> cmp_token y x = -1.

Lemma pair_ordered_end x y : pair_ordered x y = true -> end_ordered x y.
Proof.
  destruct x as [kx tx nx], y as [ky ty ny].
  unfold pair_ordered, end_ordered, tail_sign, cmp_remainder, cmp_token. simpl.
  destruct kx, ky; simpl; try done.
  destruct (is_prerelease_word tx) eqn:Ex, (is_prerelease_word ty) eqn:Ey; simpl; try done.
  intros Hlt _ _. rewrite Hlt. case_match; [|done].
  apply str_eqb_eq in H. by rewrite H, str_ltb_irrefl in Hlt.
Qed.

Lemma compare_tokens_trans a b c :
  (forall x y, x ∈ a ++ b ++ c -> y ∈ a ++ b ++ c -> end_ordered x y) ->
  compare_tokens a b <= 0 -> compare_tokens b c <= 0 -> compare_tokens a c <= 0.
Proof.
  revert b c. induction a as [|x a IH]; intros [|y b] [|z c] Hord; try done;
    rewrite ?compare_tokens_nil_l, ?compare_tokens_nil_r; intros H1 H2; try lia.
  - (* [] , y, z *)
    rewrite compare_tokens_cons in H2. destruct (Z.eqb_spec (cmp_token y z) 0) as [E|E].
    + destruct (cmp_token_eq _ _ E) as [_ Et]. lia.
    + destruct (tail_sign_range y), (tail_sign_range z); try lia.
      pose proof (Hord y z ltac:(elem) ltac:(elem)) as Ho. unfold end_ordered in Ho.
      rewrite cmp_token_antisym in Ho. destruct (cmp_token_range y z) as [?|[?|?]]; lia.
  - (* x, [], z *)
    rewrite compare_tokens_cons.
    destruct (tail_sign_range x), (tail_sign_range z); try lia.
    pose proof (Hord z x ltac:(elem) ltac:(elem)) as Ho. unfold end_ordered in Ho.
    rewrite Ho by lia. simpl. lia.
  - (* x, y, [] *)
    rewrite compare_tokens_cons in H1. destruct (Z.eqb_spec (cmp_token x y) 0) as [E|E].
    + destruct (cmp_token_eq _ _ E) as [_ Et]. lia.
    + destruct (tail_sign_range x), (tail_sign_range y); try lia.
      pose proof (Hord x y ltac:(elem) ltac:(elem)) as Ho. unfold end_ordered in Ho.
      rewrite cmp_token_antisym in Ho. destruct (cmp_token_range x y) as [?|[?|?]]; lia.
  - (* x, y, z *)
    rewrite compare_tokens_cons in *.
    destruct (Z.eqb_spec (cmp_token x y) 0) as [Exy|Exy].
    + destruct (cmp_token_eq _ _ Exy) as [Eq _]. rewrite Eq.
      destruct (Z.eqb_spec (cmp_token y z) 0); [|done].
      apply IH with b; try done. intros x' y' Hx Hy. apply Hord;
        rewrite ?elem_of_app, ?elem_of_cons in *; tauto.
    + destruct (Z.eqb_spec (cmp_token y z) 0) as [Eyz|Eyz].
      * destruct (cmp_token_eq _ _ Eyz) as [Eq _]. rewrite (cmp_token_antisym z x), <- Eq.
        rewrite <- cmp_token_antisym. by destruct (Z.eqb_spec (cmp_token x y) 0).
      * destruct (cmp_token_range x y) as [Hx|[?|?]]; try lia.
        destruct (cmp_token_range y z) as [Hy|[?|?]]; try lia.
        rewrite (cmp_token_trans _ _ _ Hx Hy). simpl. lia.
Qed.

(** ** Lemmas: the tokenizer *)

Lemma is_digit_isdigit c : is_digit c = isdigit c.
Proof. done. Qed.

Lemma tokenize_loop_fuel f1 f2 v :
  (length v <= f1)%nat -> (length v <= f2)%nat -> tokenize_loop f1 v = tokenize_loop f2 v.
Proof.
  revert f2 v. induction f1 as [|f1 IH]; intros [|f2] [|c r] H1 H2; simpl in H1, H2; try done; try lia.
  simpl. pose proof (span_snd_length is_digit r). pose proof (span_snd_length is_alpha r).
  destruct (Ascii.eqb c "~"); [f_equal; apply IH; lia|].
  destruct (is_digit c).
  { destruct (span is_digit r); simpl in *. f_equal. apply IH; lia. }
  destruct (is_alpha c); [|apply IH; lia].
  destruct (span is_alpha r); simpl in *. f_equal. apply IH; lia.
Qed.

(** The loop unrolled once, without the fuel. *)
Lemma tokenize_cons c r :
  tokenize (c :: r)
  = if Ascii.eqb c "~"%char then mkToken Tilde [] 0 :: tokenize r
    else if is_digit c then
      mkToken Numeric [] (digits_value (c :: fst (span is_digit r)))
        :: tokenize (snd (span is_digit r))
    else if is_alpha c then
      mkToken Alpha (lower <$> (c :: fst (span is_alpha r))) 0
        :: tokenize (snd (span is_alpha r))
    else tokenize r.
Proof.
  unfold tokenize at 1. simpl.
  pose proof (span_snd_length is_digit r). pose proof (span_snd_length is_alpha r).
  destruct (Ascii.eqb c "~"); [done|].
  destruct (is_digit c).
  { destruct (span is_digit r); simpl in *. f_equal. apply tokenize_loop_fuel; lia. }
  destruct (is_alpha c); [|done].
  destruct (span is_alpha r); simpl in *. f_equal. apply tokenize_loop_fuel; lia.
Qed.

Definition is_separator (c : byte) : bool :=
  negb (Ascii.eqb c "~"%char) && negb (is_digit c) && negb (is_alpha c).

(** A separator cuts the token list. *)
Lemma tokenize_app p c s :
  is_separator c = true -> tokenize (p ++ c :: s) = tokenize p ++ tokenize s.
Proof.
  intros Hc. remember (length p) as n eqn:En. revert p En.
  induction n as [n IH] using (well_founded_induction lt_wf). intros p ->.
  apply andb_true_iff in Hc as [[Ht Hd]%andb_true_iff Ha]. apply negb_true_iff in Ht, Hd, Ha.
  destruct p as [|x p]; simpl.
  { by rewrite tokenize_cons, Ht, Hd, Ha. }
  rewrite !tokenize_cons, !span_app_stop by done. simpl.
  pose proof (span_snd_length is_digit p). pose proof (span_snd_length is_alpha p).
  destruct (Ascii.eqb x "~"), (is_digit x), (is_alpha x); simpl; try f_equal; (eapply IH; [|done]); simpl; lia.
Qed.

Lemma tokenize_digits ds :
  Forall (fun c => isdigit c = true) ds -> ds <> [] ->
  tokenize ds = [mkToken Numeric [] (digits_value ds)].
Proof.
  intros Hd Hne. destruct Hd as [|c ds Hc Hd]; [done|]. rewrite tokenize_cons.
  pose proof (span_all is_digit ds [] Hd I) as E. rewrite app_nil_r in E. rewrite E.
  rewrite is_digit_isdigit, Hc. simpl. apply isdigit_iff in Hc. rewrite eqb_code.
  destruct (Z.eqb_spec (code c) (code "~")) as [E2|]; [|done].
  change (code "~") with 126 in E2. lia.
Qed.

(** ** Lemmas: numbers *)

Lemma fold_u64_dec ds :
  Forall (fun c => isdigit c = true) ds ->
  fold_left (fun v d => u64 (v * 10 + digit_val d)) ds 0 = u64 (dec_value ds).
Proof.
  induction ds as [|c ds IH] using rev_ind; [done|].
  rewrite Forall_app. intros [Hd _]. rewrite fold_left_app. simpl. rewrite IH by done.
  rewrite dec_value_snoc. unfold u64.
  rewrite Zplus_mod, Zmult_mod_idemp_l, <- Zplus_mod. done.
Qed.

Lemma dec_value_ge_pow c ds :
  Forall (fun c => isdigit c = true) (c :: ds) -> c <> "0"%char ->
  10 ^ Z.of_nat (length ds) <= dec_value (c :: ds).
Proof.
  intros Hd Hne. inv Hd. unfold dec_value. simpl. rewrite dec_value_from.
  pose proof (dec_value_nonneg ds ltac:(done)).
  assert (1 <= digit_val c).
  { apply isdigit_iff in H1. unfold digit_val.
    destruct (decide (code c = 48)) as [E|]; [|lia].
    exfalso. apply Hne, code_inj. done. }
  assert (0 < 10 ^ Z.of_nat (length ds)) by (apply Z.pow_pos_nonneg; lia). nia.
Qed.

Lemma digits_value_spec ds :
  Forall (fun c => isdigit c = true) ds ->
  digits_value ds = if dec_value ds <? 10 ^ 18 then dec_value ds else u64_max.
Proof.
  intros Hd. unfold digits_value.
  destruct (find_first _ ds) as [first|] eqn:E.
  - apply find_first_Some in E as (c & Ec & Hc & Hlt).
    assert (ds = replicate first "0"%char ++ drop first ds) as Eds.
    { rewrite <- (take_drop first ds) at 1. f_equal. symmetry. apply replicate_as_Forall_2.
      - rewrite length_take. apply lookup_lt_Some in Ec. lia.
      - eapply Forall_impl; [exact Hlt|]. simpl. intros x Hx.
        apply negb_false_iff, Ascii.eqb_eq in Hx. done. }
    set (trimmed := drop first ds) in *.
    assert (Forall (fun c => isdigit c = true) trimmed) as Ht by by apply Forall_drop.
    assert (trimmed = c :: drop (S first) ds) as Etr by by apply drop_S.
    rewrite Eds, dec_value_zeros. clear Eds. rewrite negb_true_iff, Ascii.eqb_neq in Hc.
    rewrite Etr in *. pose proof (dec_value_ge_pow _ _ Ht Hc) as Hge.
    pose proof (dec_value_lt _ Ht) as Hub. simpl length in *.
    destruct (Nat.ltb_spec 18 (S (length (drop (S first) ds)))) as [Hl|Hl].
    + assert (10 ^ 18 <= 10 ^ Z.of_nat (length (drop (S first) ds)))
        by (apply Z.pow_le_mono_r; lia).
      destruct (Z.ltb_spec (dec_value (c :: drop (S first) ds)) (10 ^ 18)); [lia|done].
    + rewrite fold_u64_dec by done.
      assert (10 ^ Z.of_nat (S (length (drop (S first) ds))) <= 10 ^ 18)
        by (apply Z.pow_le_mono_r; lia).
      pose proof (dec_value_nonneg _ Ht).
      destruct (Z.ltb_spec (dec_value (c :: drop (S first) ds)) (10 ^ 18)); [|lia].
      apply u64_small. lia.
  - assert (dec_value ds = 0) as ->; [|done].
    apply find_first_None in E.
    assert (ds = replicate (length ds) "0"%char) as ->.
    { symmetry. apply replicate_as_Forall_2; [done|]. eapply Forall_impl; [exact E|].
      simpl. intros x Hx. apply negb_false_iff, Ascii.eqb_eq in Hx. done. }
    rewrite <- (app_nil_r (replicate _ _)). rewrite dec_value_zeros. done.
Qed.

(** ** Lemmas: epochs *)

Definition no_byte (c : byte) (s : str) : Prop := Forall (fun x => Ascii.eqb c x = false) s.

Lemma no_byte_app c s t : no_byte c (s ++ t) <-> no_byte c s /\ no_byte c t.
Proof. apply Forall_app. Qed.

Lemma no_byte_cons c x s : no_byte c (x :: s) <-> Ascii.eqb c x = false /\ no_byte c s.
Proof. apply Forall_cons_iff. Qed.

Lemma digits_no_byte c ds :
  isdigit c = false -> Forall (fun c => isdigit c = true) ds -> no_byte c ds.
Proof.
  intros Hc Hd. eapply Forall_impl; [exact Hd|]. intros x Hx. apply Ascii.eqb_neq. intros <-. congruence.
Qed.

Lemma strip_epoch_none v : no_byte ":"%char v -> strip_epoch v = (v, 0).
Proof. intros H. unfold strip_epoch, find_char. by rewrite find_first_all. Qed.

Lemma strip_epoch_digits e v :
  Forall (fun c => isdigit c = true) e ->
  strip_epoch (e ++ ":"%char :: v) = (v, u64 (dec_value e)).
Proof.
  intros He. unfold strip_epoch, find_char.
  rewrite find_first_app; [|by apply digits_no_byte|done].
  rewrite take_app_length. rewrite (proj2 (forallb_forall _ _)).
  2:{ intros x Hx. rewrite Forall_forall in He. apply He. by apply list_elem_of_In. }
  rewrite fold_u64_dec by done. f_equal.
  rewrite (cons_middle ":"%char), app_assoc.
  replace (S (length e)) with (length (e ++ [":"%char])) by (rewrite length_app; simpl; lia).
  apply drop_app_length.
Qed.

Lemma version_compare_range a b :
  version_compare a b = -1 \/ version_compare a b = 0 \/ version_compare a b = 1.
Proof.
  unfold version_compare. destruct (strip_epoch a) as [va ea], (strip_epoch b) as [vb eb].
  split_ifs; auto. apply compare_tokens_range.
Qed.

Lemma compare_opp a b : version_compare b a = - version_compare a b.
Proof.
  unfold version_compare. destruct (strip_epoch a) as [va ea], (strip_epoch b) as [vb eb].
  destruct (Z.eqb_spec ea eb), (Z.eqb_spec eb ea); try lia.
  - apply compare_tokens_antisym.
  - split_ifs; lia.
Qed.

Lemma compare_self a : version_compare a a = 0.
Proof. pose proof (compare_opp a a). lia. Qed.

Lemma words_ordered_end vs x y :
  words_ordered vs = true ->
  x ∈ vs ≫= version_tokens -> y ∈ vs ≫= version_tokens -> end_ordered x y.
Proof.
  unfold words_ordered. rewrite forallb_forall. setoid_rewrite forallb_forall.
  intros H Hx Hy. apply pair_ordered_end. apply H; by apply list_elem_of_In.
Qed.

(** The order on the versions of one list whose words are ordered. *)
Lemma compare_trans_in vs a b c :
  words_ordered vs = true -> a ∈ vs -> b ∈ vs -> c ∈ vs ->
  version_compare a b <= 0 -> version_compare b c <= 0 -> version_compare a c <= 0.
Proof.
  intros Hw Ha Hb Hc. unfold version_compare.
  destruct (strip_epoch a) as [va ea] eqn:Ea, (strip_epoch b) as [vb eb] eqn:Eb,
    (strip_epoch c) as [vc ec] eqn:Ec.
  zcases; intros; subst; try lia.
  eapply compare_tokens_trans; [|done..]. intros x y Hx Hy.
  eapply words_ordered_end; [done| |]; apply list_elem_of_bind;
    rewrite !elem_of_app in *; unfold version_tokens;
    [destruct Hx as [?|[?|?]]|destruct Hy as [?|[?|?]]];
    first [by exists a; rewrite Ea | by exists b; rewrite Eb | by exists c; rewrite Ec].
Qed.

(** ** Properties *)

(** Comparing in the other order negates the answer, so no pair of versions
    is ordered both ways, and the answer is always -1, 0 or 1. *)
Theorem version_compare_antisym a b :
  version_compare b a = - version_compare a b /\ -1 <= version_compare a b <= 1.
Proof. split; [apply compare_opp|]. destruct (version_compare_range a b); lia. Qed.

(** C31: the comparison is transitive on any three versions in which every
    ordinary word sorts above every prerelease word. *)
Theorem version_compare_trans a b c :
  words_ordered [a; b; c] = true ->
  version_compare a b <= 0 -> version_compare b c <= 0 -> version_compare a c <= 0.
Proof. intros H. eapply compare_trans_in; [done|set_solver..]. Qed.

Lemma version_compare_trans_witness :
  version_compare (lit "1.0~rc1") (lit "1.10") <= 0.
Proof.
  apply (version_compare_trans (lit "1.0~rc1") (lit "1.0") (lit "1.10"));
    vm_compute; congruence.
Defined.

(** Without that condition it is not: 1.0a sorts below 1.0rc, 1.0rc below
    1.0, and 1.0 below 1.0a. *)
Theorem version_compare_cycle :
  version_compare (lit "1.0a") (lit "1.0rc") = -1 /\
  version_compare (lit "1.0rc") (lit "1.0") = -1 /\
  version_compare (lit "1.0") (lit "1.0a") = -1.
Proof. vm_compute. auto. Qed.

(** Two versions that differ only in their last numeric component are
    ordered by its value (1.10 is above 1.9), up to 18 significant digits. *)
Theorem version_compare_numeric p c d1 d2
    (Hc : is_separator c = true) (Hp : no_byte ":"%char (p ++ [c]))
    (H1 : Forall (fun c => isdigit c = true) d1) (N1 : d1 <> []) (B1 : dec_value d1 < 10 ^ 18)
    (H2 : Forall (fun c => isdigit c = true) d2) (N2 : d2 <> []) (B2 : dec_value d2 < 10 ^ 18) :
  version_compare (p ++ c :: d1) (p ++ c :: d2) = sign (dec_value d1 - dec_value d2).
Proof.
  apply no_byte_app in Hp as [Hp [Hc' _]%no_byte_cons].
  unfold version_compare.
  rewrite !strip_epoch_none by (rewrite no_byte_app, no_byte_cons; eauto using digits_no_byte).
  cbn [Z.eqb]. rewrite !tokenize_app, compare_tokens_app, !tokenize_digits by done.
  rewrite compare_tokens_cons. unfold cmp_token. cbn [kind num].
  rewrite !digits_value_spec by done.
  destruct (Z.ltb_spec (dec_value d1) (10 ^ 18)), (Z.ltb_spec (dec_value d2) (10 ^ 18)); try lia.
  rewrite bool_decide_true by done. unfold sign.
  destruct (Z.eqb_spec (dec_value d1) (dec_value d2)) as [->|].
  - by rewrite Z.sub_diag.
  - zcases; lia.
Qed.

Lemma version_compare_numeric_witness :
  version_compare (lit "1.10") (lit "1.9") = 1.
Proof.
  apply (version_compare_numeric (lit "1") "."%char (lit "10") (lit "9"));
    try reflexivity; try discriminate; repeat constructor.
Defined.

(** An epoch dominates whatever follows it. *)
Theorem version_compare_epoch e1 e2 a b
    (H1 : Forall (fun c => isdigit c = true) e1) (B1 : dec_value e1 < 2 ^ 64)
    (H2 : Forall (fun c => isdigit c = true) e2) (B2 : dec_value e2 < 2 ^ 64)
    (Hne : dec_value e1 <> dec_value e2) :
  version_compare (e1 ++ ":"%char :: a) (e2 ++ ":"%char :: b)
  = sign (dec_value e1 - dec_value e2).
Proof.
  unfold version_compare. rewrite !strip_epoch_digits by done.
  pose proof (dec_value_nonneg _ H1). pose proof (dec_value_nonneg _ H2).
  rewrite !u64_small by lia. unfold sign.
  destruct (Z.eqb_spec (dec_value e1) (dec_value e2)); [done|]. split_ifs; lia.
Qed.

Lemma version_compare_epoch_witness :
  version_compare (lit "1:99.0") (lit "2:0.1") = -1.
Proof.
  apply (version_compare_epoch (lit "1") (lit "2") (lit "99.0") (lit "0.1"));
    try (vm_compute; congruence); repeat constructor.
Defined.

(** Splitting a half-open range at a version inside it loses and gains
    nothing: a version is in [lo, hi) exactly when it is in [lo, mid) or in
    [mid, hi), and never in both. *)
Theorem version_in_range_split v lo mid hi
    (Hw : words_ordered [v; lo; mid; hi] = true)
    (Hlo : lo <> []) (Hmid : mid <> []) (Hhi : hi <> [])
    (H1 : version_compare lo mid <= 0) (H2 : version_compare mid hi <= 0) :
  version_in_range v lo [] [] hi
    = xorb (version_in_range v lo [] [] mid) (version_in_range v mid [] [] hi) /\
  (version_in_range v lo [] [] mid && version_in_range v mid [] [] hi)%bool = false.
Proof.
  pose proof (fun a b c => compare_trans_in _ a b c Hw) as T.
  pose proof (T lo mid v ltac:(set_solver) ltac:(set_solver) ltac:(set_solver) H1) as T1.
  pose proof (T v mid hi ltac:(set_solver) ltac:(set_solver) ltac:(set_solver)) as T2.
  pose proof (T mid hi v ltac:(set_solver) ltac:(set_solver) ltac:(set_solver) H2) as T3.
  rewrite (compare_opp v lo), (compare_opp v mid) in T1.
  rewrite (compare_opp v hi), (compare_opp v mid) in T3.
  specialize (fun H => T2 H H2).
  unfold version_in_range. destruct lo, mid, hi; try done. simpl.
  split_ifs; simpl; split; try done; lia.
Qed.

Lemma version_in_range_split_witness :
  version_in_range (lit "1.1.1f") (lit "1.1.1") [] [] (lit "1.1.1t") = true /\
  (version_in_range (lit "1.1.1f") (lit "1.1.1") [] [] (lit "1.1.1f")
   && version_in_range (lit "1.1.1f") (lit "1.1.1f") [] [] (lit "1.1.1t"))%bool = false.
Proof.
  split; [vm_compute; reflexivity|].
  apply (version_in_range_split (lit "1.1.1f") (lit "1.1.1") (lit "1.1.1f") (lit "1.1.1t"));
    vm_compute; congruence.
Defined.

(** The packaging of a distribution version is removed: the epoch, the
    revision after the last dash, and a "+" suffix of the upstream part. *)
Theorem version_upstream_part_strips e u plus r
    (He : Forall (fun c => isdigit c = true) e) (Hu : no_byte "+"%char u)
    (Hr : no_byte "-"%char r) :
  version_upstream_part (e ++ ":"%char :: u ++ "-"%char :: r) = u /\
  version_upstream_part (e ++ ":"%char :: u ++ "+"%char :: plus ++ "-"%char :: r) = u.
Proof.
  assert (forall w, fst (strip_epoch (e ++ ":"%char :: w)) = w) as Hs
    by (intros w; by rewrite strip_epoch_digits).
  unfold version_upstream_part, rfind_char, find_char. split; rewrite Hs.
  - rewrite find_last_app by done. rewrite take_app_length. by rewrite find_first_all.
  - rewrite (app_comm_cons plus), app_assoc, find_last_app by done.
    by rewrite take_app_length, find_first_app, take_app_length.
Qed.

Lemma version_upstream_part_strips_witness :
  version_upstream_part (lit "1:2.4.52-1ubuntu2") = lit "2.4.52".
Proof.
  apply (version_upstream_part_strips (lit "1") (lit "2.4.52") [] (lit "1ubuntu2"));
    repeat constructor.
Defined.
