(* ===== verification/Double.v ===== *)
(** * IEEE binary64

    [double] is the executable [spec_float] of the standard library at
    precision 53 and exponent bound 1024.  Comparisons are IEEE comparisons
    (false on a NaN), [strtod] rounds the exact decimal or hexadecimal value to
    nearest-even, and [format1] is printf's ["%.1f"]. *)
From S2P Require Import Prelude CppStd.
From Stdlib Require Import Ascii.
From Stdlib Require Import SpecFloat.

#[local] Open Scope Z_scope.

Abbreviation double := spec_float.

Definition d_zero : double := S754_zero false.
Definition d_lt (a b : double) : bool := SFltb a b.
Definition d_le (a b : double) : bool := SFleb a b.
Definition d_eqb (a b : double) : bool := SFeqb a b.
Definition is_nan (a : double) : bool := match a with S754_nan => true | _ => false end.

(** ** Text to double *)

(** The double nearest to [m * 10^e10], [m >= 0], with the given sign. *)
Definition of_decimal (neg : bool) (m e10 : Z) : double :=
  match m with
  | Zpos p =>
      if 0 <=? e10 then
        match m * 10 ^ e10 with
        | Zpos q => binary_round 53 1024 neg q 0
        | _ => S754_zero neg
        end
      else
        match 10 ^ (- e10) with
        | Zpos q => SFdiv 53 1024 (S754_finite neg p 0) (S754_finite false q 0)
        | _ => S754_zero neg
        end
  | _ => S754_zero neg
  end.

(** The double nearest to [m * 2^e2]. *)
Definition of_binary (neg : bool) (m e2 : Z) : double :=
  match m with
  | Zpos p => binary_round 53 1024 neg p e2
  | _ => S754_zero neg
  end.

Definition hex_digit (c : byte) : option Z :=
  let z := code c in
  if (48 <=? z) && (z <=? 57) then Some (z - 48)
  else if (97 <=? z) && (z <=? 102) then Some (z - 87)
  else if (65 <=? z) && (z <=? 70) then Some (z - 55)
  else None.

Definition is_hex (c : byte) : bool := bool_decide (is_Some (hex_digit c)).

Definition hex_value (ds : str) : Z :=
  fold_left (fun v c => v * 16 + default 0 (hex_digit c)) ds 0.

(** An exponent part [e+12] or [p-3]; 0 when it is absent or has no digit. *)
Definition scan_exponent (marks s : str) : Z :=
  match s with
  | c :: s' =>
      if elem_of_set marks c then
        let '(neg, r) := scan_sign s' in
        let v := dec_value (fst (span isdigit r)) in
        if neg then - v else v
      else 0
  | [] => 0
  end.

(** A mantissa with an optional fraction: the integer digits, the fraction
    digits, and the rest. *)
Definition scan_mantissa (P : byte -> bool) (s : str) : str * str * str :=
  let '(ip, r) := span P s in
  match r with
  | c :: r' =>
      if Ascii.eqb c "."%char then let '(fp, r'') := span P r' in (ip, fp, r'') else (ip, [], r)
  | [] => (ip, [], r)
  end.

Definition strtod (s : str) : double :=
  let '(neg, s) := scan_sign (skip_ws s) in
  let l := tolower <$> s in
  if starts_with (lit "nan") l then S754_nan
  else if starts_with (lit "inf") l then S754_infinity neg
  else
    let '(hip, hfp, hr) := scan_mantissa is_hex (drop 2 s) in
    if starts_with (lit "0x") l && negb (bool_decide (hip ++ hfp = [])) then
      of_binary neg (hex_value (hip ++ hfp))
        (scan_exponent (lit "pP") hr - 4 * Z.of_nat (length hfp))
    else
      let '(ip, fp, r) := scan_mantissa isdigit s in
      if bool_decide (ip ++ fp = []) then d_zero
      else of_decimal neg (dec_value (ip ++ fp))
             (scan_exponent (lit "eE") r - Z.of_nat (length fp)).

(** ** Double to text *)

(** [n / d] rounded to nearest, ties to even. *)
Definition div_half_even (n d : Z) : Z :=
  let q := n / d in
  let r := n mod d in
  if 2 * r <? d then q
  else if d <? 2 * r then q + 1
  else if Z.even q then q else q + 1.

(** The value of a finite double times ten, as an integer. *)
Definition tenths (m : positive) (e : Z) : Z :=
  if 0 <=? e then 10 * Zpos m * 2 ^ e else div_half_even (10 * Zpos m) (2 ^ (- e)).

Definition show_tenths (neg : bool) (n : Z) : str :=
  (if neg then lit "-" else []) ++ to_string (n / 10) ++ "."%char :: to_string (n mod 10).

Definition format1 (d : double) : str :=
  match d with
  | S754_zero neg => show_tenths neg 0
  | S754_infinity neg => if neg then lit "-inf" else lit "inf"
  | S754_nan => lit "nan"
  | S754_finite neg m e => show_tenths neg (tenths m e)
  end.

(** ** The order on doubles *)

(** A lexicographic key: comparing keys is comparing doubles. *)
Definition key (d : double) : Z * Z * Z :=
  match d with
  | S754_infinity true => (-2, 0, 0)
  | S754_finite true m e => (-1, - e, - Zpos m)
  | S754_zero _ | S754_nan => (0, 0, 0)
  | S754_finite false m e => (1, e, Zpos m)
  | S754_infinity false => (2, 0, 0)
  end.

Definition key_lt (a b : Z * Z * Z) : Prop :=
  let '(a1, a2, a3) := a in let '(b1, b2, b3) := b in
  a1 < b1 \/ (a1 = b1 /\ (a2 < b2 \/ (a2 = b2 /\ a3 < b3))).

Lemma SFcompare_key a b :
  is_nan a = false -> is_nan b = false ->
  match SFcompare a b with
  | Some Lt => key_lt (key a) (key b)
  | Some Eq => key a = key b
  | Some Gt => key_lt (key b) (key a)
  | None => False
  end.
Proof.
  destruct a as [[]|[]| |[] m1 e1], b as [[]|[]| |[] m2 e2]; intros Ha Hb; try done;
    cbn -[Pos.compare_cont]; try lia;
    change (Pos.compare_cont Eq m1 m2) with (Pos.compare m1 m2);
    destruct (Z.compare_spec e1 e2), (Pos.compare_spec m1 m2); cbn; subst;
    try reflexivity; lia.
Qed.

Lemma d_lt_key a b :
  is_nan a = false -> is_nan b = false -> d_lt a b = true <-> key_lt (key a) (key b).
Proof.
  intros Ha Hb. pose proof (SFcompare_key a b Ha Hb) as H. unfold d_lt, SFltb.
  destruct (key a) as [[a1 a2] a3], (key b) as [[b1 b2] b3]. unfold key_lt in *.
  destruct (SFcompare a b) as [[]|]; simplify_eq; split; intros; try done; lia.
Qed.

Lemma d_lt_nan_l a b : d_lt a b = true -> is_nan a = false.
Proof. unfold d_lt, SFltb. by destruct a. Qed.

Lemma d_lt_nan_r a b : d_lt a b = true -> is_nan b = false.
Proof. unfold d_lt, SFltb. destruct a as [| | |], b; try done; by destruct s. Qed.

Lemma d_lt_irrefl a : d_lt a a = false.
Proof.
  destruct (d_lt a a) eqn:E; [|done]. pose proof (d_lt_nan_l _ _ E).
  apply d_lt_key in E; [|done..]. destruct (key a) as [[? ?] ?]. unfold key_lt in E. lia.
Qed.

Lemma d_lt_trans a b c : d_lt a b = true -> d_lt b c = true -> d_lt a c = true.
Proof.
  intros H1 H2. pose proof (d_lt_nan_l _ _ H1). pose proof (d_lt_nan_l _ _ H2).
  pose proof (d_lt_nan_r _ _ H2). rewrite d_lt_key in * by done.
  destruct (key a) as [[? ?] ?], (key b) as [[? ?] ?], (key c) as [[? ?] ?].
  unfold key_lt in *. lia.
Qed.

(** "Not below" is transitive through a number. *)
Lemma d_nlt_trans a b c :
  is_nan b = false -> d_lt a b = false -> d_lt b c = false -> d_lt a c = false.
Proof.
  intros Hb H1 H2. destruct (d_lt a c) eqn:E; [|done].
  pose proof (d_lt_nan_l _ _ E). pose proof (d_lt_nan_r _ _ E).
  apply not_true_iff_false in H1, H2. rewrite d_lt_key in * by done.
  destruct (key a) as [[? ?] ?], (key b) as [[? ?] ?], (key c) as [[? ?] ?].
  unfold key_lt in *. lia.
Qed.

Lemma d_eqb_key a b :
  is_nan a = false -> is_nan b = false -> d_eqb a b = true <-> key a = key b.
Proof.
  intros Ha Hb. pose proof (SFcompare_key a b Ha Hb) as H. unfold d_eqb, SFeqb.
  destruct (SFcompare a b) as [[]|]; split; intros E; try done;
    rewrite E in H; destruct (key b) as [[? ?] ?]; unfold key_lt in H; lia.
Qed.

#[export] Hint Resolve d_lt_irrefl : nsdb.
