(* ===== verification/Json.v ===== *)
(** * The JSON writer (src/json.cpp, include/ns/json.hpp)

    [JsonWriter] keeps the text written so far and, for every open container,
    how many elements it has; the last element of [counts_] is the head of
    [counts] here.  The [int] counters are taken unbounded: 2^31 elements of one
    container do not fit in memory.

    Shown: what a sequence of calls writes is the rendering of a JSON tree
    ([emits] and its composition lemmas), and the text of any properly nested
    calls, pretty or compact, reads back as the tree of those calls
    ([writer_parses]) with [parse], a reader of RFC 8259 text written here as the
    reference. *)
From S2P Require Import Prelude CppStd Double.
From Stdlib Require Import Ascii SpecFloat.

#[local] Open Scope Z_scope.

(** ** The writer *)

Definition kHex : str := lit "0123456789abcdef".

(** The [i]-th hexadecimal digit. *)
Definition hex_char (i : Z) : byte := nth (Z.to_nat i) kHex "0"%char.

Definition quote : byte := "034"%char.
Definition backslash : byte := "\"%char.

Definition escape_byte (c : byte) : str :=
  let z := code c in
  if z =? 34 then [backslash; quote]
  else if z =? 92 then [backslash; backslash]
  else if z =? 8 then [backslash; "b"%char]
  else if z =? 12 then [backslash; "f"%char]
  else if z =? 10 then [backslash; "n"%char]
  else if z =? 13 then [backslash; "r"%char]
  else if z =? 9 then [backslash; "t"%char]
  else if z <? 32 then
    lit "\u00" ++ [hex_char (Z.land (Z.shiftr z 4) 15); hex_char (Z.land z 15)]
  else [c].

Definition json_escape (s : str) : str := s ≫= escape_byte.

Record JsonWriter := mkWriter { out : str; counts : list Z; pretty : bool }.

Definition new_writer (pretty : bool) : JsonWriter := mkWriter [] [] pretty.

Definition put (s : str) (w : JsonWriter) : JsonWriter :=
  mkWriter (out w ++ s) (counts w) (pretty w).

Definition indent (n : nat) : str := "010"%char :: replicate (n * 2) " "%char.

Definition newline_indent (w : JsonWriter) : JsonWriter :=
  match counts w with
  | [] => w
  | _ => if pretty w then put (indent (length (counts w))) w else w
  end.

Definition separator (w : JsonWriter) : JsonWriter :=
  newline_indent
    match counts w with
    | [] => w
    | n :: rest =>
        let w := if 0 <? n then put (lit ",") w else w in
        mkWriter (out w) ((n + 1) :: rest) (pretty w)
    end.

Definition write_quoted (s : str) (w : JsonWriter) : JsonWriter :=
  put [quote] (put (json_escape s) (put [quote] w)).

Definition write_key (key : str) (w : JsonWriter) : JsonWriter :=
  put (if pretty w then lit ": " else lit ":") (write_quoted key w).

Definition push_count (w : JsonWriter) : JsonWriter := mkWriter (out w) (0 :: counts w) (pretty w).

Definition begin_object (w : JsonWriter) : JsonWriter :=
  push_count (put (lit "{") (separator w)).

Definition begin_object_key (key : str) (w : JsonWriter) : JsonWriter :=
  push_count (put (lit "{") (write_key key (separator w))).

(** The common body of [end_object] and [end_array]. *)
Definition end_container (close : str) (w : JsonWriter) : JsonWriter :=
  let n := match counts w with [] => 0 | n :: _ => n end in
  let w := mkWriter (out w) (tail (counts w)) (pretty w) in
  let w := if pretty w && (0 <? n) then put (indent (length (counts w))) w else w in
  put close w.

Definition end_object (w : JsonWriter) : JsonWriter := end_container (lit "}") w.

Definition begin_array (key : str) (w : JsonWriter) : JsonWriter :=
  push_count (put (lit "[") (write_key key (separator w))).

Definition end_array (w : JsonWriter) : JsonWriter := end_container (lit "]") w.

Definition field_str (key value : str) (w : JsonWriter) : JsonWriter :=
  write_quoted value (write_key key (separator w)).

(** The [const char *] overload of [field]: a null pointer writes an empty string. *)
Definition field_cstr (key : str) (value : option str) (w : JsonWriter) : JsonWriter :=
  field_str key (default [] value) w.

Definition field_bool (key : str) (value : bool) (w : JsonWriter) : JsonWriter :=
  put (if value then lit "true" else lit "false") (write_key key (separator w)).

(** A 32-byte buffer: at most 31 characters of ["%.1f"]. *)
Definition field_double (key : str) (value : double) (w : JsonWriter) : JsonWriter :=
  put (take 31 (format1 value)) (write_key key (separator w)).

(** The integral overload converts to [std::int64_t] and prints ["%lld"]. *)
Definition field_i64 (key : str) (value : Z) (w : JsonWriter) : JsonWriter :=
  put (take 23 (to_string (i64 value))) (write_key key (separator w)).

Definition field_null (key : str) (w : JsonWriter) : JsonWriter :=
  put (lit "null") (write_key key (separator w)).

Definition value (v : str) (w : JsonWriter) : JsonWriter := write_quoted v (separator w).

(** ** Sequences of calls *)

Definition op := JsonWriter -> JsonWriter.

Definition seq (fs : list op) : op := fun w => fold_left (fun w f => f w) fs w.

(** [w.begin_object(k); ...; w.end_object();] and the like. *)
Definition object_at (k : str) (body : list op) : op :=
  fun w => end_object (seq body (begin_object_key k w)).
Definition object_elem (body : list op) : op :=
  fun w => end_object (seq body (begin_object w)).
Definition array_at (k : str) (body : list op) : op :=
  fun w => end_array (seq body (begin_array k w)).

(** A whole document: [JsonWriter w(pretty); w.begin_object(); ...;
    w.end_object(); return w.str();] *)
Definition document (p : bool) (body : list op) : str :=
  out (object_elem body (new_writer p)).

(** ** JSON trees and their rendering *)

Inductive jval :=
| JStr (s : str)
| JNum (raw : str)
| JBool (b : bool)
| JNull
| JObj (ms : list (str * jval))
| JArr (vs : list jval).

Definition quoted (s : str) : str := quote :: json_escape s ++ [quote].

Definition colon (p : bool) : str := if p then lit ": " else lit ":".

Definition break (p : bool) (d : nat) : str := if p then indent d else [].

(** Items of one container: a comma before all but the first, each on its own
    line when pretty.  [first] says whether no item was written before. *)
Fixpoint items (p : bool) (d : nat) (first : bool) (l : list str) : str :=
  match l with
  | [] => []
  | x :: l' => (if first then [] else lit ",") ++ break p d ++ x ++ items p d false l'
  end.

Definition wrap (p : bool) (d : nat) (o c : str) (l : list str) : str :=
  o ++ items p (S d) true l ++ match l with [] => [] | _ => break p d end ++ c.

Fixpoint render (p : bool) (d : nat) (v : jval) : str :=
  match v with
  | JStr s => quoted s
  | JNum r => r
  | JBool b => if b then lit "true" else lit "false"
  | JNull => lit "null"
  | JObj ms =>
      wrap p d (lit "{") (lit "}")
        ((fix go ms := match ms with
          | [] => []
          | (k, x) :: ms' => (quoted k ++ colon p ++ render p (S d) x) :: go ms'
          end) ms)
  | JArr vs =>
      wrap p d (lit "[") (lit "]")
        ((fix go vs := match vs with [] => [] | x :: vs' => render p (S d) x :: go vs' end) vs)
  end.

(** An element of a container: a value, with a key inside an object. *)
Definition entry : Type := option str * jval.

Definition render_entry (p : bool) (d : nat) (e : entry) : str :=
  match e with
  | (Some k, v) => quoted k ++ colon p ++ render p d v
  | (None, v) => render p d v
  end.

Definition member (k : str) (v : jval) : entry := (Some k, v).
Definition elem (v : jval) : entry := (None, v).

(** [f] writes exactly the entries [es] into the innermost open container. *)
Definition emits (f : op) (es : list entry) : Prop :=
  forall w n rest, counts w = n :: rest -> 0 <= n ->
  f w = mkWriter
          (out w ++ items (pretty w) (length (counts w)) (n =? 0)
                      (render_entry (pretty w) (length (counts w)) <$> es))
          ((n + Z.of_nat (length es)) :: rest) (pretty w).

(** ** Equations of [render] *)

Lemma render_obj p d ms :
  render p d (JObj ms) =
  wrap p d (lit "{") (lit "}") (render_entry p (S d) <$> (uncurry member <$> ms)).
Proof.
  simpl. f_equal. induction ms as [|[k x] ms IH]; [done|]. simpl. by rewrite IH.
Qed.

Lemma render_arr p d vs :
  render p d (JArr vs) =
  wrap p d (lit "[") (lit "]") (render_entry p (S d) <$> (elem <$> vs)).
Proof.
  simpl. f_equal. induction vs as [|x vs IH]; [done|]. simpl. by rewrite IH.
Qed.

Lemma items_app p d first l1 l2 :
  items p d first (l1 ++ l2) =
  items p d first l1 ++ items p d (first && bool_decide (l1 = [])) l2.
Proof.
  revert first. induction l1 as [|x l1 IH]; intros first; simpl.
  - by rewrite andb_true_r.
  - rewrite IH, andb_false_r. simpl. by rewrite <- !app_assoc.
Qed.

(** ** What the calls write *)

Lemma put_put a b w : put a (put b w) = put (b ++ a) w.
Proof. unfold put. simpl. by rewrite app_assoc. Qed.

Lemma separator_open w n rest :
  counts w = n :: rest ->
  separator w = mkWriter
    (out w ++ (if 0 <? n then lit "," else []) ++ break (pretty w) (length (counts w)))
    ((n + 1) :: rest) (pretty w).
Proof.
  intros Hc. unfold separator, newline_indent. rewrite Hc. simpl.
  destruct w as [o c p]. simpl in *. subst c.
  destruct (0 <? n), p; unfold put; simpl; by rewrite <- ?app_assoc, ?app_nil_r.
Qed.

(** One entry: a separator, then its text. *)
Lemma emits_put k v (f : op) :
  (forall w, length (counts w) <> 0%nat ->
     f w = put (render_entry (pretty w) (length (counts w)) (k, v)) (separator w)) ->
  emits f [(k, v)].
Proof.
  intros Hf w n rest Hc Hn. rewrite Hf by (rewrite Hc; done).
  rewrite (separator_open _ _ _ Hc). unfold put. simpl. f_equal.
  rewrite app_nil_r, <- !app_assoc. f_equal.
  destruct (Z.ltb_spec 0 n), (Z.eqb_spec n 0); done || lia.
Qed.

Ltac one_entry :=
  apply emits_put; intros w Hw; unfold put, write_key, write_quoted, put; simpl;
  unfold separator, newline_indent, put;
  destruct w as [o [|cnt rest] p]; [done|]; simpl;
  destruct (0 <? cnt), p; simpl; by rewrite <- ?app_assoc.

Lemma emits_field_str k s : emits (field_str k s) [member k (JStr s)].
Proof. unfold field_str, member, quoted. one_entry. Qed.

Lemma emits_field_cstr k s : emits (field_cstr k s) [member k (JStr (default [] s))].
Proof. apply emits_field_str. Qed.

Lemma emits_field_bool k b : emits (field_bool k b) [member k (JBool b)].
Proof. unfold field_bool, member, quoted. one_entry. Qed.

Lemma emits_field_double k d : emits (field_double k d) [member k (JNum (take 31 (format1 d)))].
Proof. unfold field_double, member, quoted. one_entry. Qed.

Lemma emits_field_i64 k n : emits (field_i64 k n) [member k (JNum (take 23 (to_string (i64 n))))].
Proof. unfold field_i64, member, quoted. one_entry. Qed.

Lemma emits_field_null k : emits (field_null k) [member k JNull].
Proof. unfold field_null, member, quoted. one_entry. Qed.

Lemma emits_value s : emits (value s) [elem (JStr s)].
Proof. unfold value, elem, quoted. one_entry. Qed.

Lemma emits_nil : emits (fun w => w) [].
Proof.
  intros [o c p] n rest Hc Hn. simpl in *. subst c. by rewrite app_nil_r, Z.add_0_r.
Qed.

Lemma emits_comp f g es fs : emits f es -> emits g fs -> emits (fun w => g (f w)) (es ++ fs).
Proof.
  intros Hf Hg w n rest Hc Hn. rewrite (Hf w n rest Hc Hn).
  erewrite (Hg _ (n + Z.of_nat (length es)) rest) by (simpl; done || lia).
  simpl. rewrite Hc. rewrite fmap_app, items_app, <- app_assoc. f_equal.
  - f_equal. f_equal. f_equal.
    destruct es; simpl; [by rewrite Z.add_0_r, andb_true_r|].
    rewrite andb_false_r. apply Z.eqb_neq. lia.
  - f_equal. rewrite length_app. lia.
Qed.

Lemma emits_seq fs ess : Forall2 emits fs ess -> emits (seq fs) (concat ess).
Proof.
  induction 1 as [|f es fs ess Hf _ IH]; [apply emits_nil|].
  exact (emits_comp f (seq fs) es (concat ess) Hf IH).
Qed.

(** A call per element of a list. *)
Lemma emits_map {A} (f : A -> op) (g : A -> entry) l :
  (forall x, emits (f x) [g x]) -> emits (seq (f <$> l)) (g <$> l).
Proof.
  intros H. induction l as [|x l IH]; [apply emits_nil|].
  exact (emits_comp (f x) (seq (f <$> l)) [g x] (g <$> l) (H x) IH).
Qed.

(** A container: open it, write the entries, close it. *)
Lemma container_text o p close body es rest :
  emits body es ->
  end_container close (body (mkWriter o (0 :: rest) p)) =
  mkWriter (o ++ items p (S (length rest)) true (render_entry p (S (length rest)) <$> es)
              ++ match es with [] => [] | _ => break p (length rest) end ++ close) rest p.
Proof.
  intros Hb. rewrite (Hb _ 0 rest) by done. unfold end_container, put. simpl.
  destruct es as [|e es]; simpl.
  - rewrite andb_false_r. simpl. by rewrite app_nil_r.
  - replace (0 <? _) with true by (symmetry; apply Z.ltb_lt; lia).
    rewrite andb_true_r. unfold break.
    destruct p; app_norm; done.
Qed.

Lemma emits_container (pre : bool -> str) o c body es (f : op) e :
  emits body es ->
  (forall p d, render_entry p d e = pre p ++ wrap p d o c (render_entry p (S d) <$> es)) ->
  (forall w, f w = end_container c (body (push_count (put (pre (pretty w) ++ o) (separator w))))) ->
  emits f [e].
Proof.
  intros Hb Hr Hf w n rest Hc Hn. rewrite Hf, (separator_open _ _ _ Hc).
  unfold push_count, put. cbn [out counts pretty].
  rewrite (container_text _ _ _ _ _ _ Hb), Hc. cbn [fmap list_fmap items length].
  rewrite Hr. unfold wrap. f_equal.
  destruct es, (Z.ltb_spec 0 n), (Z.eqb_spec n 0); try lia; app_norm; done.
Qed.

Lemma pretty_separator w : pretty (separator w) = pretty w.
Proof.
  unfold separator, newline_indent. destruct w as [o [|n rest] p]; [done|]. simpl.
  by destruct (0 <? n), p.
Qed.

Lemma write_key_put k w : write_key k w = put (quoted k ++ colon (pretty w)) w.
Proof. unfold write_key, write_quoted, put, quoted, colon. simpl. f_equal. app_norm. done. Qed.

Lemma emits_object_at k body ms :
  emits (seq body) (uncurry member <$> ms) -> emits (object_at k body) [member k (JObj ms)].
Proof.
  intros Hb. apply (emits_container (fun p => quoted k ++ colon p) (lit "{") (lit "}") _ _ _ _ Hb).
  - intros p d. unfold member, render_entry at 1. rewrite render_obj. app_norm. done.
  - intros w. unfold object_at, begin_object_key. by rewrite write_key_put, put_put, pretty_separator.
Qed.

Lemma emits_array_at k body vs :
  emits (seq body) (elem <$> vs) -> emits (array_at k body) [member k (JArr vs)].
Proof.
  intros Hb. apply (emits_container (fun p => quoted k ++ colon p) (lit "[") (lit "]") _ _ _ _ Hb).
  - intros p d. unfold member, render_entry at 1. rewrite render_arr. app_norm. done.
  - intros w. unfold array_at, begin_array. by rewrite write_key_put, put_put, pretty_separator.
Qed.

Lemma emits_object_elem body ms :
  emits (seq body) (uncurry member <$> ms) -> emits (object_elem body) [elem (JObj ms)].
Proof.
  intros Hb. apply (emits_container (fun _ => []) (lit "{") (lit "}") _ _ _ _ Hb).
  - intros p d. unfold elem, render_entry at 1. by rewrite render_obj.
  - done.
Qed.

Create HintDb json.
Create Rewrite HintDb json.
#[export] Hint Resolve emits_field_str emits_field_cstr emits_field_bool emits_field_double
  emits_field_i64 emits_field_null emits_value emits_object_at emits_array_at emits_object_elem : json.

(** A whole document is the rendering of its object. *)
Lemma document_render p body ms :
  emits (seq body) (uncurry member <$> ms) -> document p body = render p 0 (JObj ms).
Proof.
  intros Hb. unfold document, object_elem, begin_object, push_count, end_object.
  unfold separator, newline_indent, new_writer, put. cbn [out counts pretty].
  rewrite (container_text _ _ _ _ _ _ Hb). rewrite render_obj. unfold wrap. simpl.
  destruct ms; app_norm; done.
Qed.

(** ** A reader of JSON text

    The reference against which the writer is checked.  It follows the grammar
    of RFC 8259; of the [\u] escapes it reads the ones below U+0080, the only
    ones the writer can produce.  Strings are bytes, and a raw control byte in
    a string is refused. *)

Definition is_ws (c : byte) : bool := elem_of_set [" "; "009"; "010"; "013"]%char c.

Definition skip (s : str) : str := snd (span is_ws s).

Definition unescape (c : byte) : option byte :=
  let z := code c in
  if z =? 34 then Some quote else if z =? 92 then Some backslash
  else if z =? 47 then Some "/"%char else if z =? 98 then Some "008"%char
  else if z =? 102 then Some "012"%char else if z =? 110 then Some "010"%char
  else if z =? 114 then Some "013"%char else if z =? 116 then Some "009"%char
  else None.

(** The text of a string up to its closing quote, and what follows. *)
Fixpoint read_string (s : str) : option (str * str) :=
  match s with
  | [] => None
  | c :: r =>
      if Ascii.eqb c quote then Some ([], r)
      else if Ascii.eqb c backslash then
        match r with
        | "u"%char :: a :: b :: x :: y :: r' =>
            v ← hex_digit a; v' ← hex_digit b; vx ← hex_digit x; vy ← hex_digit y;
            let z := ((v * 16 + v') * 16 + vx) * 16 + vy in
            if z <? 128 then '(t, q) ← read_string r'; Some (chr z :: t, q) else None
        | e :: r' => d ← unescape e; '(t, q) ← read_string r'; Some (d :: t, q)
        | [] => None
        end
      else if code c <? 32 then None
      else '(t, q) ← read_string r; Some (c :: t, q)
  end.

Definition is_numchar (c : byte) : bool := isdigit c || elem_of_set (lit "+-.eE") c.

Definition digits1 (s : str) : bool := forallb isdigit s && negb (bool_decide (s = [])).

Definition exponent_ok (s : str) : bool :=
  match s with
  | [] => true
  | e :: r =>
      elem_of_set (lit "eE") e &&
      digits1 match r with c :: r' => if elem_of_set (lit "+-") c then r' else r | [] => [] end
  end.

Definition fraction_ok (s : str) : bool :=
  match s with
  | "."%char :: r => let '(d, r') := span isdigit r in digits1 d && exponent_ok r'
  | _ => exponent_ok s
  end.

Definition unsigned_ok (s : str) : bool :=
  let '(d, r) := span isdigit s in
  digits1 d && (negb (starts_with (lit "0") d) || (length d =? 1)%nat) && fraction_ok r.

(** The number grammar. *)
Definition is_number (s : str) : bool :=
  forallb is_numchar s && unsigned_ok match s with "-"%char :: r => r | _ => s end.

Fixpoint parse_value (fuel : nat) (s : str) : option (jval * str) :=
  match fuel with
  | O => None
  | S f =>
      match skip s with
      | [] => None
      | c :: r =>
          if Ascii.eqb c quote then '(x, q) ← read_string r; Some (JStr x, q)
          else if Ascii.eqb c "{" then
            if starts_with (lit "}") (skip r) then Some (JObj [], tail (skip r))
            else '(ms, q) ← parse_members f r; Some (JObj ms, q)
          else if Ascii.eqb c "[" then
            if starts_with (lit "]") (skip r) then Some (JArr [], tail (skip r))
            else '(vs, q) ← parse_elements f r; Some (JArr vs, q)
          else if starts_with (lit "true") (c :: r) then Some (JBool true, drop 4 (c :: r))
          else if starts_with (lit "false") (c :: r) then Some (JBool false, drop 5 (c :: r))
          else if starts_with (lit "null") (c :: r) then Some (JNull, drop 4 (c :: r))
          else
            let '(raw, q) := span is_numchar (c :: r) in
            if is_number raw then Some (JNum raw, q) else None
      end
  end
with parse_members (fuel : nat) (s : str) : option (list (str * jval) * str) :=
  match fuel with
  | O => None
  | S f =>
      match skip s with
      | c :: r =>
          if Ascii.eqb c quote then
            '(k, r1) ← read_string r;
            match skip r1 with
            | ":"%char :: r2 =>
                '(v, r3) ← parse_value f r2;
                match skip r3 with
                | ","%char :: r4 => '(ms, q) ← parse_members f r4; Some ((k, v) :: ms, q)
                | "}"%char :: r4 => Some ([(k, v)], r4)
                | _ => None
                end
            | _ => None
            end
          else None
      | [] => None
      end
  end
with parse_elements (fuel : nat) (s : str) : option (list jval * str) :=
  match fuel with
  | O => None
  | S f =>
      '(v, r) ← parse_value f s;
      match skip r with
      | ","%char :: r' => '(vs, q) ← parse_elements f r'; Some (v :: vs, q)
      | "]"%char :: r' => Some ([v], r')
      | _ => None
      end
  end.

(** Read a whole text: one value, then only white space. *)
Definition parse (s : str) : option jval :=
  '(v, r) ← parse_value (2 * length s) s;
  if bool_decide (skip r = []) then Some v else None.

(** The numbers of a tree are written in the number grammar. *)
Fixpoint jwf (v : jval) : bool :=
  match v with
  | JNum raw => is_number raw
  | JObj ms => forallb (fun '(_, x) => jwf x) ms
  | JArr vs => forallb jwf vs
  | _ => true
  end.

Example parse_small :
  parse (render true 0 (JObj [(lit "a", JArr [JNum (lit "-1.5e3"); JStr (lit "x\y"); JArr []]);
                              (lit "b", JObj [])])) =
  Some (JObj [(lit "a", JArr [JNum (lit "-1.5e3"); JStr (lit "x\y"); JArr []]);
              (lit "b", JObj [])]).
Proof. reflexivity. Qed.

(** ** Numbers the writer produces *)

Lemma number_chars ds : Forall (fun c => isdigit c = true) ds -> forallb is_numchar ds = true.
Proof.
  intros H. apply forallb_forall. intros c Hc. unfold is_numchar.
  rewrite List.Forall_forall in H. by rewrite (H c Hc).
Qed.

Lemma unsigned_digits n r :
  0 <= n -> match r with [] => True | c :: _ => isdigit c = false end -> fraction_ok r = true ->
  unsigned_ok (to_string_u n ++ r) = true.
Proof.
  intros Hn Hr Hf. destruct (to_string_u_spec n Hn) as (Hd & _ & Hne).
  unfold unsigned_ok. rewrite (span_all isdigit _ r Hd Hr), Hf, andb_true_r.
  apply andb_true_iff. split.
  - unfold digits1. rewrite bool_decide_eq_false_2 by done. rewrite andb_true_r.
    apply forallb_forall. by apply List.Forall_forall.
  - destruct (to_string_u_head n Hn) as [(c & t & -> & Hc)| ->]; [|done].
    cbn [lit String.list_ascii_of_string starts_with]. rewrite eqb_code.
    change (code "0") with 48. destruct (Z.eqb_spec 48 (code c)); [lia|done].
Qed.

Lemma span_no_minus n : 0 <= n -> forall r,
  match to_string_u n ++ r with "-"%char :: t => t | _ => to_string_u n ++ r end = to_string_u n ++ r.
Proof.
  intros Hn r. destruct (to_string_u_spec n Hn) as (Hd & _ & Hne).
  destruct (to_string_u n) as [|c t]; [done|]. apply Forall_cons_iff in Hd as [Hc _].
  apply isdigit_iff in Hc. revert Hc. destruct c as [[] [] [] [] [] [] [] []]; try done. by intros [[] _].
Qed.

(** A decimal integer or fraction with an optional sign is a number. *)
Lemma number_signed (neg : bool) n r :
  0 <= n -> match r with [] => True | c :: _ => isdigit c = false end -> fraction_ok r = true ->
  forallb is_numchar r = true ->
  is_number ((if neg then lit "-" else []) ++ to_string_u n ++ r) = true.
Proof.
  intros Hn Hr Hf Hc. unfold is_number. rewrite !forallb_app, Hc.
  destruct (to_string_u_spec n Hn) as (Hd & _ & _). rewrite (number_chars _ Hd).
  destruct neg; cbn [app lit String.list_ascii_of_string]; [|rewrite span_no_minus by done];
    by rewrite unsigned_digits.
Qed.

Lemma i64_range z : - 2 ^ 63 <= i64 z < 2 ^ 63.
Proof.
  unfold i64, sgn. pose proof (Z.mod_pos_bound z (2 ^ 64) ltac:(lia)).
  change (64 - 1) with 63. split_ifs; lia.
Qed.

Lemma i64_text n : take 23 (to_string (i64 n)) = to_string (i64 n).
Proof.
  apply take_ge. pose proof (i64_range n) as H. unfold to_string.
  destruct (i64 n <? 0) eqn:E; bools; cbn [length].
  - pose proof (to_string_u_length (- i64 n) 20). lia.
  - pose proof (to_string_u_length (i64 n) 20). lia.
Qed.

Lemma is_number_to_string n : is_number (to_string n) = true.
Proof.
  unfold to_string. split_ifs.
  - pose proof (number_signed true (- n) []) as H. rewrite app_nil_r in H. apply H; done || lia.
  - pose proof (number_signed false n []) as H. rewrite app_nil_r in H. apply H; done || lia.
Qed.

(** ** The reader undoes the writer *)

Lemma read_escape c t : read_string (escape_byte c ++ t) = '(x, q) ← read_string t; Some (c :: x, q).
Proof. by destruct c as [[] [] [] [] [] [] [] []]. Qed.

Lemma read_quoted s rest : read_string (json_escape s ++ quote :: rest) = Some (s, rest).
Proof.
  induction s as [|c s IH]; [done|].
  change (json_escape (c :: s)) with (escape_byte c ++ json_escape s).
  rewrite <- app_assoc, read_escape, IH. done.
Qed.

Lemma skip_ws_cons c r : is_ws c = true -> skip (c :: r) = skip r.
Proof. intros H. unfold skip. simpl. rewrite H. by destruct (span is_ws r). Qed.

Lemma skip_stop c r : is_ws c = false -> skip (c :: r) = c :: r.
Proof. intros H. unfold skip. simpl. by rewrite H. Qed.

Lemma skip_break p d s : skip (break p d ++ s) = skip s.
Proof.
  destruct p; [|done]. simpl. rewrite skip_ws_cons by done.
  generalize (d * 2)%nat as n. induction n as [|n IH]; [done|]. simpl. by rewrite skip_ws_cons.
Qed.

Fixpoint jsize (v : jval) : nat :=
  match v with
  | JObj ms => S (list_sum ((fun '(_, x) => S (jsize x)) <$> ms))
  | JArr vs => S (list_sum ((fun x => S (jsize x)) <$> vs))
  | _ => 1
  end.

Lemma jval_rect_nested (P : jval -> Prop) :
  (forall s, P (JStr s)) -> (forall r, P (JNum r)) -> (forall b, P (JBool b)) -> P JNull ->
  (forall ms, Forall (fun kv => P kv.2) ms -> P (JObj ms)) ->
  (forall vs, Forall P vs -> P (JArr vs)) -> forall v, P v.
Proof.
  intros Hs Hn Hb H0 Ho Ha. fix IH 1. intros [s|r|b| |ms|vs];
    [apply Hs|apply Hn|apply Hb|apply H0|apply Ho|apply Ha].
  - induction ms as [|[k x] ms IHms]; constructor; [apply IH|exact IHms].
  - induction vs as [|x vs IHvs]; constructor; [apply IH|exact IHvs].
Qed.

(** What may follow a value: nothing that continues a number. *)
Definition stops (rest : str) : Prop :=
  match rest with [] => True | c :: _ => is_numchar c = false end.

Definition reads (p : bool) (v : jval) : Prop :=
  forall fuel d rest, (jsize v <= fuel)%nat -> stops rest ->
  parse_value fuel (render p d v ++ rest) = Some (v, rest).

(** The first byte of a rendered value is neither white space nor a closing
    bracket. *)
Lemma number_head raw : is_number raw = true ->
  exists c t, raw = c :: t /\ (isdigit c = true \/ c = "-"%char).
Proof.
  unfold is_number. intros H. bools. destruct raw as [|c t]; [done|].
  exists c, t. split; [done|]. destruct (isdigit c) eqn:Hd; [by left|right].
  destruct (decide (c = "-"%char)) as [|Hm]; [done|exfalso].
  assert (unsigned_ok (c :: t) = true) as H1.
  { revert H0 Hm. by destruct c as [[] [] [] [] [] [] [] []]. }
  unfold unsigned_ok in H1. simpl in H1. rewrite Hd in H1. done.
Qed.

Definition plain (c : byte) : bool := negb (is_ws c) && negb (elem_of_set (lit ",]}") c).

Lemma render_head p d v : jwf v = true ->
  exists c t, render p d v = c :: t /\ plain c = true.
Proof.
  destruct v as [s|raw|b| |ms|vs]; simpl; intros H; try by eexists _, _.
  - destruct (number_head raw H) as (c & t & -> & Hc). exists c, t. split; [done|].
    destruct Hc as [Hc| ->]; [|done]. revert Hc. by destruct c as [[] [] [] [] [] [] [] []].
  - destruct b; by eexists _, _.
Qed.

Lemma skip_plain c r : plain c = true -> skip (c :: r) = c :: r.
Proof. unfold plain. intros H. bools. by apply skip_stop. Qed.

Lemma items_comma p d x l : items p d false (x :: l) = ","%char :: items p d true (x :: l).
Proof. done. Qed.

(** What follows an item: a comma and more items, or the closing bracket. *)
Definition follow (p : bool) (d : nat) (c : byte) (l : list str) (rest : str) : str :=
  items p (S d) false l ++ break p d ++ c :: rest.

Lemma follow_nil p d c rest : is_ws c = false -> skip (follow p d c [] rest) = c :: rest.
Proof. intros H. unfold follow. simpl. by rewrite skip_break, skip_stop. Qed.

Lemma follow_cons p d c x l rest :
  skip (follow p d c (x :: l) rest) =
  ","%char :: items p (S d) true (x :: l) ++ break p d ++ c :: rest.
Proof. unfold follow. rewrite items_comma. simpl. by rewrite skip_stop. Qed.

Lemma follow_stops p d c l rest : is_numchar c = false -> stops (follow p d c l rest).
Proof. intros H. unfold follow, stops. by destruct l, p. Qed.

Lemma items_true p d c x l rest :
  items p (S d) true (x :: l) ++ break p d ++ c :: rest =
  break p (S d) ++ x ++ follow p d c l rest.
Proof. unfold follow. simpl. app_norm. done. Qed.

Lemma parse_value_skip fuel s t : skip s = skip t -> parse_value fuel s = parse_value fuel t.
Proof. intros H. destruct fuel; [done|]. cbn [parse_value]. by rewrite H. Qed.

Lemma reads_ws p x s fuel d rest :
  (forall t, skip (s ++ t) = skip t) -> reads p x -> (jsize x <= fuel)%nat -> stops rest ->
  parse_value fuel (s ++ render p d x ++ rest) = Some (x, rest).
Proof. intros Hs Hx Hf Hr. rewrite <- (Hx fuel d rest Hf Hr). by apply parse_value_skip. Qed.

Lemma reads_members p d ms fuel rest :
  Forall (fun kv => reads p kv.2) ms -> ms <> [] ->
  (list_sum ((fun '(_, x) => S (jsize x)) <$> ms) <= fuel)%nat ->
  parse_members fuel
    (items p (S d) true (render_entry p (S d) <$> (uncurry member <$> ms)) ++
     break p d ++ "}"%char :: rest) = Some (ms, rest).
Proof.
  revert fuel. induction ms as [|[k x] ms IH]; intros fuel Hr Hne Hf; [done|].
  apply Forall_cons_iff in Hr as [Hx Hr]. simpl in Hx.
  rewrite !fmap_cons, items_true. cbn [fmap list_fmap list_sum foldr] in Hf.
  destruct fuel as [|fuel]; [lia|]. cbn [parse_members].
  rewrite skip_break. unfold uncurry, member, render_entry at 1, quoted.
  cbn [app]. rewrite skip_stop by done. cbn [Ascii.eqb Bool.eqb quote].
  rewrite <- !app_assoc. cbn [app]. rewrite read_quoted. cbn [mbind option_bind].
  replace (skip _) with (":"%char :: (if p then lit " " else []) ++ render p (S d) x ++
     follow p d "}" (render_entry p (S d) <$> (uncurry member <$> ms)) rest)
    by (destruct p; simpl; by rewrite skip_stop).
  replace (parse_value fuel _) with
    (Some (x, follow p d "}" (render_entry p (S d) <$> (uncurry member <$> ms)) rest)).
  2: { symmetry. apply reads_ws; [intros t; destruct p; [by apply skip_ws_cons|done]|done|lia|by apply follow_stops]. }
  cbn [mbind option_bind]. destruct ms as [|[k' x'] ms].
  - by rewrite follow_nil.
  - rewrite !fmap_cons, follow_cons.
    rewrite <- !fmap_cons, IH; [done|done|done|]. unfold list_sum. lia.
Qed.

Lemma reads_elements p d vs fuel rest :
  Forall (reads p) vs -> vs <> [] -> (list_sum ((fun x => S (jsize x)) <$> vs) <= fuel)%nat ->
  parse_elements fuel
    (items p (S d) true (render_entry p (S d) <$> (elem <$> vs)) ++
     break p d ++ "]"%char :: rest) = Some (vs, rest).
Proof.
  revert fuel. induction vs as [|x vs IH]; intros fuel Hr Hne Hf; [done|].
  apply Forall_cons_iff in Hr as [Hx Hr].
  rewrite !fmap_cons, items_true. cbn [fmap list_fmap list_sum foldr] in Hf.
  destruct fuel as [|fuel]; [lia|]. cbn [parse_elements].
  unfold elem at 1, render_entry at 1.
  rewrite reads_ws; [|intros t; apply skip_break|done|lia|by apply follow_stops].
  cbn [mbind option_bind]. destruct vs as [|x' vs].
  - by rewrite follow_nil.
  - rewrite !fmap_cons, follow_cons.
    rewrite <- !fmap_cons, IH; [done|done|done|]. unfold list_sum. lia.
Qed.

(** The first byte of a number selects the number branch of the reader. *)
Lemma parse_number fuel c t :
  isdigit c = true \/ c = "-"%char ->
  parse_value (S fuel) (c :: t) =
  let '(raw, q) := span is_numchar (c :: t) in if is_number raw then Some (JNum raw, q) else None.
Proof.
  intros Hc. cbn [parse_value].
  assert (is_ws c = false /\ Ascii.eqb c quote = false /\ Ascii.eqb c "{" = false /\
    Ascii.eqb c "[" = false /\ Ascii.eqb "t" c = false /\ Ascii.eqb "f" c = false /\
    Ascii.eqb "n" c = false) as (H1 & H2 & H3 & H4 & H5 & H6 & H7).
  { destruct Hc as [Hc| ->]; [|done]. revert Hc. by destruct c as [[] [] [] [] [] [] [] []]. }
  rewrite skip_stop, H2, H3, H4 by done.
  cbn [lit String.list_ascii_of_string starts_with]. by rewrite H5, H6, H7.
Qed.

(** The opening of a container with an item is not the empty container. *)
Lemma not_closed p d c x t l rest : plain x = true -> elem_of_set (lit ",]}") c = true ->
  starts_with [c] (skip (items p (S d) true ((x :: t) :: l) ++ break p d ++ rest)) = false.
Proof.
  intros Hx Hc. cbn [items app]. rewrite <- app_assoc, skip_break. cbn [app].
  rewrite skip_plain by done. simpl. destruct (Ascii.eqb_spec c x) as [->|]; [|done].
  unfold plain in Hx. rewrite Hc in Hx. bools. done.
Qed.

Lemma wrap_items p d o c x l rest :
  wrap p d o c (x :: l) ++ rest = o ++ items p (S d) true (x :: l) ++ break p d ++ c ++ rest.
Proof. unfold wrap. by rewrite <- !app_assoc. Qed.

Lemma reads_obj p ms : Forall (fun kv => reads p kv.2) ms -> reads p (JObj ms).
Proof.
  intros Hr fuel d rest Hf Hs. destruct fuel as [|fuel]; [simpl in Hf; lia|].
  rewrite render_obj. destruct ms as [|[k x] ms].
  { cbn [parse_value fmap list_fmap wrap items app lit String.list_ascii_of_string].
    by rewrite skip_stop. }
  simpl in Hf. rewrite !fmap_cons, wrap_items, <- !fmap_cons. cbn [parse_value].
  change (lit "{" ++ ?s) with ("{"%char :: s). rewrite skip_stop by done.
  cbn [Ascii.eqb Bool.eqb quote]. set (t := items _ _ _ _ ++ _).
  assert (starts_with (lit "}") (skip t) = false) as ->
    by apply (not_closed p d "}" quote _ _ _ eq_refl eq_refl).
  unfold t. change (lit "}" ++ rest) with ("}"%char :: rest).
  rewrite reads_members; [done|done|done|simpl; lia].
Qed.

Lemma reads_arr p vs : Forall (reads p) vs -> forallb jwf vs = true -> reads p (JArr vs).
Proof.
  intros Hr Hwf fuel d rest Hf Hs. destruct fuel as [|fuel]; [simpl in Hf; lia|].
  rewrite render_arr. destruct vs as [|x vs].
  { cbn [parse_value fmap list_fmap wrap items app lit String.list_ascii_of_string].
    by rewrite skip_stop. }
  simpl in Hf. rewrite !fmap_cons, wrap_items, <- !fmap_cons. cbn [parse_value].
  change (lit "[" ++ ?s) with ("["%char :: s). rewrite skip_stop by done.
  cbn [Ascii.eqb Bool.eqb quote]. set (t := items _ _ _ _ ++ _).
  assert (starts_with (lit "]") (skip t) = false) as ->.
  { cbn [forallb] in Hwf. bools. destruct (render_head p (S d) x) as (c & u & E & Hp); [done|].
    unfold t. rewrite !fmap_cons. unfold elem at 1, render_entry at 1. rewrite E.
    by apply not_closed. }
  unfold t. change (lit "]" ++ rest) with ("]"%char :: rest).
  rewrite reads_elements; [done|done|done|simpl; lia].
Qed.

Lemma reads_all p v : jwf v = true -> reads p v.
Proof.
  induction v as [s|raw|b| |ms IH|vs IH] using jval_rect_nested; intros Hwf.
  5: { apply reads_obj. eapply Forall_impl; [|intros x Hx; exact Hx].
       apply List.Forall_forall. intros [k x] Hin. rewrite List.Forall_forall in IH.
       apply (IH _ Hin). cbn [jwf] in Hwf. rewrite forallb_forall in Hwf. exact (Hwf _ Hin). }
  5: { apply reads_arr; [|done]. apply List.Forall_forall. intros x Hin.
       rewrite List.Forall_forall in IH. apply (IH _ Hin). cbn [jwf] in Hwf.
       rewrite forallb_forall in Hwf. exact (Hwf _ Hin). }
  all: intros fuel d rest Hf Hs; (destruct fuel as [|fuel]; [simpl in Hf; lia|]).
  - cbn [render parse_value]. unfold quoted. cbn [app]. rewrite skip_stop by done.
    cbn [Ascii.eqb Bool.eqb quote]. rewrite <- app_assoc. cbn [app]. by rewrite read_quoted.
  - simpl in Hwf. destruct (number_head raw Hwf) as (c & t & -> & Hc).
    cbn [render app]. rewrite parse_number by done.
    change (c :: t ++ rest) with ((c :: t) ++ rest). rewrite span_all; [by rewrite Hwf| |done].
    unfold is_number in Hwf. bools. apply List.Forall_forall. by apply forallb_forall.
  - destruct b; cbn [parse_value render lit String.list_ascii_of_string app]; by rewrite skip_stop.
  - cbn [parse_value render lit String.list_ascii_of_string app]. by rewrite skip_stop.
Qed.

(** ** Enough fuel: a tree is no larger than its text *)

Lemma items_length p d b l : (list_sum (length <$> l) <= length (items p d b l))%nat.
Proof.
  revert b. induction l as [|x l IH]; intros b; [done|]. cbn [fmap list_fmap items list_sum foldr].
  rewrite !length_app. specialize (IH false). unfold list_sum in IH. lia.
Qed.

Lemma wrap_length p d o c l :
  (length o + list_sum (length <$> l) + length c <= length (wrap p d o c l))%nat.
Proof. unfold wrap. rewrite !length_app. pose proof (items_length p (S d) true l). lia. Qed.

Lemma sizes_le {A} (f : A -> nat) (g : A -> str) l :
  Forall (fun x => (f x <= 2 * length (g x))%nat) l ->
  (list_sum (f <$> l) <= 2 * list_sum (length <$> (g <$> l)))%nat.
Proof.
  induction 1 as [|x l Hx _ IH]; [done|]. rewrite !fmap_cons. unfold list_sum in *. simpl in *. lia.
Qed.

Lemma jsize_render p d v : jwf v = true -> (S (jsize v) <= 2 * length (render p d v))%nat.
Proof.
  revert d. induction v as [s|raw|b| |ms IH|vs IH] using jval_rect_nested; intros d Hwf.
  - simpl. rewrite length_app. simpl. lia.
  - destruct (number_head raw Hwf) as (c & t & -> & _). simpl. lia.
  - destruct b; simpl; lia.
  - simpl. lia.
  - rewrite render_obj. cbn [jwf jsize] in *. etrans; [|apply Nat.mul_le_mono_l, wrap_length].
    pose proof (sizes_le (fun '(_, x) => S (jsize x)) (render_entry p (S d) ∘ uncurry member) ms) as Hle.
    rewrite list_fmap_compose in Hle. simpl length. enough (Forall (fun kv : str * jval => (S (jsize kv.2) <=
      2 * length (render_entry p (S d) (uncurry member kv)))%nat) ms) as Hall.
    { lapply Hle; [lia|]. apply (Forall_impl _ _ _ Hall). by intros [k x]. }
    apply List.Forall_forall. intros [k x] Hin. rewrite List.Forall_forall in IH.
    rewrite forallb_forall in Hwf. specialize (IH _ Hin (S d) (Hwf _ Hin)). simpl in *.
    rewrite !length_app. lia.
  - rewrite render_arr. cbn [jwf jsize] in *. etrans; [|apply Nat.mul_le_mono_l, wrap_length].
    pose proof (sizes_le (fun x => S (jsize x)) (render_entry p (S d) ∘ elem) vs) as Hle.
    rewrite list_fmap_compose in Hle. simpl length. lapply Hle; [lia|].
    apply List.Forall_forall. intros x Hin. rewrite List.Forall_forall in IH.
    rewrite forallb_forall in Hwf. exact (IH _ Hin (S d) (Hwf _ Hin)).
Qed.

(** ** Compact text is one line of printable bytes *)

Definition clean (s : str) : Prop := Forall (fun c => 32 <= code c) s.

Lemma clean_escape s : clean (json_escape s).
Proof.
  unfold clean, json_escape. induction s as [|c s IH]; [constructor|].
  simpl. apply Forall_app. split; [|exact IH].
  apply List.Forall_forall. intros x Hx. revert Hx.
  destruct c as [[] [] [] [] [] [] [] []]; simpl; intuition (subst; vm_compute; congruence).
Qed.

Lemma clean_lit s : forallb (fun c => 32 <=? code c) s = true -> clean s.
Proof.
  intros H. apply List.Forall_forall. intros c Hc. rewrite forallb_forall in H.
  specialize (H c Hc). bools. done.
Qed.

Lemma clean_quoted s : clean (quoted s).
Proof.
  unfold quoted. apply Forall_cons_iff. split; [by vm_compute|].
  apply Forall_app. split; [apply clean_escape|by apply clean_lit].
Qed.

Lemma clean_number s : is_number s = true -> clean s.
Proof.
  unfold is_number. intros H. bools. apply clean_lit. apply forallb_forall. intros c Hc.
  rewrite forallb_forall in H. specialize (H c Hc). revert H.
  by destruct c as [[] [] [] [] [] [] [] []].
Qed.

Lemma clean_items d b l : Forall clean l -> clean (items false d b l).
Proof.
  intros H. revert b. induction H as [|x l Hx _ IH]; intros b; [constructor|]. simpl.
  apply Forall_app. split; [destruct b; by apply clean_lit|].
  apply Forall_app. split; [done|apply IH].
Qed.

Lemma clean_wrap d o c l : clean o -> clean c -> Forall clean l -> clean (wrap false d o c l).
Proof.
  intros Ho Hc Hl. unfold wrap. repeat (apply Forall_app; split); try done.
  - by apply clean_items.
  - destruct l; [constructor|by apply clean_lit].
Qed.

Lemma render_clean d v : jwf v = true -> clean (render false d v).
Proof.
  revert d. induction v as [s|raw|b| |ms IH|vs IH] using jval_rect_nested; intros d Hwf.
  - apply clean_quoted.
  - by apply clean_number.
  - by apply clean_lit; destruct b.
  - by apply clean_lit.
  - rewrite render_obj. apply clean_wrap; [by apply clean_lit..|].
    apply List.Forall_forall. intros x Hx. apply in_map_iff in Hx as ([k v] & <- & Hx).
    apply in_map_iff in Hx as ([k' v'] & [= <- <-] & Hin).
    change (clean (quoted k' ++ lit ":" ++ render false (S d) v')).
    rewrite List.Forall_forall in IH. cbn [jwf] in Hwf. rewrite forallb_forall in Hwf.
    apply Forall_app. split; [apply clean_quoted|]. apply Forall_app.
    split; [by apply clean_lit|]. exact (IH _ Hin (S d) (Hwf _ Hin)).
  - rewrite render_arr. apply clean_wrap; [by apply clean_lit..|].
    apply List.Forall_forall. intros x Hx. apply in_map_iff in Hx as (v & <- & Hx).
    apply in_map_iff in Hx as (v' & <- & Hin).
    rewrite List.Forall_forall in IH. cbn [jwf] in Hwf. rewrite forallb_forall in Hwf.
    exact (IH _ Hin (S d) (Hwf _ Hin)).
Qed.

Lemma render_reads p v : jwf v = true -> parse (render p 0 v) = Some v.
Proof.
  intros Hv. unfold parse. rewrite <- (app_nil_r (render p 0 v)) at 2.
  rewrite (reads_all p v Hv) by (done || pose proof (jsize_render p 0 v Hv); lia).
  done.
Qed.

(** ** Numbers with one decimal *)

(** Scores whose ["%.1f"] text is complete: finite, and within the buffer. *)
Definition printable_score (d : double) : bool :=
  match d with
  | S754_infinity _ | S754_nan => false
  | _ => (length (format1 d) <=? 31)%nat
  end.

Lemma tenths_nonneg m e : 0 <= tenths m e.
Proof.
  unfold tenths, div_half_even. destruct (Z.leb_spec 0 e); [pose proof (Z.pow_nonneg 2 e); nia|].
  pose proof (Z.div_pos (10 * Zpos m) (2 ^ (- e))). split_ifs; lia.
Qed.

Lemma show_tenths_number neg n : 0 <= n -> is_number (show_tenths neg n) = true.
Proof.
  intros Hn. unfold show_tenths. pose proof (Z.mod_pos_bound n 10 ltac:(lia)).
  pose proof (Z.div_pos n 10 Hn ltac:(lia)). rewrite !to_string_nonneg by lia.
  destruct (to_string_u_spec (n mod 10)) as (Hd & _ & Hne); [lia|].
  apply number_signed; [lia|done| |].
  - cbn [fraction_ok]. rewrite <- (app_nil_r (to_string_u (n mod 10))).
    rewrite (span_all isdigit _ [] Hd I). cbn [exponent_ok]. rewrite andb_true_r.
    unfold digits1. rewrite bool_decide_eq_false_2 by done. rewrite andb_true_r.
    apply forallb_forall. by apply List.Forall_forall.
  - cbn [forallb]. by rewrite number_chars.
Qed.

Lemma score_number d : printable_score d = true -> is_number (take 31 (format1 d)) = true.
Proof.
  intros H. rewrite take_ge.
  - destruct d as [neg| | |neg m e]; try done; apply show_tenths_number; [done|apply tenths_nonneg].
  - apply Nat.leb_le. by destruct d.
Qed.

Lemma score_text d : printable_score d = true -> take 31 (format1 d) = format1 d.
Proof. intros H. apply take_ge, Nat.leb_le. by destruct d. Qed.

(** ** Documents built from lists of members

    [emit] proves that a body emits its members, call by call. *)

Definition jint (n : Z) : jval := JNum (to_string (i64 n)).

Lemma emits_int k n : emits (field_i64 k n) [member k (jint n)].
Proof. unfold jint. rewrite <- i64_text. apply emits_field_i64. Qed.

Lemma emits_mem_nil : emits (seq []) (uncurry member <$> []).
Proof. exact emits_nil. Qed.

Lemma emits_mem_cons f fs k v ms :
  emits f [member k v] -> emits (seq fs) (uncurry member <$> ms) ->
  emits (seq (f :: fs)) (uncurry member <$> ((k, v) :: ms)).
Proof. intros Hf Hfs. exact (emits_comp f (seq fs) [member k v] _ Hf Hfs). Qed.

Lemma emits_mem_map {A} (f : A -> op) (k : A -> str) (v : A -> jval) l :
  (forall x, emits (f x) [member (k x) (v x)]) ->
  emits (seq (f <$> l)) (uncurry member <$> ((fun x => (k x, v x)) <$> l)).
Proof. intros H. rewrite <- list_fmap_compose. by apply emits_map. Qed.

Lemma emits_array_map {A} k (f : A -> op) (g : A -> jval) l :
  (forall x, emits (f x) [elem (g x)]) -> emits (array_at k (f <$> l)) [member k (JArr (g <$> l))].
Proof.
  intros H. apply emits_array_at. rewrite <- list_fmap_compose. by apply emits_map.
Qed.

Lemma emits_if (b : bool) f g k v v' :
  emits f [member k v] -> emits g [member k v'] ->
  emits (if b then f else g) [member k (if b then v else v')].
Proof. by destruct b. Qed.

Ltac emit :=
  repeat lazymatch goal with
  | |- emits (seq []) _ => apply emits_mem_nil
  | |- emits (seq (_ :: _)) _ => apply emits_mem_cons
  | |- emits (field_str _ _) _ => apply emits_field_str
  | |- emits (field_cstr _ _) _ => apply emits_field_cstr
  | |- emits (field_bool _ _) _ => apply emits_field_bool
  | |- emits (field_double _ _) _ => apply emits_field_double
  | |- emits (field_i64 _ _) _ => apply emits_int
  | |- emits (field_null _) _ => apply emits_field_null
  | |- emits (value _) _ => apply emits_value
  | |- emits (object_at _ _) _ => apply emits_object_at
  | |- emits (object_elem _) _ => apply emits_object_elem
  | |- emits (array_at _ (_ <$> _)) _ => apply emits_array_map; intros ?x
  | |- emits (if _ then _ else _) _ => apply emits_if
  end.

Lemma jwf_int n : jwf (jint n) = true.
Proof. apply is_number_to_string. Qed.

Lemma forallb_fmap {A B} (f : A -> B) (P : B -> bool) l :
  (forall x, P (f x) = true) -> forallb P (f <$> l) = true.
Proof. intros H. induction l as [|x l IH]; [done|]. simpl. by rewrite H. Qed.

#[export] Hint Rewrite jwf_int : json.

(** ** Every sequence of calls

    The calls a client of the writer makes, as data: a container with the calls
    between its [begin_] and its [end_]. *)

Inductive wcall :=
| CStr (key value : str)
| CCstr (key : str) (value : option str)
| CBool (key : str) (value : bool)
| CDouble (key : str) (value : double)
| CInt (key : str) (value : Z)
| CNull (key : str)
| CObject (key : str) (body : list wcall)
| CArray (key : str) (body : list wcall)
| CValue (v : str)
| CElem (body : list wcall).

(** What a call does to the writer. *)
Fixpoint call (c : wcall) : op :=
  match c with
  | CStr k s => field_str k s
  | CCstr k s => field_cstr k s
  | CBool k b => field_bool k b
  | CDouble k d => field_double k d
  | CInt k n => field_i64 k n
  | CNull k => field_null k
  | CObject k body => object_at k (call <$> body)
  | CArray k body => array_at k (call <$> body)
  | CValue s => value s
  | CElem body => object_elem (call <$> body)
  end.

(** What a call stands for. *)
Definition call_key (c : wcall) : option str :=
  match c with
  | CStr k _ | CCstr k _ | CBool k _ | CDouble k _ | CInt k _ | CNull k | CObject k _ | CArray k _ => Some k
  | CValue _ | CElem _ => None
  end.

Fixpoint call_tree (c : wcall) : jval :=
  match c with
  | CStr _ s | CValue s => JStr s
  | CCstr _ s => JStr (default [] s)
  | CBool _ b => JBool b
  | CDouble _ d => JNum (format1 d)
  | CInt _ n => JNum (to_string (i64 n))
  | CNull _ => JNull
  | CObject _ body | CElem body => JObj ((fun c => (default [] (call_key c), call_tree c)) <$> body)
  | CArray _ body => JArr (call_tree <$> body)
  end.

Definition call_member (c : wcall) : str * jval := (default [] (call_key c), call_tree c).

(** Keys in objects and nowhere else; printable doubles. *)
Fixpoint nested (keyed : bool) (c : wcall) : bool :=
  match c with
  | CStr _ _ | CCstr _ _ | CBool _ _ | CInt _ _ | CNull _ => keyed
  | CDouble _ d => keyed && printable_score d
  | CObject _ body => keyed && forallb (nested true) body
  | CArray _ body => keyed && forallb (nested false) body
  | CValue _ => negb keyed
  | CElem body => negb keyed && forallb (nested true) body
  end.

Lemma wcall_ind_nested (P : wcall -> Prop) :
  (forall c, match c with
             | CObject _ body | CArray _ body | CElem body => Forall P body
             | _ => True end -> P c) -> forall c, P c.
Proof.
  intros H. fix IH 1. intros c. apply H. destruct c as [| | | | | |k body|k body| |body]; try exact I.
  all: induction body as [|x body IHb]; constructor; [apply IH|exact IHb].
Qed.

Lemma nested_key keyed c : nested keyed c = true -> if keyed then is_Some (call_key c) else call_key c = None.
Proof. by destruct keyed, c. Qed.

Lemma seq_emits body :
  Forall (fun c => emits (call c) [(call_key c, call_tree c)]) body ->
  emits (seq (call <$> body)) ((fun c => (call_key c, call_tree c)) <$> body).
Proof.
  induction 1 as [|c body Hc _ IH]; [apply emits_nil|].
  exact (emits_comp (call c) (seq (call <$> body)) [(call_key c, call_tree c)] _ Hc IH).
Qed.

Lemma members_entries body :
  forallb (nested true) body = true ->
  (fun c => (call_key c, call_tree c)) <$> body = uncurry member <$> (call_member <$> body).
Proof.
  induction body as [|c body IH]; [done|]. cbn [forallb]. intros H. bools. rewrite !fmap_cons, IH by done.
  f_equal. destruct (nested_key true c) as [k Hk]; [done|]. unfold call_member, member. cbn [uncurry].
  by rewrite Hk.
Qed.

Lemma elements_entries body :
  forallb (nested false) body = true ->
  (fun c => (call_key c, call_tree c)) <$> body = elem <$> (call_tree <$> body).
Proof.
  induction body as [|c body IH]; [done|]. cbn [forallb]. intros H. bools. rewrite !fmap_cons, IH by done.
  by rewrite (nested_key false c).
Qed.

Lemma nested_weaken keyed body (P : wcall -> Prop) :
  Forall (fun c => forall b, nested b c = true -> P c) body -> forallb (nested keyed) body = true ->
  Forall P body.
Proof.
  induction 1 as [|c body Hc _ IH]; [constructor|]. simpl. intros H. bools. constructor; eauto.
Qed.

Lemma emits_call c keyed : nested keyed c = true -> emits (call c) [(call_key c, call_tree c)].
Proof.
  revert keyed. induction c as [c IH] using wcall_ind_nested. intros keyed Hn.
  destruct c as [| | |k d| | | | | |]; cbn [call call_key call_tree nested] in *; bools; eauto with json.
  - rewrite <- (score_text d) by done. apply emits_field_double.
  - apply emits_int.
  - apply emits_object_at. rewrite <- members_entries by done. by eapply seq_emits, nested_weaken.
  - apply emits_array_at. rewrite <- elements_entries by done. by eapply seq_emits, nested_weaken.
  - apply emits_object_elem. rewrite <- members_entries by done. by eapply seq_emits, nested_weaken.
Qed.

Lemma emits_calls body :
  forallb (nested true) body = true -> emits (seq (call <$> body)) (uncurry member <$> (call_member <$> body)).
Proof.
  intros H. rewrite <- members_entries by done. apply seq_emits. apply List.Forall_forall. intros c Hc.
  rewrite forallb_forall in H. by eapply emits_call, H.
Qed.

Lemma call_jwf c keyed : nested keyed c = true -> jwf (call_tree c) = true.
Proof.
  revert keyed. induction c as [c IH] using wcall_ind_nested. intros keyed Hn.
  destruct c as [| | |k d| | | | | |]; cbn [call_tree nested jwf] in *; bools; try done.
  - rewrite <- (score_text d) by done. by apply score_number.
  - apply is_number_to_string.
  - eapply nested_weaken in IH; [|done]. clear -IH. induction IH; [done|]. simpl. by apply andb_true_intro.
  - eapply nested_weaken in IH; [|done]. clear -IH. induction IH; [done|]. simpl. by apply andb_true_intro.
  - eapply nested_weaken in IH; [|done]. clear -IH. induction IH; [done|]. simpl. by apply andb_true_intro.
Qed.

Lemma calls_jwf body : forallb (nested true) body = true -> jwf (JObj (call_member <$> body)) = true.
Proof.
  intros H. change (jwf (call_tree (CElem body)) = true). apply (call_jwf _ false). done.
Qed.

(** ** Properties *)

(** C20: whatever calls a client makes between the outermost braces (string,
    boolean, number and null fields, nested objects and arrays, values and objects
    in arrays, to any depth), pretty-printed or compact, the text of the writer
    is JSON that reads back as exactly the tree of those calls: commas and
    brackets are where they belong, and no byte of a key or a value escapes its
    quotes.  The calls have to be nested as JSON asks for (keys in objects only),
    and the doubles finite and short enough for the print buffer. *)
Theorem writer_parses (p : bool) (body : list wcall) (Hb : forallb (nested true) body = true) :
  parse (document p (call <$> body)) = Some (JObj (call_member <$> body)).
Proof.
  rewrite (document_render p _ _ (emits_calls body Hb)). apply render_reads. by apply calls_jwf.
Qed.

Lemma writer_parses_witness :
  let body := [CStr (lit "k" ++ [quote]) (lit "v" ++ ["010"%char]); CObject (lit "o") [];
    CArray (lit "l") [CValue (lit "x"); CElem [CInt (lit "n") (-5); CNull (lit "z")]]] in
  forallb (nested true) body = true /\
  parse (document true (call <$> body)) = Some (JObj
    [(lit "k" ++ [quote], JStr (lit "v" ++ ["010"%char])); (lit "o", JObj []);
     (lit "l", JArr [JStr (lit "x"); JObj [(lit "n", JNum (lit "-5")); (lit "z", JNull)]])]).
Proof. intros body. split; [reflexivity|]. apply (writer_parses true body). reflexivity. Defined.

(** The output of [json_escape] contains no raw control byte, and
    reading it up to the first unescaped quote gives the input back and leaves
    what follows the closing quote untouched, for every byte string. *)
Theorem json_escape_roundtrip (s rest : str) :
  Forall (fun c => 32 <= code c) (json_escape s) /\
  read_string (json_escape s ++ quote :: rest) = Some (s, rest).
Proof. split; [apply clean_escape|apply read_quoted]. Qed.

(** A sequence of [field], [begin_object], [begin_array], ... calls between
    the outermost braces that emits the members [ms] (each call is shown to emit
    its entry, whatever the nesting depth and whether or not commas are due)
    produces a document that reads back as the object [ms]. *)
Theorem document_parses (p : bool) (body : list op) (ms : list (str * jval))
  (Hb : emits (seq body) (uncurry member <$> ms)) (Hw : jwf (JObj ms) = true) :
  document p body = render p 0 (JObj ms) /\ parse (document p body) = Some (JObj ms).
Proof.
  rewrite (document_render p body ms Hb). split; [done|]. by apply render_reads.
Qed.

Lemma document_parses_witness :
  let body := [field_str (lit "a") (lit "b"); array_at (lit "l") (value <$> [lit "x"; lit "y"])] in
  let ms := [(lit "a", JStr (lit "b")); (lit "l", JArr (JStr <$> [lit "x"; lit "y"]))] in
  jwf (JObj ms) = true /\ parse (document true body) = Some (JObj ms).
Proof.
  intros body ms. split; [reflexivity|]. apply (document_parses true body ms); [|reflexivity].
  unfold body, ms. emit.
Defined.
