(* ===== verification/Log.v ===== *)
(** * Logging (src/log.cpp, include/ns/log.hpp)

    One JSON object per line on standard error, filtered by a process-wide
    level.  The state is the level and the bytes written to standard error; the
    clock is an argument.  The mutex makes the write of one line atomic, so a
    call is one step here. *)
From S2P Require Import Prelude CppStd Json.
From Stdlib Require Import Ascii.

#[local] Open Scope Z_scope.

Inductive LogLevel := Debug | Info | Warn | Error.

Definition level_rank (l : LogLevel) : Z :=
  match l with Debug => 0 | Info => 1 | Warn => 2 | Error => 3 end.

Definition level_name (l : LogLevel) : str :=
  match l with
  | Debug => lit "debug" | Info => lit "info" | Warn => lit "warn" | Error => lit "error"
  end.

Record log_state := mkLog { g_level : LogLevel; stderr : str }.

Definition log_set_level (l : LogLevel) (st : log_state) : log_state := mkLog l (stderr st).
Definition log_get_level (st : log_state) : LogLevel := g_level st.

Definition log_set_level_by_name (name : str) (st : log_state) : bool * log_state :=
  if str_eqb name (lit "debug") then (true, log_set_level Debug st)
  else if str_eqb name (lit "info") then (true, log_set_level Info st)
  else if str_eqb name (lit "warn") then (true, log_set_level Warn st)
  else if str_eqb name (lit "error") then (true, log_set_level Error st)
  else (false, st).

(** ** The time stamp *)

(** [gmtime_r]: the civil date of a day number since 1970-01-01 in the
    proleptic Gregorian calendar, as (year, month, day). *)
Definition civil_from_days (z : Z) : Z * Z * Z :=
  let z := z + 719468 in
  let era := z / 146097 in
  let doe := z - era * 146097 in
  let yoe := (doe - doe / 1460 + doe / 36524 - doe / 146096) / 365 in
  let doy := doe - (365 * yoe + yoe / 4 - yoe / 100) in
  let mp := (5 * doy + 2) / 153 in
  let d := doy - (153 * mp + 2) / 5 + 1 in
  let m := if mp <? 10 then mp + 3 else mp - 9 in
  ((yoe + era * 400 + if m <=? 2 then 1 else 0), m, d).

(** [%0<w>d] for a non-negative or negative value: the sign counts. *)
Definition fmt0 (w : nat) (z : Z) : str :=
  if z <? 0 then "-"%char :: pad0 (w - 1) (to_string_u (- z)) else pad0 w (to_string_u z).

(** [now] is the system clock in nanoseconds since the epoch; the cast to
    seconds truncates towards zero. *)
Definition utc_timestamp (now : Z) : str :=
  let secs := Z.quot now 1000000000 in
  let ms := Z.quot (now - secs * 1000000000) 1000000 in
  let '(y, m, d) := civil_from_days (secs / 86400) in
  let sod := secs mod 86400 in
  take 39
    (fmt0 4 y ++ lit "-" ++ fmt0 2 m ++ lit "-" ++ fmt0 2 d ++ lit "T" ++
     fmt0 2 (sod / 3600) ++ lit ":" ++ fmt0 2 (sod / 60 mod 60) ++ lit ":" ++
     fmt0 2 (sod mod 60) ++ lit "." ++ fmt0 3 ms ++ lit "Z").

Example timestamp_2026 : utc_timestamp 1767225599123456789 = lit "2025-12-31T23:59:59.123Z".
Proof. reflexivity. Qed.
Example timestamp_leap : utc_timestamp 1709210096007000000 = lit "2024-02-29T12:34:56.007Z".
Proof. reflexivity. Qed.

#[global] Opaque utc_timestamp.

(** ** Events *)

Definition LogField : Type := str * str.

Definition log_body (ts : str) (lvl : LogLevel) (msg : str) (fields : list LogField) : list op :=
  field_str (lit "ts") ts :: field_cstr (lit "level") (Some (level_name lvl)) ::
  field_str (lit "msg") msg :: ((fun '(k, v) => field_str k v) <$> fields).

Definition log_event (now : Z) (lvl : LogLevel) (msg : str) (fields : list LogField)
    (st : log_state) : log_state :=
  if level_rank lvl <? level_rank (log_get_level st) then st
  else
    let line := document false (log_body (utc_timestamp now) lvl msg fields) in
    mkLog (g_level st) (stderr st ++ line ++ ["010"%char]).

(** ** What an event is *)

Definition event_tree (ts : str) (lvl : LogLevel) (msg : str) (fields : list LogField) : jval :=
  JObj ((lit "ts", JStr ts) :: (lit "level", JStr (level_name lvl)) :: (lit "msg", JStr msg) ::
        ((fun kv => (kv.1, JStr kv.2)) <$> fields)).

Lemma log_line_render ts lvl msg fields :
  document false (log_body ts lvl msg fields) = render false 0 (event_tree ts lvl msg fields).
Proof.
  apply document_render. unfold log_body. do 3 (apply emits_mem_cons; [emit|]).
  erewrite list_fmap_ext; [apply emits_mem_map|].
  - intros kv. apply emits_field_str.
  - by intros i [k v] _.
Qed.

Lemma event_tree_wf ts lvl msg fields : jwf (event_tree ts lvl msg fields) = true.
Proof. cbn [event_tree jwf forallb andb]. by apply forallb_fmap. Qed.

(** One call of [log_event] with its arguments. *)
Definition event : Type := Z * LogLevel * str * list LogField.

Definition emit_event (st : log_state) (e : event) : log_state :=
  let '(now, lvl, msg, fields) := e in log_event now lvl msg fields st.

Definition event_json (e : event) : jval :=
  let '(now, lvl, msg, fields) := e in event_tree (utc_timestamp now) lvl msg fields.

Definition event_passes (min : LogLevel) (e : event) : bool :=
  let '(_, lvl, _, _) := e in level_rank min <=? level_rank lvl.

Definition nl : byte := "010"%char.

Lemma emit_event_level st e : g_level (emit_event st e) = g_level st.
Proof. destruct e as [[[now lvl] msg] fs]. simpl. unfold log_event. by destruct (_ <? _). Qed.

Lemma emit_event_stderr st e :
  stderr (emit_event st e) =
  stderr st ++ if event_passes (g_level st) e then render false 0 (event_json e) ++ [nl] else [].
Proof.
  destruct e as [[[now lvl] msg] fs]. cbn [emit_event event_passes event_json].
  unfold log_event, log_get_level. rewrite log_line_render.
  destruct (Z.ltb_spec (level_rank lvl) (level_rank (g_level st))),
    (Z.leb_spec (level_rank (g_level st)) (level_rank lvl)); try lia; [|reflexivity].
  by rewrite app_nil_r.
Qed.

Lemma events_stderr evs st :
  stderr (fold_left emit_event evs st) =
  stderr st ++ concat ((fun e => render false 0 (event_json e) ++ [nl]) <$>
                       List.filter (event_passes (g_level st)) evs).
Proof.
  revert st. induction evs as [|e evs IH]; intros st; simpl; [by rewrite app_nil_r|].
  rewrite IH, emit_event_level, emit_event_stderr.
  destruct (event_passes (g_level st) e); simpl; by rewrite <- ?app_assoc, ?app_nil_r.
Qed.

Lemma event_json_wf e : jwf (event_json e) = true.
Proof. destruct e as [[[now lvl] msg] fs]. apply event_tree_wf. Qed.

Lemma clean_line x : clean x -> Forall (fun c => Ascii.eqb c nl = false) x.
Proof.
  intros Hx. eapply Forall_impl; [exact Hx|].
  intros c Hc. cbv beta in Hc. rewrite eqb_code. apply Z.eqb_neq. change (code nl) with 10. lia.
Qed.

(** ** Properties *)

(** After any sequence of log calls the bytes on standard error split into
    exactly one line per call at or above the level, in call order, and every
    line reads back as that call's JSON object, whatever bytes (newlines
    included) the messages and fields contain. *)
Theorem log_lines_parse (min : LogLevel) (evs : list event) :
  parse <$> getlines nl (stderr (fold_left emit_event evs (mkLog min []))) =
  (fun e => Some (event_json e)) <$> List.filter (event_passes min) evs.
Proof.
  rewrite events_stderr. cbn [stderr g_level app].
  rewrite (list_fmap_compose (fun e => render false 0 (event_json e)) (fun x => x ++ [nl])).
  rewrite getlines_concat.
  - rewrite <- list_fmap_compose. apply list_fmap_ext. intros _ e _. simpl.
    apply render_reads, event_json_wf.
  - apply List.Forall_forall. intros x Hx. apply in_map_iff in Hx as (e & <- & _).
    apply clean_line, render_clean, event_json_wf.
Qed.
