(* ===== verification/Inventory.v ===== *)
(** * The inventory (src/inventory.cpp, include/ns/inventory.hpp)

    The records the collectors fill, the collection itself with the platform
    layer behind the [Platform] interface, and the JSON document.  Clocks are
    arguments, in nanoseconds. *)
From S2P Require Import Prelude CppStd Json Log.
From Stdlib Require Import Ascii.

#[local] Open Scope Z_scope.

(** ** version.hpp *)

Definition kAgentName : str := lit "nano-sensor".
Definition kAgentVersion : str := lit "0.1.0".
Definition kAgentStage : str := lit "stage4-service".

(** ** Records *)

Record HostInfo := mkHost {
  hostname : str; os_name : str; os_version : str; kernel : str; arch : str }.

Record NetInterface := mkNet {
  ni_name : str; mac : str; addresses : list str; up : bool; loopback : bool }.

Record ListeningSocket := mkSocket {
  proto : str; local_addr : str; local_port : Z; s_pid : Z; process_name : str;
  world_reachable : bool }.

Record Process := mkProcess { p_pid : Z; ppid : Z; p_name : str; exe_path : str; user : str }.

Record Package := mkPackage { pk_name : str; pk_version : str; pk_vendor : str; source : str }.

Record Inventory := mkInventory {
  agent_name : str; agent_version : str; agent_stage : str; inv_platform : str;
  collected_at_unix_ms : Z; collect_duration_ms : Z;
  host : HostInfo; interfaces : list NetInterface; sockets : list ListeningSocket;
  processes : list Process; packages : list Package; warnings : list str }.

Definition default_host : HostInfo := mkHost [] [] [] [] [].

(** ** The platform layer, as an interface (include/ns/platform.hpp)

    Each collector appends to (or fills) what it is given and returns a status:
    whether it is implemented on this platform, and its warnings. *)

Record Status := mkStatus { implemented : bool; st_warnings : list str }.

Class Platform := {
  platform_name : str;
  collect_host : HostInfo -> HostInfo * Status;
  collect_interfaces : list NetInterface -> list NetInterface * Status;
  collect_listening_sockets : list ListeningSocket -> list ListeningSocket * Status;
  collect_processes : list Process -> list Process * Status;
  collect_packages : list Package -> list Package * Status
}.

(** [duration_cast<milliseconds>] of a nanosecond count. *)
Definition ms_of_ns (ns : Z) : Z := i64 (Z.quot ns 1000000).

Definition unix_time_ms (now : Z) : Z := ms_of_ns now.

Section Collect.
Context `{Platform}.

Definition fold (into : list str) (collector : str) (st : Status) : list str :=
  if negb (implemented st) then
    into ++ [collector ++ lit ": not implemented on " ++ platform_name ++ lit " yet"]
  else into ++ ((fun w => collector ++ lit ": " ++ w) <$> st_warnings st).

(** [wall] is the system clock, [t0] and [t1] the steady clock at the start and
    at the end; [tlog] the system clock when the summary line is logged. *)
Definition collect_inventory (wall t0 t1 tlog : Z) (log : log_state) : Inventory * log_state :=
  let '(h, sh) := collect_host default_host in
  let ws := fold [] (lit "host") sh in
  let '(ifs, si) := collect_interfaces [] in
  let ws := fold ws (lit "interfaces") si in
  let '(socks, ss) := collect_listening_sockets [] in
  let ws := fold ws (lit "sockets") ss in
  let '(procs, sp) := collect_processes [] in
  let ws := fold ws (lit "processes") sp in
  let '(pkgs, sk) := collect_packages [] in
  let ws := fold ws (lit "packages") sk in
  let inv := mkInventory kAgentName kAgentVersion kAgentStage platform_name
               (unix_time_ms wall) (ms_of_ns (t1 - t0)) h ifs socks procs pkgs ws in
  (inv,
   log_event tlog Info (lit "inventory collected")
     [(lit "platform", inv_platform inv);
      (lit "warnings", to_string (Z.of_nat (length (warnings inv))))] log).

End Collect.

(** ** The JSON document *)

Definition interface_op (i : NetInterface) : op :=
  object_elem [
    field_str (lit "name") (ni_name i);
    field_str (lit "mac") (mac i);
    array_at (lit "addresses") (value <$> addresses i);
    field_bool (lit "up") (up i);
    field_bool (lit "loopback") (loopback i)].

Definition socket_op (s : ListeningSocket) : op :=
  object_elem [
    field_str (lit "proto") (proto s);
    field_str (lit "local_addr") (local_addr s);
    field_i64 (lit "local_port") (local_port s);
    (if 0 <=? s_pid s then field_i64 (lit "pid") (s_pid s) else field_null (lit "pid"));
    field_str (lit "process_name") (process_name s);
    field_bool (lit "world_reachable") (world_reachable s)].

Definition process_op (p : Process) : op :=
  object_elem [
    field_i64 (lit "pid") (p_pid p);
    field_i64 (lit "ppid") (ppid p);
    field_str (lit "name") (p_name p);
    field_str (lit "exe_path") (exe_path p);
    field_str (lit "user") (user p)].

Definition package_op (p : Package) : op :=
  object_elem [
    field_str (lit "name") (pk_name p);
    field_str (lit "version") (pk_version p);
    field_str (lit "vendor") (pk_vendor p);
    field_str (lit "source") (source p)].

Definition to_json (inv : Inventory) (p : bool) : str :=
  document p [
    object_at (lit "agent") [
      field_str (lit "name") (agent_name inv);
      field_str (lit "version") (agent_version inv);
      field_str (lit "stage") (agent_stage inv);
      field_str (lit "platform") (inv_platform inv)];
    field_i64 (lit "collected_at_unix_ms") (collected_at_unix_ms inv);
    field_i64 (lit "collect_duration_ms") (collect_duration_ms inv);
    object_at (lit "host") [
      field_str (lit "hostname") (hostname (host inv));
      field_str (lit "os_name") (os_name (host inv));
      field_str (lit "os_version") (os_version (host inv));
      field_str (lit "kernel") (kernel (host inv));
      field_str (lit "arch") (arch (host inv))];
    array_at (lit "interfaces") (interface_op <$> interfaces inv);
    array_at (lit "listening_sockets") (socket_op <$> sockets inv);
    array_at (lit "processes") (process_op <$> processes inv);
    array_at (lit "packages") (package_op <$> packages inv);
    array_at (lit "warnings") (value <$> warnings inv)].

(** ** The document as a tree *)

Definition interface_tree (i : NetInterface) : jval :=
  JObj [(lit "name", JStr (ni_name i)); (lit "mac", JStr (mac i));
        (lit "addresses", JArr (JStr <$> addresses i));
        (lit "up", JBool (up i)); (lit "loopback", JBool (loopback i))].

Definition socket_tree (s : ListeningSocket) : jval :=
  JObj [(lit "proto", JStr (proto s)); (lit "local_addr", JStr (local_addr s));
        (lit "local_port", jint (local_port s));
        (lit "pid", if 0 <=? s_pid s then jint (s_pid s) else JNull);
        (lit "process_name", JStr (process_name s));
        (lit "world_reachable", JBool (world_reachable s))].

Definition process_tree (p : Process) : jval :=
  JObj [(lit "pid", jint (p_pid p)); (lit "ppid", jint (ppid p)); (lit "name", JStr (p_name p));
        (lit "exe_path", JStr (exe_path p)); (lit "user", JStr (user p))].

Definition package_tree (p : Package) : jval :=
  JObj [(lit "name", JStr (pk_name p)); (lit "version", JStr (pk_version p));
        (lit "vendor", JStr (pk_vendor p)); (lit "source", JStr (source p))].

Definition inventory_tree (inv : Inventory) : jval :=
  JObj [(lit "agent", JObj [(lit "name", JStr (agent_name inv));
           (lit "version", JStr (agent_version inv)); (lit "stage", JStr (agent_stage inv));
           (lit "platform", JStr (inv_platform inv))]);
        (lit "collected_at_unix_ms", jint (collected_at_unix_ms inv));
        (lit "collect_duration_ms", jint (collect_duration_ms inv));
        (lit "host", JObj [(lit "hostname", JStr (hostname (host inv)));
           (lit "os_name", JStr (os_name (host inv)));
           (lit "os_version", JStr (os_version (host inv)));
           (lit "kernel", JStr (kernel (host inv))); (lit "arch", JStr (arch (host inv)))]);
        (lit "interfaces", JArr (interface_tree <$> interfaces inv));
        (lit "listening_sockets", JArr (socket_tree <$> sockets inv));
        (lit "processes", JArr (process_tree <$> processes inv));
        (lit "packages", JArr (package_tree <$> packages inv));
        (lit "warnings", JArr (JStr <$> warnings inv))].

Lemma interface_op_emits i : emits (interface_op i) [elem (interface_tree i)].
Proof. unfold interface_op, interface_tree. emit. Qed.
Lemma socket_op_emits s : emits (socket_op s) [elem (socket_tree s)].
Proof. unfold socket_op, socket_tree. emit. Qed.
Lemma process_op_emits p : emits (process_op p) [elem (process_tree p)].
Proof. unfold process_op, process_tree. emit. Qed.
Lemma package_op_emits p : emits (package_op p) [elem (package_tree p)].
Proof. unfold package_op, package_tree. emit. Qed.

Lemma to_json_render inv p : to_json inv p = render p 0 (inventory_tree inv).
Proof.
  apply document_render. emit.
  - apply interface_op_emits.
  - apply socket_op_emits.
  - apply process_op_emits.
  - apply package_op_emits.
Qed.

Lemma inventory_tree_wf inv : jwf (inventory_tree inv) = true.
Proof.
  unfold inventory_tree. cbn [jwf forallb]. rewrite !jwf_int. cbn [andb].
  rewrite !forallb_fmap; [done|..]; intros x; cbn [jwf forallb interface_tree socket_tree
    process_tree package_tree]; rewrite ?jwf_int; try done.
  - by destruct (0 <=? s_pid x); rewrite ?jwf_int.
  - cbn [andb]. by rewrite forallb_fmap.
Qed.

(** ** Properties *)

(** C39: the inventory report, compact or pretty, is JSON that reads back as
    exactly the collected records: every string field byte for byte, every
    number, an unresolved owner as null, every list in order. *)
Theorem to_json_parses (inv : Inventory) (p : bool) :
  parse (to_json inv p) = Some (inventory_tree inv).
Proof. rewrite to_json_render. apply render_reads, inventory_tree_wf. Qed.
