(* ===== verification/Algorithms.v ===== *)
(** * What the code relies on of <algorithm> and <unordered_map>

    [std::sort] promises a permutation sorted by the comparator, when the
    comparator is a strict weak order on the elements; it does not promise
    stability.  Iterating a [std::unordered_map] visits every entry once, in an
    order that is not specified.  Both are interfaces here: the theorems about
    code that sorts or iterates hold for every implementation that keeps these
    promises, and an executable instance of each shows that they can be kept. *)
From S2P Require Import Prelude CppStd.
From Stdlib Require Import Ascii.

#[local] Open Scope Z_scope.

(** A strict weak order, on the elements of a list. *)
Record StrictWeakOn {A} (lt : A -> A -> bool) (l : list A) : Prop := {
  swo_asym x y : x ∈ l -> y ∈ l -> lt x y = true -> lt y x = false;
  swo_ntrans x y z : x ∈ l -> y ∈ l -> z ∈ l ->
    lt x y = false -> lt y z = false -> lt x z = false
}.

Class StdSort := {
  std_sort : forall {A : Type}, (A -> A -> bool) -> list A -> list A;
  std_sort_perm : forall A (lt : A -> A -> bool) l,
    StrictWeakOn lt l -> std_sort lt l ≡ₚ l;
  std_sort_sorted : forall A (lt : A -> A -> bool) l,
    StrictWeakOn lt l -> StronglySorted (fun x y => lt y x = false) (std_sort lt l)
}.

Class UnorderedIter := {
  unordered_iter : forall {V : Type}, gmap str V -> list (str * V);
  unordered_iter_perm : forall V (m : gmap str V), unordered_iter m ≡ₚ map_to_list m
}.

(** [std::unique] and [erase]: of a run of equal elements the first is kept. *)
Fixpoint unique_after {A} (eq : A -> A -> bool) (x : A) (l : list A) : list A :=
  match l with
  | [] => []
  | y :: l' => if eq x y then unique_after eq x l' else y :: unique_after eq y l'
  end.

Definition std_unique {A} (eq : A -> A -> bool) (l : list A) : list A :=
  match l with [] => [] | x :: l' => x :: unique_after eq x l' end.

(** ** Executable instances *)

Section Insertion.
Context {A : Type} (lt : A -> A -> bool).

Fixpoint insert_by (x : A) (l : list A) : list A :=
  match l with
  | [] => [x]
  | y :: l' => if lt x y then x :: l else y :: insert_by x l'
  end.

Fixpoint insertion_sort (l : list A) : list A :=
  match l with [] => [] | x :: l' => insert_by x (insertion_sort l') end.

Lemma insert_by_perm x l : insert_by x l ≡ₚ x :: l.
Proof.
  induction l as [|y l IH]; [done|]. simpl. destruct (lt x y); [done|].
  rewrite IH. apply Permutation_swap.
Qed.

Lemma insertion_sort_perm l : insertion_sort l ≡ₚ l.
Proof. induction l as [|x l IH]; [done|]. simpl. by rewrite insert_by_perm, IH. Qed.

Lemma swo_sub l l' : StrictWeakOn lt l -> (forall x, x ∈ l' -> x ∈ l) -> StrictWeakOn lt l'.
Proof.
  intros [Ha Hn] Hs. split.
  - intros x y Hx Hy. by apply Ha; apply Hs.
  - intros x y z Hx Hy Hz. apply Hn; by apply Hs.
Qed.

Lemma insert_by_sorted x l :
  StrictWeakOn lt (x :: l) -> StronglySorted (fun a b => lt b a = false) l ->
  StronglySorted (fun a b => lt b a = false) (insert_by x l).
Proof.
  intros Hw Hl. induction Hl as [|y l Hl IH Hy]; [repeat constructor|]. simpl.
  assert (StrictWeakOn lt (x :: l)) as Hw' by (eapply swo_sub; [exact Hw|set_solver]).
  destruct (lt x y) eqn:Hxy.
  - constructor; [by constructor|]. constructor; [apply (swo_asym _ _ Hw); set_solver|].
    apply Forall_forall. intros z Hz. rewrite Forall_forall in Hy.
    destruct (lt z x) eqn:Hzx; [|done]. exfalso.
    assert (lt x y = false) as E; [|congruence].
    apply (swo_ntrans _ _ Hw x z y); [set_solver..| |by apply Hy].
    apply (swo_asym _ _ Hw); [set_solver..|done].
  - constructor; [by apply IH|]. apply Forall_forall. intros z Hz.
    rewrite insert_by_perm, elem_of_cons in Hz. rewrite Forall_forall in Hy.
    destruct Hz as [->|Hz]; [done|by apply Hy].
Qed.

Lemma insertion_sort_sorted l :
  StrictWeakOn lt l -> StronglySorted (fun a b => lt b a = false) (insertion_sort l).
Proof.
  induction l as [|x l IH]; intros Hw; [constructor|]. simpl. apply insert_by_sorted.
  - eapply swo_sub; [exact Hw|]. intros z. by rewrite !elem_of_cons, insertion_sort_perm.
  - apply IH. eapply swo_sub; [exact Hw|set_solver].
Qed.
End Insertion.

#[global] Instance insertion_StdSort : StdSort := {
  std_sort := @insertion_sort;
  std_sort_perm A lt l _ := insertion_sort_perm lt l;
  std_sort_sorted A lt l := insertion_sort_sorted lt l
}.

#[global] Instance map_to_list_iter : UnorderedIter := {
  unordered_iter V m := map_to_list m;
  unordered_iter_perm V m := reflexivity _
}.

(** Sorting integers by a strict comparison of a key: the order of the code's
    size and id comparators. *)
Lemma swo_key {A} (f : A -> Z) l : StrictWeakOn (fun x y => f x <? f y) l.
Proof. split; intros; bools; apply Z.ltb_ge; lia. Qed.

Lemma swo_flip_key {A} (f : A -> Z) l : StrictWeakOn (fun x y => f y <? f x) l.
Proof. split; intros; bools; apply Z.ltb_ge; lia. Qed.

(** [std::unique] on a sorted list, when equality is what the order cannot tell
    apart: strictly sorted, nothing new, and every element still represented. *)
Section Unique.
Context {A : Type} (lt eq : A -> A -> bool).
Hypothesis lt_asym : forall a b, lt a b = true -> lt b a = false.
Hypothesis lt_ntrans : forall a b c, lt a b = false -> lt b c = false -> lt a c = false.
Hypothesis eq_lt : forall a b, eq a b = true <-> lt a b = false /\ lt b a = false.

Lemma total_swo l : StrictWeakOn lt l.
Proof. split; eauto. Qed.

Lemma unique_refl x : eq x x = true.
Proof.
  apply eq_lt. enough (lt x x = false) by done. destruct (lt x x) eqn:E; [|done]. by rewrite (lt_asym x x E) in E.
Qed.

Lemma unique_after_sub x l y : y ∈ unique_after eq x l -> y ∈ l.
Proof.
  revert x. induction l as [|z l IH]; intros x; [done|]. cbn. destruct (eq x z).
  - intros H. apply elem_of_cons. right. by eapply IH.
  - rewrite !elem_of_cons. intros [->|H]; [by left|right]. by eapply IH.
Qed.

Lemma unique_after_cover x l y : y ∈ l -> exists z, z ∈ x :: unique_after eq x l /\ eq z y = true.
Proof.
  revert x. induction l as [|z l IH]; intros x Hy; [by apply elem_of_nil in Hy|]. cbn.
  apply elem_of_cons in Hy. destruct (eq x z) eqn:E.
  - destruct Hy as [->|Hy]; [|by apply IH]. exists x. split; [by apply elem_of_cons; left|done].
  - destruct Hy as [->|Hy].
    + exists z. split; [rewrite !elem_of_cons; auto|apply unique_refl].
    + destruct (IH z Hy) as (w & Hw & Ew). exists w. split; [apply elem_of_cons; by right|done].
Qed.

Lemma unique_after_sorted x l :
  StronglySorted (fun a b => lt b a = false) (x :: l) ->
  StronglySorted (fun a b => lt a b = true) (x :: unique_after eq x l).
Proof.
  revert x. induction l as [|z l IH]; intros x Hs; [by repeat constructor|].
  apply StronglySorted_inv in Hs as [Hz Hx]. apply Forall_cons in Hx as [Hxz Hx]. cbn.
  destruct (eq x z) eqn:E.
  - apply IH. constructor; [by apply StronglySorted_inv in Hz as [? _]|done].
  - specialize (IH z Hz). constructor; [done|].
    assert (lt x z = true) as Hlt.
    { destruct (lt x z) eqn:Exz; [done|]. by rewrite (proj2 (eq_lt x z)) in E. }
    constructor; [done|]. apply StronglySorted_inv in IH as [_ IH]. eapply Forall_impl; [exact IH|].
    intros w Hw. cbv beta in *. destruct (lt x w) eqn:Exw; [done|].
    by rewrite (lt_ntrans x w z Exw (lt_asym _ _ Hw)) in Hlt.
Qed.

Lemma unique_sort {HS : StdSort} l :
  let out := std_unique eq (std_sort lt l) in
  StronglySorted (fun a b => lt a b = true) out /\ (forall x, x ∈ out -> x ∈ l) /\
  (forall x, x ∈ l -> exists z, z ∈ out /\ eq z x = true).
Proof.
  pose proof (std_sort_perm A lt l (total_swo l)) as Hp. pose proof (std_sort_sorted A lt l (total_swo l)) as Hs.
  assert (forall x, x ∈ l <-> x ∈ std_sort lt l) as Hin by (intros x; by rewrite Hp).
  cbv zeta. setoid_rewrite Hin. clear Hp Hin. destruct (std_sort lt l) as [|x l']; cbn.
  - split_and!; [constructor|done|]. by intros x ?%elem_of_nil.
  - split_and!; [by apply unique_after_sorted| |].
    + intros y. rewrite !elem_of_cons. intros [->|Hy]; [by left|right]. by eapply unique_after_sub.
    + intros y. rewrite elem_of_cons. intros [->|Hy]; [|by apply unique_after_cover].
      exists x. split; [by apply elem_of_cons; left|apply unique_refl].
Qed.
End Unique.

(** Another reading of the order of a sorted list whose elements all satisfy [P]. *)
Lemma StronglySorted_on {A} (P : A -> Prop) (R Q : A -> A -> Prop) l :
  Forall P l -> StronglySorted R l -> (forall x y, P x -> P y -> R x y -> Q x y) -> StronglySorted Q l.
Proof.
  intros HP HR H. induction HR as [|x l _ IH Hx]; constructor; apply Forall_cons_iff in HP as [Px HP].
  - by apply IH.
  - rewrite Forall_forall in HP, Hx |- *. intros y Hy. apply H; [done|by apply HP|by apply Hx].
Qed.
