(* ===== verification/Cve.v ===== *)
(** * The CVE matcher (src/cve.cpp, include/ns/cve.hpp)

    [CveIndex] with its loaders, the name resolution, the matching of one
    package and of a whole inventory, and the JSON report.  Files are their
    contents ([None] when the open fails); [std::sort] and the iteration order of
    [std::unordered_map] come through the interfaces of [Algorithms].  The
    [std::size_t] counters count elements of vectors in memory and are taken
    unbounded. *)
From S2P Require Import Prelude CppStd Double Vercmp Json Log Inventory Algorithms.
From Stdlib Require Import Ascii SpecFloat.

#[local] Open Scope Z_scope.

Definition tab : byte := "009"%char.

Record CveRule := mkRule {
  r_cve_id : str; r_vendor : str; r_product : str; r_version : str;
  start_incl : str; start_excl : str; end_incl : str; end_excl : str;
  r_score : double; r_severity : str; r_cvss_version : str }.

Record Finding := mkFinding {
  cve_id : str; package_name : str; package_version : str; matched_version : str;
  vendor : str; product : str; cvss_score : double; cvss_severity : str; cvss_version : str;
  network_exposed : bool }.

Record ScanSummary := mkSummary {
  packages_total : Z; packages_mapped : Z; packages_unmapped : Z; packages_no_version : Z;
  n_findings : Z; critical : Z; high : Z; medium : Z; low : Z; exposed_findings : Z;
  unmapped_names : list str }.

Definition new_summary : ScanSummary := mkSummary 0 0 0 0 0 0 0 0 0 0 [].

Record CveIndex := mkIndex {
  by_product_ : gmap str (list CveRule);
  exact_ : gmap str str;
  prefixes_ : list (str * str);
  rule_count_ : Z }.

Definition new_index : CveIndex := mkIndex ∅ ∅ [] 0.

Definition rule_count (x : CveIndex) : Z := rule_count_ x.
Definition product_count (x : CveIndex) : Z := Z.of_nat (size (by_product_ x)).
Definition alias_count (x : CveIndex) : Z :=
  Z.of_nat (size (exact_ x)) + Z.of_nat (length (prefixes_ x)).

(** ** Text helpers *)

Definition split_tabs (line : str) : list str := getlines tab line.

Definition blanks : str := [" "; "009"; "013"; "010"]%char.
Definition not_blank (c : byte) : bool := negb (elem_of_set blanks c).

Definition trim (s : str) : str :=
  match find_first not_blank s with
  | None => []
  | Some b =>
      match find_last not_blank s with
      | Some e => substr s b (e - b + 1)
      | None => []
      end
  end.

Fixpoint version_chars (t : str) (digit : bool) : bool :=
  match t with
  | [] => digit
  | c :: t' =>
      if isdigit c then version_chars t' true
      else if negb (Ascii.eqb c ".") && negb (Ascii.eqb c ",") then false
      else version_chars t' digit
  end.

Definition token_is_version (t : str) : bool :=
  match t with
  | c :: (_ :: _) as t => version_chars (if Ascii.eqb c "v" then tail t else t) false
  | _ => version_chars t false
  end.

Definition kNoise : list str :=
  [lit "x64"; lit "x86"; lit "amd64"; lit "arm64"; lit "win32"; lit "win64"; lit "64-bit";
   lit "32-bit"; lit "(64-bit)"; lit "(32-bit)"; lit "en-us"; lit "en_us"; lit "bit";
   lit "edition"; lit "-"].

Definition token_is_noise (t : str) : bool := existsb (str_eqb t) kNoise.

Definition d_9 : double := strtod (lit "9").
Definition d_7 : double := strtod (lit "7").
Definition d_4 : double := strtod (lit "4").

Definition severity_bucket (sev : str) (score : double) : str :=
  match sev with
  | _ :: _ => tolower <$> sev
  | [] =>
      if d_le d_9 score then lit "critical"
      else if d_le d_7 score then lit "high"
      else if d_le d_4 score then lit "medium"
      else if d_lt d_zero score then lit "low"
      else lit "none"
  end.

(** The lower-cased bytes outside brackets; [depth] is the bracket nesting. *)
Fixpoint strip_brackets (depth : Z) (raw : str) : str :=
  match raw with
  | [] => []
  | c :: raw' =>
      if Ascii.eqb c "(" || Ascii.eqb c "[" then strip_brackets (depth + 1) raw'
      else if Ascii.eqb c ")" || Ascii.eqb c "]" then
        strip_brackets (if 0 <? depth then depth - 1 else depth) raw'
      else if 0 <? depth then strip_brackets depth raw'
      else tolower c :: strip_brackets depth raw'
  end.

(** [for (i...) { if (i) out += ' '; out += keep[i]; }] *)
Definition join (keep : list str) : str :=
  match keep with
  | [] => []
  | x :: l => x ++ (l ≫= fun t => " "%char :: t)
  end.

Definition keep_token (t : str) : bool := negb (token_is_version t || token_is_noise t).

Definition normalize_name (raw : str) : str :=
  trim (join (List.filter keep_token (words (strip_brackets 0 raw)))).

(** ** Loading *)

Definition product_key (v p : str) : str := v ++ lit ":" ++ p.

Definition kRuleHeader : str :=
  lit "cve_id" ++ [tab] ++ lit "vendor" ++ [tab] ++ lit "product" ++ [tab] ++ lit "version".

Definition rule_of_row (c : list str) : CveRule :=
  let f i := nth i c [] in
  mkRule (f 0%nat) (f 1%nat) (f 2%nat) (f 3%nat) (f 5%nat) (f 6%nat) (f 7%nat) (f 8%nat)
    (match f 9%nat with [] => d_zero | _ => strtod (f 9%nat) end) (f 10%nat) (f 11%nat).

Definition is_comment_or_blank (line : str) : bool :=
  match line with [] => true | c :: _ => Ascii.eqb c "#" end.

Definition load_rule_line (idx : CveIndex) (line : str) : CveIndex :=
  if is_comment_or_blank line then idx
  else
    let c := split_tabs line in
    if (length c <? 12)%nat then idx
    else
      let r := rule_of_row c in
      let k := product_key (r_vendor r) (r_product r) in
      mkIndex (<[k := default [] (by_product_ idx !! k) ++ [r]]> (by_product_ idx))
        (exact_ idx) (prefixes_ idx) (rule_count_ idx + 1).

Definition load_rules (path : str) (file : option str) (idx : CveIndex) : CveIndex * option str :=
  match file with
  | None => (idx, Some (lit "cannot open CVE index: " ++ path))
  | Some text =>
      match getlines nl text with
      | [] => (idx, Some (lit "CVE index is empty: " ++ path))
      | header :: rows =>
          if starts_with kRuleHeader header then (fold_left load_rule_line rows idx, None)
          else (idx, Some (lit "unexpected CVE index header in " ++ path))
      end
  end.

Definition load_alias_line (idx : CveIndex) (line : str) : CveIndex :=
  let line := trim line in
  if is_comment_or_blank line then idx
  else
    let c := split_tabs line in
    if (length c <? 4)%nat then idx
    else
      let f i := trim (nth i c []) in
      let target := f 2%nat ++ lit ":" ++ f 3%nat in
      if str_eqb (f 0%nat) (lit "exact") then
        mkIndex (by_product_ idx) (<[f 1%nat := target]> (exact_ idx)) (prefixes_ idx)
          (rule_count_ idx)
      else if str_eqb (f 0%nat) (lit "prefix") then
        mkIndex (by_product_ idx) (exact_ idx) (prefixes_ idx ++ [(f 1%nat, target)])
          (rule_count_ idx)
      else idx.

(** ** Resolving a name *)

(** The two parts of ["vendor:product"]; without a colon both are the whole. *)
Definition split_target (target : str) : str * str :=
  match find_char ":" target with
  | Some i => (take i target, drop (S i) target)
  | None => (target, target)
  end.

(** Drop trailing words one at a time.  Every round shortens the text, so its
    length is enough fuel. *)
Fixpoint drop_words (fuel : nat) (exact : gmap str str) (trimmed : str) : option str :=
  match fuel with
  | O => None
  | S f =>
      match rfind_char " " trimmed with
      | None => None
      | Some space =>
          let trimmed := take space trimmed in
          match exact !! trimmed with
          | Some target => Some target
          | None => drop_words f exact trimmed
          end
      end
  end.

Definition resolve (idx : CveIndex) (raw_name : str) : option (str * str) :=
  let norm := normalize_name raw_name in
  match norm with
  | [] => None
  | _ =>
      match exact_ idx !! norm with
      | Some target => Some (split_target target)
      | None =>
          match List.find (fun '(prefix, _) => starts_with prefix norm) (prefixes_ idx) with
          | Some (_, target) => Some (split_target target)
          | None => split_target <$> drop_words (length norm) (exact_ idx) norm
          end
      end
  end.

(** ** Matching *)

Definition has_range (r : CveRule) : bool :=
  negb (empty (start_incl r)) || negb (empty (start_excl r)) ||
  negb (empty (end_incl r)) || negb (empty (end_excl r)).

Definition rule_hits (v : str) (r : CveRule) : bool :=
  if negb (str_eqb (r_version r) (lit "*")) && negb (str_eqb (r_version r) (lit "-")) &&
     negb (empty (r_version r))
  then version_compare v (r_version r) =? 0
  else if has_range r then
    version_in_range v (start_incl r) (start_excl r) (end_incl r) (end_excl r)
  else true.

Definition finding_of (pkg : Package) (v vendor product : str) (r : CveRule) : Finding :=
  mkFinding (r_cve_id r) (pk_name pkg) (pk_version pkg) v vendor product (r_score r)
    (severity_bucket (r_severity r) (r_score r)) (r_cvss_version r) false.

(** One round of the loop over the product's rules. *)
Definition best_step (pkg : Package) (v vendor product : str) (best : gmap str Finding)
    (r : CveRule) : gmap str Finding :=
  if rule_hits v r then
    let fnd := finding_of pkg v vendor product r in
    match best !! r_cve_id r with
    | None => <[r_cve_id r := fnd]> best
    | Some existing =>
        if d_lt (cvss_score existing) (cvss_score fnd) then <[r_cve_id r := fnd]> best else best
    end
  else best.

Section Matching.
Context {HS : StdSort} {HU : UnorderedIter}.

Definition longer_prefix (a b : str * str) : bool := len (fst b) <? len (fst a).

Definition load_aliases (path : str) (file : option str) (idx : CveIndex) : CveIndex * option str :=
  match file with
  | None => (idx, Some (lit "cannot open alias table: " ++ path))
  | Some text =>
      let idx := fold_left load_alias_line (getlines nl text) idx in
      (mkIndex (by_product_ idx) (exact_ idx) (std_sort longer_prefix (prefixes_ idx))
         (rule_count_ idx), None)
  end.

Definition match_package (idx : CveIndex) (pkg : Package) : list Finding :=
  match resolve idx (pk_name pkg) with
  | None => []
  | Some (vendor, product) =>
      if empty (pk_version pkg) then []
      else
        match by_product_ idx !! product_key vendor product with
        | None => []
        | Some rules =>
            let v := version_upstream_part (pk_version pkg) in
            if empty v then []
            else snd <$> unordered_iter (fold_left (best_step pkg v vendor product) rules ∅)
        end
  end.

(** ** Scanning an inventory *)

Definition exposed_step (idx : CveIndex) (acc : gset str) (s : ListeningSocket) : gset str :=
  if negb (world_reachable s) || empty (process_name s) then acc
  else
    match resolve idx (process_name s) with
    | Some (vendor, product) => {[ product_key vendor product ]} ∪ acc
    | None => acc
    end.

Definition exposed_products (idx : CveIndex) (ss : list ListeningSocket) : gset str :=
  fold_left (exposed_step idx) ss ∅.

Definition set_exposed (b : bool) (f : Finding) : Finding :=
  mkFinding (cve_id f) (package_name f) (package_version f) (matched_version f) (vendor f)
    (product f) (cvss_score f) (cvss_severity f) (cvss_version f) b.

Definition scan_package (idx : CveIndex) (exposed : gset str) (st : ScanSummary * list Finding)
    (pkg : Package) : ScanSummary * list Finding :=
  let '(s, all) := st in
  match resolve idx (pk_name pkg) with
  | None =>
      (mkSummary (packages_total s) (packages_mapped s) (packages_unmapped s + 1)
         (packages_no_version s) (n_findings s) (critical s) (high s) (medium s) (low s)
         (exposed_findings s)
         (if (length (unmapped_names s) <? 50)%nat then unmapped_names s ++ [pk_name pkg]
          else unmapped_names s), all)
  | Some (vendor, product) =>
      let s := mkSummary (packages_total s) (packages_mapped s + 1) (packages_unmapped s)
         (packages_no_version s) (n_findings s) (critical s) (high s) (medium s) (low s)
         (exposed_findings s) (unmapped_names s) in
      if empty (pk_version pkg) then
        (mkSummary (packages_total s) (packages_mapped s) (packages_unmapped s)
           (packages_no_version s + 1) (n_findings s) (critical s) (high s) (medium s) (low s)
           (exposed_findings s) (unmapped_names s), all)
      else
        let is_exposed := bool_decide (product_key vendor product ∈ exposed) in
        (s, all ++ (set_exposed is_exposed <$> match_package idx pkg))
  end.

(** [std::sort]'s comparator: by score, then by id, both descending. *)
Definition finding_before (a b : Finding) : bool :=
  if negb (d_eqb (cvss_score a) (cvss_score b)) then d_lt (cvss_score b) (cvss_score a)
  else str_ltb (cve_id b) (cve_id a).

Definition count_finding (s : ScanSummary) (f : Finding) : ScanSummary :=
  let sev_is x := str_eqb (cvss_severity f) (lit x) in
  let one (b : bool) := if b then 1 else 0 in
  let c := sev_is "critical"%string in
  let h := negb c && sev_is "high"%string in
  let m := negb c && negb h && sev_is "medium"%string in
  let l := negb c && negb h && negb m && sev_is "low"%string in
  mkSummary (packages_total s) (packages_mapped s) (packages_unmapped s) (packages_no_version s)
    (n_findings s) (critical s + one c) (high s + one h) (medium s + one m) (low s + one l)
    (exposed_findings s + one (network_exposed f)) (unmapped_names s).

Definition set_total (n : Z) (s : ScanSummary) : ScanSummary :=
  mkSummary n (packages_mapped s) (packages_unmapped s) (packages_no_version s) (n_findings s)
    (critical s) (high s) (medium s) (low s) (exposed_findings s) (unmapped_names s).

Definition set_findings (n : Z) (s : ScanSummary) : ScanSummary :=
  mkSummary (packages_total s) (packages_mapped s) (packages_unmapped s) (packages_no_version s) n
    (critical s) (high s) (medium s) (low s) (exposed_findings s) (unmapped_names s).

Definition scan (idx : CveIndex) (inv : Inventory) (summary : ScanSummary) : list Finding * ScanSummary :=
  let exposed := exposed_products idx (sockets inv) in
  let summary := set_total (Z.of_nat (length (packages inv))) summary in
  let '(summary, all) := fold_left (scan_package idx exposed) (packages inv) (summary, []) in
  let all := std_sort finding_before all in
  let summary := set_findings (Z.of_nat (length all)) summary in
  (all, fold_left count_finding all summary).

End Matching.

(** ** The report *)

Definition finding_op (f : Finding) : op :=
  object_elem [
    field_str (lit "cve") (cve_id f);
    field_str (lit "package") (package_name f);
    field_str (lit "installed_version") (package_version f);
    field_str (lit "matched_version") (matched_version f);
    field_str (lit "cpe_vendor") (vendor f);
    field_str (lit "cpe_product") (product f);
    field_double (lit "cvss_score") (cvss_score f);
    field_str (lit "cvss_severity") (cvss_severity f);
    field_str (lit "cvss_version") (cvss_version f);
    field_bool (lit "network_exposed") (network_exposed f)].

Definition findings_to_json (findings : list Finding) (summary : ScanSummary) (inv : Inventory)
    (p : bool) : str :=
  document p [
    object_at (lit "agent") [
      field_cstr (lit "name") (Some kAgentName);
      field_cstr (lit "version") (Some kAgentVersion);
      field_cstr (lit "stage") (Some kAgentStage);
      field_str (lit "platform") (inv_platform inv)];
    field_str (lit "hostname") (hostname (host inv));
    field_str (lit "os_name") (os_name (host inv));
    field_i64 (lit "collected_at_unix_ms") (collected_at_unix_ms inv);
    object_at (lit "summary") [
      field_i64 (lit "packages_total") (packages_total summary);
      field_i64 (lit "packages_mapped") (packages_mapped summary);
      field_i64 (lit "packages_unmapped") (packages_unmapped summary);
      field_i64 (lit "packages_no_version") (packages_no_version summary);
      field_i64 (lit "findings") (n_findings summary);
      field_i64 (lit "critical") (critical summary);
      field_i64 (lit "high") (high summary);
      field_i64 (lit "medium") (medium summary);
      field_i64 (lit "low") (low summary);
      field_i64 (lit "network_exposed_findings") (exposed_findings summary)];
    array_at (lit "findings") (finding_op <$> findings);
    array_at (lit "unmapped_packages") (value <$> unmapped_names summary)].

(** ** Normalised names *)

Lemma join_cons w x l : join (w :: x :: l) = w ++ " "%char :: join (x :: l).
Proof. done. Qed.

Lemma words_join l : Forall word l -> words (join l) = l.
Proof.
  induction l as [|w l IH]; intros Hl; [done|]. apply Forall_cons_iff in Hl as [Hw Hl].
  destruct l as [|x l]; [|by rewrite join_cons, words_space_cons, IH].
  simpl. rewrite app_nil_r. by apply words_single.
Qed.

Lemma join_Forall (P : byte -> Prop) l : P " "%char -> Forall (Forall P) l -> Forall P (join l).
Proof.
  intros Hs. induction l as [|w l IH]; intros Hl; [constructor|].
  apply Forall_cons_iff in Hl as [Hw Hl]. destruct l as [|x l].
  - simpl. by rewrite app_nil_r.
  - rewrite join_cons. apply Forall_app. split; [done|]. constructor; auto.
Qed.

Lemma join_last l : Forall word l -> l <> [] ->
  exists a c, join l = a ++ [c] /\ isspace c = false.
Proof.
  induction l as [|w l IH]; intros Hl Hne; [done|]. apply Forall_cons_iff in Hl as [[Hw Hs] Hl].
  destruct l as [|x l].
  - destruct (exists_last Hw) as (a & c & ->). apply Forall_app in Hs as [_ Hs].
    apply Forall_cons_iff in Hs as [Hc _]. exists a, c. simpl. by rewrite app_nil_r.
  - destruct IH as (a & c & E & Hc); [done|done|]. rewrite join_cons, E.
    exists (w ++ " "%char :: a), c. by rewrite <- app_assoc.
Qed.

Lemma space_not_blank c : isspace c = false -> not_blank c = true.
Proof. by destruct c as [[] [] [] [] [] [] [] []]. Qed.

(** [trim] leaves alone what starts and ends with a non-blank byte. *)
Lemma trim_id c r a d :
  c :: r = a ++ [d] -> not_blank c = true -> not_blank d = true -> trim (c :: r) = c :: r.
Proof.
  intros E Hc Hd. unfold trim. cbn [find_first]. rewrite Hc, E.
  rewrite find_last_app by done. unfold substr. rewrite drop_0, Nat.sub_0_r.
  apply take_ge. rewrite length_app. simpl. lia.
Qed.

Lemma trim_join l : Forall word l -> trim (join l) = join l.
Proof.
  intros Hl. destruct l as [|w l]; [done|].
  destruct (join_last (w :: l)) as (a & d & E & Hd); [done..|].
  destruct (join (w :: l)) as [|c r] eqn:Ej; [done|].
  apply (trim_id c r a d E); [|by apply space_not_blank].
  apply space_not_blank. apply Forall_cons_iff in Hl as [[Hw Hs] _].
  destruct w as [|c' w]; [done|]. apply Forall_cons_iff in Hs as [Hs _].
  simpl in Ej. by simplify_eq.
Qed.

(** A byte the reduction keeps as it is: lower case, no bracket. *)
Definition kept_byte (c : byte) : Prop :=
  tolower c = c /\ elem_of_set (lit "()[]") c = false.

Lemma strip_brackets_kept d raw : Forall kept_byte (strip_brackets d raw).
Proof.
  revert d. induction raw as [|c raw IH]; intros d; [constructor|]. cbn [strip_brackets].
  destruct (Ascii.eqb c "(" || Ascii.eqb c "[") eqn:E1; [done|].
  destruct (Ascii.eqb c ")" || Ascii.eqb c "]") eqn:E2; [done|].
  destruct (0 <? d); [done|]. constructor; [|done].
  split; [apply tolower_idemp|]. revert E1 E2. by destruct c as [[] [] [] [] [] [] [] []].
Qed.

Lemma strip_brackets_id s : Forall kept_byte s -> strip_brackets 0 s = s.
Proof.
  induction 1 as [|c s [Hl Hb] _ IH]; [done|]. cbn [strip_brackets].
  cbn [elem_of_set existsb lit String.list_ascii_of_string] in Hb.
  rewrite !orb_false_iff in Hb. destruct Hb as (-> & -> & -> & -> & _). simpl. by rewrite Hl, IH.
Qed.

Lemma filter_idem {A} (P : A -> bool) l : List.filter P (List.filter P l) = List.filter P l.
Proof.
  induction l as [|x l IH]; [done|]. simpl. destruct (P x) eqn:E; [|done]. simpl. by rewrite E, IH.
Qed.

Lemma filter_Forall {A} (P : A -> Prop) f l : Forall P l -> Forall P (List.filter f l).
Proof. induction 1 as [|x l Hx _ IH]; [done|]. simpl. destruct (f x); auto. Qed.

Lemma normalize_words raw :
  let ks := List.filter keep_token (words (strip_brackets 0 raw)) in
  Forall word ks /\ Forall (Forall kept_byte) ks /\ normalize_name raw = join ks.
Proof.
  intros ks. pose proof (words_Forall _ _ (strip_brackets_kept 0 raw)) as H.
  apply (filter_Forall _ keep_token) in H. apply Forall_and in H as [Hw Hk].
  split; [done|]. split; [done|]. by apply trim_join.
Qed.

(** ** Loading *)

Definition rule_key (r : CveRule) : str := product_key (r_vendor r) (r_product r).

(** The rules a line of the index contributes: one or none. *)
Definition row_rules (line : str) : list CveRule :=
  if is_comment_or_blank line then []
  else let c := split_tabs line in if (length c <? 12)%nat then [] else [rule_of_row c].

Definition rules_for (k : str) (rs : list CveRule) : list CveRule :=
  List.filter (fun r => str_eqb (rule_key r) k) rs.

Lemma load_rule_line_spec idx line k :
  default [] (by_product_ (load_rule_line idx line) !! k) =
    default [] (by_product_ idx !! k) ++ rules_for k (row_rules line) /\
  rule_count_ (load_rule_line idx line) = rule_count_ idx + Z.of_nat (length (row_rules line)) /\
  exact_ (load_rule_line idx line) = exact_ idx /\
  prefixes_ (load_rule_line idx line) = prefixes_ idx.
Proof.
  unfold load_rule_line, row_rules, rules_for.
  destruct (is_comment_or_blank line); [simpl; rewrite app_nil_r; repeat split; lia|].
  cbv zeta. destruct (length (split_tabs line) <? 12)%nat;
    [simpl; rewrite app_nil_r; repeat split; lia|].
  set (r := rule_of_row (split_tabs line)). cbn [by_product_ rule_count_ exact_ prefixes_ length].
  split; [|repeat split; lia]. change (product_key (r_vendor r) (r_product r)) with (rule_key r).
  simpl. destruct (decide (rule_key r = k)) as [->|Hne].
  - rewrite lookup_insert_eq. cbn [default from_option].
    by rewrite (proj2 (str_eqb_eq k k)).
  - rewrite lookup_insert_ne by done. rewrite (proj2 (str_eqb_neq _ _)) by done.
    by rewrite app_nil_r.
Qed.

Lemma load_rows_spec rows idx k :
  let idx' := fold_left load_rule_line rows idx in
  default [] (by_product_ idx' !! k) =
    default [] (by_product_ idx !! k) ++ rules_for k (rows ≫= row_rules) /\
  rule_count_ idx' = rule_count_ idx + Z.of_nat (length (rows ≫= row_rules)) /\
  exact_ idx' = exact_ idx /\ prefixes_ idx' = prefixes_ idx.
Proof.
  revert idx. induction rows as [|line rows IH]; intros idx; simpl.
  { rewrite app_nil_r. repeat split; lia. }
  destruct (load_rule_line_spec idx line k) as (H1 & H2 & H3 & H4).
  destruct (IH (load_rule_line idx line)) as (I1 & I2 & I3 & I4). cbv zeta in *.
  rewrite I1, I2, I3, I4, H1, H2, H3, H4. unfold rules_for.
  rewrite List.filter_app, length_app, <- app_assoc.
  change (list_bind str CveRule row_rules rows) with (rows ≫= row_rules). repeat split; lia.
Qed.

(** ** Resolving *)

(** The proper prefixes of a text that end before a space, longest first. *)
Fixpoint word_prefixes (fuel : nat) (t : str) : list str :=
  match fuel with
  | O => []
  | S f =>
      match rfind_char " " t with
      | None => []
      | Some i => take i t :: word_prefixes f (take i t)
      end
  end.

Lemma find_last_lt P s i : find_last P s = Some i -> (i < length s)%nat.
Proof.
  revert i. induction s as [|c s IH]; intros i; simpl; [done|].
  destruct (find_last P s) as [j|]; [|destruct (P c)]; intros [= <-]; [|lia].
  specialize (IH j eq_refl). lia.
Qed.

(** More fuel changes nothing: the loop ends because no space is left. *)
Lemma drop_words_fuel f g exact t :
  (length t <= f)%nat -> (length t <= g)%nat -> drop_words f exact t = drop_words g exact t.
Proof.
  revert g t. induction f as [|f IH]; intros g t Hf Hg.
  - destruct t; [|simpl in Hf; lia]. by destruct g.
  - destruct g as [|g]; [destruct t; [done|simpl in Hg; lia]|]. simpl.
    destruct (rfind_char " " t) as [i|] eqn:E; [|done]. apply find_last_lt in E.
    destruct (exact !! take i t); [done|]. apply IH; rewrite length_take; lia.
Qed.

Lemma drop_words_find f exact t :
  drop_words f exact t =
  List.find (fun t => bool_decide (is_Some (exact !! t))) (word_prefixes f t) ≫= (exact !!.).
Proof.
  revert t. induction f as [|f IH]; intros t; [done|]. simpl.
  destruct (rfind_char " " t) as [i|]; [|done]. simpl.
  destruct (exact !! take i t) as [x|] eqn:E.
  - rewrite bool_decide_eq_true_2 by done. by simpl.
  - rewrite bool_decide_eq_false_2; [apply IH|]. by intros [? ?].
Qed.

Lemma split_target_no_colon t : Forall (fun c => Ascii.eqb ":" c = false) (split_target t).1.
Proof.
  unfold split_target, find_char. destruct (find_first (Ascii.eqb ":") t) as [i|] eqn:E; simpl.
  - by destruct (find_first_Some _ _ _ E) as (c & _ & _ & H).
  - by apply find_first_None.
Qed.

Lemma resolve_vendor idx n v p :
  resolve idx n = Some (v, p) -> Forall (fun c => Ascii.eqb ":" c = false) v.
Proof.
  unfold resolve. destruct (normalize_name n) as [|c t]; [done|].
  intros H. assert (exists t, split_target t = (v, p)) as [u Hu].
  { destruct (exact_ idx !! (c :: t)) as [x|]; [exists x; congruence|].
    destruct (List.find _ _) as [[q x]|]; [exists x; congruence|].
    destruct (drop_words _ _ _) as [x|]; [exists x; simpl in H; congruence|done]. }
  pose proof (split_target_no_colon u) as Hn. by rewrite Hu in Hn.
Qed.

Lemma product_key_inj v p v' p' :
  Forall (fun c => Ascii.eqb ":" c = false) v -> Forall (fun c => Ascii.eqb ":" c = false) v' ->
  product_key v p = product_key v' p' -> v = v' /\ p = p'.
Proof.
  unfold product_key. intros H H' E.
  pose proof (find_first_app (Ascii.eqb ":") v ":" p H eq_refl) as F.
  pose proof (find_first_app (Ascii.eqb ":") v' ":" p' H' eq_refl) as F'.
  simpl in E. rewrite E, F' in F. injection F as F. apply app_inj_1 in E; [|done].
  destruct E as [-> E]. by simplify_eq.
Qed.

Lemma load_alias_line_rules idx line :
  by_product_ (load_alias_line idx line) = by_product_ idx /\
  rule_count_ (load_alias_line idx line) = rule_count_ idx.
Proof. unfold load_alias_line. split_ifs; done. Qed.

(** ** The best finding per advisory *)

Section Best.
Context (pkg : Package) (v vend prod : str).

Definition best_ok (best : gmap str Finding) (seen : list CveRule) : Prop :=
  (forall id f, best !! id = Some f ->
     exists r, r ∈ seen /\ rule_hits v r = true /\ r_cve_id r = id /\
       f = finding_of pkg v vend prod r /\
       forall r', r' ∈ seen -> rule_hits v r' = true -> r_cve_id r' = id ->
         d_lt (r_score r) (r_score r') = false) /\
  (forall r, r ∈ seen -> rule_hits v r = true -> is_Some (best !! r_cve_id r)).

Lemma best_keep best seen r :
  best_ok best seen ->
  (rule_hits v r = true -> exists f, best !! r_cve_id r = Some f /\
     d_lt (cvss_score f) (r_score r) = false) ->
  best_ok best (seen ++ [r]).
Proof.
  intros [H1 H2] Hr. split.
  - intros id f Hf. destruct (H1 id f Hf) as (r0 & Hin & Hh & <- & Ef & Hmax).
    exists r0. rewrite elem_of_app. repeat split; try done; [by left|].
    intros r' Hr' Hh' Eid. rewrite elem_of_app, list_elem_of_singleton in Hr'.
    destruct Hr' as [Hr'| ->]; [by apply Hmax|].
    destruct (Hr Hh') as (f' & Hf' & Hle). rewrite Eid in Hf'. simplify_eq. done.
  - intros r0. rewrite elem_of_app, list_elem_of_singleton. intros [Hin| ->] Hh; [by apply H2|].
    destruct (Hr Hh) as (f & Hf & _). by exists f.
Qed.

Lemma best_replace best seen r :
  best_ok best seen -> rule_hits v r = true ->
  (forall f, best !! r_cve_id r = Some f -> d_lt (cvss_score f) (r_score r) = true) ->
  best_ok (<[r_cve_id r := finding_of pkg v vend prod r]> best) (seen ++ [r]).
Proof.
  intros [H1 H2] Hh Hlt. split.
  - intros id f Hf. destruct (decide (r_cve_id r = id)) as [<-|Hne].
    + rewrite lookup_insert_eq in Hf. simplify_eq. exists r.
      rewrite elem_of_app, list_elem_of_singleton. repeat split; try done; [by right|].
      intros r' Hr' Hh' Eid. rewrite elem_of_app, list_elem_of_singleton in Hr'.
      destruct Hr' as [Hr'| ->]; [|apply d_lt_irrefl].
      destruct (H2 r' Hr' Hh') as [f Hf]. rewrite Eid in Hf.
      destruct (H1 _ _ Hf) as (r0 & _ & _ & _ & -> & Hmax). specialize (Hlt _ Hf). simpl in Hlt.
      specialize (Hmax r' Hr' Hh' Eid). destruct (d_lt (r_score r) (r_score r')) eqn:E; [|done].
      rewrite <- Hmax. symmetry. by apply (d_lt_trans _ (r_score r)).
    + rewrite lookup_insert_ne in Hf by done.
      destruct (H1 id f Hf) as (r0 & Hin & Hh0 & Eid & Ef & Hmax).
      exists r0. rewrite elem_of_app. repeat split; try done; [by left|].
      intros r' Hr' Hh' Eid'. rewrite elem_of_app, list_elem_of_singleton in Hr'.
      destruct Hr' as [Hr'| ->]; [by apply Hmax|done].
  - intros r0. rewrite elem_of_app, list_elem_of_singleton. intros [Hin| ->] Hh0.
    + destruct (decide (r_cve_id r = r_cve_id r0)) as [->|Hne]; [by rewrite lookup_insert_eq|].
      rewrite lookup_insert_ne by done. by apply H2.
    + by rewrite lookup_insert_eq.
Qed.

Lemma best_step_ok best seen r :
  best_ok best seen -> best_ok (best_step pkg v vend prod best r) (seen ++ [r]).
Proof.
  intros H. unfold best_step. destruct (rule_hits v r) eqn:Hh.
  - destruct (best !! r_cve_id r) as [f|] eqn:Hf.
    + destruct (d_lt (cvss_score f) (cvss_score (finding_of pkg v vend prod r))) eqn:Hlt.
      * apply best_replace; [done..|]. intros f' Hf'. by simplify_eq.
      * apply best_keep; [done|]. intros _. by exists f.
    + apply best_replace; [done..|]. intros f' Hf'. by simplify_eq.
  - apply best_keep; [done|]. by rewrite Hh.
Qed.

Lemma best_fold_ok rules best seen :
  best_ok best seen -> best_ok (fold_left (best_step pkg v vend prod) rules best) (seen ++ rules).
Proof.
  revert best seen. induction rules as [|r rules IH]; intros best seen H; simpl.
  - by rewrite app_nil_r.
  - rewrite (cons_middle r seen rules), app_assoc. apply IH. by apply best_step_ok.
Qed.

Lemma best_all_ok rules : best_ok (fold_left (best_step pkg v vend prod) rules ∅) rules.
Proof. apply (best_fold_ok rules ∅ []). split; [done|]. intros r Hr. by apply elem_of_nil in Hr. Qed.
End Best.

(** ** The order of a report *)

Lemma str_nltb_trans a b c : str_ltb a b = false -> str_ltb b c = false -> str_ltb a c = false.
Proof.
  intros H1 H2. destruct (str_ltb a c) eqn:E; [|done]. rewrite <- H2. symmetry.
  destruct (str_ltb b a) eqn:Hba; [by apply (str_ltb_trans _ a)|].
  by rewrite <- (str_ltb_total a b H1 Hba).
Qed.

Definition scored (f : Finding) : Prop := is_nan (cvss_score f) = false.

Lemma before_iff a b : scored a -> scored b ->
  finding_before a b = true <->
  key_lt (key (cvss_score b)) (key (cvss_score a)) \/
  (key (cvss_score a) = key (cvss_score b) /\ str_ltb (cve_id b) (cve_id a) = true).
Proof.
  intros Ha Hb. unfold finding_before. rewrite <- (d_lt_key _ _ Hb Ha), <- (d_eqb_key _ _ Ha Hb).
  destruct (d_eqb _ _) eqn:E; simpl; [|naive_solver].
  split; [naive_solver|]. intros [H|[_ H]]; [|done]. exfalso.
  apply d_eqb_key in E; [|done..]. apply d_lt_key in H; [|done..]. rewrite E in H.
  destruct (key (cvss_score b)) as [[? ?] ?]. unfold key_lt in H. lia.
Qed.

Lemma key_trichotomy a b : key_lt a b \/ a = b \/ key_lt b a.
Proof.
  destruct a as [[a1 a2] a3], b as [[b1 b2] b3]. unfold key_lt.
  destruct (Z.lt_total a1 b1) as [|[->|]], (Z.lt_total a2 b2) as [|[->|]],
    (Z.lt_total a3 b3) as [|[->|]]; auto; lia.
Qed.

Lemma key_lt_trans a b c : key_lt a b -> key_lt b c -> key_lt a c.
Proof. destruct a as [[? ?] ?], b as [[? ?] ?], c as [[? ?] ?]. unfold key_lt. lia. Qed.

Lemma key_lt_irrefl a : ~ key_lt a a.
Proof. destruct a as [[? ?] ?]. unfold key_lt. lia. Qed.

Lemma nbefore_iff a b : scored a -> scored b ->
  finding_before a b = false <->
  key_lt (key (cvss_score a)) (key (cvss_score b)) \/
  (key (cvss_score a) = key (cvss_score b) /\ str_ltb (cve_id b) (cve_id a) = false).
Proof.
  intros Ha Hb. rewrite <- not_true_iff_false, (before_iff _ _ Ha Hb), <- not_true_iff_false.
  pose proof (key_lt_irrefl (key (cvss_score b))) as Hi.
  destruct (key_trichotomy (key (cvss_score a)) (key (cvss_score b))) as [H|[E|H]].
  - split; [auto|]. intros _ [H'|[E _]]; [|by rewrite E in H].
    by apply (key_lt_irrefl (key (cvss_score a))), (key_lt_trans _ _ _ H).
  - rewrite E. naive_solver.
  - split; [naive_solver|]. intros [H'|[E _]]; [|by rewrite E in H].
    by destruct (Hi (key_lt_trans _ _ _ H H')).
Qed.

Lemma before_swo l : Forall scored l -> StrictWeakOn finding_before l.
Proof.
  intros Hl. rewrite Forall_forall in Hl. split.
  - intros x y Hx Hy H. apply nbefore_iff; [auto..|]. apply before_iff in H; [|auto..].
    destruct H as [H|[E H]]; [by left|right]. split; [done|by apply str_ltb_asym].
  - intros x y z Hx Hy Hz H1 H2. rewrite nbefore_iff in * by auto.
    destruct H1 as [H1|[E1 H1]], H2 as [H2|[E2 H2]].
    + left. by eapply key_lt_trans.
    + left. by rewrite <- E2.
    + left. by rewrite E1.
    + right. split; [congruence|]. by eapply str_nltb_trans.
Qed.

(** ** Findings of one package and of an inventory *)

Section Scan.
Context {HS : StdSort} {HU : UnorderedIter}.

Lemma elem_of_unordered {V} (m : gmap str V) x :
  x ∈ snd <$> unordered_iter m <-> exists k, m !! k = Some x.
Proof.
  rewrite unordered_iter_perm, list_elem_of_fmap. split.
  - intros ([k y] & -> & H). exists k. by apply elem_of_map_to_list.
  - intros [k H]. exists (k, x). by rewrite elem_of_map_to_list.
Qed.

Definition package_findings (idx : CveIndex) (exposed : gset str) (pkg : Package) : list Finding :=
  match resolve idx (pk_name pkg) with
  | None => []
  | Some (vend, prod) =>
      if empty (pk_version pkg) then []
      else set_exposed (bool_decide (product_key vend prod ∈ exposed)) <$> match_package idx pkg
  end.

Definition count {A} (P : A -> bool) (l : list A) : Z := Z.of_nat (length (List.filter P l)).

Definition mapped (idx : CveIndex) (pkg : Package) : bool :=
  bool_decide (is_Some (resolve idx (pk_name pkg))).

Lemma count_cons {A} (P : A -> bool) x l : count P (x :: l) = (if P x then 1 else 0) + count P l.
Proof. unfold count. simpl. destruct (P x); simpl; lia. Qed.

Lemma count_negb {A} (P : A -> bool) l : count P l + count (negb ∘ P) l = Z.of_nat (length l).
Proof.
  induction l as [|x l IH]; [done|]. rewrite !count_cons.
  change ((negb ∘ P) x) with (negb (P x)). cbn [length]. destruct (P x); cbn [negb]; lia.
Qed.

Lemma take_app_snoc {A} n (l : list A) x t :
  take n ((if (length l <? n)%nat then l ++ [x] else l) ++ t) = take n (l ++ x :: t).
Proof.
  destruct (Nat.ltb_spec (length l) n); [by rewrite <- app_assoc|].
  by rewrite !take_app_le.
Qed.

Lemma scan_fold idx exposed pkgs s all :
  let '(s', all') := fold_left (scan_package idx exposed) pkgs (s, all) in
  all' = all ++ (pkgs ≫= package_findings idx exposed) /\
  packages_total s' = packages_total s /\
  packages_mapped s' = packages_mapped s + count (mapped idx) pkgs /\
  packages_unmapped s' = packages_unmapped s + count (negb ∘ mapped idx) pkgs /\
  packages_no_version s' =
    packages_no_version s + count (fun p => mapped idx p && empty (pk_version p)) pkgs /\
  (critical s', high s', medium s', low s', exposed_findings s') =
    (critical s, high s, medium s, low s, exposed_findings s) /\
  take 50 (unmapped_names s') =
    take 50 (unmapped_names s ++ (pk_name <$> List.filter (negb ∘ mapped idx) pkgs)) /\
  (length (unmapped_names s) <= 50 -> length (unmapped_names s') <= 50)%nat.
Proof.
  revert s all. induction pkgs as [|p pkgs IH]; intros s all.
  { simpl. rewrite !app_nil_r. unfold count. simpl. repeat split; try done; lia. }
  cbn [fold_left]. destruct (scan_package idx exposed (s, all) p) as [s1 all1] eqn:Hs.
  specialize (IH s1 all1). destruct (fold_left _ pkgs (s1, all1)) as [s' all'].
  destruct IH as (-> & -> & -> & -> & -> & -> & -> & Hlen).
  rewrite !count_cons, bind_cons. unfold scan_package in Hs. cbn [List.filter compose].
  change ((negb ∘ mapped idx) p) with (negb (mapped idx p)).
  assert (mapped idx p = match resolve idx (pk_name p) with Some _ => true | None => false end) as ->.
  { unfold mapped. destruct (resolve idx (pk_name p)); [by apply bool_decide_eq_true_2; eauto|].
    apply bool_decide_eq_false_2. by intros [? ?]. }
  assert (package_findings idx exposed p = match resolve idx (pk_name p) with
    | None => []
    | Some (vend, prod) => if empty (pk_version p) then [] else
        set_exposed (bool_decide (product_key vend prod ∈ exposed)) <$> match_package idx p end) as -> by done.
  destruct (resolve idx (pk_name p)) as [[vend prod]|]; cbn [negb andb].
  - destruct (empty (pk_version p)); simplify_eq/=; rewrite <- ?app_assoc;
      repeat split; try done; lia.
  - simplify_eq/=.
    repeat split; try done; try lia; [by rewrite take_app_snoc|].
    intros H. apply Hlen. destruct (Nat.ltb_spec (length (unmapped_names s)) 50); [|done].
    rewrite length_app. simpl. lia.
Qed.

Definition severity_is (x : str) (f : Finding) : bool := str_eqb (cvss_severity f) x.

(** Decide equalities between literals. *)
Ltac lit_eqs :=
  repeat match goal with
  | |- context [bool_decide (lit ?a = lit ?b)] =>
      let v := eval vm_compute in (bool_decide (lit a = lit b)) in
      change (bool_decide (lit a = lit b)) with v
  end.

Lemma count_fold l s :
  let s' := fold_left count_finding l s in
  (packages_total s', packages_mapped s', packages_unmapped s', packages_no_version s',
   n_findings s', unmapped_names s') =
  (packages_total s, packages_mapped s, packages_unmapped s, packages_no_version s,
   n_findings s, unmapped_names s) /\
  critical s' = critical s + count (severity_is (lit "critical")) l /\
  high s' = high s + count (severity_is (lit "high")) l /\
  medium s' = medium s + count (severity_is (lit "medium")) l /\
  low s' = low s + count (severity_is (lit "low")) l /\
  exposed_findings s' = exposed_findings s + count network_exposed l.
Proof.
  revert s. induction l as [|f l IH]; intros s; [unfold count; simpl; repeat split; lia|].
  cbn [fold_left]. destruct (IH (count_finding s f)) as (E & -> & -> & -> & -> & ->).
  rewrite !count_cons. cbv zeta in *. rewrite E.
  change (severity_is ?x f) with (str_eqb (cvss_severity f) x).
  unfold count_finding. cbn [packages_total packages_mapped packages_unmapped packages_no_version
    n_findings unmapped_names critical high medium low exposed_findings].
  split; [done|]. change (str_eqb ?x ?y) with (bool_decide (x = y)).
  destruct (decide (cvss_severity f = lit "critical")) as [E'|H1]; [rewrite !E'; lit_eqs; simpl; lia|].
  destruct (decide (cvss_severity f = lit "high")) as [E'|H2]; [rewrite !E'; lit_eqs; simpl; lia|].
  destruct (decide (cvss_severity f = lit "medium")) as [E'|H3]; [rewrite !E'; lit_eqs; simpl; lia|].
  destruct (decide (cvss_severity f = lit "low")) as [E'|H4]; [rewrite !E'; lit_eqs; simpl; lia|].
  rewrite !bool_decide_eq_false_2 by done. simpl. lia.
Qed.

(** Where a finding of a package comes from. *)
Lemma match_package_elem idx pkg f :
  f ∈ match_package idx pkg ->
  exists vend prod rules,
    resolve idx (pk_name pkg) = Some (vend, prod) /\ pk_version pkg <> [] /\
    by_product_ idx !! product_key vend prod = Some rules /\
    exists r, r ∈ rules /\ rule_hits (version_upstream_part (pk_version pkg)) r = true /\
      f = finding_of pkg (version_upstream_part (pk_version pkg)) vend prod r /\
      forall r', r' ∈ rules -> rule_hits (version_upstream_part (pk_version pkg)) r' = true ->
        r_cve_id r' = r_cve_id r -> d_lt (r_score r) (r_score r') = false.
Proof.
  unfold match_package. destruct (resolve idx (pk_name pkg)) as [[vend prod]|] eqn:Hr;
    [|by intros ?%elem_of_nil].
  destruct (pk_version pkg) as [|c t] eqn:Hv; [by intros ?%elem_of_nil|]. cbn [empty].
  destruct (by_product_ idx !! product_key vend prod) as [rules|] eqn:Hb;
    [|by intros ?%elem_of_nil].
  cbv zeta. destruct (empty (version_upstream_part (c :: t))); [by intros ?%elem_of_nil|].
  rewrite elem_of_unordered. intros [k Hf].
  destruct (best_all_ok pkg (version_upstream_part (c :: t)) vend prod rules) as [H1 _].
  destruct (H1 k f Hf) as (r & Hin & Hh & <- & -> & Hmax).
  exists vend, prod, rules. repeat split; [done..|]. exists r. auto.
Qed.

(** No rule carries a score that is not a number. *)
Definition scored_index (idx : CveIndex) : Prop :=
  forall k rs r, by_product_ idx !! k = Some rs -> r ∈ rs -> is_nan (r_score r) = false.

Lemma package_findings_elem idx exposed pkg f :
  f ∈ package_findings idx exposed pkg ->
  exists g, g ∈ match_package idx pkg /\
    exists vend prod, resolve idx (pk_name pkg) = Some (vend, prod) /\
      f = set_exposed (bool_decide (product_key vend prod ∈ exposed)) g.
Proof.
  unfold package_findings. destruct (resolve idx (pk_name pkg)) as [[vend prod]|];
    [|by intros ?%elem_of_nil].
  destruct (empty (pk_version pkg)); [by intros ?%elem_of_nil|].
  rewrite list_elem_of_fmap. intros (g & -> & Hg). exists g. eauto.
Qed.

Lemma package_findings_scored idx exposed pkgs :
  scored_index idx -> Forall scored (pkgs ≫= package_findings idx exposed).
Proof.
  intros Hidx. apply Forall_forall. intros f Hf. apply list_elem_of_bind in Hf as (pkg & Hf & _).
  destruct (package_findings_elem _ _ _ _ Hf) as (g & Hg & vend & prod & _ & ->).
  destruct (match_package_elem _ _ _ Hg) as (v & p & rules & _ & _ & Hb & r & Hr & _ & -> & _).
  exact (Hidx _ _ _ Hb Hr).
Qed.

(** A scan returns the findings of its packages, sorted. *)
Lemma scan_sorted idx inv s0 :
  scored_index idx ->
  (scan idx inv s0).1 ≡ₚ packages inv ≫= package_findings idx (exposed_products idx (sockets inv)) /\
  StronglySorted (fun a b => finding_before b a = false) (scan idx inv s0).1.
Proof.
  intros Hidx. unfold scan. set (ex := exposed_products idx (sockets inv)).
  pose proof (scan_fold idx ex (packages inv)
    (set_total (Z.of_nat (length (packages inv))) s0) []) as H.
  destruct (fold_left (scan_package idx ex) _ _) as [s all]. destruct H as (-> & _). cbn [fst app].
  pose proof (before_swo _ (package_findings_scored idx ex (packages inv) Hidx)) as Hw.
  split; [by apply std_sort_perm|by apply std_sort_sorted].
Qed.

(** The order of the comparator, spelled out on the scores and the ids. *)
Lemma nbefore_spelled a b : scored a -> scored b -> finding_before b a = false ->
  d_lt (cvss_score a) (cvss_score b) = false /\
  (d_lt (cvss_score b) (cvss_score a) = false -> str_ltb (cve_id a) (cve_id b) = false).
Proof.
  intros Ha Hb. rewrite (nbefore_iff _ _ Hb Ha), <- !not_true_iff_false, !d_lt_key by done.
  intros [H|[E H]].
  - split; [|by intros H'; destruct H']. intros H'. by apply (key_lt_irrefl _ (key_lt_trans _ _ _ H H')).
  - rewrite E. split; [apply key_lt_irrefl|]. by intros _.
Qed.

Lemma scan_order idx inv s0 :
  scored_index idx ->
  StronglySorted (fun a b => d_lt (cvss_score a) (cvss_score b) = false /\
    (d_lt (cvss_score b) (cvss_score a) = false -> str_ltb (cve_id a) (cve_id b) = false))
    (scan idx inv s0).1.
Proof.
  intros Hidx. destruct (scan_sorted idx inv s0 Hidx) as [Hperm Hsort].
  assert (Forall scored (scan idx inv s0).1) as Hsc
    by (rewrite Hperm; by apply package_findings_scored).
  eapply StronglySorted_on; [exact Hsc|exact Hsort|]. intros a b Ha Hb. by apply nbefore_spelled.
Qed.

Lemma exposed_fold idx ss acc k :
  k ∈ fold_left (exposed_step idx) ss acc <->
  k ∈ acc \/ exists s, s ∈ ss /\ world_reachable s = true /\ process_name s <> [] /\
    exists vend prod, resolve idx (process_name s) = Some (vend, prod) /\ k = product_key vend prod.
Proof.
  revert acc. induction ss as [|s ss IH]; intros acc; cbn [fold_left].
  { split; [by left|]. intros [H|(s & H & _)]; [done|by apply elem_of_nil in H]. }
  rewrite IH. setoid_rewrite elem_of_cons.
  enough (k ∈ exposed_step idx acc s <-> k ∈ acc \/ (world_reachable s = true /\
    process_name s <> [] /\ exists vend prod,
      resolve idx (process_name s) = Some (vend, prod) /\ k = product_key vend prod)) as -> by naive_solver.
  unfold exposed_step. destruct (world_reachable s); [|naive_solver].
  destruct (process_name s) as [|c t]; [naive_solver|]. cbn [negb orb empty].
  destruct (resolve idx (c :: t)) as [[vend prod]|]; [|naive_solver].
  rewrite elem_of_union, elem_of_singleton. naive_solver.
Qed.
End Scan.

(** ** The report as a tree *)

Definition finding_tree (f : Finding) : jval :=
  JObj [(lit "cve", JStr (cve_id f)); (lit "package", JStr (package_name f));
        (lit "installed_version", JStr (package_version f));
        (lit "matched_version", JStr (matched_version f));
        (lit "cpe_vendor", JStr (vendor f)); (lit "cpe_product", JStr (product f));
        (lit "cvss_score", JNum (take 31 (format1 (cvss_score f))));
        (lit "cvss_severity", JStr (cvss_severity f)); (lit "cvss_version", JStr (cvss_version f));
        (lit "network_exposed", JBool (network_exposed f))].

Definition report_tree (fs : list Finding) (s : ScanSummary) (inv : Inventory) : jval :=
  JObj [(lit "agent", JObj [(lit "name", JStr kAgentName); (lit "version", JStr kAgentVersion);
           (lit "stage", JStr kAgentStage); (lit "platform", JStr (inv_platform inv))]);
        (lit "hostname", JStr (hostname (host inv))); (lit "os_name", JStr (os_name (host inv)));
        (lit "collected_at_unix_ms", jint (collected_at_unix_ms inv));
        (lit "summary", JObj [(lit "packages_total", jint (packages_total s));
           (lit "packages_mapped", jint (packages_mapped s));
           (lit "packages_unmapped", jint (packages_unmapped s));
           (lit "packages_no_version", jint (packages_no_version s));
           (lit "findings", jint (n_findings s)); (lit "critical", jint (critical s));
           (lit "high", jint (high s)); (lit "medium", jint (medium s)); (lit "low", jint (low s));
           (lit "network_exposed_findings", jint (exposed_findings s))]);
        (lit "findings", JArr (finding_tree <$> fs));
        (lit "unmapped_packages", JArr (JStr <$> unmapped_names s))].

Lemma findings_to_json_render fs s inv p :
  findings_to_json fs s inv p = render p 0 (report_tree fs s inv).
Proof.
  apply document_render. emit; [by apply (emits_field_cstr _ (Some _))..|].
  unfold finding_op, finding_tree. emit.
Qed.

Lemma report_tree_wf fs s inv :
  Forall (fun f => printable_score (cvss_score f) = true) fs -> jwf (report_tree fs s inv) = true.
Proof.
  intros Hfs. unfold report_tree. cbn [jwf forallb]. rewrite !jwf_int. cbn [andb].
  rewrite (forallb_fmap JStr) by done. rewrite andb_true_r. induction Hfs as [|f fs Hf _ IH]; [done|].
  cbn [fmap list_fmap forallb]. rewrite IH, andb_true_r. cbn [finding_tree jwf forallb].
  by rewrite score_number.
Qed.

(** The cells of a row, separated by tabs. *)
Definition tabbed (cells : list str) : str :=
  match cells with [] => [] | x :: l => x ++ (l ≫= fun t => tab :: t) end.

Definition cell (c : str) : Prop := Forall (fun b => Ascii.eqb b tab = false) c.

Lemma split_trailing_tab cells :
  Forall cell cells -> cells <> [] -> split_tabs (tabbed cells ++ [tab]) = cells.
Proof.
  induction cells as [|x l IH]; intros Hc Hne; [done|]. apply Forall_cons_iff in Hc as [Hx Hl].
  unfold split_tabs. destruct l as [|y l].
  - simpl. rewrite app_nil_r. by rewrite getlines_cons.
  - change (tabbed (x :: y :: l)) with (x ++ tab :: tabbed (y :: l)).
    rewrite <- app_assoc. cbn [app]. rewrite getlines_cons by done. f_equal. by apply IH.
Qed.

(** ** Properties *)

(** Name normalisation is idempotent: brackets, version tokens and noise
    words are gone after one pass, case and spacing are canonical, so the alias
    table can be keyed on normalised names. *)
Theorem normalize_name_idem (raw : str) :
  normalize_name (normalize_name raw) = normalize_name raw.
Proof.
  destruct (normalize_words raw) as (Hw & Hk & E). rewrite E at 1 2. unfold normalize_name at 1.
  rewrite strip_brackets_id.
  - by rewrite words_join, filter_idem, trim_join.
  - apply join_Forall; [|done]. by split.
Qed.

(** Loading an index file with the right header adds, for every product,
    exactly the rules of its rows (comments, blank lines and rows of fewer than
    twelve columns apart) behind what was loaded before, in file order, counts
    each of them once, and leaves the alias tables alone. *)
Theorem load_rules_rows (path text header : str) (rows : list str) (idx : CveIndex) (k : str)
  (Hl : getlines nl text = header :: rows) (Hh : starts_with kRuleHeader header = true) :
  let '(idx', err) := load_rules path (Some text) idx in
  err = None /\
  default [] (by_product_ idx' !! k) =
    default [] (by_product_ idx !! k) ++ rules_for k (rows ≫= row_rules) /\
  rule_count idx' = rule_count idx + Z.of_nat (length (rows ≫= row_rules)) /\
  exact_ idx' = exact_ idx /\ prefixes_ idx' = prefixes_ idx.
Proof.
  unfold load_rules. rewrite Hl, Hh. split; [done|]. apply load_rows_spec.
Qed.

(** A small index and alias table for the examples. *)
Definition tsv (cells : list str) : str := tabbed cells ++ [nl].

Definition sample_rules : str :=
  tsv [lit "cve_id"; lit "vendor"; lit "product"; lit "version"; lit "update"] ++
  tsv [lit "CVE-1"; lit "openssl"; lit "openssl"; lit "*"; lit "*"; lit "1.0"; []; []; lit "1.1";
       lit "7.5"; lit "HIGH"; lit "3.1"] ++
  tsv [lit "CVE-1"; lit "openssl"; lit "openssl"; lit "1.0.2"; lit "*"; []; []; []; [];
       lit "9.8"; lit "CRITICAL"; lit "3.1"] ++
  tsv [lit "CVE-2"; lit "openssl"; lit "openssl"; lit "*"; lit "*"; []; []; []; [];
       lit "4.3"; []; lit "2.0"].

Definition sample_aliases : str :=
  tsv [lit "exact"; lit "microsoft"; lit "microsoft"; lit "windows"] ++
  tsv [lit "prefix"; lit "lib"; lit "any"; lit "lib"] ++
  tsv [lit "prefix"; lit "libssl"; lit "openssl"; lit "openssl"].

Definition sample_index : CveIndex :=
  (load_aliases [] (Some sample_aliases) (load_rules [] (Some sample_rules) new_index).1).1.

Definition sample_package : Package := mkPackage (lit "libssl3 (amd64)") (lit "1.0.2-1ubuntu2") [] (lit "dpkg").

Definition sample_inventory : Inventory :=
  mkInventory [] [] [] (lit "linux") 0 0 default_host []
    [mkSocket (lit "tcp") (lit "0.0.0.0") 443 7 (lit "libssl-server") true] []
    [sample_package; mkPackage (lit "unknown") (lit "1") [] []; mkPackage (lit "libx") [] [] []] [].

Lemma load_rules_rows_witness :
  getlines nl sample_rules <> [] /\
  length (default [] (by_product_ (load_rules [] (Some sample_rules) new_index).1
            !! lit "openssl:openssl")) = 3%nat.
Proof.
  split; [vm_compute; congruence|].
  destruct (getlines nl sample_rules) as [|header rows] eqn:E; [vm_compute in E; congruence|].
  pose proof (load_rules_rows [] sample_rules header rows new_index (lit "openssl:openssl") E) as H.
  vm_compute in E. injection E as <- <-. specialize (H eq_refl).
  destruct (load_rules [] (Some sample_rules) new_index) as [idx' err].
  destruct H as (_ & H & _). cbn [fst]. rewrite H. vm_compute. reflexivity.
Defined.

(** A row of twelve columns whose last column is empty is read as eleven
    columns ([std::getline] reports no field after a final delimiter), so a rule
    without a CVSS version is skipped and never matches. *)
Theorem empty_last_column_skipped (cells : list str)
  (Hc : Forall cell cells) (Hn : length cells = 11%nat) :
  row_rules (tabbed (cells ++ [[]])) = [].
Proof.
  assert (tabbed (cells ++ [[]]) = tabbed cells ++ [tab]) as ->.
  { destruct cells as [|x l]; [done|]. unfold tabbed. cbn [app].
    by rewrite bind_app, <- app_assoc. }
  unfold row_rules. rewrite split_trailing_tab by (done || by intros ->). rewrite Hn. 
  by destruct (is_comment_or_blank _).
Qed.

Lemma empty_last_column_skipped_witness :
  let cells := [lit "CVE-3"; lit "v"; lit "p"; lit "1.0"; lit "*"; []; []; []; []; lit "5.0";
                lit "MEDIUM"] in
  length cells = 11%nat /\ row_rules (tabbed (cells ++ [[]])) = [].
Proof.
  split; [reflexivity|]. apply empty_last_column_skipped; [|reflexivity].
  repeat (constructor; [repeat constructor|]). constructor.
Defined.

(** The last-resort loop of [resolve] does reach a single word: with an
    alias for "microsoft" alone, "Microsoft Visual Studio" resolves through it,
    although the comment above the loop rules that out. *)
Theorem resolve_collapses_to_first_word :
  resolve sample_index (lit "Microsoft Visual Studio") = Some (lit "microsoft", lit "windows").
Proof. reflexivity. Qed.

(** The loop that drops trailing words always ends, and finds the exact
    alias of the longest prefix of whole words that has one. *)
Theorem drop_words_longest (exact : gmap str str) (t : str) (fuel : nat)
  (Hf : (length t <= fuel)%nat) :
  drop_words fuel exact t =
  List.find (fun t => bool_decide (is_Some (exact !! t))) (word_prefixes (length t) t) ≫= (exact !!.).
Proof. rewrite (drop_words_fuel fuel (length t)) by lia. apply drop_words_find. Qed.

Lemma drop_words_longest_witness :
  drop_words 30 {[ lit "mozilla firefox" := lit "mozilla:firefox" ]} (lit "mozilla firefox esr") =
  Some (lit "mozilla:firefox").
Proof.
  rewrite (drop_words_longest _ (lit "mozilla firefox esr") 30); [reflexivity|].
  apply Nat.leb_le. reflexivity.
Defined.

Section Properties.
Context {HS : StdSort} {HU : UnorderedIter}.

(** C32: after the alias table is loaded, a name without an exact alias that
    some prefix alias covers resolves through a prefix alias at least as long as
    every other one that covers it, in whatever order the file lists them. *)
Theorem resolve_longest_prefix (path text name q t : str) (idx0 : CveIndex)
  (idx := (load_aliases path (Some text) idx0).1)
  (Hn : normalize_name name <> [])
  (He : exact_ idx !! normalize_name name = None)
  (Hin : (q, t) ∈ prefixes_ idx) (Hq : starts_with q (normalize_name name) = true) :
  exists q' t', (q', t') ∈ prefixes_ idx /\ starts_with q' (normalize_name name) = true /\
    len q <= len q' /\ resolve idx name = Some (split_target t').
Proof.
  unfold resolve. destruct (normalize_name name) as [|c r] eqn:En; [done|]. rewrite He.
  assert (StronglySorted (fun x y => longer_prefix y x = false) (prefixes_ idx)) as Hs.
  { unfold idx. simpl. apply std_sort_sorted. unfold longer_prefix. apply swo_flip_key. }
  revert Hin Hs. generalize (prefixes_ idx) as l. intros l Hin Hs.
  induction Hs as [|[q' t'] l Hs IH Hall]; [by apply elem_of_nil in Hin|]. cbn [List.find].
  destruct (starts_with q' (c :: r)) eqn:Eq'.
  - exists q', t'. rewrite elem_of_cons. repeat split; [by left|done|].
    apply elem_of_cons in Hin as [[= -> ->]|Hin]; [done|].
    rewrite Forall_forall in Hall. specialize (Hall _ Hin). unfold longer_prefix in Hall.
    simpl in Hall. bools. done.
  - apply elem_of_cons in Hin as [[= -> ->]|Hin]; [congruence|].
    destruct (IH Hin) as (q2 & t2 & H1 & H2 & H3 & H4). exists q2, t2.
    rewrite elem_of_cons. auto.
Qed.

(** C21: the findings of a package: no advisory is reported twice; every finding
    comes from a rule of the resolved product whose version condition holds for
    the upstream part of the installed version, and no applicable rule for the
    same advisory scores higher; and every advisory with an applicable rule is
    reported. *)
Theorem match_package_best (idx : CveIndex) (pkg : Package) (vend prod : str) (rules : list CveRule)
  (v := version_upstream_part (pk_version pkg))
  (Hr : resolve idx (pk_name pkg) = Some (vend, prod))
  (Hb : by_product_ idx !! product_key vend prod = Some rules)
  (Hv : v <> []) :
  NoDup (cve_id <$> match_package idx pkg) /\
  (forall f, f ∈ match_package idx pkg -> exists r, r ∈ rules /\ rule_hits v r = true /\
     f = finding_of pkg v vend prod r /\
     forall r', r' ∈ rules -> rule_hits v r' = true -> r_cve_id r' = r_cve_id r ->
       d_lt (r_score r) (r_score r') = false) /\
  (forall r, r ∈ rules -> rule_hits v r = true ->
     exists f, f ∈ match_package idx pkg /\ cve_id f = r_cve_id r).
Proof.
  destruct (best_all_ok pkg v vend prod rules) as [H1 H2].
  assert (match_package idx pkg = snd <$> unordered_iter (fold_left (best_step pkg v vend prod) rules ∅)) as E.
  { unfold match_package. rewrite Hr, Hb. fold v. destruct (pk_version pkg) eqn:Ep; [done|].
    cbn [empty]. by destruct v. }
  rewrite E. split; [|split].
  - replace (cve_id <$> _) with (fst <$> unordered_iter (fold_left (best_step pkg v vend prod) rules ∅)).
    + rewrite unordered_iter_perm. apply NoDup_fst_map_to_list.
    + rewrite <- list_fmap_compose. apply list_fmap_ext. intros i [k f] Hl. simpl.
      apply list_elem_of_lookup_2 in Hl. rewrite unordered_iter_perm, elem_of_map_to_list in Hl.
      by destruct (H1 k f Hl) as (r & _ & _ & <- & -> & _).
  - intros f Hf. apply elem_of_unordered in Hf as [k Hf].
    destruct (H1 k f Hf) as (r & Hin & Hh & <- & -> & Hmax). eauto 10.
  - intros r Hin Hh. destruct (H2 r Hin Hh) as [f Hf]. exists f. split; [apply elem_of_unordered; eauto|].
    by destruct (H1 _ _ Hf) as (r' & _ & _ & <- & -> & _).
Qed.

(** C22: the findings of a scan are exactly the findings of its packages; no
    finding comes before one with a higher score, nor, when the scores are equal,
    before one with a greater id in the order of bytes; and a finding is
    flagged as exposed exactly when some world-reachable socket's owning process
    resolves to the same vendor and product. *)
Theorem scan_findings (idx : CveIndex) (inv : Inventory) (s0 : ScanSummary)
  (Hidx : scored_index idx) :
  let all := (scan idx inv s0).1 in
  all ≡ₚ packages inv ≫= package_findings idx (exposed_products idx (sockets inv)) /\
  StronglySorted (fun a b => d_lt (cvss_score a) (cvss_score b) = false /\
    (d_lt (cvss_score b) (cvss_score a) = false -> str_ltb (cve_id a) (cve_id b) = false)) all /\
  (forall f, f ∈ all -> network_exposed f = true <->
     exists s, s ∈ sockets inv /\ world_reachable s = true /\ process_name s <> [] /\
       resolve idx (process_name s) = Some (vendor f, product f)).
Proof.
  intros all. destruct (scan_sorted idx inv s0 Hidx) as [Hperm Hsort]. split; [done|].
  split; [by apply scan_order|].
  intros f Hf. unfold all in Hf. rewrite Hperm in Hf. apply list_elem_of_bind in Hf as (pkg & Hf & _).
  destruct (package_findings_elem _ _ _ _ Hf) as (g & Hg & v & p & Hr & ->).
  destruct (match_package_elem _ _ _ Hg) as (v' & p' & _ & Hr' & _ & _ & r & _ & _ & -> & _).
  simplify_eq/=. rewrite bool_decide_eq_true. unfold exposed_products. rewrite exposed_fold.
  split.
  - intros [He|(s1 & ? & ? & ? & v2 & p2 & Hs & Ek)]; [set_solver|].
    apply product_key_inj in Ek as [-> ->]; [|by eapply resolve_vendor..]. eauto 10.
  - intros (s1 & ? & ? & ? & Hs). right. eauto 10.
Qed.

(** The summary of a scan adds up: every package is counted as mapped or
    unmapped, the finding and severity and exposure counters are the numbers of
    such findings in the list that is returned, and the first fifty unmapped
    names are kept in order. *)
Theorem scan_summary (idx : CveIndex) (inv : Inventory) :
  let '(all, s) := scan idx inv new_summary in
  packages_total s = Z.of_nat (length (packages inv)) /\
  packages_mapped s + packages_unmapped s = packages_total s /\
  packages_mapped s = count (mapped idx) (packages inv) /\
  packages_no_version s = count (fun p => mapped idx p && empty (pk_version p)) (packages inv) /\
  n_findings s = Z.of_nat (length all) /\
  critical s = count (severity_is (lit "critical")) all /\
  high s = count (severity_is (lit "high")) all /\
  medium s = count (severity_is (lit "medium")) all /\
  low s = count (severity_is (lit "low")) all /\
  exposed_findings s = count network_exposed all /\
  unmapped_names s = take 50 (pk_name <$> List.filter (negb ∘ mapped idx) (packages inv)).
Proof.
  unfold scan. set (ex := exposed_products idx (sockets inv)).
  pose proof (scan_fold idx ex (packages inv)
    (set_total (Z.of_nat (length (packages inv))) new_summary) []) as H.
  destruct (fold_left (scan_package idx ex) _ _) as [s all].
  destruct H as (_ & Ht & Hm & Hu & Hv & Hc & Hn & Hl).
  set (sorted := std_sort finding_before all).
  destruct (count_fold sorted (set_findings (Z.of_nat (length sorted)) s)) as (E & -> & -> & -> & -> & ->).
  injection E as -> -> -> -> -> ->. cbn [set_findings set_total new_summary packages_total packages_mapped
    packages_unmapped packages_no_version n_findings critical high medium low exposed_findings
    unmapped_names length app] in *. injection Hc as -> -> -> -> ->.
  rewrite (take_ge (unmapped_names s)) in Hn by (apply Hl; lia).
  pose proof (count_negb (mapped idx) (packages inv)) as Hsum.
  repeat split; done || lia.
Qed.

End Properties.

(** The CVE report is JSON that reads back as exactly the findings, the
    summary and the unmapped names, as long as every score is a finite number
    that fits the print buffer. *)
Theorem findings_to_json_parses (fs : list Finding) (s : ScanSummary) (inv : Inventory) (p : bool)
  (Hfs : Forall (fun f => printable_score (cvss_score f) = true) fs) :
  parse (findings_to_json fs s inv p) = Some (report_tree fs s inv).
Proof. rewrite findings_to_json_render. by apply render_reads, report_tree_wf. Qed.

(** ** The properties at work on the sample data *)

Definition scored_check (idx : CveIndex) : bool :=
  forallb (fun kv => forallb (fun r => negb (is_nan (r_score r))) kv.2) (map_to_list (by_product_ idx)).

Lemma scored_check_ok idx : scored_check idx = true -> scored_index idx.
Proof.
  unfold scored_check. rewrite forallb_forall. intros H k rs r Hk Hr.
  assert (List.In (k, rs) (map_to_list (by_product_ idx))) as Hin
    by (by apply list_elem_of_In, elem_of_map_to_list).
  specialize (H _ Hin). rewrite forallb_forall in H. apply negb_true_iff, H. by apply list_elem_of_In.
Qed.

Lemma resolve_longest_prefix_witness :
  resolve sample_index (lit "libssl1.1") = Some (lit "openssl", lit "openssl") /\
  exists q t, (q, t) ∈ prefixes_ sample_index /\ len (lit "lib") <= len q /\
    resolve sample_index (lit "libssl1.1") = Some (split_target t).
Proof.
  split; [vm_compute; reflexivity|].
  destruct (resolve_longest_prefix [] sample_aliases (lit "libssl1.1") (lit "lib") (lit "any:lib")
    (load_rules [] (Some sample_rules) new_index).1) as (q & t & H1 & _ & H2 & H3);
    [vm_compute; congruence|vm_compute; reflexivity| |vm_compute; reflexivity|].
  - apply list_elem_of_In. vm_compute. auto.
  - exists q, t. auto.
Defined.

Lemma match_package_best_witness :
  length (match_package sample_index sample_package) = 2%nat /\
  NoDup (cve_id <$> match_package sample_index sample_package).
Proof.
  split; [vm_compute; reflexivity|].
  eapply (match_package_best sample_index sample_package);
    [vm_compute; reflexivity|vm_compute; reflexivity|vm_compute; congruence].
Defined.

Lemma scan_findings_witness :
  scored_check sample_index = true /\ length (scan sample_index sample_inventory new_summary).1 = 2%nat /\
  StronglySorted (fun a b => d_lt (cvss_score a) (cvss_score b) = false /\
    (d_lt (cvss_score b) (cvss_score a) = false -> str_ltb (cve_id a) (cve_id b) = false))
    (scan sample_index sample_inventory new_summary).1.
Proof.
  split; [vm_compute; reflexivity|]. split; [vm_compute; reflexivity|].
  apply scan_findings. apply scored_check_ok. vm_compute. reflexivity.
Defined.

Lemma findings_to_json_parses_witness :
  let fs := (scan sample_index sample_inventory new_summary).1 in
  parse (findings_to_json fs new_summary sample_inventory true) =
  Some (report_tree fs new_summary sample_inventory).
Proof.
  intros fs. apply findings_to_json_parses. apply List.Forall_forall. apply forallb_forall.
  vm_compute. reflexivity.
Defined.
