(* ===== verification/Frame.v ===== *)
(** * Record frames (src/spool.cpp: crc32, put_u32, get_u32, zero_pad and the
    framing in append, peek and commit)

    A record on disk is [magic | length | crc32 | payload], the three words
    little-endian.  Shown: the table-driven CRC computes the bitwise one; it
    tells apart any two payloads that differ in one byte; the words and frames
    read back; and a proper prefix of a frame is never read as a record. *)
From S2P Require Import Prelude CppStd.
From Stdlib Require Import Ascii.

#[local] Open Scope Z_scope.

Definition kMagic : Z := 0x4E535031.
Definition kHeaderBytes : nat := 12.

(** ** CRC-32 *)

Definition crc_poly : Z := 0xEDB88320.

(** [c = (c & 1) ? (0xEDB88320u ^ (c >> 1)) : (c >> 1)] *)
Definition crc_step (c : Z) : Z :=
  if Z.land c 1 =? 0 then Z.shiftr c 1 else Z.lxor crc_poly (Z.shiftr c 1).

Definition crc_entry (i : Z) : Z := Nat.iter 8 crc_step i.

Definition crc_table : list Z := crc_entry ∘ Z.of_nat <$> List.seq 0 256.

Definition crc_byte (c : Z) (b : byte) : Z :=
  Z.lxor (nth (Z.to_nat (Z.land (Z.lxor c (code b)) 0xFF)) crc_table 0) (Z.shiftr c 8).

Definition crc32 (data : str) : Z := Z.lxor (fold_left crc_byte data 0xFFFFFFFF) 0xFFFFFFFF.

(** The definition of CRC-32, one bit at a time. *)
Definition crc_bits (c : Z) (b : byte) : Z := Nat.iter 8 crc_step (Z.lxor c (code b)).
Definition crc32_ref (data : str) : Z := Z.lxor (fold_left crc_bits data 0xFFFFFFFF) 0xFFFFFFFF.

Example crc32_check : crc32 (lit "123456789") = 0xCBF43926.
Proof. vm_compute. reflexivity. Qed.

(** ** Little-endian words *)

Definition put_u32 (v : Z) : str :=
  [chr (Z.land v 0xFF); chr (Z.land (Z.shiftr v 8) 0xFF);
   chr (Z.land (Z.shiftr v 16) 0xFF); chr (Z.land (Z.shiftr v 24) 0xFF)].

(** Reads the first four bytes; the callers pass at least four. *)
Definition get_u32 (src : str) : Z :=
  let b i := code (nth i src "000"%char) in
  Z.lor (Z.lor (Z.lor (b 0%nat) (Z.shiftl (b 1%nat) 8)) (Z.shiftl (b 2%nat) 16))
        (Z.shiftl (b 3%nat) 24).

Definition zero_pad (id : Z) : str :=
  take 31 (lit "seg-" ++ pad0 8 (to_string_u id) ++ lit ".log").

(** ** Frames *)

(** What [append] writes for a payload: the length is cast to 32 bits. *)
Definition frame (payload : str) : str :=
  put_u32 kMagic ++ put_u32 (u32 (len payload)) ++ put_u32 (crc32 payload) ++ payload.

Definition frames (ps : list str) : str := ps ≫= frame.

(** One round of the reading loop of [peek] on the rest of the file. *)
Inductive frame_read :=
| FShort                            (* fewer than 12 bytes left *)
| FBadMagic
| FTorn                             (* the payload is cut short *)
| FBadCrc
| FRecord (payload rest : str).

Definition read_frame (s : str) : frame_read :=
  if (length s <? kHeaderBytes)%nat then FShort
  else
    let header := take kHeaderBytes s in
    let body := drop kHeaderBytes s in
    if negb (get_u32 header =? kMagic) then FBadMagic
    else
      let n := get_u32 (drop 4 header) in
      let want_crc := get_u32 (drop 8 header) in
      if len body <? n then FTorn
      else
        let payload := take (Z.to_nat n) body in
        if negb (crc32 payload =? want_crc) then FBadCrc
        else FRecord payload (drop (Z.to_nat n) body).

(** ** Lemmas: bits *)

Lemma crc_step_lxor x y : crc_step (Z.lxor x y) = Z.lxor (crc_step x) (crc_step y).
Proof.
  unfold crc_step. rewrite !Z.land_ones with (n := 1) by lia. 
  change (2 ^ 1) with 2. rewrite <- !Z.bit0_mod, Z.lxor_spec, Z.shiftr_lxor.
  destruct (Z.testbit x 0), (Z.testbit y 0); cbn [xorb Z.b2z Z.eqb]; apply Z.bits_inj';
    intros n Hn; rewrite !Z.lxor_spec; by destruct (Z.testbit crc_poly n),
      (Z.testbit (Z.shiftr x 1) n), (Z.testbit (Z.shiftr y 1) n).
Qed.

Lemma crc_iter_lxor k x y :
  Nat.iter k crc_step (Z.lxor x y) = Z.lxor (Nat.iter k crc_step x) (Nat.iter k crc_step y).
Proof. induction k as [|k IH]; [done|]. simpl. by rewrite IH, crc_step_lxor. Qed.

(** Shifting out zero bits. *)
Lemma crc_iter_shift k x : Nat.iter k crc_step (Z.shiftl x (Z.of_nat k)) = x.
Proof.
  revert x. induction k as [|k IH]; intros x; [apply Z.shiftl_0_r|].
  rewrite Nat.iter_succ_r. rewrite <- (IH x) at 2. f_equal.
  unfold crc_step. rewrite Z.land_ones with (n := 1) by lia. change (2 ^ 1) with 2.
  rewrite <- Z.bit0_mod, Z.shiftl_spec_low by lia. cbn [Z.b2z Z.eqb].
  rewrite Z.shiftr_shiftl_l by lia. f_equal. lia.
Qed.

Lemma low_high c : c = Z.lxor (Z.land c 0xFF) (Z.shiftl (Z.shiftr c 8) 8).
Proof.
  apply Z.bits_inj'. intros n Hn. rewrite Z.lxor_spec.
  change 0xFF with (Z.ones 8). rewrite Z.land_spec.
  destruct (Z.lt_ge_cases n 8).
  - rewrite Z.ones_spec_low, Z.shiftl_spec_low by lia. by rewrite andb_true_r, xorb_false_r.
  - rewrite Z.ones_spec_high, Z.shiftl_spec, Z.shiftr_spec by lia.
    rewrite andb_false_r, xorb_false_l. f_equal. lia.
Qed.

Lemma bound_testbit n a : 0 <= n -> 0 <= a < 2 ^ n <-> 0 <= a /\ forall m, n <= m -> Z.testbit a m = false.
Proof.
  intros Hn. split.
  - intros [Ha Hb]. split; [done|]. intros m Hm. destruct (decide (a = 0)) as [->|]; [apply Z.bits_0|].
    apply Z.bits_above_log2; [done|]. apply Z.lt_le_trans with n; [|done].
    apply Z.log2_lt_pow2; lia.
  - intros [Ha Hb]. split; [done|]. destruct (decide (a = 0)) as [->|]; [lia|].
    apply Z.log2_lt_pow2; [lia|]. apply Z.nle_gt. intros Hle.
    specialize (Hb _ Hle). rewrite Z.bit_log2 in Hb by lia. done.
Qed.

Lemma lxor_range n a b : 0 <= n -> 0 <= a < 2 ^ n -> 0 <= b < 2 ^ n -> 0 <= Z.lxor a b < 2 ^ n.
Proof.
  intros Hn Ha Hb. apply bound_testbit in Ha as [Ha0 Ha], Hb as [Hb0 Hb]; [|done..].
  apply bound_testbit; [done|]. split; [apply Z.lxor_nonneg; lia|].
  intros m Hm. by rewrite Z.lxor_spec, Ha, Hb.
Qed.

Lemma shiftr_range c k n : 0 <= k -> 0 <= n -> 0 <= c < 2 ^ (n + k) -> 0 <= Z.shiftr c k < 2 ^ n.
Proof.
  intros Hk Hn [H0 H1]. rewrite Z.shiftr_div_pow2 by done. split; [apply Z.div_pos; lia|].
  apply Z.div_lt_upper_bound; [lia|]. rewrite <- Z.pow_add_r by lia. by rewrite Z.add_comm.
Qed.

Lemma land_byte c : 0 <= Z.land c 0xFF < 256.
Proof. change 0xFF with (Z.ones 8). rewrite Z.land_ones by lia. apply Z.mod_pos_bound. lia. Qed.

Lemma lor_shiftl a b n : 0 <= n -> 0 <= a < 2 ^ n -> Z.lor a (Z.shiftl b n) = a + b * 2 ^ n.
Proof.
  intros Hn Ha. rewrite <- Z.shiftl_mul_pow2 by done. apply bound_testbit in Ha as [Ha0 Ha]; [|done].
  assert (Z.land a (Z.shiftl b n) = 0) as Hd.
  { apply Z.bits_inj'. intros m Hm. rewrite Z.land_spec, Z.bits_0.
    destruct (Z.lt_ge_cases m n); [by rewrite Z.shiftl_spec_low, andb_false_r|by rewrite Ha]. }
  rewrite <- Z.lxor_lor by done. symmetry. by apply Z.add_nocarry_lxor.
Qed.

(** ** Lemmas: CRC *)

Lemma crc_table_nth i : 0 <= i < 256 -> nth (Z.to_nat i) crc_table 0 = crc_entry i.
Proof.
  intros Hi. unfold crc_table. rewrite (nth_lookup_Some _ _ _ (crc_entry i)); [done|].
  rewrite list_lookup_fmap, lookup_seq_lt by lia. simpl. f_equal. f_equal. lia.
Qed.

Lemma shiftr_code b : Z.shiftr (code b) 8 = 0.
Proof. pose proof (code_range b). rewrite Z.shiftr_div_pow2 by lia. apply Z.div_small. lia. Qed.

(** One table lookup is eight bit steps. *)
Lemma crc_byte_bits c b : crc_byte c b = crc_bits c b.
Proof.
  unfold crc_byte, crc_bits. rewrite crc_table_nth by apply land_byte.
  rewrite (low_high (Z.lxor c (code b))) at 2.
  rewrite crc_iter_lxor. unfold crc_entry. f_equal.
  rewrite Z.shiftr_lxor, shiftr_code, Z.lxor_0_r. symmetry. apply (crc_iter_shift 8).
Qed.

Lemma crc_fold_bits s c : fold_left crc_byte s c = fold_left crc_bits s c.
Proof. revert c. induction s as [|b s IH]; intros c; [done|]. simpl. by rewrite crc_byte_bits, IH. Qed.

(** A bit step can be undone: the polynomial has bit 31 set. *)
Definition crc_unstep (d : Z) : Z :=
  if Z.testbit d 31 then Z.shiftl (Z.lxor d crc_poly) 1 + 1 else Z.shiftl d 1.

Lemma crc_step_odd c : crc_step c = if Z.odd c then Z.lxor crc_poly (Z.shiftr c 1) else Z.shiftr c 1.
Proof.
  unfold crc_step. rewrite Z.land_ones with (n := 1) by lia. change (2 ^ 1) with 2.
  rewrite Zmod_odd. by destruct (Z.odd c).
Qed.

Lemma crc_unstep_step c : 0 <= c < 2 ^ 32 -> crc_unstep (crc_step c) = c.
Proof.
  intros Hc. rewrite crc_step_odd. unfold crc_unstep.
  assert (Z.testbit (Z.shiftr c 1) 31 = false) as Hb.
  { pose proof (shiftr_range c 1 31 ltac:(lia) ltac:(lia) Hc) as Hr.
    apply bound_testbit in Hr as [_ Hr]; [|lia]. apply Hr. lia. }
  pose proof (Zdiv2_odd_eqn c) as He. destruct (Z.odd c).
  - rewrite Z.lxor_spec, Hb. change (Z.testbit crc_poly 31) with true. cbn [xorb].
    rewrite (Z.lxor_comm crc_poly), Z.lxor_assoc, Z.lxor_nilpotent, Z.lxor_0_r.
    rewrite Z.shiftl_mul_pow2 by lia. rewrite <- Z.div2_spec. lia.
  - rewrite Hb, Z.shiftl_mul_pow2 by lia. rewrite <- Z.div2_spec. lia.
Qed.

Lemma crc_step_range c : 0 <= c < 2 ^ 32 -> 0 <= crc_step c < 2 ^ 32.
Proof.
  intros Hc. rewrite crc_step_odd. pose proof (shiftr_range c 1 31 ltac:(lia) ltac:(lia) Hc).
  destruct (Z.odd c); [|lia]. apply lxor_range; [lia|unfold crc_poly; lia|lia].
Qed.

Lemma crc_iter_range k c : 0 <= c < 2 ^ 32 -> 0 <= Nat.iter k crc_step c < 2 ^ 32.
Proof. intros Hc. induction k as [|k IH]; [done|]. simpl. by apply crc_step_range. Qed.

Lemma crc_iter_inj k c d :
  0 <= c < 2 ^ 32 -> 0 <= d < 2 ^ 32 -> Nat.iter k crc_step c = Nat.iter k crc_step d -> c = d.
Proof.
  intros Hc Hd. induction k as [|k IH]; [done|]. simpl. intros E. apply IH.
  rewrite <- (crc_unstep_step (Nat.iter k crc_step c)) by by apply crc_iter_range.
  rewrite E. apply crc_unstep_step. by apply crc_iter_range.
Qed.

Lemma lxor_inj_l a b c : Z.lxor a b = Z.lxor a c -> b = c.
Proof.
  intros E. rewrite <- (Z.lxor_0_l b), <- (Z.lxor_0_l c), <- (Z.lxor_nilpotent a).
  by rewrite !Z.lxor_assoc, E.
Qed.

Lemma xor_code_range c b : 0 <= c < 2 ^ 32 -> 0 <= Z.lxor c (code b) < 2 ^ 32.
Proof. intros Hc. apply lxor_range; [lia|done|]. pose proof (code_range b). lia. Qed.

Lemma crc_fold_range s c : 0 <= c < 2 ^ 32 -> 0 <= fold_left crc_bits s c < 2 ^ 32.
Proof.
  revert c. induction s as [|b s IH]; intros c Hc; [done|]. simpl. apply IH.
  apply crc_iter_range. by apply xor_code_range.
Qed.

Lemma crc_fold_inj s c d :
  0 <= c < 2 ^ 32 -> 0 <= d < 2 ^ 32 -> fold_left crc_bits s c = fold_left crc_bits s d -> c = d.
Proof.
  revert c d. induction s as [|b s IH]; intros c d Hc Hd; [done|]. simpl. intros E.
  apply IH in E; [|apply crc_iter_range; by apply xor_code_range..].
  apply crc_iter_inj in E; [|by apply xor_code_range..].
  rewrite !(Z.lxor_comm _ (code b)) in E. by apply lxor_inj_l in E.
Qed.

Lemma crc32_range s : 0 <= crc32 s < 2 ^ 32.
Proof.
  unfold crc32. rewrite crc_fold_bits. apply lxor_range; [lia| |lia]. apply crc_fold_range. lia.
Qed.

Lemma crc32_byte_neq (s1 s2 : str) (b b' : byte) :
  b <> b' ->
  crc32 (s1 ++ b :: s2) <> crc32 (s1 ++ b' :: s2).
Proof.
  intros Hb. unfold crc32. rewrite !crc_fold_bits, !fold_left_app. cbn [fold_left]. intros E.
  rewrite !(Z.lxor_comm _ 0xFFFFFFFF) in E. apply lxor_inj_l in E.
  pose proof (crc_fold_range s1 0xFFFFFFFF ltac:(lia)) as Hc.
  apply crc_fold_inj in E; [|apply crc_iter_range; by apply xor_code_range..].
  apply crc_iter_inj in E; [|by apply xor_code_range..].
  apply lxor_inj_l, code_inj in E. done.
Qed.

(** ** Lemmas: words and frames *)

Lemma get_put_u32 v r : 0 <= v < 2 ^ 32 -> get_u32 (put_u32 v ++ r) = v.
Proof.
  intros Hv. unfold get_u32, put_u32. cbn [app nth]. rewrite !code_chr by apply land_byte.
  pose proof (land_byte v). pose proof (land_byte (Z.shiftr v 8)).
  pose proof (land_byte (Z.shiftr v 16)). pose proof (land_byte (Z.shiftr v 24)).
  rewrite (lor_shiftl _ _ 8) by lia. rewrite (lor_shiftl _ _ 16) by lia.
  rewrite (lor_shiftl _ _ 24) by lia. change 0xFF with (Z.ones 8).
  rewrite !Z.land_ones, !Z.shiftr_div_pow2 by lia.
  change (2 ^ 8) with 256. change (2 ^ 16) with 65536. change (2 ^ 24) with 16777216.
  change (2 ^ 32) with 4294967296 in Hv. clear -Hv. Z.to_euclidean_division_equations. lia.
Qed.

Lemma put_u32_length v : length (put_u32 v) = 4%nat.
Proof. done. Qed.

Lemma frame_length p : length (frame p) = (12 + length p)%nat.
Proof. unfold frame. rewrite !length_app, !put_u32_length. lia. Qed.

Lemma len_frame p : len (frame p) = 12 + len p.
Proof. unfold len. rewrite frame_length. lia. Qed.

Lemma frames_cons p ps : frames (p :: ps) = frame p ++ frames ps.
Proof. done. Qed.

Lemma frames_app ps qs : frames (ps ++ qs) = frames ps ++ frames qs.
Proof. apply bind_app. Qed.

(** A payload the length word can describe. *)
Definition fits (p : str) : Prop := len p < 2 ^ 32.

Lemma frame_header p s : take 12 (frame p ++ s) = put_u32 kMagic ++ put_u32 (u32 (len p)) ++ put_u32 (crc32 p).
Proof. reflexivity. Qed.

Lemma frame_body p s : drop 12 (frame p ++ s) = p ++ s.
Proof. unfold frame. by rewrite <- !app_assoc. Qed.

Lemma read_frame_app p s : fits p -> read_frame (frame p ++ s) = FRecord p s.
Proof.
  intros Hp. unfold read_frame, kHeaderBytes. rewrite frame_header, frame_body.
  destruct (Nat.ltb_spec (length (frame p ++ s)) 12) as [H|_].
  { rewrite length_app, frame_length in H. lia. }
  rewrite get_put_u32 by (unfold kMagic; lia). cbn [negb Z.eqb]. rewrite Z.eqb_refl. cbn [negb].
  change (drop 4 (put_u32 kMagic ++ ?x)) with x. rewrite get_put_u32 by apply u32_range.
  change (drop 8 (put_u32 kMagic ++ put_u32 (u32 (len p)) ++ ?x)) with x.
  rewrite <- (app_nil_r (put_u32 (crc32 p))), get_put_u32 by apply crc32_range.
  pose proof (len_nonneg p). rewrite u32_small by (unfold fits in Hp; lia).
  destruct (Z.ltb_spec (len (p ++ s)) (len p)) as [Hlt|_].
  { rewrite len_app in Hlt. pose proof (len_nonneg s). lia. }
  replace (Z.to_nat (len p)) with (length p) by (unfold len; lia).
  rewrite take_app_length, drop_app_length, Z.eqb_refl. done.
Qed.

(** A cut frame is not a record. *)
Lemma read_frame_torn p k : fits p -> (k < length (frame p))%nat ->
  read_frame (take k (frame p)) = FShort \/ read_frame (take k (frame p)) = FTorn.
Proof.
  intros Hp Hk. unfold read_frame, kHeaderBytes.
  destruct (Nat.ltb_spec (length (take k (frame p))) 12) as [_|Hl]; [by left|right].
  rewrite length_take in Hl. rewrite frame_length in *.
  rewrite take_take, Nat.min_l by lia. pose proof (frame_header p []) as Eh.
  rewrite app_nil_r in Eh. rewrite Eh, get_put_u32, Z.eqb_refl by (unfold kMagic; lia). cbn [negb].
  change (drop 4 (put_u32 kMagic ++ ?x)) with x. rewrite get_put_u32 by apply u32_range.
  pose proof (len_nonneg p). rewrite u32_small by (unfold fits in Hp; lia).
  destruct (Z.ltb_spec (len (drop 12 (take k (frame p)))) (len p)) as [_|Hge]; [done|].
  unfold len in Hge. rewrite length_drop, length_take, frame_length in Hge. lia.
Qed.

(** ** Properties *)

(** C24: the table-driven CRC of the code is CRC-32 computed bit by bit. *)
Theorem crc32_table_correct (s : str) : crc32 s = crc32_ref s.
Proof. unfold crc32, crc32_ref. by rewrite crc_fold_bits. Qed.

(** Changing one byte of a payload, anywhere, changes its CRC. *)
Theorem crc32_detects_byte (s1 s2 : str) (b b' : byte) (Hb : b <> b') :
  crc32 (s1 ++ b :: s2) <> crc32 (s1 ++ b' :: s2).
Proof. by apply crc32_byte_neq. Qed.

Lemma crc32_detects_byte_witness :
  crc32 (lit "ab" ++ "c"%char :: lit "d") <> crc32 (lit "ab" ++ "x"%char :: lit "d").
Proof. apply crc32_detects_byte. discriminate. Defined.

(** C23: a frame reads back as its payload, whatever follows it; a frame cut
    anywhere, as a killed process leaves it, is not read as a record; and a
    frame in which one payload byte was changed fails its CRC. *)
Theorem frame_reads_back (p : str) (Hp : fits p) :
  (forall rest, read_frame (frame p ++ rest) = FRecord p rest) /\
  (forall k, (k < length (frame p))%nat ->
     read_frame (take k (frame p)) = FShort \/ read_frame (take k (frame p)) = FTorn) /\
  (forall s1 b b' s2 rest, p = s1 ++ b :: s2 -> b' <> b ->
     read_frame (take 12 (frame p) ++ s1 ++ b' :: s2 ++ rest) = FBadCrc).
Proof.
  split; [intros; by apply read_frame_app|]. split; [intros; by apply read_frame_torn|].
  intros s1 b b' s2 rest Ep Hb.
  rewrite <- (app_nil_r (frame p)), frame_header. unfold read_frame, kHeaderBytes.
  match goal with |- context [take 12 ?s] =>
    change (take 12 s) with (put_u32 kMagic ++ put_u32 (u32 (len p)) ++ put_u32 (crc32 p));
    change (drop 12 s) with (s1 ++ b' :: s2 ++ rest);
    change ((length s <? 12)%nat) with false
  end.
  rewrite get_put_u32, Z.eqb_refl by (unfold kMagic; lia). cbn [negb].
  change (drop 4 (put_u32 kMagic ++ ?x)) with x. rewrite get_put_u32 by apply u32_range.
  change (drop 8 (put_u32 kMagic ++ put_u32 (u32 (len p)) ++ ?x)) with x.
  rewrite <- (app_nil_r (put_u32 (crc32 p))), get_put_u32 by apply crc32_range.
  pose proof (len_nonneg p). rewrite u32_small by (unfold fits in Hp; lia).
  assert (length p = length (s1 ++ b' :: s2)) as El by (subst p; by rewrite !length_app).
  replace (s1 ++ b' :: s2 ++ rest) with ((s1 ++ b' :: s2) ++ rest) by (by rewrite <- app_assoc).
  destruct (Z.ltb_spec (len ((s1 ++ b' :: s2) ++ rest)) (len p)) as [Hlt|_].
  { rewrite len_app in Hlt. pose proof (len_nonneg rest). unfold len in *. lia. }
  replace (Z.to_nat (len p)) with (length (s1 ++ b' :: s2)) by (unfold len; lia).
  rewrite take_app_length. destruct (Z.eqb_spec (crc32 (s1 ++ b' :: s2)) (crc32 p)) as [E|]; [|done].
  exfalso. revert E. rewrite Ep. by apply crc32_byte_neq.
Qed.

Lemma frame_reads_back_witness :
  len (lit "hi") < 2 ^ 32 /\ read_frame (frame (lit "hi") ++ lit "xyz") = FRecord (lit "hi") (lit "xyz").
Proof.
  split; [reflexivity|]. exact (proj1 (frame_reads_back (lit "hi") eq_refl) (lit "xyz")).
Defined.
