(* ===== verification/Spool.v ===== *)
(** * The spool (src/spool.cpp, include/ns/spool.hpp)

    The durable queue: a directory of segment files and a state file.  The
    directory is a finite map from file names to contents.  What the operating
    system may refuse is an oracle, an [io_env] per call of a public operation;
    [io_ok] refuses nothing.  Within one call a file is readable, removable and
    its size known or not, as the oracle says; writes can be cut short.

    A public operation returns its [bool], the new state and the error text, if
    it set one.  Calls of [log_event] are collected in [logged].  [fsync] changes
    no content and is left out.  64-bit counters and offsets wrap. *)
From S2P Require Import Prelude CppStd Json Log Frame Algorithms.
From Stdlib Require Import Ascii.

#[local] Open Scope Z_scope.

Record Config := mkConfig {
  dir : str; max_bytes : Z; segment_bytes : Z; fsync_on_append : bool }.

Record Record_ := mkRecord { sequence : Z; payload : str }.

Record Stats := mkStats {
  appended : Z; committed : Z; dropped : Z; st_pending : Z; bytes_on_disk : Z; st_segments : Z }.

Definition log_call : Type := LogLevel * str * list LogField.

Record Spool := mkSpool {
  cfg_ : Config; open_ : bool;
  segments_ : list Z;          (* ascending ids of the segments present *)
  read_segment_ : Z; read_offset_ : Z; next_sequence_ : Z; stats_ : Stats;
  disk : gmap str str;         (* the spool directory *)
  logged : list log_call }.

Record io_env := mkIo {
  mkdir_error : option str;    (* create_directories fails with this message *)
  scan_error : option str;     (* the directory cannot be listed *)
  can_read : str -> bool;      (* an existing file can be opened for reading *)
  size_known : Z -> bool;      (* file_size of an existing segment succeeds *)
  can_remove : str -> bool;
  append_opens : bool;         (* the segment can be opened for appending *)
  append_cut : option nat;     (* only so many bytes of the frame are written *)
  tmp_opens : bool;            (* state.tmp can be opened for writing *)
  tmp_fails : bool;            (* the stream reports an error before it is closed *)
  tmp_cut : option nat;        (* only so many bytes reach state.tmp, unreported *)
  rename_error : option str;   (* the first rename fails *)
  rename_again_error : option str }.

Definition io_ok : io_env :=
  mkIo None None (fun _ => true) (fun _ => true) (fun _ => true) true None true false None None None.

Definition size_max : Z := u64_max.

(** ** Field updates *)

Definition set_segments (l : list Z) (s : Spool) : Spool :=
  mkSpool (cfg_ s) (open_ s) l (read_segment_ s) (read_offset_ s) (next_sequence_ s) (stats_ s)
    (disk s) (logged s).
Definition set_cursor (seg off : Z) (s : Spool) : Spool :=
  mkSpool (cfg_ s) (open_ s) (segments_ s) seg off (next_sequence_ s) (stats_ s) (disk s) (logged s).
Definition set_sequence (n : Z) (s : Spool) : Spool :=
  mkSpool (cfg_ s) (open_ s) (segments_ s) (read_segment_ s) (read_offset_ s) n (stats_ s)
    (disk s) (logged s).
Definition set_stats (st : Stats) (s : Spool) : Spool :=
  mkSpool (cfg_ s) (open_ s) (segments_ s) (read_segment_ s) (read_offset_ s) (next_sequence_ s) st
    (disk s) (logged s).
Definition set_disk (d : gmap str str) (s : Spool) : Spool :=
  mkSpool (cfg_ s) (open_ s) (segments_ s) (read_segment_ s) (read_offset_ s) (next_sequence_ s)
    (stats_ s) d (logged s).
Definition set_open (b : bool) (s : Spool) : Spool :=
  mkSpool (cfg_ s) b (segments_ s) (read_segment_ s) (read_offset_ s) (next_sequence_ s) (stats_ s)
    (disk s) (logged s).
Definition set_cfg (c : Config) (s : Spool) : Spool :=
  mkSpool c (open_ s) (segments_ s) (read_segment_ s) (read_offset_ s) (next_sequence_ s) (stats_ s)
    (disk s) (logged s).
Definition add_log (e : log_call) (s : Spool) : Spool :=
  mkSpool (cfg_ s) (open_ s) (segments_ s) (read_segment_ s) (read_offset_ s) (next_sequence_ s)
    (stats_ s) (disk s) (logged s ++ [e]).

Definition set_pending (n : Z) (st : Stats) : Stats :=
  mkStats (appended st) (committed st) (dropped st) n (bytes_on_disk st) (st_segments st).
Definition set_dropped (n : Z) (st : Stats) : Stats :=
  mkStats (appended st) (committed st) n (st_pending st) (bytes_on_disk st) (st_segments st).
Definition set_committed (n : Z) (st : Stats) : Stats :=
  mkStats (appended st) n (dropped st) (st_pending st) (bytes_on_disk st) (st_segments st).

(** ** Files *)

Definition state_name : str := lit "state".
Definition tmp_name : str := lit "state.tmp".

(** The content of a file opened for reading. *)
Definition open_read (e : io_env) (d : gmap str str) (name : str) : option str :=
  if can_read e name then d !! name else None.

Definition remove_file (e : io_env) (name : str) (d : gmap str str) : gmap str str :=
  if can_remove e name then delete name d else d.

(** [fs::file_size] with an error code. *)
Definition file_size (e : io_env) (s : Spool) (id : Z) : option Z :=
  if size_known e id then len <$> disk s !! zero_pad id else None.

Definition total_bytes (e : io_env) (s : Spool) : Z :=
  fold_left (fun total id =>
    match file_size e s id with Some n => u64 (total + n) | None => total end) (segments_ s) 0.

(** ** Reading *)

Definition bad_magic_error : str := lit "spool frame magic mismatch; stopping at the damaged record".
Definition bad_crc_error : str := lit "spool record failed CRC; stopping at the damaged record".

(** The inner loop of [peek] on the rest of one file.  Every round but the last
    consumes at least a header, so the length of the file is enough fuel. *)
Fixpoint peek_file (fuel : nat) (max : Z) (out : list Record_) (error : option str) (s : str)
    : list Record_ * option str :=
  match fuel with
  | O => (out, error)
  | S f =>
      if Z.of_nat (length out) <? max then
        match read_frame s with
        | FShort => (out, error)
        | FBadMagic => (out, Some bad_magic_error)
        | FTorn => (out, error)
        | FBadCrc => (out, Some bad_crc_error)
        | FRecord p rest =>
            peek_file f max (out ++ [mkRecord (Z.of_nat (length out) + 1) p]) error rest
        end
      else (out, error)
  end.

Fixpoint peek_segments (e : io_env) (s : Spool) (max : Z) (ids : list Z) (out : list Record_)
    (error : option str) : list Record_ * option str :=
  match ids with
  | [] => (out, error)
  | id :: ids' =>
      if id <? read_segment_ s then peek_segments e s max ids' out error
      else
        match open_read e (disk s) (zero_pad id) with
        | None => peek_segments e s max ids' out error
        | Some content =>
            let rest := if id =? read_segment_ s then drop_z (read_offset_ s) content else content in
            let '(out, error) := peek_file (S (length content)) max out error rest in
            if max <=? Z.of_nat (length out) then (out, error)
            else peek_segments e s max ids' out error
        end
  end.

Definition peek (e : io_env) (s : Spool) (max_records : Z) : list Record_ * option str :=
  peek_segments e s max_records (segments_ s) [] None.

(** ** The state file *)

Definition state_text (s : Spool) : str :=
  to_string_u (read_segment_ s) ++ lit " " ++ to_string_u (read_offset_ s) ++ lit " " ++
  to_string_u (next_sequence_ s) ++ lit " " ++ to_string_u (committed (stats_ s)) ++ lit " " ++
  to_string_u (dropped (stats_ s)) ++ [nl].

Definition cut (n : option nat) (t : str) : str := match n with Some k => take k t | None => t end.

Definition save_state (e : io_env) (s : Spool) : bool * Spool * option str :=
  if negb (tmp_opens e) then (false, s, Some (lit "cannot write spool state"))
  else
    let s := set_disk (<[tmp_name := cut (tmp_cut e) (state_text s)]> (disk s)) s in
    if tmp_fails e then (false, s, Some (lit "failed writing spool state"))
    else
      let renamed := fun d : gmap str str =>
        delete tmp_name (<[state_name := default [] (d !! tmp_name)]> d) in
      match rename_error e with
      | None => (true, set_disk (renamed (disk s)) s, None)
      | Some _ =>
          let s := set_disk (remove_file e state_name (disk s)) s in
          match rename_again_error e with
          | None => (true, set_disk (renamed (disk s)) s, None)
          | Some m => (false, s, Some (lit "cannot commit spool state: " ++ m))
          end
      end.

(** Five extractions in a row: once the stream has failed, the rest are not
    attempted and their variables keep their values. *)
Record stream := mkStream { text_ : str; fail_ : bool; eof_ : bool }.

Definition extract (old : Z) (st : stream) : Z * stream :=
  if fail_ st || eof_ st then (old, mkStream (text_ st) true (eof_ st))
  else
    let x := extract_u64 old (text_ st) in
    (ex_val x, mkStream (ex_rest x) (ex_fail x) (ex_eof x)).

Definition load_state (e : io_env) (s : Spool) : Spool :=
  let front := match segments_ s with [] => 1 | id :: _ => id end in
  let s := set_sequence 1 (set_cursor front 0 s) in
  let s :=
    match open_read e (disk s) state_name with
    | None => s
    | Some text =>
        let st := mkStream text false false in
        let '(seg, st) := extract 0 st in
        let '(off, st) := extract 0 st in
        let '(sq, st) := extract 1 st in
        let '(com, st) := extract 0 st in
        let '(drp, st) := extract 0 st in
        if negb (fail_ st || eof_ st) || eof_ st then
          set_stats (set_dropped drp (set_committed com (stats_ s)))
            (set_sequence (if sq =? 0 then 1 else sq) (set_cursor seg off s))
        else s
    end in
  match segments_ s with
  | id :: _ => if read_segment_ s <? id then set_cursor id 0 s else s
  | [] => s
  end.

(** ** Opening *)

(** The segment id in a directory entry's name, if it is one. *)
Definition segment_id (name : str) : option Z :=
  if negb (starts_with (lit "seg-") name) || (length name <? 8)%nat then None
  else
    let id := strtoull10 (drop 4 name) in
    if 0 <? id then Some id else None.

Section Open.
Context {HS : StdSort} {HU : UnorderedIter}.

Definition scan_segments (e : io_env) (s : Spool) : bool * Spool * option str :=
  match scan_error e with
  | Some m => (false, set_segments [] s, Some (lit "cannot scan spool directory: " ++ m))
  | None =>
      let ids := omap (fun entry => segment_id entry.1) (unordered_iter (disk s)) in
      (true, set_segments (std_sort Z.ltb ids) s, None)
  end.

Definition open (e : io_env) (cfg : Config) (s : Spool) : bool * Spool * option str :=
  let s := set_cfg cfg s in
  match mkdir_error e with
  | Some m =>
      (false, s, Some (lit "cannot create spool directory " ++ dir cfg ++ lit ": " ++ m))
  | None =>
      let '(ok, s, error) := scan_segments e s in
      if negb ok then (false, s, error)
      else
        let s := set_open true (load_state e s) in
        let s := set_stats (set_pending 0 (stats_ s)) s in
        let n := Z.of_nat (length (peek e s size_max).1) in
        let s := set_stats (set_pending n (stats_ s)) s in
        (true,
         add_log (Info, lit "spool opened",
           [(lit "dir", dir cfg); (lit "segments", to_string (Z.of_nat (length (segments_ s))));
            (lit "pending", to_string n)]) s, None)
  end.
End Open.

Definition close (s : Spool) : Spool := set_open false s.

(** ** Eviction *)

(** One round of the loop of [enforce_bounds], when its condition holds. *)
Definition evict_front (e : io_env) (s : Spool) (victim : Z) (rest : list Z) : Spool :=
  let lost := if read_segment_ s <=? victim then Z.of_nat (length (peek e s size_max).1) else 0 in
  let s := set_segments rest (set_disk (remove_file e (zero_pad victim) (disk s)) s) in
  if read_segment_ s <=? victim then
    let s := set_cursor (match rest with [] => u64 (victim + 1) | id :: _ => id end) 0 s in
    let still := Z.of_nat (length (peek e s size_max).1) in
    let drp := if still <? lost then lost - still else 0 in
    let s := set_stats (set_pending still (set_dropped (u64 (dropped (stats_ s) + drp)) (stats_ s))) s in
    if 0 <? drp then
      add_log (Warn, lit "spool over budget, dropped oldest records",
        [(lit "dropped", to_string drp); (lit "max_bytes", to_string (max_bytes (cfg_ s)))]) s
    else s
  else s.

(** Every round removes a segment from the list, so its length is enough fuel. *)
Fixpoint enforce_loop (fuel : nat) (e : io_env) (s : Spool) : Spool :=
  match fuel with
  | O => s
  | S f =>
      match segments_ s with
      | victim :: ((_ :: _) as rest) =>
          if max_bytes (cfg_ s) <? total_bytes e s
          then enforce_loop f e (evict_front e s victim rest) else s
      | _ => s
      end
  end.

Definition enforce_bounds (e : io_env) (s : Spool) : Spool :=
  enforce_loop (length (segments_ s)) e s.

(** ** Appending *)

Definition list_last (l : list Z) : Z := default 0 (last l).

(** The segment to append to: the last one, or a new one when that is full. *)
Definition pick_segment (e : io_env) (s : Spool) : Z * Spool :=
  let s := match segments_ s with [] => set_segments [1] s | _ => s end in
  let active := list_last (segments_ s) in
  let size := default 0 (file_size e s active) in
  if segment_bytes (cfg_ s) <=? size then
    let active := u64 (active + 1) in (active, set_segments (segments_ s ++ [active]) s)
  else (active, s).

Definition append (e : io_env) (s : Spool) (p : str) : bool * Spool * option str :=
  if negb (open_ s) then (false, s, Some (lit "spool is not open"))
  else if 0xFFFFFFFF <? len p then
    (false, s, Some (lit "record too large for the frame length field"))
  else
    let '(active, s) := pick_segment e s in
    if negb (append_opens e) then (false, s, Some (lit "cannot open spool segment for append"))
    else
      let old := default [] (disk s !! zero_pad active) in
      let s := set_disk (<[zero_pad active := old ++ cut (append_cut e) (frame p)]> (disk s)) s in
      if bool_decide (is_Some (append_cut e)) then (false, s, Some (lit "spool append failed"))
      else
        let st := stats_ s in
        let s := set_sequence (u64 (next_sequence_ s + 1))
          (set_stats (mkStats (u64 (appended st + 1)) (committed st) (dropped st)
             (u64 (st_pending st + 1)) (bytes_on_disk st) (st_segments st)) s) in
        save_state e (enforce_bounds e s).

(** ** Committing *)

(** The inner loop of [commit] on one file: the offset, the records still to
    release, the counters and whether any record was passed.  A seek past the
    end of the file succeeds, and the next read there is short. *)
Fixpoint commit_file (fuel : nat) (content : str) (off remaining : Z) (st : Stats) (advanced : bool)
    : Z * Z * Stats * bool :=
  match fuel with
  | O => (off, remaining, st, advanced)
  | S f =>
      if 0 <? remaining then
        let s := drop_z off content in
        if (length s <? kHeaderBytes)%nat then (off, remaining, st, advanced)
        else if negb (get_u32 (take kHeaderBytes s) =? kMagic) then (off, remaining, st, advanced)
        else
          let n := get_u32 (drop 4 (take kHeaderBytes s)) in
          let st := mkStats (appended st) (u64 (committed st + 1)) (dropped st)
            (if 0 <? st_pending st then st_pending st - 1 else st_pending st)
            (bytes_on_disk st) (st_segments st) in
          commit_file f content (u64 (off + (12 + n))) (remaining - 1) st true
      else (off, remaining, st, advanced)
  end.

(** [std::upper_bound] on the ascending ids. *)
Definition upper_bound (l : list Z) (id : Z) : option Z := List.find (fun x => id <? x) l.

(** The outer loop.  Every round that goes on moves the cursor to a greater
    segment of the list, so the length of the list and one more is enough fuel. *)
Fixpoint commit_loop (fuel : nat) (e : io_env) (s : Spool) (remaining : Z) : Spool :=
  match fuel with
  | O => s
  | S f =>
      if (0 <? remaining) && negb (bool_decide (segments_ s = [])) then
        let id := read_segment_ s in
        match open_read e (disk s) (zero_pad id) with
        | None =>
            match upper_bound (segments_ s) id with
            | None => s
            | Some next => commit_loop f e (set_cursor next 0 s) remaining
            end
        | Some content =>
            let '(off, remaining, st, advanced) :=
              commit_file (S (length content)) content (read_offset_ s) remaining (stats_ s) false in
            let s := set_stats st (set_cursor id off s) in
            if remaining =? 0 then s
            else if negb advanced then s
            else
              match upper_bound (segments_ s) id with
              | None => s
              | Some next =>
                  let s := set_disk (remove_file e (zero_pad id) (disk s)) s in
                  let s := set_segments (List.filter (fun x => negb (x =? id)) (segments_ s)) s in
                  commit_loop f e (set_cursor next 0 s) remaining
              end
        end
      else s
  end.

Definition commit (e : io_env) (s : Spool) (count : Z) : bool * Spool * option str :=
  if negb (open_ s) then (false, s, Some (lit "spool is not open"))
  else if count =? 0 then (true, s, None)
  else save_state e (commit_loop (S (length (segments_ s))) e s count).

Definition stats (e : io_env) (s : Spool) : Stats * Spool :=
  let st := stats_ s in
  let st := mkStats (appended st) (committed st) (dropped st)
              (Z.of_nat (length (peek e s size_max).1)) (total_bytes e s)
              (Z.of_nat (length (segments_ s))) in
  (st, set_stats st s).
