(* ===== verification/SpoolLemmas.v ===== *)
(** * The spool read as a queue: names, reading and the representation

    [rep s done cur later] says that the directory of [s] holds exactly its
    segments, that the first one carries the records [done ++ cur] with the
    cursor after [done], and the others the records [later].  The abstract queue
    is [cur ++ concat later].  Segments may end in the remains of a cut frame
    where only reading is concerned ([seg_reads]). *)
From S2P Require Import Prelude CppStd Json Log Frame Algorithms Spool.
From Stdlib Require Import Ascii.

#[local] Open Scope Z_scope.

(** ** File names *)

Definition id_ok (id : Z) : Prop := 1 <= id < 2 ^ 64.

Lemma pad0_digits w n :
  0 <= n ->
  Forall (fun c => isdigit c = true) (pad0 w (to_string_u n)) /\
  dec_value (pad0 w (to_string_u n)) = n /\ pad0 w (to_string_u n) <> [].
Proof.
  intros Hn. destruct (to_string_u_spec n Hn) as (Hd & Hv & Hne). unfold pad0. repeat split.
  - apply Forall_app. split; [|done]. by apply Forall_replicate.
  - by rewrite dec_value_zeros.
  - intros E. by apply app_nil in E as [_ E].
Qed.

Lemma zero_pad_text id : id_ok id ->
  zero_pad id = lit "seg-" ++ pad0 8 (to_string_u id) ++ lit ".log".
Proof.
  intros Hid. unfold zero_pad. apply take_ge. unfold pad0, id_ok in *.
  pose proof (to_string_u_length id 20 ltac:(lia) ltac:(lia)).
  rewrite !length_app, length_replicate. simpl. lia.
Qed.

Lemma segment_id_zero_pad id : id_ok id -> segment_id (zero_pad id) = Some id.
Proof.
  intros Hid. rewrite zero_pad_text by done. unfold segment_id.
  rewrite starts_with_app. cbn [negb orb].
  destruct (Nat.ltb_spec (length (lit "seg-" ++ pad0 8 (to_string_u id) ++ lit ".log")) 8) as [H|_].
  { unfold pad0 in H. rewrite !length_app, length_replicate in H. simpl in H. lia. }
  change (drop 4 (lit "seg-" ++ ?s)) with s. unfold id_ok in Hid.
  destruct (pad0_digits 8 id ltac:(lia)) as (Hd & Hv & Hne).
  rewrite strtoull10_digits by (done || (rewrite Hv; lia)). rewrite Hv.
  destruct (Z.ltb_spec 0 id); [done|lia].
Qed.

Lemma zero_pad_inj i j : id_ok i -> id_ok j -> zero_pad i = zero_pad j -> i = j.
Proof.
  intros Hi Hj E. assert (Some i = Some j); [|congruence].
  by rewrite <- (segment_id_zero_pad i Hi), <- (segment_id_zero_pad j Hj), E.
Qed.

Lemma zero_pad_state id : id_ok id -> zero_pad id <> state_name /\ zero_pad id <> tmp_name.
Proof.
  intros Hid. pose proof (segment_id_zero_pad id Hid) as H.
  split; intros E; rewrite E in H; vm_compute in H; congruence.
Qed.

(** ** Reading records *)

(** The records with their sequence numbers, counting on from [n]. *)
Fixpoint number (n : Z) (ps : list str) : list Record_ :=
  match ps with [] => [] | p :: ps' => mkRecord (n + 1) p :: number (n + 1) ps' end.

Lemma number_app n ps qs : number n (ps ++ qs) = number n ps ++ number (n + Z.of_nat (length ps)) qs.
Proof.
  revert n. induction ps as [|p ps IH]; intros n; simpl; [by rewrite Z.add_0_r|].
  rewrite IH. do 3 f_equal. lia.
Qed.

Lemma number_length n ps : length (number n ps) = length ps.
Proof. revert n. induction ps as [|p ps IH]; intros n; simpl; [done|]. by rewrite IH. Qed.

Lemma number_payload n ps : payload <$> number n ps = ps.
Proof. revert n. induction ps as [|p ps IH]; intros n; simpl; [done|]. f_equal. apply IH. Qed.

(** Bytes that are no record: what a cut append leaves, or nothing. *)
Definition dead (t : str) : Prop := read_frame t = FShort \/ read_frame t = FTorn.

Lemma dead_nil : dead [].
Proof. by left. Qed.

Definition want (max : Z) (out : list Record_) : nat := Z.to_nat (max - Z.of_nat (length out)).

Lemma peek_file_frames ps t fuel max out error :
  Forall fits ps -> dead t -> (length ps < fuel)%nat ->
  peek_file fuel max out error (frames ps ++ t) =
  (out ++ number (Z.of_nat (length out)) (take (want max out) ps), error).
Proof.
  intros Hps Ht. revert fuel out. induction Hps as [|p ps Hp _ IH]; intros fuel out Hf;
    (destruct fuel as [|fuel]; [simpl in Hf; lia|]); cbn [peek_file].
  - rewrite take_nil. simpl. rewrite app_nil_r.
    destruct Ht as [-> | ->]; by destruct (Z.of_nat (length out) <? max).
  - destruct (Z.ltb_spec (Z.of_nat (length out)) max) as [Hlt|Hge].
    + rewrite frames_cons, <- app_assoc, read_frame_app by done.
      rewrite IH by (simpl in Hf; lia). unfold want at 2.
      replace (Z.to_nat (max - Z.of_nat (length out)))
        with (S (want max (out ++ [mkRecord (Z.of_nat (length out) + 1) p])))
        by (unfold want; rewrite length_app; simpl; lia).
      cbn [take number]. rewrite <- app_assoc. cbn [app]. do 4 f_equal.
      rewrite length_app. simpl. lia.
    + unfold want. replace (Z.to_nat _) with 0%nat by lia. simpl. by rewrite app_nil_r.
Qed.

Lemma frames_length_ge ps : (length ps <= length (frames ps))%nat.
Proof.
  induction ps as [|p ps IH]; [done|]. rewrite frames_cons, length_app, frame_length. simpl. lia.
Qed.

Definition seg_reads (d : gmap str str) (id : Z) (ps : list str) : Prop :=
  exists t, d !! zero_pad id = Some (frames ps ++ t) /\ dead t.

Definition readable (e : io_env) : Prop := forall name, can_read e name = true.

Lemma want_app max out n ps :
  want max (out ++ number n (take (want max out) ps)) = (want max out - length ps)%nat.
Proof. unfold want. rewrite length_app, number_length, length_take. lia. Qed.

(** Segments behind the cursor's own. *)
Lemma peek_later e s max ids pss out error :
  readable e -> Forall2 (seg_reads (disk s)) ids pss -> Forall (fun id => read_segment_ s < id) ids ->
  Forall fits (concat pss) ->
  peek_segments e s max ids out error =
  (out ++ number (Z.of_nat (length out)) (take (want max out) (concat pss)), error).
Proof.
  intros He H. revert out. induction H as [|id ps ids pss (t & Hd & Ht) _ IH]; intros out Hlt Hfit.
  { simpl. rewrite take_nil. simpl. by rewrite app_nil_r. }
  apply Forall_cons_iff in Hlt as [Hid Hlt]. cbn [concat] in *. apply Forall_app in Hfit as [Hps Hfit].
  cbn [peek_segments]. destruct (Z.ltb_spec id (read_segment_ s)); [lia|].
  unfold open_read. rewrite He, Hd. destruct (Z.eqb_spec id (read_segment_ s)); [lia|].
  rewrite peek_file_frames by (done || (pose proof (frames_length_ge ps); rewrite length_app; lia)).
  rewrite IH by done. rewrite take_app, number_app, app_assoc, want_app.
  destruct (Z.leb_spec max (Z.of_nat (length (out ++ number (Z.of_nat (length out)) (take (want max out) ps))))) as [Hm|Hm];
    rewrite length_app, number_length in *.
  - assert (want max out - length ps = 0)%nat as ->.
    { unfold want in *. rewrite length_take in Hm. lia. }
    by rewrite take_0, app_nil_r.
  - do 3 f_equal. rewrite Nat2Z.inj_add. done.
Qed.

(** ** The representation *)

Definition seg_holds (d : gmap str str) (id : Z) (ps : list str) : Prop :=
  d !! zero_pad id = Some (frames ps) /\ ps <> [].

Definition bytes_of (pss : list (list str)) : Z := len (frames (concat pss)).

Record rep (s : Spool) (done cur : list str) (later : list (list str)) : Prop := {
  rep_segs :
    match segments_ s with
    | [] => done = [] /\ cur = [] /\ later = [] /\ read_segment_ s = 1 /\ read_offset_ s = 0
    | id :: ids =>
        read_segment_ s = id /\ read_offset_ s = len (frames done) /\
        seg_holds (disk s) id (done ++ cur) /\ Forall2 (seg_holds (disk s)) ids later
    end;
  rep_sorted : StronglySorted Z.lt (segments_ s);
  rep_ids : Forall id_ok (segments_ s);
  rep_fits : Forall fits (done ++ cur ++ concat later);
  rep_small : bytes_of ((done ++ cur) :: later) < 2 ^ 63;
  rep_names : forall name, is_Some (disk s !! name) ->
    name = state_name \/ name = tmp_name \/ exists id, id ∈ segments_ s /\ name = zero_pad id
}.

(** The abstract queue. *)
Definition queue (cur : list str) (later : list (list str)) : list str := cur ++ concat later.

Lemma seg_holds_reads d id ps : seg_holds d id ps -> seg_reads d id ps.
Proof. intros [H _]. exists []. rewrite app_nil_r. split; [done|apply dead_nil]. Qed.

Lemma Forall2_weaken {A B} (P Q : A -> B -> Prop) l k :
  (forall x y, P x y -> Q x y) -> Forall2 P l k -> Forall2 Q l k.
Proof. intros H. induction 1; constructor; auto. Qed.

Lemma sorted_head_lt id ids : StronglySorted Z.lt (id :: ids) -> Forall (fun x => id < x) ids.
Proof. intros H. by apply StronglySorted_inv in H as [_ H]. Qed.

(** [peek] on segments that may end in cut frames. *)
Lemma peek_reads e s id ids done cur later max t :
  readable e -> segments_ s = id :: ids -> read_segment_ s = id ->
  read_offset_ s = len (frames done) ->
  disk s !! zero_pad id = Some (frames (done ++ cur) ++ t) -> dead t ->
  Forall2 (seg_reads (disk s)) ids later -> Forall (fun x => id < x) ids ->
  Forall fits (cur ++ concat later) ->
  peek e s max = (number 0 (take (Z.to_nat max) (queue cur later)), None).
Proof.
  intros He Hs Hid Hoff Hd Ht Hlater Hlt Hfit. subst id. unfold peek. rewrite Hs. cbn [peek_segments].
  apply Forall_app in Hfit as [Hcur Hfit].
  rewrite Z.ltb_irrefl, Z.eqb_refl. unfold open_read. rewrite He, Hd, Hoff.
  rewrite frames_app, <- app_assoc, drop_z_app.
  rewrite peek_file_frames; [|done|done|].
  2: { pose proof (frames_length_ge cur). rewrite !length_app. lia. }
  assert (want max [] = Z.to_nat max) as Hw by (unfold want; f_equal; simpl; lia).
  rewrite Hw. cbn [app length]. change (Z.of_nat 0) with 0. unfold queue.
  rewrite (peek_later _ _ _ _ later) by done.
  rewrite number_length, take_app, number_app.
  destruct (Z.leb_spec max (Z.of_nat (length (take (Z.to_nat max) cur)))) as [Hm|Hm];
    rewrite length_take in Hm.
  - replace (Z.to_nat max - length cur)%nat with 0%nat by lia. by rewrite take_0, app_nil_r.
  - rewrite length_take. do 3 f_equal. f_equal. unfold want. rewrite number_length, length_take. lia.
Qed.

Lemma peek_rep e s done cur later max :
  readable e -> rep s done cur later ->
  peek e s max = (number 0 (take (Z.to_nat max) (queue cur later)), None).
Proof.
  intros He R. pose proof (rep_segs _ _ _ _ R) as H. destruct (segments_ s) as [|id ids] eqn:Es.
  - destruct H as (-> & -> & -> & _ & _). unfold peek, queue. rewrite Es. simpl. by rewrite take_nil.
  - destruct H as (Hr & Ho & [Hh Hne] & Hl). pose proof (rep_sorted _ _ _ _ R) as Hs.
    rewrite Es in Hs. eapply (peek_reads e s id ids done cur later max []); try done.
    + by rewrite app_nil_r.
    + apply dead_nil.
    + eapply Forall2_weaken; [|exact Hl]. apply seg_holds_reads.
    + by apply sorted_head_lt.
    + by pose proof (proj1 (Forall_app _ _ _) (rep_fits _ _ _ _ R)) as [_ ?].
Qed.

Lemma queue_small s done cur later :
  rep s done cur later -> Z.of_nat (length (queue cur later)) < 2 ^ 63.
Proof.
  intros R. pose proof (rep_small _ _ _ _ R) as H. unfold bytes_of in H. cbn [concat] in H.
  pose proof (frames_length_ge ((done ++ cur) ++ concat later)) as Hl.
  unfold len in H. unfold queue. rewrite !length_app in *. lia.
Qed.

(** The number of pending records, as [open], [stats] and eviction count it. *)
Lemma pending_rep e s done cur later :
  readable e -> rep s done cur later ->
  Z.of_nat (length (peek e s size_max).1) = Z.of_nat (length (queue cur later)).
Proof.
  intros He R. rewrite (peek_rep _ _ _ _ _ _ He R). simpl. rewrite number_length, length_take.
  pose proof (queue_small _ _ _ _ R). unfold size_max, u64_max. lia.
Qed.

(** ** Saving the state *)

Lemma save_state_ok s :
  save_state io_ok s =
  (true, set_disk (delete tmp_name (<[state_name := state_text s]> (<[tmp_name := state_text s]> (disk s)))) s,
   None).
Proof.
  unfold save_state. cbn [io_ok tmp_opens negb tmp_cut cut tmp_fails rename_error disk set_disk].
  by rewrite lookup_insert_eq.
Qed.

Lemma segs_transfer d d' ids pss :
  (forall id ps, id ∈ ids -> seg_holds d id ps -> seg_holds d' id ps) ->
  Forall2 (seg_holds d) ids pss -> Forall2 (seg_holds d') ids pss.
Proof.
  intros Hk H. induction H as [|x ps ids pss Hx _ IH]; constructor; [apply Hk; set_solver|].
  apply IH. intros y qs Hy. apply Hk. set_solver.
Qed.

(** The parts of a state the representation depends on. *)
Lemma rep_transfer s s' done cur later :
  rep s done cur later -> segments_ s' = segments_ s -> read_segment_ s' = read_segment_ s ->
  read_offset_ s' = read_offset_ s ->
  (forall name, name <> state_name -> name <> tmp_name -> disk s' !! name = disk s !! name) ->
  rep s' done cur later.
Proof.
  intros R E1 E2 E3 Ed. destruct R as [Hs Hso Hi Hf Hb Hn].
  assert (forall id ps, id ∈ segments_ s -> seg_holds (disk s) id ps -> seg_holds (disk s') id ps) as Hk.
  { intros id ps Hin [H1 H2]. rewrite Forall_forall in Hi. destruct (zero_pad_state id (Hi _ Hin)).
    split; [|done]. by rewrite Ed. }
  split; rewrite ?E1, ?E2, ?E3; try done.
  - destruct (segments_ s) as [|id ids]; [done|]. destruct Hs as (? & ? & Hh & Hl).
    split; [done|]. split; [done|]. split; [apply Hk; [set_solver|done]|].
    apply (segs_transfer (disk s)); [|done]. intros x ps Hx. apply Hk. set_solver.
  - intros name H. destruct (decide (name = state_name)); [by left|].
    destruct (decide (name = tmp_name)); [by right; left|]. apply Hn. by rewrite <- Ed.
Qed.

Lemma total_bytes_same e s s' :
  segments_ s' = segments_ s ->
  (forall id, id ∈ segments_ s -> disk s' !! zero_pad id = disk s !! zero_pad id) ->
  total_bytes e s' = total_bytes e s.
Proof.
  intros Es Hd. unfold total_bytes. rewrite Es. revert Hd. generalize 0 as n, (segments_ s) as l.
  intros n l. revert n. induction l as [|id ids IH]; intros n Hd; [done|]. cbn [fold_left].
  rewrite IH by (intros x Hx; apply Hd; set_solver). unfold file_size.
  by rewrite (Hd id) by set_solver.
Qed.

Lemma save_state_rep s done cur later :
  rep s done cur later ->
  exists s', save_state io_ok s = (true, s', None) /\ rep s' done cur later /\
    disk s' !! state_name = Some (state_text s) /\ total_bytes io_ok s' = total_bytes io_ok s /\
    (cfg_ s', open_ s', segments_ s', read_segment_ s', read_offset_ s', next_sequence_ s', stats_ s') =
    (cfg_ s, open_ s, segments_ s, read_segment_ s, read_offset_ s, next_sequence_ s, stats_ s).
Proof.
  intros R. rewrite save_state_ok. eexists. split; [done|]. split; [|split; [|split; [|done]]].
  - eapply rep_transfer; [exact R|done..|]. intros name H1 H2. simpl.
    rewrite lookup_delete_ne, !lookup_insert_ne by done. done.
  - simpl. by rewrite lookup_delete_ne, lookup_insert_eq.
  - apply total_bytes_same; [done|]. intros id Hid. simpl.
    pose proof (rep_ids _ _ _ _ R) as Hi. rewrite Forall_forall in Hi.
    destruct (zero_pad_state id (Hi _ Hid)). by rewrite lookup_delete_ne, !lookup_insert_ne by done.
Qed.
