(* ===== verification/SpoolQueue.v ===== *)
(** * The spool implements a bounded queue

    Refinement of [append], [enforce_bounds], [commit] and [open] (without
    refusals from the operating system) by operations on the list of pending
    payloads, then what happens when a process is killed in the middle of an
    append, and where the code departs from its contract. *)
From S2P Require Import Prelude CppStd Json Log Frame Algorithms Spool SpoolLemmas.
From Stdlib Require Import Ascii.

#[local] Open Scope Z_scope.

Lemma io_ok_readable : readable io_ok.
Proof. done. Qed.

#[local] Hint Resolve io_ok_readable : core.

(** The counter of pending records agrees with the queue. *)
Definition counted (s : Spool) (q : list str) : Prop := st_pending (stats_ s) = Z.of_nat (length q).

(** Everything but the segments, the cursor, the counters and the directory. *)
Definition same_setup (s s' : Spool) : Prop :=
  (cfg_ s', open_ s', next_sequence_ s') = (cfg_ s, open_ s, next_sequence_ s).

#[global] Instance same_setup_po : PreOrder same_setup.
Proof. split; [done|]. unfold same_setup. intros x y z. congruence. Qed.

(** ** Eviction *)

Lemma bytes_of_cons ps pss : bytes_of (ps :: pss) = len (frames ps) + bytes_of pss.
Proof. unfold bytes_of. cbn [concat]. by rewrite frames_app, len_app. Qed.

Lemma bytes_of_app a b : bytes_of (a ++ b) = bytes_of a + bytes_of b.
Proof. unfold bytes_of. by rewrite concat_app, frames_app, len_app. Qed.

Lemma bytes_of_single ps : bytes_of [ps] = len (frames ps).
Proof. unfold bytes_of. simpl. by rewrite app_nil_r. Qed.

Lemma frames_single p : frames [p] = frame p.
Proof. unfold frames. cbn. by rewrite app_nil_r. Qed.

Lemma frames_snoc ps p : frames (ps ++ [p]) = frames ps ++ frame p.
Proof. by rewrite frames_app, frames_single. Qed.

(** ** The size of the directory *)

Lemma total_fold s ids pss n :
  Forall2 (seg_holds (disk s)) ids pss -> 0 <= n -> n + bytes_of pss < 2 ^ 63 ->
  fold_left (fun total id =>
    match file_size io_ok s id with Some k => u64 (total + k) | None => total end) ids n = n + bytes_of pss.
Proof.
  intros H. revert n. induction H as [|id ps ids pss [Hd _] _ IH]; intros n Hn Hb.
  { unfold bytes_of. simpl. unfold len. simpl. lia. }
  rewrite bytes_of_cons in *. cbn [fold_left]. unfold file_size at 2. cbn [io_ok size_known].
  rewrite Hd. cbn [fmap option_fmap option_map].
  pose proof (len_nonneg (frames ps)). pose proof (len_nonneg (frames (concat pss))).
  unfold bytes_of in *. rewrite u64_small by lia. rewrite IH by lia. lia.
Qed.

Lemma total_rep s done cur later :
  rep s done cur later -> total_bytes io_ok s = bytes_of ((done ++ cur) :: later).
Proof.
  intros R. pose proof (rep_segs _ _ _ _ R) as Hs. pose proof (rep_small _ _ _ _ R) as Hb.
  unfold total_bytes. destruct (segments_ s) as [|id ids].
  - by destruct Hs as (-> & -> & -> & _).
  - destruct Hs as (_ & _ & Hh & Hl). by rewrite (total_fold s (id :: ids) ((done ++ cur) :: later)) by first [by constructor|lia].
Qed.

(** ** What an append does to the segments

    The segments of a directory as lists of payloads, oldest first. *)

(** The record goes into the last segment, or into a new one when the last one
    has reached its limit. *)
Fixpoint add_last (limit : Z) (pss : list (list str)) (p : str) : list (list str) :=
  match pss with
  | [] => [[p]]
  | [ps] => if limit <=? len (frames ps) then [ps; [p]] else [ps ++ [p]]
  | ps :: pss' => ps :: add_last limit pss' p
  end.

(** [n] is the least number of oldest segments whose removal brings the
    directory within [budget]; the last segment is never removed. *)
Definition least_eviction (budget : Z) (pss : list (list str)) (n : nat) : Prop :=
  (n < length pss)%nat /\
  (forall m, (m < n)%nat -> budget < bytes_of (drop m pss)) /\
  (bytes_of (drop n pss) <= budget \/ S n = length pss).

Lemma add_last_snoc limit l ps p :
  add_last limit (l ++ [ps]) p = if limit <=? len (frames ps) then l ++ [ps; [p]] else l ++ [ps ++ [p]].
Proof.
  induction l as [|qs l IH]; [done|]. cbn [app].
  assert (add_last limit (qs :: l ++ [ps]) p = qs :: add_last limit (l ++ [ps]) p) as -> by (by destruct l).
  rewrite IH. by destruct (limit <=? _).
Qed.

Lemma rep_evict_disk s id id2 ids done cur later :
  rep s done cur later -> segments_ s = id :: id2 :: ids ->
  let s' := set_cursor id2 0
    (set_segments (id2 :: ids) (set_disk (delete (zero_pad id) (disk s)) s)) in
  exists ps pss, later = ps :: pss /\ rep s' [] ps pss.
Proof.
  intros R Es. destruct R as [Hs Hso Hi Hf Hb Hn]. rewrite Es in *.
  destruct Hs as (_ & _ & _ & Hl). inversion Hl as [|? ps ? pss Hh Ht]; subst.
  exists ps, pss. split; [done|].
  apply StronglySorted_inv in Hso as [Hso Hlt]. apply Forall_cons_iff in Hi as [Hid Hi].
  assert (forall x qs, x ∈ id2 :: ids -> seg_holds (disk s) x qs ->
    seg_holds (delete (zero_pad id) (disk s)) x qs) as Hk.
  { intros x qs Hx [H1 H2]. split; [|done]. rewrite lookup_delete_ne; [done|].
    rewrite Forall_forall in Hlt, Hi. specialize (Hlt _ Hx). specialize (Hi _ Hx).
    intros E. apply zero_pad_inj in E; [lia|done..]. }
  split; cbn [set_cursor set_segments set_disk segments_ read_segment_ read_offset_ disk app]; try done.
  - split; [done|]. split; [done|]. split; [apply Hk; [set_solver|done]|].
    apply (segs_transfer (disk s)); [|done]. intros x qs Hx. apply Hk. set_solver.
  - apply Forall_app in Hf as [_ Hf]. by apply Forall_app in Hf as [_ Hf].
  - rewrite bytes_of_cons in Hb. pose proof (len_nonneg (frames (done ++ cur))). lia.
  - intros name Hname. destruct (decide (name = zero_pad id)) as [->|Hne].
    { rewrite lookup_delete_eq in Hname. by destruct Hname. }
    rewrite lookup_delete_ne in Hname by done.
    destruct (Hn name Hname) as [H|[H|(x & Hx & ->)]]; [by left|by right; left|].
    right; right. exists x. split; [|done]. apply elem_of_cons in Hx as [->|Hx]; done.
Qed.

Lemma peek_set_stats e s st max : peek e (set_stats st s) max = peek e s max.
Proof.
  unfold peek. cbn [set_stats segments_]. generalize (segments_ s) as ids.
  assert (forall ids out error, peek_segments e (set_stats st s) max ids out error =
    peek_segments e s max ids out error) as H; [|auto].
  induction ids as [|id ids IH]; intros out error; [done|]. cbn [peek_segments].
  cbn [set_stats read_segment_ read_offset_ disk].
  destruct (id <? read_segment_ s); [done|]. destruct (open_read _ _ _); [|done].
  destruct (peek_file _ _ _ _ _) as [o er]. by rewrite IH.
Qed.

Lemma evict_rep s id id2 ids done cur later :
  rep s done cur later -> segments_ s = id :: id2 :: ids -> 0 <= dropped (stats_ s) < 2 ^ 64 ->
  let s' := evict_front io_ok s id (id2 :: ids) in
  exists ps pss, later = ps :: pss /\ rep s' [] ps pss /\ counted s' (queue ps pss) /\
    dropped (stats_ s') = u64 (dropped (stats_ s) + Z.of_nat (length cur)) /\
    committed (stats_ s') = committed (stats_ s) /\ appended (stats_ s') = appended (stats_ s) /\
    segments_ s' = id2 :: ids /\ same_setup s s'.
Proof.
  intros R Es Hd. destruct (rep_evict_disk _ _ _ _ _ _ _ R Es) as (ps & pss & -> & R').
  exists ps, pss. split; [done|]. unfold evict_front.
  pose proof (rep_segs _ _ _ _ R) as Hr. rewrite Es in Hr. destruct Hr as (Hr & _).
  rewrite Hr, Z.leb_refl, (pending_rep _ _ _ _ _ io_ok_readable R).
  cbn [set_segments set_disk read_segment_ io_ok remove_file can_remove].
  rewrite Hr, Z.leb_refl. unfold remove_file. cbn [io_ok can_remove].
  rewrite (pending_rep _ _ _ _ _ io_ok_readable R').
  assert (length (queue cur (ps :: pss)) = (length cur + length (queue ps pss))%nat) as ->
    by apply length_app.
  set (n := length (queue ps pss)).
  assert ((if Z.of_nat n <? Z.of_nat (length cur + n) then Z.of_nat (length cur + n) - Z.of_nat n else 0)
    = Z.of_nat (length cur)) as ->
    by (destruct (Z.ltb_spec (Z.of_nat n) (Z.of_nat (length cur + n))); lia).
  destruct (0 <? Z.of_nat (length cur)); (split; [|by repeat split]);
    (eapply rep_transfer; [exact R'|done..]).
Qed.

Lemma least_eviction_0 budget ps pss :
  bytes_of (ps :: pss) <= budget \/ pss = [] -> least_eviction budget (ps :: pss) 0.
Proof. intros H. split; [simpl; lia|]. split; [lia|]. simpl. destruct H as [H| ->]; auto. Qed.

Lemma least_eviction_S budget ps pss n :
  budget < bytes_of (ps :: pss) -> least_eviction budget pss n -> least_eviction budget (ps :: pss) (S n).
Proof.
  intros H (H1 & H2 & H3). split; [simpl; lia|]. split; [|simpl; destruct H3; auto].
  intros [|m] Hm; [done|]. apply H2. lia.
Qed.

Lemma rep_later s done cur later :
  rep s done cur later -> later = [] <-> (length (segments_ s) <= 1)%nat.
Proof.
  intros R. pose proof (rep_segs _ _ _ _ R) as H. destruct (segments_ s) as [|id ids].
  - destruct H as (_ & _ & -> & _). simpl. split; [lia|done].
  - destruct H as (_ & _ & _ & Hl). apply Forall2_length in Hl. simpl. rewrite <- length_zero_iff_nil. lia.
Qed.

(** What eviction leaves: [n] whole segments are gone, with [k] pending records. *)
Record evicted (s s' : Spool) (done cur : list str) (later : list (list str)) (n k : nat)
    (done' cur' : list str) (later' : list (list str)) : Prop := {
  ev_rep : rep s' done' cur' later';
  ev_least : least_eviction (max_bytes (cfg_ s)) ((done ++ cur) :: later) n;
  ev_segs : (done' ++ cur') :: later' = drop n ((done ++ cur) :: later);
  ev_done : done' = if (n =? 0)%nat then done else [];
  ev_k : (k <= length (queue cur later))%nat;
  ev_queue : queue cur' later' = drop k (queue cur later);
  ev_counted : counted s' (queue cur' later');
  ev_dropped : dropped (stats_ s') = u64 (dropped (stats_ s) + Z.of_nat k);
  ev_committed : committed (stats_ s') = committed (stats_ s);
  ev_appended : appended (stats_ s') = appended (stats_ s);
  ev_setup : same_setup s s' }.

Lemma evicted_none s done cur later :
  rep s done cur later -> counted s (queue cur later) -> 0 <= dropped (stats_ s) < 2 ^ 64 ->
  bytes_of ((done ++ cur) :: later) <= max_bytes (cfg_ s) \/ later = [] ->
  evicted s s done cur later 0 0 done cur later.
Proof.
  intros R Hc Hd Hb. split; rewrite ?Z.add_0_r, ?u64_small by done; try done; [|lia].
  by apply least_eviction_0.
Qed.

Lemma enforce_rep fuel s done cur later :
  rep s done cur later -> counted s (queue cur later) -> 0 <= dropped (stats_ s) < 2 ^ 64 ->
  (length (segments_ s) <= fuel)%nat ->
  exists n k done' cur' later',
    evicted s (enforce_loop fuel io_ok s) done cur later n k done' cur' later'.
Proof.
  revert s done cur later. induction fuel as [|fuel IH]; intros s done cur later R Hc Hd Hf.
  { exists 0%nat, 0%nat, done, cur, later. apply evicted_none; try done. right. apply (rep_later _ _ _ _ R). lia. }
  cbn [enforce_loop]. destruct (segments_ s) as [|id [|id2 ids]] eqn:Es.
  1, 2: exists 0%nat, 0%nat, done, cur, later; apply evicted_none; try done; right;
        apply (rep_later _ _ _ _ R); rewrite Es; simpl; lia.
  rewrite (total_rep _ _ _ _ R). case_match eqn:Hover; bools.
  2: { exists 0%nat, 0%nat, done, cur, later. apply evicted_none; try done. by left. }
  destruct (evict_rep s id id2 ids done cur later R Es Hd)
    as (ps & pss & -> & R' & Hc' & Hd' & Hcm & Ha & Hs' & Hset).
  destruct (IH _ [] ps pss R' Hc') as (n & k & d' & c' & l' & [R2 Hl Hsg Hdn Hk Hq Hc2 Hd2 Hcm2 Ha2 Hset2]).
  { rewrite Hd'. apply u64_range. }
  { rewrite Hs'. simpl in *. lia. }
  exists (S n), (length cur + k)%nat, d', c', l'.
  assert (queue cur (ps :: pss) = cur ++ queue ps pss) as Eq by done.
  split; try done; rewrite ?Eq; [| |rewrite length_app; lia| | |congruence|congruence|by etrans].
  - apply least_eviction_S; [done|]. by injection Hset as <- _ _.
  - rewrite Hdn. by destruct (n =? 0)%nat.
  - rewrite Hq, <- drop_drop. f_equal. by rewrite drop_app_length.
  - rewrite Hd2, Hd', u64_add_l. f_equal. lia.
Qed.

(** ** Appending *)

(** Writing [content] to segment [id] leaves the other segments alone. *)
Lemma holds_insert_ne d id id' c ps :
  id_ok id -> id_ok id' -> id <> id' -> seg_holds d id' ps ->
  seg_holds (<[zero_pad id := c]> d) id' ps.
Proof.
  intros H H' Hne [H1 H2]. split; [|done]. rewrite lookup_insert_ne; [done|].
  intros E. by apply zero_pad_inj in E.
Qed.

Lemma segs_insert_ne d id c ids pss :
  id_ok id -> Forall id_ok ids -> id ∉ ids -> Forall2 (seg_holds d) ids pss ->
  Forall2 (seg_holds (<[zero_pad id := c]> d)) ids pss.
Proof.
  intros H Hi Hn. apply segs_transfer. intros x ps Hx. rewrite Forall_forall in Hi.
  apply holds_insert_ne; [done|by apply Hi|]. by intros ->.
Qed.

Lemma sorted_snoc_lt ids a : StronglySorted Z.lt (ids ++ [a]) -> Forall (fun x => x < a) ids.
Proof.
  intros H. apply Forall_forall. intros x Hx.
  eapply StronglySorted_app_1_elem_of; [exact H|done|set_solver].
Qed.

Lemma sorted_next l :
  StronglySorted Z.lt l -> l <> [] -> StronglySorted Z.lt (l ++ [list_last l + 1]).
Proof.
  intros Hs Hne. apply StronglySorted_app_2; [|done|by repeat constructor].
  intros x y Hx Hy. apply list_elem_of_singleton in Hy as ->.
  destruct (exists_last Hne) as (k & a & ->). unfold list_last. rewrite last_snoc. simpl.
  apply sorted_snoc_lt in Hs. apply elem_of_app in Hx as [Hx|Hx].
  - rewrite Forall_forall in Hs. specialize (Hs _ Hx). simpl in Hs. lia.
  - apply list_elem_of_singleton in Hx. lia.
Qed.

Lemma names_insert s id c (segs : list Z) :
  (forall name, is_Some (disk s !! name) ->
     name = state_name \/ name = tmp_name \/ exists x, x ∈ segments_ s /\ name = zero_pad x) ->
  id ∈ segs -> (forall x, x ∈ segments_ s -> x ∈ segs) ->
  forall name, is_Some (<[zero_pad id := c]> (disk s) !! name) ->
    name = state_name \/ name = tmp_name \/ exists x, x ∈ segs /\ name = zero_pad x.
Proof.
  intros Hn Hid Hsub name H. destruct (decide (name = zero_pad id)) as [->|Hne]; [eauto|].
  rewrite lookup_insert_ne in H by done.
  destruct (Hn name H) as [?|[?|(x & Hx & ->)]]; [by left|by right; left|right; right; eauto].
Qed.

Definition write_to (id : Z) (content : str) (s : Spool) : Spool :=
  set_disk (<[zero_pad id := content]> (disk s)) s.

Section Write.
Context (s : Spool) (done cur : list str) (later : list (list str)) (p : str).
Context (R : rep s done cur later) (Hp : fits p)
        (Hroom : bytes_of ((done ++ cur) :: later) + len (frame p) < 2 ^ 63).

Lemma write_first : segments_ s = [] -> rep (write_to 1 (frame p) (set_segments [1] s)) [] [p] [].
Proof.
  intros Es. destruct R as [Hs Hso Hi Hf Hb Hn]. rewrite Es in Hs.
  destruct Hs as (-> & -> & -> & Hr & Ho).
  split; cbn [write_to set_segments set_disk segments_ read_segment_ read_offset_ disk app concat].
  - split; [done|]. split; [done|]. split; [|constructor]. split; [|done].
    by rewrite lookup_insert_eq, frames_single.
  - repeat constructor.
  - repeat constructor; lia.
  - by repeat constructor.
  - rewrite bytes_of_single in Hroom |- *. rewrite frames_single. pose proof (len_nonneg (frames ([] ++ []))). lia.
  - apply names_insert; [done|set_solver|]. rewrite Es. intros x Hx. by apply elem_of_nil in Hx.
Qed.

Lemma write_head id : segments_ s = [id] ->
  rep (write_to id (frames (done ++ cur) ++ frame p) s) done (cur ++ [p]) later.
Proof.
  intros Es. destruct R as [Hs Hso Hi Hf Hb Hn]. rewrite Es in *.
  destruct Hs as (Hr & Ho & Hh & Hl). inversion Hl; subst.
  assert (frames (done ++ cur ++ [p]) = frames (done ++ cur) ++ frame p) as Ef.
  { by rewrite app_assoc, frames_snoc. }
  split; cbn [write_to set_disk segments_ read_segment_ read_offset_ disk]; rewrite ?Es; try done.
  - split; [done|]. split; [done|]. split; [|constructor]. split; [by rewrite lookup_insert_eq, Ef|].
    intros E. apply app_nil in E as [_ E]. by apply app_nil in E as [_ E].
  - cbn [concat] in *. rewrite app_nil_r in *. rewrite app_assoc. apply Forall_app. by split; [|constructor].
  - rewrite bytes_of_cons in *. rewrite Ef, len_app. lia.
  - intros name H. rewrite <- Es. revert name H. apply names_insert; [by rewrite Es|rewrite Es; set_solver|done].
Qed.

Lemma write_last id ids a l qs : segments_ s = id :: ids ++ [a] -> later = l ++ [qs] ->
  rep (write_to a (frames qs ++ frame p) s) done cur (l ++ [qs ++ [p]]).
Proof.
  intros Es El. destruct R as [Hs Hso Hi Hf Hb Hn]. rewrite Es in *. subst later.
  destruct Hs as (Hr & Ho & Hh & Hl).
  apply Forall2_app_inv in Hl as [Hl Ha]; [|by apply Forall2_length in Hl; rewrite !length_app in Hl; simpl in Hl; lia].
  apply Forall2_cons_1 in Ha as [[Ha1 Ha2] _].
  pose proof (sorted_snoc_lt (id :: ids) a Hso) as Hlt.
  pose proof Hi as Hi'. apply Forall_cons_iff in Hi as [Hid Hi]. apply Forall_app in Hi as [Hi Hai].
  apply Forall_cons_iff in Hai as [Hai _]. apply Forall_cons_iff in Hlt as [Hlid Hlt].
  split; cbn [write_to set_disk segments_ read_segment_ read_offset_ disk]; rewrite ?Es; try done.
  - split; [done|]. split; [done|]. split; [apply holds_insert_ne; [done..|lia|done]|].
    apply Forall2_app; [apply segs_insert_ne; try done|].
    + intros Hin. rewrite Forall_forall in Hlt. specialize (Hlt _ Hin). simpl in Hlt. lia.
    + constructor; [|constructor]. split; [by rewrite lookup_insert_eq, frames_snoc|].
      intros E. by apply app_nil in E as [_ E].
  - rewrite concat_app in *. cbn [concat] in *. rewrite !app_nil_r in *.
    rewrite !Forall_app in *. destruct Hf as (? & ? & ? & ?). repeat split; try done. by constructor.
  - rewrite bytes_of_cons, bytes_of_app, bytes_of_single in *.
    rewrite frames_snoc, (len_app (frames qs)). lia.
  - intros name H. rewrite <- Es. revert name H.
    apply names_insert; [by rewrite Es|rewrite Es; set_solver|done].
Qed.

Lemma write_new id ids a : segments_ s = id :: ids -> list_last (id :: ids) = a -> id_ok (a + 1) ->
  rep (write_to (a + 1) (frame p) (set_segments ((id :: ids) ++ [a + 1]) s)) done cur (later ++ [[p]]).
Proof.
  intros Es Ea Hok. destruct R as [Hs Hso Hi Hf Hb Hn]. rewrite Es in *.
  destruct Hs as (Hr & Ho & Hh & Hl). pose proof Hi as Hi'. apply Forall_cons_iff in Hi as [Hid Hi].
  pose proof (sorted_next (id :: ids) Hso ltac:(done)) as Hso'. rewrite Ea in Hso'.
  assert (a + 1 ∉ id :: ids) as Hnew.
  { intros Hin. apply sorted_snoc_lt in Hso'. rewrite Forall_forall in Hso'.
    specialize (Hso' _ Hin). simpl in Hso'. lia. }
  split; cbn [write_to set_segments set_disk segments_ read_segment_ read_offset_ disk app]; try done.
  - split; [done|]. split; [done|]. split; [apply holds_insert_ne; [done..| |done]|].
    { intros E. apply Hnew. rewrite E. set_solver. }
    apply Forall2_app; [apply segs_insert_ne; [done..| |done]; set_solver|].
    constructor; [|constructor]. split; [|done]. by rewrite lookup_insert_eq, frames_single.
  - apply (Forall_app id_ok (id :: ids)). split; [done|]. by apply Forall_singleton.
  - rewrite concat_app. cbn [concat]. rewrite !app_nil_r, !app_assoc. apply Forall_app.
    rewrite <- app_assoc. split; [done|by constructor].
  - rewrite bytes_of_cons, bytes_of_app, bytes_of_single, frames_single in *. lia.
  - apply (names_insert s); [by rewrite Es|set_solver|]. rewrite Es. set_solver.
Qed.
End Write.

Lemma names_absent s done cur later id :
  rep s done cur later -> id_ok id -> id ∉ segments_ s -> disk s !! zero_pad id = None.
Proof.
  intros R Hid Hn. destruct (disk s !! zero_pad id) eqn:E; [|done]. exfalso.
  destruct (zero_pad_state id Hid) as [H1 H2].
  destruct (rep_names _ _ _ _ R (zero_pad id)) as [H|[H|(x & Hx & Ex)]]; [by rewrite E|done|done|].
  apply zero_pad_inj in Ex; [by subst|done|]. pose proof (rep_ids _ _ _ _ R) as Hi.
  rewrite Forall_forall in Hi. by apply Hi.
Qed.

(** The id a new segment would get. *)
Definition next_id (s : Spool) : Z := list_last (segments_ s) + 1.

Lemma list_last_snoc l a : list_last (l ++ [a]) = a.
Proof. unfold list_last. by rewrite last_snoc. Qed.

Lemma last_not_in l a : StronglySorted Z.lt l -> list_last l = a -> l <> [] -> a + 1 ∉ l.
Proof.
  intros Hs Ha Hne Hin. destruct (exists_last Hne) as (k & b & ->). rewrite list_last_snoc in Ha. subst b.
  apply sorted_snoc_lt in Hs. rewrite Forall_forall in Hs.
  apply elem_of_app in Hin as [Hin|Hin]; [specialize (Hs _ Hin); simpl in Hs; lia|].
  apply list_elem_of_singleton in Hin. lia.
Qed.

(** The size of the last segment's file. *)
Definition last_size (s : Spool) : Z :=
  default 0 (len <$> disk s !! zero_pad (list_last (segments_ s))).

(** The three outcomes of choosing a segment: the very first, the last one, or a
    new one behind it. *)
Lemma pick_cases s done cur later :
  rep s done cur later -> 0 < segment_bytes (cfg_ s) -> id_ok (next_id s) ->
  (segments_ s = [] /\ pick_segment io_ok s = (1, set_segments [1] s) /\
     disk s !! zero_pad 1 = None) \/
  (segments_ s <> [] /\ pick_segment io_ok s = (list_last (segments_ s), s) /\
     last_size s < segment_bytes (cfg_ s)) \/
  (segments_ s <> [] /\ segment_bytes (cfg_ s) <= last_size s /\
     pick_segment io_ok s = (next_id s, set_segments (segments_ s ++ [next_id s]) s) /\
     disk s !! zero_pad (next_id s) = None).
Proof.
  intros R Hseg Hnext. unfold pick_segment, file_size. cbn [io_ok size_known].
  destruct (segments_ s) as [|id ids] eqn:Es.
  - left. pose proof (names_absent _ _ _ _ 1 R ltac:(unfold id_ok; lia)) as H1. rewrite Es in H1.
    cbn [set_segments segments_ disk cfg_]. change (list_last [1]) with 1.
    rewrite H1 by set_solver. cbn [fmap option_fmap option_map default from_option].
    by destruct (Z.leb_spec (segment_bytes (cfg_ s)) 0); [lia|].
  - right. rewrite Es. destruct (Z.leb_spec (segment_bytes (cfg_ s))
      (default 0 (len <$> disk s !! zero_pad (list_last (id :: ids))))) as [Hl|Hl];
      assert (last_size s = default 0 (len <$> disk s !! zero_pad (list_last (id :: ids)))) as Hls
        by (unfold last_size; by rewrite Es); [right|left; split_and!; [done..|lia]].
    assert (next_id s = list_last (id :: ids) + 1) as En by (unfold next_id; by rewrite Es).
    split; [done|]. split; [lia|].
    rewrite <- En, u64_small by (unfold id_ok in Hnext; lia). split; [done|].
    eapply names_absent; [exact R|done|]. rewrite Es, En.
    apply last_not_in; [rewrite <- Es; by destruct R|done|done].
Qed.

(** The last segment is the first one, or the last of the others. *)
Lemma last_cases s id ids done cur later :
  rep s done cur later -> segments_ s = id :: ids ->
  (ids = [] /\ later = [] /\ list_last (id :: ids) = id) \/
  exists ids' a l qs, ids = ids' ++ [a] /\ later = l ++ [qs] /\ list_last (id :: ids) = a /\
    seg_holds (disk s) a qs /\ Forall2 (seg_holds (disk s)) ids' l.
Proof.
  intros R Es. pose proof (rep_segs _ _ _ _ R) as Hs. rewrite Es in Hs. destruct Hs as (_ & _ & _ & Hl).
  destruct (decide (ids = [])) as [->|Hne]; [left; by inversion Hl|right].
  destruct (exists_last Hne) as (ids' & a & ->).
  apply Forall2_app_inv_l in Hl as (l & k & Hl & Hk & ->).
  inversion Hk as [|? qs ? ? Hq Hk']; subst. inversion Hk'; subst.
  exists ids', a, l, qs. split_and!; try done. apply (list_last_snoc (id :: ids')).
Qed.

(** A record behind the last segment, and what that segment holds. *)
Lemma add_last_rep s done cur later p :
  rep s done cur later -> segments_ s <> [] ->
  add_last (segment_bytes (cfg_ s)) ((done ++ cur) :: later) p =
  if segment_bytes (cfg_ s) <=? last_size s then (done ++ cur) :: later ++ [[p]]
  else match later with
       | [] => [done ++ cur ++ [p]]
       | _ => (done ++ cur) :: removelast later ++ [List.last later [] ++ [p]]
       end.
Proof.
  intros R Hne. pose proof (rep_segs _ _ _ _ R) as Hs. unfold last_size.
  destruct (segments_ s) as [|id ids] eqn:Es; [done|]. destruct Hs as (_ & _ & [Hh _] & _).
  destruct (last_cases s id ids done cur later R Es) as [(-> & -> & ->)|(ids' & a & l & qs & -> & -> & -> & [Hq _] & _)].
  - rewrite Hh. cbn [fmap option_fmap option_map default from_option add_last]. unfold Datatypes.id.
    case_match; [done|]. by rewrite app_assoc.
  - rewrite Hq. cbn [fmap option_fmap option_map default from_option]. unfold Datatypes.id.
    change ((done ++ cur) :: l ++ [qs]) with (((done ++ cur) :: l) ++ [qs]). rewrite add_last_snoc.
    case_match; [cbn [app]; by rewrite <- app_assoc|]. cbn [app].
    rewrite removelast_last, last_last. by destruct l.
Qed.

Lemma pick_rep s done cur later p :
  rep s done cur later -> fits p -> 0 < segment_bytes (cfg_ s) ->
  bytes_of ((done ++ cur) :: later) + len (frame p) < 2 ^ 63 -> id_ok (next_id s) ->
  exists active s1 cur' later',
    pick_segment io_ok s = (active, s1) /\ stats_ s1 = stats_ s /\ same_setup s s1 /\
    rep (write_to active (default [] (disk s1 !! zero_pad active) ++ frame p) s1) done cur' later' /\
    (done ++ cur') :: later' = add_last (segment_bytes (cfg_ s)) ((done ++ cur) :: later) p /\
    queue cur' later' = queue cur later ++ [p].
Proof.
  intros R Hp Hseg Hroom Hnext. pose proof (rep_segs _ _ _ _ R) as Hs.
  destruct (pick_cases _ _ _ _ R Hseg Hnext) as [(Es & -> & Hd)|[(Hne & -> & Hsz)|(Hne & Hsz & -> & Hd)]].
  - rewrite Es in Hs. destruct Hs as (-> & -> & -> & _). eexists 1, _, [p], []. split_and!; [done..| | |done].
    + cbn [set_segments disk]. rewrite Hd. cbn [default from_option app]. by eapply write_first.
    + cbn. change (len _) with 0. by destruct (Z.leb_spec (segment_bytes (cfg_ s)) 0); [lia|].
  - rewrite (add_last_rep s done cur later p R Hne). apply Z.leb_gt in Hsz. rewrite Hsz.
    destruct (segments_ s) as [|id ids] eqn:Es; [done|]. destruct Hs as (Hr & Ho & [Hh _] & Hl).
    destruct (last_cases s id ids done cur later R Es) as [(-> & -> & ->)|(ids' & a & l & qs & -> & -> & -> & [Hq _] & _)].
    + eexists _, s, (cur ++ [p]), []. split_and!; [done..| |done|].
      * rewrite Hh. cbn [default from_option]. by eapply write_head.
      * unfold queue. simpl. by rewrite !app_nil_r.
    + eexists _, s, cur, (l ++ [qs ++ [p]]). split_and!; [done..| | |].
      * rewrite Hq. cbn [default from_option]. by eapply write_last.
      * rewrite removelast_last, last_last. by destruct l.
      * unfold queue. rewrite !concat_app. simpl. by rewrite !app_nil_r, !app_assoc.
  - rewrite (add_last_rep s done cur later p R Hne). apply Z.leb_le in Hsz. rewrite Hsz.
    destruct (segments_ s) as [|id ids] eqn:Es; [done|].
    eexists _, _, cur, (later ++ [[p]]). split_and!; [done..| |done|].
    + cbn [set_segments disk]. rewrite Hd. cbn [default from_option app].
      unfold next_id in *. rewrite Es in *. by eapply write_new.
    + unfold queue. rewrite concat_app. simpl. by rewrite app_assoc.
Qed.

Definition saved (s : Spool) : Prop := disk s !! state_name = Some (state_text s).

(** What an append of [p] leaves: the record behind the last segment or in a new
    one, then the least number [n] of oldest segments gone that brings the
    directory within its budget, with the [k] records of them that were still
    pending counted as dropped. *)
Record enqueued (s s' : Spool) (done cur : list str) (later : list (list str)) (p : str) (n k : nat)
    (done' cur' : list str) (later' : list (list str)) : Prop := {
  enq_rep : rep s' done' cur' later';
  enq_least : least_eviction (max_bytes (cfg_ s))
                (add_last (segment_bytes (cfg_ s)) ((done ++ cur) :: later) p) n;
  enq_segs : (done' ++ cur') :: later' =
               drop n (add_last (segment_bytes (cfg_ s)) ((done ++ cur) :: later) p);
  enq_done : done' = if (n =? 0)%nat then done else [];
  enq_k : (k <= S (length (queue cur later)))%nat;
  enq_queue : queue cur' later' = drop k (queue cur later ++ [p]);
  enq_counted : counted s' (queue cur' later');
  enq_saved : saved s';
  enq_dropped : dropped (stats_ s') = u64 (dropped (stats_ s) + Z.of_nat k);
  enq_committed : committed (stats_ s') = committed (stats_ s);
  enq_appended : appended (stats_ s') = u64 (appended (stats_ s) + 1);
  enq_sequence : next_sequence_ s' = u64 (next_sequence_ s + 1);
  enq_cfg : cfg_ s' = cfg_ s;
  enq_open : open_ s' = true }.

Lemma append_ready s done cur later p :
  rep s done cur later -> counted s (queue cur later) -> open_ s = true ->
  0 <= dropped (stats_ s) < 2 ^ 64 -> len p <= 0xFFFFFFFF -> 0 < segment_bytes (cfg_ s) ->
  bytes_of ((done ++ cur) :: later) + len (frame p) < 2 ^ 63 -> id_ok (next_id s) ->
  exists s' n k done' cur' later', append io_ok s p = (true, s', None) /\
    enqueued s s' done cur later p n k done' cur' later'.
Proof.
  intros R Hc Ho Hd Hp Hseg Hroom Hnext. unfold append. rewrite Ho. cbn [negb].
  destruct (Z.ltb_spec 0xFFFFFFFF (len p)); [lia|].
  destruct (pick_rep s done cur later p R ltac:(unfold fits; lia) Hseg Hroom Hnext)
    as (active & s1 & c1 & l1 & -> & Est & Hset & R1 & Eadd & Eq).
  cbn [io_ok append_opens negb append_cut cut]. rewrite bool_decide_eq_false_2 by (by intros [? ?]).
  fold (write_to active (default [] (disk s1 !! zero_pad active) ++ frame p) s1).
  set (w := write_to active _ s1) in *.
  assert (stats_ w = stats_ s) as Ew by done.
  set (w2 := set_sequence _ (set_stats _ w)).
  assert (rep w2 done c1 l1) as R2 by (eapply rep_transfer; [exact R1|done..]).
  assert (counted w2 (queue c1 l1)) as Hc2.
  { unfold counted in *. pose proof (queue_small _ _ _ _ R1) as Hq. rewrite Eq in *.
    rewrite length_app in *. cbn [w2 set_sequence set_stats stats_ st_pending]. rewrite Ew, Hc.
    simpl length in *. rewrite u64_small; lia. }
  assert (0 <= dropped (stats_ w2) < 2 ^ 64) as Hd2 by (cbn; by rewrite Est).
  destruct (enforce_rep (length (segments_ w2)) w2 done c1 l1 R2 Hc2 Hd2 (Nat.le_refl _))
    as (n & k & d3 & c3 & l3 & [R3 Hl3 Hsg3 Hdn3 Hk Hq3 Hc3 Hd3 Hcm3 Ha3 Hset3]).
  fold (enforce_bounds io_ok w2) in *. set (s3 := enforce_bounds io_ok w2) in *.
  destruct (save_state_rep s3 d3 c3 l3 R3) as (s' & Esave & R' & Hst & Htot & Hsame).
  injection Hsame as E1 E2 E3 E4 E5 E6 E7. injection Hset3 as F1 F2 F3. injection Hset as G1 G2 G3.
  exists s', n, k, d3, c3, l3. split; [done|]. rewrite Eq in Hk, Hq3. rewrite length_app in Hk. simpl in Hk.
  rewrite Eadd in Hl3, Hsg3. change (cfg_ w2) with (cfg_ s1) in Hl3. rewrite G1 in Hl3.
  cbn in Hd3, Hcm3, Ha3. rewrite Est in Hd3, Hcm3, Ha3.
  split; try done; unfold counted, saved; rewrite ?E7, ?E6, ?E1; try done; try congruence.
  - lia.
  - rewrite Hst. f_equal. unfold state_text. by rewrite E4, E5, E6, E7.
Qed.

(** ** Committing *)

(** One record passed by [commit]. *)
Definition release1 (st : Stats) : Stats :=
  mkStats (appended st) (u64 (committed st + 1)) (dropped st)
    (if 0 <? st_pending st then st_pending st - 1 else st_pending st)
    (bytes_on_disk st) (st_segments st).

Lemma release_spec m st :
  0 <= committed st < 2 ^ 64 -> Z.of_nat m <= st_pending st ->
  let st' := Nat.iter m release1 st in
  appended st' = appended st /\ committed st' = u64 (committed st + Z.of_nat m) /\
  dropped st' = dropped st /\ st_pending st' = st_pending st - Z.of_nat m.
Proof.
  intros Hc. induction m as [|m IH]; intros Hm.
  { simpl. rewrite Z.add_0_r, u64_small by done. split_and!; first [done|lia]. }
  destruct IH as (E1 & E2 & E3 & E4); [lia|]. cbv zeta in *.
  change (Nat.iter (S m) release1 st) with (release1 (Nat.iter m release1 st)).
  set (t := Nat.iter m release1 st) in *. cbn [release1 appended committed dropped st_pending].
  rewrite E1, E2, E3, E4, u64_add_l. split_and!; try done; [f_equal; lia|].
  destruct (Z.ltb_spec 0 (st_pending st - Z.of_nat m)); lia.
Qed.

(** The inner loop passes the next [n] records of the file, or all it has. *)
Lemma commit_file_frames b a fuel n st adv :
  Forall fits b -> len (frames (a ++ b)) < 2 ^ 63 -> 0 <= n -> (length b < fuel)%nat ->
  let m := Nat.min (Z.to_nat n) (length b) in
  commit_file fuel (frames (a ++ b)) (len (frames a)) n st adv =
  (len (frames (a ++ take m b)), n - Z.of_nat m, Nat.iter m release1 st, adv || (0 <? m)%nat).
Proof.
  intros Hb. revert a fuel n st adv. induction Hb as [|p b Hp _ IH]; intros a fuel n st adv Hl Hn Hf m;
    (destruct fuel as [|fuel]; [simpl in Hf; lia|]); cbn [commit_file].
  - unfold m. cbn [length]. rewrite Nat.min_0_r. rewrite frames_app, drop_z_app.
    destruct (0 <? n); simpl; rewrite ?app_nil_r, ?orb_false_r, ?Z.sub_0_r; done.
  - destruct (Z.ltb_spec 0 n) as [Hpos|Hz].
    2: { unfold m. replace (Z.to_nat n) with 0%nat by lia. simpl.
         by rewrite app_nil_r, orb_false_r, Z.sub_0_r. }
    assert (drop_z (len (frames a)) (frames (a ++ p :: b)) = frame p ++ frames b) as ->
      by (by rewrite frames_app, drop_z_app, frames_cons).
    unfold kHeaderBytes. rewrite frame_header. destruct (Nat.ltb_spec (length (frame p ++ frames b)) 12) as [H|_].
    { rewrite length_app, frame_length in H. lia. }
    rewrite get_put_u32, Z.eqb_refl by (unfold kMagic; lia). cbn [negb].
    change (drop 4 (put_u32 kMagic ++ ?x)) with x. rewrite get_put_u32 by apply u32_range.
    pose proof (len_nonneg p). rewrite (u32_small (len p)) by (unfold fits in Hp; lia).
    assert (a ++ p :: b = (a ++ [p]) ++ b) as Ea by (by rewrite <- app_assoc).
    assert (u64 (len (frames a) + (12 + len p)) = len (frames (a ++ [p]))) as ->.
    { rewrite frames_snoc, len_app, len_frame. apply u64_small.
      rewrite Ea, frames_app, len_app, frames_snoc, len_app, len_frame in Hl.
      pose proof (len_nonneg (frames a)). pose proof (len_nonneg (frames b)). lia. }
    fold (release1 st). rewrite Ea. rewrite IH by (rewrite <- ?Ea; simpl in Hf; first [done|lia]).
    unfold m. replace (Nat.min (Z.to_nat n) (length (p :: b)))
      with (S (Nat.min (Z.to_nat (n - 1)) (length b))) by (simpl; lia).
    cbn [take]. rewrite <- app_assoc. cbn [app]. rewrite Nat.iter_succ_r.
    rewrite orb_true_r. do 3 f_equal. lia.
Qed.

Lemma upper_bound_head id ids :
  StronglySorted Z.lt (id :: ids) -> upper_bound (id :: ids) id = hd_error ids.
Proof.
  intros H. apply sorted_head_lt in H. unfold upper_bound. cbn [List.find]. rewrite Z.ltb_irrefl.
  destruct ids as [|x ids]; [done|]. apply Forall_cons_iff in H as [H _]. simpl.
  destruct (Z.ltb_spec id x); [done|lia].
Qed.

Lemma filter_head id ids :
  StronglySorted Z.lt (id :: ids) -> List.filter (fun x => negb (x =? id)) (id :: ids) = ids.
Proof.
  intros H. apply sorted_head_lt in H. cbn [List.filter]. rewrite Z.eqb_refl. cbn [negb].
  induction H as [|x ids Hx _ IH]; [done|]. simpl. destruct (Z.eqb_spec x id); [lia|]. simpl. by rewrite IH.
Qed.

(** Moving the cursor within the first segment. *)
Lemma rep_advance s id ids done cur later m st :
  rep s done cur later -> segments_ s = id :: ids ->
  rep (set_stats st (set_cursor id (len (frames (done ++ take m cur))) s))
      (done ++ take m cur) (drop m cur) later.
Proof.
  intros [Hs Hso Hi Hf Hb Hn] Es. rewrite Es in *. destruct Hs as (Hr & Ho & Hh & Hl).
  assert ((done ++ take m cur) ++ drop m cur = done ++ cur) as E by (by rewrite <- app_assoc, take_drop).
  split; cbn [set_stats set_cursor segments_ read_segment_ read_offset_ disk]; rewrite ?Es, ?E; try done.
  by rewrite app_assoc, E, <- app_assoc.
Qed.

(** The state after [m] records of the first segment were passed. *)
Definition passed (m : nat) (id : Z) (done cur : list str) (s : Spool) : Spool :=
  set_stats (Nat.iter m release1 (stats_ s)) (set_cursor id (len (frames (done ++ take m cur))) s).

(** The first segment is retired and the cursor moves to the next. *)
Definition retired (id id2 : Z) (ids : list Z) (s : Spool) : Spool :=
  set_cursor id2 0 (set_segments (id2 :: ids) (set_disk (delete (zero_pad id) (disk s)) s)).

(** One round of the outer loop. *)
Lemma commit_loop_step fuel s id ids done cur later n :
  rep s done cur later -> segments_ s = id :: ids -> 0 < n ->
  let s1 := passed (Nat.min (Z.to_nat n) (length cur)) id done cur s in
  commit_loop (S fuel) io_ok s n =
  if n <=? Z.of_nat (length cur) then s1
  else if (length cur =? 0)%nat then s1
  else match ids with
       | [] => s1
       | id2 :: ids' => commit_loop fuel io_ok (retired id id2 ids' s1) (n - Z.of_nat (length cur))
       end.
Proof.
  intros R Es Hn s1. cbn [commit_loop]. pose proof (rep_segs _ _ _ _ R) as Hs.
  pose proof (rep_sorted _ _ _ _ R) as Hso. rewrite Es in *. destruct Hs as (Hr & Ho & [Hh _] & Hl).
  destruct (Z.ltb_spec 0 n); [|lia]. rewrite bool_decide_eq_false_2 by done. cbn [negb andb].
  unfold open_read. cbn [io_ok can_read]. rewrite Hr, Hh, Ho.
  assert (Forall fits cur) as Hfit.
  { pose proof (rep_fits _ _ _ _ R) as H'. rewrite !Forall_app in H'. tauto. }
  assert (len (frames (done ++ cur)) < 2 ^ 63) as Hsmall.
  { pose proof (rep_small _ _ _ _ R) as H'. rewrite bytes_of_cons in H'.
    pose proof (len_nonneg (frames (concat later))). unfold bytes_of in H'. lia. }
  rewrite commit_file_frames; [|done|done|lia|].
  2: { pose proof (frames_length_ge (done ++ cur)) as Hg. rewrite length_app in Hg. lia. }
  cbv zeta. fold (passed (Nat.min (Z.to_nat n) (length cur)) id done cur s). fold s1.
  destruct (Z.eqb_spec (n - Z.of_nat (Nat.min (Z.to_nat n) (length cur))) 0) as [Hz|Hnz];
    destruct (Z.leb_spec n (Z.of_nat (length cur))); try lia; [done|].
  replace (Nat.min (Z.to_nat n) (length cur)) with (length cur) by lia.
  destruct (Nat.eqb_spec (length cur) 0) as [->|]; [done|].
  destruct (Nat.ltb_spec 0 (length cur)); [|lia]. cbn [orb negb].
  change (segments_ s1) with (segments_ s). rewrite Es, (upper_bound_head _ _ Hso).
  destruct ids as [|id2 ids]; [done|]. cbn [hd_error]. unfold remove_file. cbn [io_ok can_remove].
  change (segments_ (set_disk _ s1)) with (segments_ s). by rewrite Es, (filter_head _ _ Hso).
Qed.

Lemma passed_rep s id ids done cur later m :
  rep s done cur later -> segments_ s = id :: ids -> counted s (queue cur later) ->
  0 <= committed (stats_ s) < 2 ^ 64 -> (m <= length cur)%nat ->
  let s1 := passed m id done cur s in
  rep s1 (done ++ take m cur) (drop m cur) later /\ counted s1 (queue (drop m cur) later) /\
  committed (stats_ s1) = u64 (committed (stats_ s) + Z.of_nat m) /\
  dropped (stats_ s1) = dropped (stats_ s) /\ appended (stats_ s1) = appended (stats_ s) /\
  same_setup s s1.
Proof.
  intros R Es Hc Hcm Hm. pose proof (rep_advance s id ids done cur later m (Nat.iter m release1 (stats_ s)) R Es) as R1.
  unfold counted, queue in *. rewrite length_app in *.
  destruct (release_spec m (stats_ s)) as (E1 & E2 & E3 & E4); [done|rewrite Hc; lia|].
  unfold passed. cbn [set_stats set_cursor stats_]. split_and!; try done.
  rewrite E4, Hc, length_drop. lia.
Qed.

Lemma commit_loop_rep fuel s done cur later n :
  rep s done cur later -> cur <> [] -> counted s (queue cur later) ->
  0 <= committed (stats_ s) < 2 ^ 64 -> 0 < n -> (length (segments_ s) < fuel)%nat ->
  let s' := commit_loop fuel io_ok s n in
  exists done' cur' later', rep s' done' cur' later' /\
    queue cur' later' = drop (Z.to_nat n) (queue cur later) /\ counted s' (queue cur' later') /\
    committed (stats_ s') =
      u64 (committed (stats_ s) + Z.min n (Z.of_nat (length (queue cur later)))) /\
    dropped (stats_ s') = dropped (stats_ s) /\ appended (stats_ s') = appended (stats_ s) /\
    same_setup s s'.
Proof.
  revert s done cur later n. induction fuel as [|fuel IH]; intros s done cur later n R Hne Hc Hcm Hn Hf; [lia|].
  pose proof (rep_segs _ _ _ _ R) as Hs.
  destruct (segments_ s) as [|id ids] eqn:Es; [by destruct Hs as (_ & -> & _)|].
  destruct Hs as (_ & _ & _ & Hl). cbv zeta. rewrite (commit_loop_step fuel s id ids done cur later n R Es Hn).
  set (m := Nat.min (Z.to_nat n) (length cur)).
  destruct (passed_rep s id ids done cur later m R Es Hc Hcm ltac:(lia)) as (R1 & Hc1 & Hcm1 & Hd1 & Ha1 & Hset1).
  set (s1 := passed m id done cur s) in *.
  assert (length (queue cur later) = (length cur + length (concat later))%nat) as Eq by apply length_app.
  destruct (Z.leb_spec n (Z.of_nat (length cur))).
  { exists (done ++ take m cur), (drop m cur), later. split_and!; try done.
    - unfold queue. replace (Z.to_nat n) with m by lia. by rewrite drop_app_le by lia.
    - rewrite Hcm1. do 2 f_equal. lia. }
  assert (m = length cur) as Em by lia.
  destruct (Nat.eqb_spec (length cur) 0) as [H0|_]; [by destruct cur|].
  destruct ids as [|id2 ids].
  { inversion Hl; subst later. exists (done ++ take m cur), (drop m cur), []. split_and!; try done.
    - unfold queue. simpl. rewrite !app_nil_r. by rewrite !drop_ge by lia.
    - rewrite Hcm1. do 2 f_equal. simpl in Eq. lia. }
  destruct (rep_evict_disk s1 id id2 ids _ _ _ R1 Es) as (ps & pss & -> & R2). fold (retired id id2 ids s1) in *.
  rewrite Em, drop_ge in Hc1 by done.
  destruct (IH (retired id id2 ids s1) [] ps pss (n - Z.of_nat (length cur)) R2)
    as (d3 & c3 & l3 & R3 & Hq & Hc3 & Hcm3 & Hd3 & Ha3 & Hset3); [|done| |lia|simpl in *; lia|].
  { inversion Hl as [|? ? ? ? [_ ?] _]; subst. done. }
  { change (stats_ (retired id id2 ids s1)) with (stats_ s1). rewrite Hcm1. apply u64_range. }
  exists d3, c3, l3. split; [done|]. split.
  { rewrite Hq. replace (Z.to_nat n) with (length cur + Z.to_nat (n - Z.of_nat (length cur)))%nat by lia.
    unfold queue at 2. by rewrite <- drop_drop, drop_app_length. }
  split; [done|]. change (stats_ (retired id id2 ids s1)) with (stats_ s1) in *.
  split_and!; [|congruence|congruence|by etrans].
  rewrite Hcm3, Hcm1, u64_add_l. f_equal. unfold queue in *. cbn [concat] in *. lia.
Qed.

(** At the end of its segment the cursor does not move, whatever follows. *)
Lemma commit_loop_stall fuel s done later n :
  rep s done [] later -> 0 < n -> commit_loop fuel io_ok s n = s.
Proof.
  intros R Hn. destruct fuel as [|fuel]; [done|]. pose proof (rep_segs _ _ _ _ R) as Hs.
  destruct (segments_ s) as [|id ids] eqn:Es.
  { cbn [commit_loop]. rewrite Es. by rewrite bool_decide_eq_true_2, andb_false_r. }
  rewrite (commit_loop_step fuel s id ids done [] later n R Es Hn). destruct Hs as (Hr & Ho & _).
  cbn [length Nat.eqb]. rewrite Nat.min_0_r. unfold passed. cbn [take Nat.iter nat_rect].
  rewrite app_nil_r, <- Ho, <- Hr. destruct (n <=? Z.of_nat 0); by destruct s.
Qed.

(** ** Reopening *)

Definition zero_stats : Stats := mkStats 0 0 0 0 0 0.

(** A [Spool] object before [open], over a directory. *)
Definition fresh (d : gmap str str) : Spool :=
  mkSpool (mkConfig [] (64 * 1024 * 1024) (4 * 1024 * 1024) false) false [] 0 0 1 zero_stats d [].

(** The directory holds a file for each of the segments and no other segment. *)
Record layout (d : gmap str str) (segs : list Z) : Prop := {
  lay_sorted : StronglySorted Z.lt segs;
  lay_ids : Forall id_ok segs;
  lay_files : Forall (fun id => is_Some (d !! zero_pad id)) segs;
  lay_names : forall name, is_Some (d !! name) ->
    name = state_name \/ name = tmp_name \/ exists id, id ∈ segs /\ name = zero_pad id
}.

Lemma NoDup_omap_inj {A B} (f : A -> option B) l :
  NoDup l -> (forall x y z, x ∈ l -> y ∈ l -> f x = Some z -> f y = Some z -> x = y) ->
  NoDup (omap f l).
Proof.
  intros Hl Hf. induction Hl as [|x l Hx Hl IH]; [constructor|]. simpl.
  assert (NoDup (omap f l)) as Hl' by (apply IH; intros; eapply Hf; set_solver).
  destruct (f x) as [z|] eqn:E; [|done]. constructor; [|done].
  rewrite list_elem_of_omap. intros (y & Hy & Ey). apply Hx.
  rewrite (Hf x y z); [done|set_solver..|done|done].
Qed.

Lemma sorted_NoDup l : StronglySorted Z.lt l -> NoDup l.
Proof.
  induction 1 as [|x l _ IH Hx]; constructor; [|done]. intros Hin.
  rewrite Forall_forall in Hx. specialize (Hx _ Hin). lia.
Qed.

Lemma StronglySorted_weaken {A} (P Q : A -> A -> Prop) l :
  (forall x y, P x y -> Q x y) -> StronglySorted P l -> StronglySorted Q l.
Proof.
  intros H. induction 1 as [|x l _ IH Hx]; constructor; [done|].
  eapply Forall_impl; [exact Hx|]. auto.
Qed.

Section Reopen.
Context {HS : StdSort} {HU : UnorderedIter}.

Lemma scan_ids d segs :
  layout d segs -> std_sort Z.ltb (omap (fun entry => segment_id entry.1) (unordered_iter d)) = segs.
Proof.
  intros [Hso Hi Hfi Hn]. set (ids := omap _ _).
  assert (forall name id, is_Some (d !! name) -> segment_id name = Some id ->
    id ∈ segs /\ name = zero_pad id) as Hname.
  { intros name id Hs Hid. rewrite Forall_forall in Hi.
    destruct (Hn name Hs) as [->|[->|(x & Hx & ->)]]; [by vm_compute in Hid..|].
    rewrite segment_id_zero_pad in Hid by by apply Hi. by simplify_eq. }
  assert (ids ≡ₚ segs) as Hp.
  { apply NoDup_Permutation; [|by apply sorted_NoDup|].
    - unfold ids. rewrite unordered_iter_perm. apply NoDup_omap_inj; [apply NoDup_map_to_list|].
      intros [x cx] [y cy] z Hx Hy Ex Ey. apply elem_of_map_to_list in Hx, Hy.
      destruct (Hname x z) as [_ ->]; [by eauto|done|].
      destruct (Hname y z) as [_ ->]; [by eauto|done|]. simpl in *. congruence.
    - intros id. unfold ids. rewrite unordered_iter_perm, list_elem_of_omap. split.
      + intros ([name c] & Hin & E). apply elem_of_map_to_list in Hin.
        by destruct (Hname name id) as [? _]; [by eauto|done|].
      + intros Hin. rewrite Forall_forall in Hfi, Hi. destruct (Hfi _ Hin) as [c Hc].
        exists (zero_pad id, c). rewrite elem_of_map_to_list. split; [done|].
        apply segment_id_zero_pad. by apply Hi. }
  pose proof (swo_key (fun x : Z => x) ids) as Hw.
  apply (Sorted_unique Z.le); [apply StronglySorted_Sorted..|].
  - eapply StronglySorted_weaken; [|by apply (std_sort_sorted Z Z.ltb ids Hw)]. intros x y. simpl.
    intros H. bools. done.
  - eapply StronglySorted_weaken; [|exact Hso]. simpl. lia.
  - by rewrite (std_sort_perm Z Z.ltb ids Hw).
Qed.

Lemma extract_number old n c r :
  0 <= n < 2 ^ 64 -> isdigit c = false ->
  extract old (mkStream (to_string_u n ++ c :: r) false false) = (n, mkStream (c :: r) false false).
Proof.
  intros Hn Hc. unfold extract. cbn [fail_ eof_ orb text_].
  rewrite <- to_string_nonneg by lia. by rewrite extract_u64_to_string.
Qed.

Lemma extract_space old n c r :
  0 <= n < 2 ^ 64 -> isdigit c = false ->
  extract old (mkStream (" "%char :: to_string_u n ++ c :: r) false false) = (n, mkStream (c :: r) false false).
Proof.
  intros Hn Hc. unfold extract. cbn [fail_ eof_ orb text_]. rewrite extract_u64_ws by done.
  rewrite <- to_string_nonneg by lia. by rewrite extract_u64_to_string.
Qed.

(** The state file gives back the cursor and the counters it was written from. *)
Lemma load_state_text s text_of :
  0 <= read_segment_ text_of < 2 ^ 64 -> 0 <= read_offset_ text_of < 2 ^ 64 ->
  0 < next_sequence_ text_of < 2 ^ 64 -> 0 <= committed (stats_ text_of) < 2 ^ 64 ->
  0 <= dropped (stats_ text_of) < 2 ^ 64 ->
  disk s !! state_name = Some (state_text text_of) ->
  match segments_ s with [] => True | id :: _ => id <= read_segment_ text_of end ->
  load_state io_ok s =
  set_stats (set_dropped (dropped (stats_ text_of)) (set_committed (committed (stats_ text_of)) (stats_ s)))
    (set_sequence (next_sequence_ text_of)
      (set_cursor (read_segment_ text_of) (read_offset_ text_of) s)).
Proof.
  intros H1 H2 H3 H4 H5 Hd Hfront. unfold load_state, open_read. cbn [io_ok can_read].
  change (disk (set_sequence _ (set_cursor _ _ s))) with (disk s). rewrite Hd. unfold state_text.
  cbn [lit String.list_ascii_of_string app].
  rewrite extract_number by done. rewrite !extract_space by (done || lia).
  cbn [fail_ eof_ orb negb]. destruct (Z.eqb_spec (next_sequence_ text_of) 0); [lia|].
  cbn [set_stats set_sequence set_cursor segments_ read_segment_ stats_].
  destruct (segments_ s) as [|id ids]; [done|].
  destruct (Z.ltb_spec (read_segment_ text_of) id); [lia|done].
Qed.

(** The counters and the cursor fit their 64-bit fields. *)
Record ranges (s : Spool) : Prop := {
  rng_seg : 0 <= read_segment_ s < 2 ^ 64;
  rng_off : 0 <= read_offset_ s < 2 ^ 64;
  rng_seq : 0 < next_sequence_ s < 2 ^ 64;
  rng_com : 0 <= committed (stats_ s) < 2 ^ 64;
  rng_drp : 0 <= dropped (stats_ s) < 2 ^ 64
}.

Lemma peek_add_log e s ev max : peek e (add_log ev s) max = peek e s max.
Proof.
  unfold peek. cbn [add_log segments_]. generalize (segments_ s) as ids.
  assert (forall ids out error, peek_segments e (add_log ev s) max ids out error =
    peek_segments e s max ids out error) as H; [|auto].
  induction ids as [|id ids IH]; intros out error; [done|]. cbn [peek_segments].
  cbn [add_log read_segment_ read_offset_ disk].
  destruct (id <? read_segment_ s); [done|]. destruct (open_read _ _ _); [|done].
  destruct (peek_file _ _ _ _ _) as [o er]. by rewrite IH.
Qed.

Lemma open_layout cfg d segs s0 :
  layout d segs -> d !! state_name = Some (state_text s0) -> ranges s0 ->
  match segs with [] => True | id :: _ => id <= read_segment_ s0 end ->
  exists s', open io_ok cfg (fresh d) = (true, s', None) /\
    (segments_ s', read_segment_ s', read_offset_ s', next_sequence_ s', disk s', open_ s', cfg_ s') =
    (segs, read_segment_ s0, read_offset_ s0, next_sequence_ s0, d, true, cfg) /\
    committed (stats_ s') = committed (stats_ s0) /\ dropped (stats_ s') = dropped (stats_ s0) /\
    st_pending (stats_ s') = Z.of_nat (length (peek io_ok s' size_max).1).
Proof.
  intros Hlay Hst [H1 H2 H3 H4 H5] Hfront. unfold open, scan_segments.
  cbn [io_ok mkdir_error scan_error set_cfg disk fresh]. rewrite (scan_ids d segs Hlay).
  cbn [negb]. rewrite (load_state_text _ s0) by done.
  eexists. split; [done|]. split; [done|]. split; [done|]. split; [done|].
  rewrite peek_add_log, !peek_set_stats. done.
Qed.

Lemma rep_layout s done cur later : rep s done cur later -> layout (disk s) (segments_ s).
Proof.
  intros [Hs Hso Hi Hf Hb Hn]. split; try done.
  destruct (segments_ s) as [|id ids]; [constructor|]. destruct Hs as (_ & _ & [Hh _] & Hl).
  constructor; [by rewrite Hh|]. clear -Hl.
  induction Hl as [|x ps xs pss [Hx _] _ IH]; constructor; [by rewrite Hx|done].
Qed.

Lemma rep_front s done cur later : rep s done cur later ->
  match segments_ s with [] => True | id :: _ => id <= read_segment_ s end.
Proof.
  intros R. pose proof (rep_segs _ _ _ _ R) as H. destruct (segments_ s); [done|].
  destruct H as (-> & _). lia.
Qed.

(** ** An append that is cut short *)

Definition io_cut (k : nat) : io_env :=
  mkIo None None (fun _ => true) (fun _ => true) (fun _ => true) true (Some k) true false None None None.

Lemma dead_cut p k : fits p -> (k < length (frame p))%nat -> dead (take k (frame p)).
Proof. apply read_frame_torn. Qed.

Lemma layout_write s done cur later id t segs :
  rep s done cur later -> StronglySorted Z.lt segs -> Forall id_ok segs -> id ∈ segs ->
  (forall x, x ∈ segments_ s -> x ∈ segs) -> (forall x, x ∈ segs -> x = id \/ x ∈ segments_ s) ->
  layout (<[zero_pad id := t]> (disk s)) segs.
Proof.
  intros R Hso Hi Hin Hsub Hsup. destruct (rep_layout _ _ _ _ R) as [_ _ Hfi Hn].
  split; try done.
  - apply Forall_forall. intros x Hx. destruct (Hsup x Hx) as [->|Hx']; [by rewrite lookup_insert_eq|].
    destruct (decide (zero_pad id = zero_pad x)) as [->|]; [by rewrite lookup_insert_eq|].
    rewrite lookup_insert_ne by done. rewrite Forall_forall in Hfi. by apply Hfi.
  - by apply names_insert.
Qed.

Lemma seg_reads_insert d id c ids pss :
  id_ok id -> Forall id_ok ids -> id ∉ ids -> Forall2 (seg_holds d) ids pss ->
  Forall2 (seg_reads (<[zero_pad id := c]> d)) ids pss.
Proof.
  intros Hid Hi Hn Hl. eapply Forall2_weaken; [apply seg_holds_reads|]. by apply segs_insert_ne.
Qed.

Lemma seg_reads_cut d id ps t : dead t -> seg_reads (<[zero_pad id := frames ps ++ t]> d) id ps.
Proof. intros Ht. exists t. by rewrite lookup_insert_eq. Qed.

(** How a reader that starts at the old cursor sees a directory. *)
Definition sees (d : gmap str str) (s : Spool) (segs : list Z) (done cur : list str)
    (later : list (list str)) : Prop :=
  layout d segs /\
  exists id ids, segs = id :: ids /\ read_segment_ s = id /\ read_offset_ s = len (frames done) /\
    seg_reads d id (done ++ cur) /\ Forall2 (seg_reads d) ids later.

Lemma cut_append_sees s done cur later p k :
  rep s done cur later -> fits p -> (k < length (frame p))%nat -> 0 < segment_bytes (cfg_ s) ->
  id_ok (next_id s) ->
  exists active s1, pick_segment io_ok s = (active, s1) /\ disk s1 = disk s /\ id_ok active /\
    exists segs later', queue cur later' = queue cur later /\
      sees (<[zero_pad active := default [] (disk s !! zero_pad active) ++ take k (frame p)]> (disk s))
        s segs done cur later'.
Proof.
  intros R Hp Hk Hseg Hnext. pose proof (rep_segs _ _ _ _ R) as Hs.
  pose proof (dead_cut p k Hp Hk) as Hdead. set (t := take k (frame p)) in *.
  pose proof (rep_ids _ _ _ _ R) as Hi. pose proof (rep_sorted _ _ _ _ R) as Hso.
  destruct (pick_cases _ _ _ _ R Hseg Hnext) as [(Es & -> & Hd)|[(Hne & -> & _)|(Hne & _ & -> & Hd)]].
  - rewrite Es in Hs. destruct Hs as (-> & -> & -> & Hr & Ho).
    eexists _, _. split; [done|]. split; [done|]. split; [unfold id_ok; lia|]. exists [1], []. split; [done|]. rewrite Hd. split.
    + eapply layout_write; [exact R|by repeat constructor| |set_solver| |set_solver].
      * apply Forall_singleton. unfold id_ok. lia.
      * rewrite Es. intros x Hx. by apply elem_of_nil in Hx.
    + exists 1, []. split_and!; try done. by apply (seg_reads_cut _ _ []).
  - destruct (segments_ s) as [|id ids] eqn:Es; [done|]. destruct Hs as (Hr & Ho & Hh & Hl).
    assert (list_last (id :: ids) ∈ id :: ids) as Hin.
    { destruct (last_cases s id ids _ _ _ R Es) as [(-> & _ & ->)|(ids' & a & l & qs & -> & _ & -> & _)]; set_solver. }
    eexists _, _. split; [done|]. split; [done|].
    split; [rewrite Forall_forall in Hi; by apply Hi|]. exists (id :: ids), later. split; [done|].
    split; [eapply layout_write; [exact R|done|done|done|rewrite Es; done|rewrite Es; auto]|].
    exists id, ids. split; [done|]. split; [done|]. split; [done|].
    apply Forall_cons_iff in Hi as [Hid Hi].
    destruct (last_cases s id ids done cur later R Es) as [(-> & -> & ->)|(ids' & a & l & qs & -> & -> & -> & [Hq ?] & Hl')].
    + destruct Hh as [Hh _]. rewrite Hh. split; [by apply seg_reads_cut|constructor].
    + rewrite Hq. cbn [default from_option]. pose proof (sorted_snoc_lt (id :: ids') a Hso) as Hlt.
      apply Forall_cons_iff in Hlt as [Hlt0 Hlt]. apply Forall_app in Hi as [Hi Ha].
      apply Forall_cons_iff in Ha as [Ha _].
      split; [apply seg_holds_reads, holds_insert_ne; [done..|lia|done]|].
      apply Forall2_app; [apply seg_reads_insert; try done|by repeat constructor; apply seg_reads_cut].
      intros Hin'. rewrite Forall_forall in Hlt. specialize (Hlt _ Hin'). simpl in Hlt. lia.
  - assert (next_id s ∉ segments_ s) as Hnew by (by apply last_not_in).
    pose proof (sorted_next _ Hso Hne) as Hso'. fold (next_id s) in Hso'.
    eexists _, _. split; [done|]. split; [done|]. split; [done|].
    exists (segments_ s ++ [next_id s]), (later ++ [[]]).
    split; [unfold queue; rewrite concat_app; simpl; by rewrite !app_nil_r|]. rewrite Hd. split.
    + eapply layout_write; [exact R|done| |set_solver..].
      apply Forall_app. split; [done|by apply Forall_singleton].
    + destruct (segments_ s) as [|id ids]; [done|]. destruct Hs as (Hr & Ho & Hh & Hl).
      apply Forall_cons_iff in Hi as [Hid Hi]. exists id, (ids ++ [next_id s]). split_and!; try done.
      * apply seg_holds_reads, holds_insert_ne; [done..| |done]. set_solver.
      * apply Forall2_app; [apply seg_reads_insert; [done..| |done]; set_solver|].
        constructor; [|constructor]. by apply (seg_reads_cut _ _ []).
Qed.
End Reopen.
