(* ===== verification/SpoolSpec.v ===== *)
(** * What the spool promises: the theorems

    The contract of the header (oldest first, nothing released before it is
    committed, drops counted, survives a process crash) as refinement theorems
    against the queue of pending payloads, the conservation of records over any
    sequence of operations and restarts, and the places where the code departs from the contract. *)
From S2P Require Import Prelude CppStd Json Log Frame Algorithms Spool SpoolLemmas SpoolQueue.
From Stdlib Require Import Ascii.

#[local] Open Scope Z_scope.

(** There is room for one more record: the frame's length word can describe it,
    and neither the bytes on disk nor the segment ids reach the limit of their
    64-bit integers. *)
Definition room (s : Spool) (p : str) : Prop :=
  len p <= 0xFFFFFFFF /\ total_bytes io_ok s + len (frame p) < 2 ^ 63 /\ id_ok (next_id s).

(** ** Runs without refusals from the operating system *)

Section Runs.
Context {HS : StdSort} {HU : UnorderedIter}.

(** The life of a spool directory that starts empty, over any number of
    processes, after [n] successful appends: the operating system refuses
    nothing and no process is killed inside an operation. *)
Inductive run : Spool -> Z -> Prop :=
| run_open cfg s err : open io_ok cfg (fresh ∅) = (true, s, err) -> 0 < segment_bytes cfg -> run s 0
| run_append s n p s' err : run s n -> room s p -> append io_ok s p = (true, s', err) -> run s' (n + 1)
| run_too_large s n p s' err : run s n -> append io_ok s p = (false, s', err) -> run s' n
| run_commit s n c s' err : run s n -> 0 <= c -> commit io_ok s c = (true, s', err) -> run s' n
| run_restart s n cfg s' err : run s n -> open io_ok cfg (fresh (disk s)) = (true, s', err) ->
    0 < segment_bytes cfg -> run s' n.

(** The invariant of a run after [n] successful appends. *)
Definition accounted (s : Spool) (n : Z) : Prop :=
  exists done cur later, rep s done cur later /\ counted s (queue cur later) /\ open_ s = true /\
    0 < segment_bytes (cfg_ s) /\ 0 <= dropped (stats_ s) /\ 0 <= committed (stats_ s) /\
    committed (stats_ s) + dropped (stats_ s) + Z.of_nat (length (queue cur later)) = n /\
    next_sequence_ s = n + 1 /\ (saved s \/ disk s = ∅ /\ n = 0).

Lemma open_empty cfg : exists s, open io_ok cfg (fresh ∅) = (true, s, None) /\
  rep s [] [] [] /\ counted s [] /\ open_ s = true /\ cfg_ s = cfg /\ next_sequence_ s = 1 /\
  committed (stats_ s) = 0 /\ dropped (stats_ s) = 0 /\ disk s = ∅.
Proof.
  unfold open, scan_segments. cbn [io_ok mkdir_error scan_error set_cfg disk fresh].
  assert (layout ∅ []) as Hlay by (split; [constructor..|by intros name [? ?]]).
  rewrite (scan_ids ∅ [] Hlay).
  eexists. split; [reflexivity|]. split; [|by repeat split].
  split; [by repeat split|apply SSorted_nil|apply Forall_nil_2..|done|by intros ? [? ?]].
Qed.

Lemma reopen_rep s done cur later cfg :
  rep s done cur later -> saved s -> ranges s ->
  exists s', open io_ok cfg (fresh (disk s)) = (true, s', None) /\ rep s' done cur later /\
    counted s' (queue cur later) /\ open_ s' = true /\ next_sequence_ s' = next_sequence_ s /\
    committed (stats_ s') = committed (stats_ s) /\ dropped (stats_ s') = dropped (stats_ s) /\
    cfg_ s' = cfg /\ saved s'.
Proof.
  intros R Hs Hr.
  destruct (open_layout cfg (disk s) (segments_ s) s (rep_layout _ _ _ _ R) Hs Hr (rep_front _ _ _ _ R))
    as (s' & E & Hsame & Hc & Hd & Hp).
  injection Hsame as E1 E2 E3 E4 E5 E6 E7.
  assert (rep s' done cur later) as R'.
  { eapply rep_transfer; [exact R|done..|]. intros. by rewrite E5. }
  exists s'. split_and!; try done.
  - unfold counted. by rewrite Hp, (pending_rep _ _ _ _ _ io_ok_readable R').
  - unfold saved. rewrite E5, Hs. unfold state_text. by rewrite E2, E3, E4, Hc, Hd.
Qed.

Lemma commit_cases s done cur later n :
  rep s done cur later -> counted s (queue cur later) -> open_ s = true -> 0 < n ->
  0 <= committed (stats_ s) < 2 ^ 64 ->
  exists s', commit io_ok s n = (true, s', None) /\ saved s' /\ same_setup s s' /\
    dropped (stats_ s') = dropped (stats_ s) /\ appended (stats_ s') = appended (stats_ s) /\
    exists k done' cur' later', rep s' done' cur' later' /\ counted s' (queue cur' later') /\
      queue cur' later' = drop k (queue cur later) /\
      committed (stats_ s') = u64 (committed (stats_ s) + Z.of_nat k) /\
      (k <= length (queue cur later))%nat /\
      (cur <> [] -> Z.of_nat k = Z.min n (Z.of_nat (length (queue cur later)))) /\
      (cur = [] -> k = 0%nat).
Proof.
  intros R Hc Ho Hn Hcm. unfold commit. rewrite Ho. cbn [negb].
  destruct (Z.eqb_spec n 0); [lia|].
  set (s1 := commit_loop (S (length (segments_ s))) io_ok s n).
  enough (exists k done' cur' later', rep s1 done' cur' later' /\ counted s1 (queue cur' later') /\
      queue cur' later' = drop k (queue cur later) /\
      committed (stats_ s1) = u64 (committed (stats_ s) + Z.of_nat k) /\
      (k <= length (queue cur later))%nat /\
      (cur <> [] -> Z.of_nat k = Z.min n (Z.of_nat (length (queue cur later)))) /\
      (cur = [] -> k = 0%nat) /\ dropped (stats_ s1) = dropped (stats_ s) /\
      appended (stats_ s1) = appended (stats_ s) /\ same_setup s s1)
    as (k & d' & c' & l' & R1 & Hc1 & Hq & Hcm1 & Hk & Hl1 & Hl2 & Hd1 & Ha1 & Hset).
  { destruct (save_state_rep s1 d' c' l' R1) as (s' & -> & R' & Hst & _ & Hsame).
    injection Hsame as E1 E2 E3 E4 E5 E6 E7. injection Hset as G1 G2 G3.
    exists s'. unfold saved, same_setup, counted. rewrite E7, Hst.
    split; [done|]. split; [f_equal; unfold state_text; by rewrite E4, E5, E6, E7|].
    split; [congruence|]. split; [done|]. split; [done|]. exists k, d', c', l'. auto 10. }
  destruct (decide (cur = [])) as [->|Hne].
  - exists 0%nat, done, [], later. rewrite Z.add_0_r, u64_small by done.
    unfold s1. rewrite (commit_loop_stall _ _ _ _ _ R Hn). split_and!; first [done|lia].
  - pose proof (commit_loop_rep (S (length (segments_ s))) s done cur later n R Hne Hc Hcm Hn ltac:(lia)) as H.
    cbv zeta in H. fold s1 in H. destruct H as (d' & c' & l' & R1 & Hq & Hc1 & Hcm1 & Hd1 & Ha1 & Hset).
    exists (Nat.min (Z.to_nat n) (length (queue cur later))), d', c', l'.
    split_and!; try done; [|rewrite Hcm1; do 2 f_equal; lia|lia|lia].
    rewrite Hq. destruct (Nat.le_gt_cases (Z.to_nat n) (length (queue cur later))).
    + f_equal. lia.
    + by rewrite !drop_ge by lia.
Qed.

(** Without refusals [append] fails only for a record that is too large. *)
Lemma append_refused s p s' err :
  open_ s = true -> append io_ok s p = (false, s', err) -> s' = s.
Proof.
  intros Ho. unfold append. rewrite Ho. cbn [negb]. case_match; [intros; by simplify_eq|].
  destruct (pick_segment io_ok s). cbn [io_ok append_opens negb append_cut cut].
  rewrite bool_decide_eq_false_2 by (by intros [? ?]). unfold save_state. cbn. intros. by simplify_eq.
Qed.

Lemma rep_cursor_range s done cur later :
  rep s done cur later -> 0 <= read_segment_ s < 2 ^ 64 /\ 0 <= read_offset_ s < 2 ^ 64.
Proof.
  intros R. pose proof (rep_segs _ _ _ _ R) as Hs. pose proof (rep_ids _ _ _ _ R) as Hi.
  pose proof (rep_small _ _ _ _ R) as Hb. destruct (segments_ s) as [|id ids].
  { destruct Hs as (_ & _ & _ & -> & ->). lia. }
  destruct Hs as (-> & -> & _). apply Forall_cons_iff in Hi as [Hi _]. unfold id_ok in Hi.
  rewrite bytes_of_cons, frames_app, len_app in Hb.
  pose proof (len_nonneg (frames done)). pose proof (len_nonneg (frames cur)).
  pose proof (len_nonneg (frames (concat later))). unfold bytes_of in Hb. lia.
Qed.

Lemma accounted_open cfg s err :
  open io_ok cfg (fresh ∅) = (true, s, err) -> 0 < segment_bytes cfg -> accounted s 0.
Proof.
  intros E Hseg. destruct (open_empty cfg) as (s2 & E2 & R & Hc & Ho & Hcfg & Hn & Hcm & Hd & Hdk).
  rewrite E2 in E. simplify_eq. exists [], [], []. rewrite Hcm, Hd. by split_and!; [..|right].
Qed.

Lemma accounted_append s n p s' err :
  accounted s n -> n + 1 < 2 ^ 64 - 1 -> room s p -> append io_ok s p = (true, s', err) -> accounted s' (n + 1).
Proof.
  intros (dn & cur & later & R & Hcnt & Ho & Hseg & Hd0 & Hc0 & Hsum & Hnext & _) Hn (Hp & Hb & Hid) Happ.
  rewrite (total_rep _ _ _ _ R) in Hb.
  destruct (append_ready s dn cur later p R Hcnt Ho ltac:(lia) Hp Hseg Hb Hid)
    as (s2 & m & k & d' & c' & l' & E & [R' _ _ _ Hk Hq Hcnt' Hsv Hd' Hcm' _ Hsq Hcfg Ho']).
  rewrite E in Happ. simplify_eq. exists d', c', l'. rewrite Hcfg, Hcm', Hd', Hsq, Hnext.
  rewrite !u64_small by lia. split_and!; try done; try lia; [|by left].
  rewrite Hq, length_drop, length_app. simpl length. lia.
Qed.

Lemma accounted_commit s n c s' err :
  accounted s n -> n < 2 ^ 64 - 1 -> 0 <= c -> commit io_ok s c = (true, s', err) -> accounted s' n.
Proof.
  intros Hacc Hn Hc Hcom.
  pose proof Hacc as (dn & cur & later & R & Hcnt & Ho & Hseg & Hd0 & Hc0 & Hsum & Hnext & _).
  destruct (decide (c = 0)) as [->|Hne].
  { unfold commit in Hcom. rewrite Ho in Hcom. simpl in Hcom. by simplify_eq. }
  destruct (commit_cases s dn cur later c R Hcnt Ho ltac:(lia) ltac:(lia))
    as (s2 & E & Hsv & Hset & Hd' & _ & k & d' & c' & l' & R' & Hcnt' & Hq & Hcm' & Hk & _).
  rewrite E in Hcom. simplify_eq. injection Hset as G1 G2 G3.
  exists d', c', l'. rewrite G1, G2, G3, Hd', Hcm', u64_small by lia.
  split_and!; try done; try lia; [|by left]. rewrite Hq, length_drop. lia.
Qed.

Lemma accounted_restart s n cfg s' err :
  accounted s n -> n < 2 ^ 64 - 1 -> open io_ok cfg (fresh (disk s)) = (true, s', err) ->
  0 < segment_bytes cfg -> accounted s' n.
Proof.
  intros (dn & cur & later & R & Hcnt & Ho & Hseg & Hd0 & Hc0 & Hsum & Hnext & [Hsv|[Hdk ->]]) Hn E Hseg'.
  2: { rewrite Hdk in E. by eapply accounted_open. }
  destruct (reopen_rep s dn cur later cfg R Hsv) as (s2 & E2 & R' & Hcnt' & Ho' & Hnx & Hcm & Hd & Hcfg & Hsv').
  { pose proof (rep_cursor_range _ _ _ _ R). by split; lia. }
  rewrite E2 in E. simplify_eq. exists dn, cur, later. rewrite Hnx, Hcm, Hd. by split_and!; [..|left].
Qed.

Lemma run_accounted s n : run s n -> n < 2 ^ 64 - 1 -> accounted s n.
Proof.
  induction 1 as [cfg s err E Hseg|s n p s' err _ IH Hroom E|s n p s' err _ IH E
                 |s n c s' err _ IH Hc E|s n cfg s' err _ IH E Hseg]; intros Hn.
  - by eapply accounted_open.
  - eapply accounted_append; [apply IH; lia|done..].
  - specialize (IH Hn). pose proof IH as (? & ? & ? & _ & _ & Ho & _). by rewrite (append_refused _ _ _ _ Ho E).
  - by eapply accounted_commit; [apply IH| ..].
  - by eapply accounted_restart; [apply IH| ..].
Qed.
End Runs.

(** ** A decision procedure for the representation, for the examples *)

Definition holds_check (d : gmap str str) (id : Z) (ps : list str) : bool :=
  bool_decide (d !! zero_pad id = Some (frames ps)) && negb (bool_decide (ps = [])).

Fixpoint segs_check (d : gmap str str) (ids : list Z) (pss : list (list str)) : bool :=
  match ids, pss with
  | [], [] => true
  | id :: ids', ps :: pss' => holds_check d id ps && segs_check d ids' pss'
  | _, _ => false
  end.

Fixpoint sorted_check (l : list Z) : bool :=
  match l with [] => true | x :: l' => forallb (Z.ltb x) l' && sorted_check l' end.

Definition rep_check (s : Spool) (done cur : list str) (later : list (list str)) : bool :=
  match segments_ s with
  | [] => bool_decide (done = [] /\ cur = [] /\ later = [] /\ read_segment_ s = 1 /\ read_offset_ s = 0)
  | id :: ids =>
      bool_decide (read_segment_ s = id) && bool_decide (read_offset_ s = len (frames done)) &&
      holds_check (disk s) id (done ++ cur) && segs_check (disk s) ids later
  end && sorted_check (segments_ s) &&
  forallb (fun i => (1 <=? i) && (i <? 2 ^ 64)) (segments_ s) &&
  forallb (fun p => len p <? 2 ^ 32) (done ++ cur ++ concat later) &&
  (bytes_of ((done ++ cur) :: later) <? 2 ^ 63) &&
  forallb (fun kv => str_eqb kv.1 state_name || str_eqb kv.1 tmp_name ||
             existsb (fun id => str_eqb kv.1 (zero_pad id)) (segments_ s)) (map_to_list (disk s)).

Lemma holds_check_ok d id ps : holds_check d id ps = true -> seg_holds d id ps.
Proof.
  unfold holds_check. rewrite andb_true_iff, negb_true_iff, bool_decide_eq_true, bool_decide_eq_false.
  done.
Qed.

Lemma segs_check_ok d ids pss : segs_check d ids pss = true -> Forall2 (seg_holds d) ids pss.
Proof.
  revert pss. induction ids as [|id ids IH]; intros [|ps pss] H; try done.
  simpl in H. bools. constructor; [by apply holds_check_ok|by apply IH].
Qed.

Lemma sorted_check_ok l : sorted_check l = true -> StronglySorted Z.lt l.
Proof.
  induction l as [|x l IH]; intros H; [constructor|]. simpl in H. bools. constructor; [by apply IH|].
  apply List.Forall_forall. intros y Hy. rewrite forallb_forall in H. specialize (H y Hy). bools. done.
Qed.

Lemma rep_check_ok s done cur later : rep_check s done cur later = true -> rep s done cur later.
Proof.
  unfold rep_check. intros H.
  apply andb_true_iff in H as [H Hn]. apply andb_true_iff in H as [H Hb].
  apply andb_true_iff in H as [H Hf]. apply andb_true_iff in H as [H Hi].
  apply andb_true_iff in H as [H Hso]. rewrite forallb_forall in Hi, Hf, Hn. split.
  - destruct (segments_ s) as [|id ids]; [by apply bool_decide_eq_true in H|].
    apply andb_true_iff in H as [H H4]. apply andb_true_iff in H as [H H3].
    apply andb_true_iff in H as [H1 H2]. apply bool_decide_eq_true in H1, H2.
    split_and!; try done; [by apply holds_check_ok|by apply segs_check_ok].
  - by apply sorted_check_ok.
  - apply List.Forall_forall. intros x Hx. specialize (Hi x Hx). bools. done.
  - apply List.Forall_forall. intros x Hx. specialize (Hf x Hx). bools. done.
  - bools. done.
  - intros name [c Hc]. specialize (Hn (name, c)). simpl in Hn.
    destruct (str_eqb name state_name) eqn:E1; [left; by apply str_eqb_eq|].
    destruct (str_eqb name tmp_name) eqn:E2; [right; left; by apply str_eqb_eq|].
    right; right. cbn [orb] in Hn.
    assert (existsb (fun id => str_eqb name (zero_pad id)) (segments_ s) = true) as He.
    { apply Hn. apply list_elem_of_In. by apply elem_of_map_to_list. }
    apply existsb_exists in He as (id & Hid & E). exists id. split; [by apply list_elem_of_In|].
    by apply str_eqb_eq.
Qed.

(** A spool with two one-record segments, for the examples: segments roll after
    every record, and nothing is evicted. *)
Definition tiny_cfg : Config := mkConfig (lit "/var/spool") 1000 1 false.

Definition tiny_open : Spool := (open io_ok tiny_cfg (fresh ∅)).1.2.
Definition tiny_one : Spool := (append io_ok tiny_open (lit "first")).1.2.
Definition tiny_two : Spool := (append io_ok tiny_one (lit "second")).1.2.
Definition tiny_end : Spool := (commit io_ok tiny_two 1).1.2.

(** ** Properties *)

(** C25: [peek] returns the oldest pending records, in order, at most as many as
    asked for, numbered from one, and changes nothing. *)
Theorem peek_returns_oldest (e : io_env) (s : Spool) (done cur : list str) (later : list (list str))
  (max : Z) (He : readable e) (R : rep s done cur later) :
  peek e s max = (number 0 (take (Z.to_nat max) (queue cur later)), None).
Proof. by eapply peek_rep. Qed.

Lemma peek_returns_oldest_witness :
  rep_check tiny_two [] [lit "first"] [[lit "second"]] = true /\
  peek io_ok tiny_two 1 = ([mkRecord 1 (lit "first")], None).
Proof.
  split; [vm_compute; reflexivity|].
  rewrite (peek_returns_oldest io_ok tiny_two [] [lit "first"] [[lit "second"]] 1 io_ok_readable);
    [reflexivity|]. apply rep_check_ok. vm_compute. reflexivity.
Defined.

(** C1: [append] puts the record into the last segment (a new one when that has
    reached its limit) and then removes oldest segments, exactly as many as it
    takes to bring the directory within its budget, the last one excepted: no
    segment goes while the directory is within the budget.  What is left is
    pending in order, exactly the records evicted before they were committed are
    counted as dropped, the counter of pending records is right, the other
    counters and the configuration are as they should be, and the state file on
    disk is the one of the new state. *)
Theorem append_enqueues (s : Spool) (done cur : list str) (later : list (list str)) (p : str)
  (R : rep s done cur later) (Hc : counted s (queue cur later)) (Ho : open_ s = true)
  (Hd : 0 <= dropped (stats_ s) < 2 ^ 64) (Hseg : 0 < segment_bytes (cfg_ s)) (Hroom : room s p) :
  let pss := add_last (segment_bytes (cfg_ s)) ((done ++ cur) :: later) p in
  exists s' n k done' cur' later', append io_ok s p = (true, s', None) /\
    (n < length pss)%nat /\
    (forall m, (m < n)%nat -> max_bytes (cfg_ s) < bytes_of (drop m pss)) /\
    (bytes_of (drop n pss) <= max_bytes (cfg_ s) \/ S n = length pss) /\
    rep s' done' cur' later' /\ (done' ++ cur') :: later' = drop n pss /\
    done' = (if (n =? 0)%nat then done else []) /\
    (k <= S (length (queue cur later)))%nat /\
    queue cur' later' = drop k (queue cur later ++ [p]) /\ counted s' (queue cur' later') /\
    dropped (stats_ s') = u64 (dropped (stats_ s) + Z.of_nat k) /\
    committed (stats_ s') = committed (stats_ s) /\
    appended (stats_ s') = u64 (appended (stats_ s) + 1) /\
    next_sequence_ s' = u64 (next_sequence_ s + 1) /\ cfg_ s' = cfg_ s /\ open_ s' = true /\ saved s'.
Proof.
  destruct Hroom as (Hp & Hb & Hid). rewrite (total_rep _ _ _ _ R) in Hb. intros pss.
  destruct (append_ready s done cur later p R Hc Ho Hd Hp Hseg Hb Hid)
    as (s' & n & k & d' & c' & l' & E & [R' (Hn & Hm & Hl)]).
  exists s', n, k, d', c', l'. by split_and!.
Qed.

(** Two segments of one record each fill the budget exactly: the next append
    evicts one of them, not both. *)
Definition full_cfg : Config := mkConfig (lit "/var/spool") 34 1 false.
Definition full_two : Spool :=
  (append io_ok (append io_ok (open io_ok full_cfg (fresh ∅)).1.2 (lit "first")).1.2 (lit "third")).1.2.

Lemma append_enqueues_witness :
  rep_check full_two [] [lit "first"] [[lit "third"]] = true /\
  exists s' done' cur' later', append io_ok full_two (lit "fifth") = (true, s', None) /\
    rep s' done' cur' later' /\ queue cur' later' = [lit "third"; lit "fifth"] /\
    dropped (stats_ s') = 1.
Proof.
  split; [vm_compute; reflexivity|].
  destruct (append_enqueues full_two [] [lit "first"] [[lit "third"]] (lit "fifth"))
    as (s' & n & k & d' & c' & l' & E & Hn & Hm & Hl & R' & Hs & Hdn & Hk & Hq & _ & Hdr & _).
  - apply rep_check_ok. vm_compute. reflexivity.
  - vm_compute. reflexivity.
  - vm_compute. reflexivity.
  - vm_compute. split; congruence.
  - vm_compute. reflexivity.
  - repeat split; vm_compute; congruence.
  - assert (n = 1%nat) as ->.
    { destruct n as [|[|[|n]]]; [exfalso|reflexivity|exfalso|exfalso].
      - vm_compute in Hl. destruct Hl as [Hl|Hl]; [by apply Hl|discriminate].
      - specialize (Hm 1%nat ltac:(lia)). vm_compute in Hm. discriminate.
      - vm_compute in Hn. lia. }
    simpl in Hdn. subst d'. exists s', [], c', l'. split; [exact E|]. split; [exact R'|].
    vm_compute in Hs. injection Hs as -> ->. split; [reflexivity|].
    assert (k = 1%nat) as ->; [|rewrite Hdr; vm_compute; reflexivity].
    apply (f_equal length) in Hq. rewrite length_drop in Hq. vm_compute length in Hq.
    change (length (queue [lit "first"] [[lit "third"]])) with 2%nat in Hk. simpl in Hq. lia.
Defined.

(** C2: [commit n] with a record at the cursor releases exactly the oldest [n]
    pending records (all of them if there are fewer), counts them, retires the
    segments it has passed, and saves the cursor. *)
Theorem commit_releases (s : Spool) (done cur : list str) (later : list (list str)) (n : Z)
  (R : rep s done cur later) (Hne : cur <> []) (Hc : counted s (queue cur later))
  (Ho : open_ s = true) (Hn : 0 < n) (Hcm : 0 <= committed (stats_ s) < 2 ^ 64) :
  exists s' done' cur' later', commit io_ok s n = (true, s', None) /\ rep s' done' cur' later' /\
    queue cur' later' = drop (Z.to_nat n) (queue cur later) /\ counted s' (queue cur' later') /\
    committed (stats_ s') =
      u64 (committed (stats_ s) + Z.min n (Z.of_nat (length (queue cur later)))) /\
    dropped (stats_ s') = dropped (stats_ s) /\ saved s'.
Proof.
  destruct (commit_cases s done cur later n R Hc Ho Hn Hcm)
    as (s' & E & Hsv & _ & Hd & _ & k & d' & c' & l' & R' & Hc' & Hq & Hcm' & Hk & Hl & _).
  specialize (Hl Hne). exists s', d', c', l'. split_and!; try done.
  - rewrite Hq. destruct (Z.le_gt_cases n (Z.of_nat (length (queue cur later)))).
    + f_equal. lia.
    + by rewrite !drop_ge by lia.
  - by rewrite Hcm', Hl.
Qed.

Lemma commit_releases_witness :
  rep_check tiny_two [] [lit "first"] [[lit "second"]] = true /\
  exists s' done cur later, commit io_ok tiny_two 2 = (true, s', None) /\
    rep s' done cur later /\ queue cur later = [].
Proof.
  split; [vm_compute; reflexivity|].
  destruct (commit_releases tiny_two [] [lit "first"] [[lit "second"]] 2)
    as (s' & d & c & l & E & R & Hq & _).
  - apply rep_check_ok. vm_compute. reflexivity.
  - discriminate.
  - vm_compute. reflexivity.
  - vm_compute. reflexivity.
  - reflexivity.
  - vm_compute. split; congruence.
  - exists s', d, c, l. split; [exact E|]. split; [exact R|exact Hq].
Defined.

(** C6: in the life of a directory that starts empty, over any sequence of
    accepted and refused appends, commits and restarts in which the operating
    system refuses nothing and no process is killed inside an operation, every
    accepted record is accounted for: committed, dropped and pending records add
    up to the number of successful appends, and the counter of pending records
    is right. *)
Theorem records_accounted {HS : StdSort} {HU : UnorderedIter} (s : Spool) (n : Z)
  (Hrun : run s n) (Hn : n < 2 ^ 64 - 1) :
  committed (stats_ s) + dropped (stats_ s) + Z.of_nat (length (peek io_ok s size_max).1) = n /\
  st_pending (stats_ s) = Z.of_nat (length (peek io_ok s size_max).1) /\ next_sequence_ s = n + 1.
Proof.
  destruct (run_accounted s n Hrun Hn) as (d & c & l & R & Hc & _ & _ & _ & _ & Hsum & Hnext & _).
  by rewrite (pending_rep _ _ _ _ _ io_ok_readable R), Hc.
Qed.

(** One record committed, then a restart. *)
Definition tiny_again : Spool := (open io_ok tiny_cfg (fresh (disk tiny_end))).1.2.

Lemma records_accounted_witness :
  committed (stats_ tiny_again) = 1 /\
  committed (stats_ tiny_again) + dropped (stats_ tiny_again) +
  Z.of_nat (length (peek io_ok tiny_again size_max).1) = 2.
Proof.
  split; [vm_compute; reflexivity|].
  assert (run tiny_again 2) as H.
  { apply (run_restart tiny_end 2 tiny_cfg _ None); [|vm_compute; reflexivity..].
    apply (run_commit tiny_two 2 1 _ None); [|lia|vm_compute; reflexivity].
    apply (run_append tiny_one 1 (lit "second") tiny_two None); [|repeat split; vm_compute; congruence|vm_compute; reflexivity].
    apply (run_append tiny_open 0 (lit "first") tiny_one None); [|repeat split; vm_compute; congruence|vm_compute; reflexivity].
    apply (run_open tiny_cfg _ None); vm_compute; reflexivity. }
  apply (records_accounted tiny_again 2 H). reflexivity.
Defined.

Section Reopening.
Context {HS : StdSort} {HU : UnorderedIter}.

(** C4: opening a directory that a successful operation left behind restores the
    queue, the cursor and the counters exactly, whatever order the directory is
    listed in. *)
Theorem reopen_restores (s : Spool) (done cur : list str) (later : list (list str)) (cfg : Config)
  (R : rep s done cur later) (Hs : saved s) (Hr : ranges s) :
  exists s', open io_ok cfg (fresh (disk s)) = (true, s', None) /\ rep s' done cur later /\
    counted s' (queue cur later) /\ open_ s' = true /\ next_sequence_ s' = next_sequence_ s /\
    committed (stats_ s') = committed (stats_ s) /\ dropped (stats_ s') = dropped (stats_ s).
Proof.
  destruct (reopen_rep s done cur later cfg R Hs Hr) as (s' & E & R' & Hc & Ho & Hn & Hcm & Hd & _).
  exists s'. by split_and!.
Qed.

(** C5: if a process is killed (or the disk fills up) while [append] is writing
    the frame, so that only some of its bytes are on disk, the next [open]
    succeeds and finds exactly the records that were pending before: nothing is
    lost and the cut record is not delivered. *)
Theorem torn_append_recovers (s : Spool) (done cur : list str) (later : list (list str)) (p : str)
  (k : nat) (cfg : Config)
  (R : rep s done cur later) (Hs : saved s) (Hr : ranges s) (Ho : open_ s = true)
  (Hp : len p <= 0xFFFFFFFF) (Hk : (k < length (frame p))%nat)
  (Hseg : 0 < segment_bytes (cfg_ s)) (Hid : id_ok (next_id s)) :
  let '(ok, crashed, _) := append (io_cut k) s p in
  ok = false /\
  exists s', open io_ok cfg (fresh (disk crashed)) = (true, s', None) /\
    forall max, peek io_ok s' max = (number 0 (take (Z.to_nat max) (queue cur later)), None).
Proof.
  unfold append. rewrite Ho. cbn [negb]. destruct (Z.ltb_spec 0xFFFFFFFF (len p)); [lia|].
  change (pick_segment (io_cut k) s) with (pick_segment io_ok s).
  destruct (cut_append_sees s done cur later p k R ltac:(unfold fits; lia) Hk Hseg Hid)
    as (active & s1 & -> & Ed & Hact & segs & later' & Hq & Hlay & id & ids & -> & Hrs & Hro &
        (t & Hh & Ht) & Hl).
  cbn [io_cut append_opens negb append_cut cut]. rewrite bool_decide_eq_true_2 by eauto.
  split; [done|]. cbn [set_disk disk]. rewrite Ed. set (d := <[zero_pad active := _]> (disk s)) in *.
  assert (d !! state_name = Some (state_text s)) as Hst
    by (unfold d; rewrite lookup_insert_ne; [done|apply zero_pad_state, Hact]).
  destruct (open_layout cfg d (id :: ids) s Hlay Hst Hr ltac:(simpl; lia)) as (s' & E & Hsame & _).
  injection Hsame as E1 E2 E3 E4 E5 E6 E7. exists s'. split; [done|]. intros max. rewrite <- Hq.
  eapply (peek_reads io_ok s' id ids done cur later' max t);
    [done|done|congruence|congruence|by rewrite E5|done|by rewrite E5|..].
  - apply sorted_head_lt. by destruct Hlay.
  - unfold queue in Hq. rewrite Hq. pose proof (rep_fits _ _ _ _ R) as Hf.
    by apply Forall_app in Hf as [_ Hf].
Qed.
End Reopening.

Lemma reopen_restores_witness :
  rep_check tiny_two [] [lit "first"] [[lit "second"]] = true /\
  exists s', open io_ok tiny_cfg (fresh (disk tiny_two)) = (true, s', None) /\
    rep s' [] [lit "first"] [[lit "second"]].
Proof.
  split; [vm_compute; reflexivity|].
  destruct (reopen_restores tiny_two [] [lit "first"] [[lit "second"]] tiny_cfg) as (s' & E & R & _).
  - apply rep_check_ok. vm_compute. reflexivity.
  - vm_compute. reflexivity.
  - split; vm_compute; split; congruence.
  - exists s'. split; [exact E|exact R].
Defined.

Lemma torn_append_recovers_witness :
  rep_check tiny_two [] [lit "first"] [[lit "second"]] = true /\
  (append (io_cut 14) tiny_two (lit "third")).1.1 = false /\
  exists s', open io_ok tiny_cfg (fresh (disk (append (io_cut 14) tiny_two (lit "third")).1.2)) = (true, s', None) /\
    (peek io_ok s' 5).1 = [mkRecord 1 (lit "first"); mkRecord 2 (lit "second")].
Proof.
  split; [vm_compute; reflexivity|].
  pose proof (torn_append_recovers tiny_two [] [lit "first"] [[lit "second"]] (lit "third") 14 tiny_cfg) as H.
  destruct (append (io_cut 14) tiny_two (lit "third")) as [[ok crashed] err].
  destruct H as (H1 & s' & E & H2).
  - apply rep_check_ok. vm_compute. reflexivity.
  - vm_compute. reflexivity.
  - split; vm_compute; split; congruence.
  - vm_compute. reflexivity.
  - vm_compute. congruence.
  - apply Nat.ltb_lt. vm_compute. reflexivity.
  - vm_compute. reflexivity.
  - split; vm_compute; congruence.
  - split; [exact H1|]. exists s'. split; [exact E|]. rewrite H2. reflexivity.
Defined.

(** ** Where the code departs from its contract *)

(** When the cursor is at the end of a segment that is not the last, which
    is where a commit of exactly the rest of a segment leaves it, [commit] of
    any number of records returns true and releases nothing, although records
    are pending: the caller sends the same batch again, forever. *)
Theorem commit_stalls (s : Spool) (done : list str) (later : list (list str)) (n : Z)
  (R : rep s done [] later) (Hl : queue [] later <> []) (Hc : counted s (queue [] later))
  (Ho : open_ s = true) (Hn : 0 < n) (Hcm : 0 <= committed (stats_ s) < 2 ^ 64) :
  exists s', commit io_ok s n = (true, s', None) /\ rep s' done [] later /\
    committed (stats_ s') = committed (stats_ s) /\ peek io_ok s' n = peek io_ok s n.
Proof.
  unfold commit. rewrite Ho. cbn [negb]. destruct (Z.eqb_spec n 0); [lia|].
  rewrite (commit_loop_stall _ _ _ _ _ R Hn).
  destruct (save_state_rep s done [] later R) as (s' & E & R' & _ & _ & Hsame).
  injection Hsame as E1 E2 E3 E4 E5 E6 E7. exists s'. split_and!; try done; [by rewrite E7|].
  by rewrite (peek_rep _ _ _ _ _ _ io_ok_readable R), (peek_rep _ _ _ _ _ _ io_ok_readable R').
Qed.

Lemma commit_stalls_witness :
  tiny_end = (commit io_ok tiny_two 1).1.2 /\
  exists s', commit io_ok tiny_end 1 = (true, s', None) /\
    peek io_ok s' 1 = ([mkRecord 1 (lit "second")], None).
Proof.
  split; [reflexivity|].
  destruct (commit_stalls tiny_end [lit "first"] [[lit "second"]] 1) as (s' & E & _ & _ & H).
  - apply rep_check_ok. vm_compute. reflexivity.
  - discriminate.
  - vm_compute. reflexivity.
  - vm_compute. reflexivity.
  - reflexivity.
  - vm_compute. split; congruence.
  - exists s'. split; [exact E|]. rewrite H. vm_compute. reflexivity.
Defined.

Definition wide_cfg : Config := mkConfig (lit "/var/spool") 1000 1000 false.
Definition wide_open (d : gmap str str) : Spool := (open io_ok wide_cfg (fresh d)).1.2.
Definition wide_append (s : Spool) (p : str) : Spool := (append io_ok s p).1.2.

(** The remains of a cut append are never truncated: a process is killed
    while it appends "b" behind "a", the spool is reopened, and the next append,
    of "c", reports success but lands behind the remains, where no reader gets
    to it. *)
Theorem torn_tail_swallows_next_append :
  let s1 := wide_append (wide_open ∅) (lit "a") in
  let crashed := (append (io_cut 12) s1 (lit "b")).1.2 in
  let s2 := wide_open (disk crashed) in
  let '(ok, s3, _) := append io_ok s2 (lit "c") in
  ok = true /\ payload <$> (peek io_ok s3 size_max).1 = [lit "a"].
Proof. vm_compute. split; reflexivity. Qed.

(** A state file that names a segment beyond the ones present (from a wiped
    directory) is kept as it is: the append reports success and the record is
    not visible to any reader. *)
Theorem stale_state_hides_records :
  let s := wide_open {[ state_name := lit "7 0 1 0 0" ++ [nl] ]} in
  let '(ok, s', _) := append io_ok s (lit "a") in
  ok = true /\ segments_ s' = [1] /\ read_segment_ s' = 7 /\ (peek io_ok s' size_max).1 = [].
Proof. vm_compute. repeat split; reflexivity. Qed.

(** The stream is checked before its buffer is written out, so a short write
    of the temporary state file goes unnoticed and is renamed over the state: the
    commit reports success, and after a restart the cursor is in the middle of a
    record and nothing is pending any more. *)
Theorem short_state_write_misplaces_cursor :
  let s := wide_append (wide_append (wide_open ∅) (lit "a")) (lit "b") in
  let full_disk := mkIo None None (fun _ => true) (fun _ => true) (fun _ => true) true None true false
                     (Some 3%nat) None None in
  let '(ok, s', _) := commit full_disk s 1 in
  let s2 := wide_open (disk s') in
  ok = true /\ payload <$> (peek io_ok s' size_max).1 = [lit "b"] /\
  read_offset_ s' = 13 /\ read_offset_ s2 = 1 /\ (peek io_ok s2 size_max).1 = [].
Proof. vm_compute. repeat split; reflexivity. Qed.
