(* ===== verification/WinStr.v ===== *)
(** * Windows strings

    The Windows parts keep their texts in UTF-8 and convert them at every call of
    the operating system ([widen] and [narrow] of db_odbc.cpp, ipc_windows.cpp,
    service_windows.cpp, transport_winhttp.cpp and procinfo_windows.cpp,
    [utf8_from_wide] of platform_windows.cpp).  The conversions themselves,
    [MultiByteToWideChar] and [WideCharToMultiByte] with [CP_UTF8], are an
    interface: what is relied on is that valid text survives the trip, that the
    conversion goes character by character with at most three bytes to a unit, and
    that ASCII is the same in both forms. *)
From S2P Require Import Prelude CppStd.
From Stdlib Require Import Ascii.

#[local] Open Scope Z_scope.

(** A wide string is a sequence of UTF-16 code units. *)
Abbreviation wstr := (list Z).

Definition ascii_text (s : str) : bool := forallb (fun c => (0 <? code c) && (code c <? 128)) s.

Class Utf16 := {
  to_wide : str -> wstr;
  to_utf8 : wstr -> str;
  utf8_valid : str -> bool;
  to_wide_nil : to_wide [] = [];
  to_utf8_nil : to_utf8 [] = [];
  utf8_wide : forall s, utf8_valid s = true -> to_utf8 (to_wide s) = s;
  wide_length : forall s, (length (to_wide s) <= length s)%nat;
  wide_no_nul : forall s, utf8_valid s = true -> Forall (fun u => u <> 0) (to_wide s);
  to_wide_app : forall s t, utf8_valid s = true -> utf8_valid t = true ->
    utf8_valid (s ++ t) = true /\ to_wide (s ++ t) = to_wide s ++ to_wide t;
  utf8_width : forall s, utf8_valid s = true -> (length s <= 3 * length (to_wide s))%nat;
  utf8_ascii : forall s, ascii_text s = true -> utf8_valid s = true /\ to_wide s = code <$> s
}.

(** An instance on ASCII text. *)
#[global] Instance ascii_utf16 : Utf16.
Proof.
  refine {| to_wide := fmap code; to_utf8 := fmap chr; utf8_valid := ascii_text |}; try done.
  - intros s _. rewrite <- list_fmap_compose. rewrite <- (list_fmap_id s) at 2.
    apply list_fmap_ext. intros i c _. apply chr_code.
  - intros s. by rewrite length_fmap.
  - intros s Hs. apply Forall_fmap, List.Forall_forall. intros c Hc.
    unfold ascii_text in Hs. rewrite forallb_forall in Hs. apply Hs in Hc. bools. simpl. lia.
  - intros s t Hs Ht. unfold ascii_text. rewrite forallb_app, fmap_app. split; [by apply andb_true_iff|done].
  - intros s _. rewrite length_fmap. lia.
Defined.

(** [s.c_str()] read up to its terminator, on both kinds of string. *)
Definition c_str (s : str) : str := fst (span (fun c => negb (code c =? 0)) s).
Fixpoint c_wstr (w : wstr) : wstr :=
  match w with [] => [] | u :: w' => if u =? 0 then [] else u :: c_wstr w' end.

Section Conversions.
Context {HW : Utf16}.

(** [widen]: the conversion is asked for with length -1, so it ends at the first
    NUL; the terminator it writes is taken off again. *)
Definition widen (s : str) : wstr := match s with [] => [] | _ => to_wide (c_str s) end.

(** [narrow] of a wide string, up to its first NUL, and of a buffer of known
    length. *)
Definition narrow (w : wstr) : str := match w with [] => [] | _ => to_utf8 (c_wstr w) end.
Definition narrow_n (w : wstr) : str := match w with [] => [] | _ => to_utf8 w end.

(** [utf8_from_wide]: [None] is a null pointer. *)
Definition utf8_from_wide (w : option wstr) : str :=
  match w with None => [] | Some w => to_utf8 (c_wstr w) end.

(** ** Lemmas *)

Lemma c_wstr_id w : Forall (fun u => u <> 0) w -> c_wstr w = w.
Proof.
  induction 1 as [|u w Hu _ IH]; [done|]. simpl. destruct (Z.eqb_spec u 0); [done|]. by rewrite IH.
Qed.

Lemma c_str_id s : Forall (fun c => code c <> 0) s -> c_str s = s.
Proof.
  intros H. unfold c_str. rewrite <- (app_nil_r s) at 1. rewrite span_all; [done| |done].
  eapply Forall_impl; [exact H|]. intros c Hc. apply negb_true_iff, Z.eqb_neq. done.
Qed.

Lemma widen_eq s : Forall (fun c => code c <> 0) s -> widen s = to_wide s.
Proof. intros H. destruct s as [|c s]; [by rewrite to_wide_nil|]. unfold widen. by rewrite c_str_id. Qed.

(** A valid text without NUL survives the round trip. *)
Lemma narrow_widen s :
  utf8_valid s = true -> Forall (fun c => code c <> 0) s -> narrow (widen s) = s /\ narrow_n (widen s) = s.
Proof.
  intros Hs H0. rewrite (widen_eq s H0). unfold narrow, narrow_n.
  pose proof (utf8_wide s Hs) as E. pose proof (wide_no_nul s Hs) as Hn.
  rewrite (c_wstr_id _ Hn), E. destruct (to_wide s); [|done].
  rewrite to_utf8_nil in E. by rewrite <- E.
Qed.

Lemma ascii_no_nul s : ascii_text s = true -> Forall (fun c => code c <> 0) s.
Proof.
  intros H. apply List.Forall_forall. intros c Hc. unfold ascii_text in H. rewrite forallb_forall in H.
  apply H in Hc. bools. lia.
Qed.

Lemma widen_ascii s : ascii_text s = true -> widen s = code <$> s.
Proof. intros H. rewrite widen_eq by by apply ascii_no_nul. by apply utf8_ascii. Qed.

End Conversions.
