(* ===== verification/Transport.v ===== *)
(** * The transport (src/transport.cpp, src/transport_openssl.cpp,
    src/transport_none.cpp, include/ns/transport.hpp)

    URL parsing, the backoff schedule, and the OpenSSL backend.  What the
    resolver, the socket and OpenSSL answer during one request is an oracle, a
    [tls_env]; the calls that matter for the security of a request leave an event
    in a trace.  The standard library's uniform distribution is a parameter that
    picks a value of its range. *)
From S2P Require Import Prelude CppStd Json Log.
From Stdlib Require Import Ascii.

#[local] Open Scope Z_scope.

Record TransportConfig := mkTConfig {
  t_url : str; client_cert_path : str; client_key_path : str; server_pin_sha256 : str;
  timeout_ms : Z }.

Record Result := mkResult {
  ok : bool; http_status : Z; r_body : str; r_error : str; retryable : bool }.

Definition new_result : Result := mkResult false 0 [] [] false.

(** ** URLs *)

Record ParsedUrl := mkUrl { scheme : str; url_host : str; port : Z; path : str }.

Definition is_https (s : str) : bool := str_eqb s (lit "https").

Definition split_authority (authority : str) : str * Z :=
  match rfind_char ":" authority with
  | Some colon =>
      let digits := drop (S colon) authority in
      if forallb isdigit digits && negb (bool_decide (digits = []))
      then (take colon authority, atoi digits) else (authority, 443)
  | None => (authority, 443)
  end.

Definition parse_url (url : str) : ParsedUrl + str :=
  match find_sub (lit "://") url with
  | None => inr (lit "url has no scheme: " ++ url)
  | Some i =>
      let sch := take i url in
      if negb (is_https sch) then inr (lit "only https is supported, got: " ++ sch)
      else
        let rest := drop (i + 3) url in
        let '(authority, p) :=
          match find_char "/" rest with
          | Some slash => (take slash rest, drop slash rest)
          | None => (rest, lit "/")
          end in
        let '(h, prt) := split_authority authority in
        match h with
        | [] => inr (lit "url has no host: " ++ url)
        | _ => inl (mkUrl sch h prt p)
        end
  end.

(** ** Backoff *)

(** [base_ms << exponent] on 64-bit signed integers, and the clamp. *)
Definition backoff_ceiling (attempt base_ms cap_ms : Z) : Z :=
  let attempt := if attempt <? 0 then 0 else attempt in
  let exponent := Z.min attempt 20 in
  let ceiling := i64 (Z.shiftl base_ms exponent) in
  if (cap_ms <? ceiling) || (ceiling <=? 0) then cap_ms else ceiling.

(** [std::uniform_int_distribution]: a value between its bounds. *)
Class UniformInt := {
  uniform : Z -> Z -> Z -> Z;   (* the generator's state, the lower and the upper bound *)
  uniform_range : forall g lo hi, lo <= hi -> lo <= uniform g lo hi <= hi
}.

#[global] Instance uniform_mod : UniformInt.
Proof.
  refine {| uniform g lo hi := lo + g mod (hi - lo + 1) |}.
  intros g lo hi H. pose proof (Z.mod_pos_bound g (hi - lo + 1)). lia.
Defined.

Definition backoff_delay_ms `{UniformInt} (g attempt base_ms cap_ms : Z) : Z :=
  uniform g 0 (backoff_ceiling attempt base_ms cap_ms).

(** ** The fallback backend *)

Definition none_post (body content_type : str) : Result :=
  mkResult false 0 [] (lit "this build has no TLS backend: OpenSSL was not found at configure time") false.

(** ** The OpenSSL backend *)

Definition hex_lower (p : str) : str :=
  p ≫= fun c => [hex_char (Z.land (Z.shiftr (code c) 4) 15); hex_char (Z.land (code c) 15)].

Definition normalise_pin (pin : str) : str :=
  tolower <$> List.filter (fun c => negb (Ascii.eqb c ":" || Ascii.eqb c " ")) pin.

(** What the libraries answer during [init]. *)
Record init_env := mkInitEnv {
  ctx_new_error : option str;       (* SSL_CTX_new fails *)
  cert_load_error : option str;
  key_load_error : option str;
  key_matches : bool }.

Record OpenSslTransport := mkOpenSsl { t_cfg : TransportConfig; t_parsed : ParsedUrl; pin_ : str }.

Definition init (e : init_env) (cfg : TransportConfig) (url : ParsedUrl) : OpenSslTransport + str :=
  let pin := normalise_pin (server_pin_sha256 cfg) in
  if negb (length pin =? 64)%nat then
    inr (lit "server pin must be a 64-character hex SHA-256, got " ++
         to_string (Z.of_nat (length pin)) ++ lit " characters")
  else
    match ctx_new_error e with
    | Some m => inr (lit "SSL_CTX_new failed: " ++ m)
    | None =>
        let t := mkOpenSsl cfg url pin in
        match client_cert_path cfg with
        | [] => inl t
        | cert =>
            match cert_load_error e with
            | Some m => inr (lit "cannot load client certificate " ++ cert ++ lit ": " ++ m)
            | None =>
                let key := match client_key_path cfg with [] => cert | k => k end in
                match key_load_error e with
                | Some m => inr (lit "cannot load client key " ++ key ++ lit ": " ++ m)
                | None =>
                    if key_matches e then inl t
                    else inr (lit "client certificate and key do not match")
                end
            end
        end
    end.

Definition make_transport (e : init_env) (cfg : TransportConfig) : OpenSslTransport + str :=
  match parse_url (t_url cfg) with
  | inr m => inr m
  | inl url => init e cfg url
  end.

(** One address of the resolver's answer: whether a socket can be made for it
    and whether connecting succeeds. *)
Record address := mkAddress { socket_ok : bool; connect_ok : bool }.

(** What the network and the libraries answer during one [post]. *)
Record tls_env := mkTls {
  resolve_error : option str;         (* getaddrinfo fails with this message *)
  addresses_ : list address;
  ssl_new_error : option str;
  handshake_error : option str;
  peer_digest : option (option str);  (* the peer's certificate; its SHA-256 *)
  ssl_write : nat -> Z -> Z;          (* the n-th call's answer to a request to write so many bytes *)
  write_error : str;
  reads : list str                    (* the chunks [SSL_read] returns before it fails *)
}.

Inductive event :=
| Dialed
| Handshake
| PinVerified
| PinRefused
| Wrote (bytes : str)
| Finished.

(** [dial]: the first address that takes a connection, or an error text. *)
Definition dial (e : tls_env) (host : str) (prt : Z) : option str :=
  match resolve_error e with
  | Some m => Some (lit "DNS lookup failed for " ++ host ++ lit ": " ++ m)
  | None =>
      if existsb (fun a => socket_ok a && connect_ok a) (addresses_ e) then None
      else Some (lit "could not connect to " ++ host ++ lit ":" ++ to_string prt)
  end.

(** [write_all]: every round but the last writes something, so the length of
    the data is enough fuel. *)
Fixpoint write_all (fuel : nat) (e : tls_env) (call : nat) (data : str) (tr : list event)
    : bool * list event :=
  match data with
  | [] => (true, tr)
  | _ =>
      match fuel with
      | O => (false, tr)
      | S f =>
          let n := ssl_write e call (i32 (len data)) in
          if n <=? 0 then (false, tr)
          else write_all f e (S call) (drop (Z.to_nat n) data) (tr ++ [Wrote (take (Z.to_nat n) data)])
      end
  end.

(** [verify_pin]: an error text, or the pin matches. *)
Definition verify_pin (t : OpenSslTransport) (e : tls_env) : option str :=
  match peer_digest e with
  | None => Some (lit "server presented no certificate")
  | Some None => Some (lit "could not hash the server certificate")
  | Some (Some digest) =>
      let actual := hex_lower digest in
      if str_eqb actual (pin_ t) then None
      else Some (lit "server certificate pin mismatch: expected " ++ pin_ t ++ lit ", got " ++ actual)
  end.

Definition crlf : str := ["013"; "010"]%char.

Definition request_text (t : OpenSslTransport) (body content_type : str) : str :=
  lit "POST " ++ path (t_parsed t) ++ lit " HTTP/1.1" ++ crlf ++
  lit "Host: " ++ url_host (t_parsed t) ++ lit ":" ++ to_string (port (t_parsed t)) ++ crlf ++
  lit "User-Agent: nano-sensor/0.1" ++ crlf ++
  lit "Content-Type: " ++ content_type ++ crlf ++
  lit "Content-Length: " ++ to_string (len body) ++ crlf ++
  lit "Connection: close" ++ crlf ++ crlf ++ body.

Definition failed (msg : str) (retry : bool) : Result := mkResult false 0 [] msg retry.

(** The part of [post] that reads the response. *)
Definition read_response (response : str) : Result :=
  match response with
  | [] => failed (lit "empty response from the cloud endpoint") true
  | _ =>
      let status :=
        if starts_with (lit "HTTP/") response then
          match find_char " " response with
          | Some sp => atoi (drop (S sp) response)
          | None => 0
          end
        else 0 in
      let body :=
        match find_sub (crlf ++ crlf) response with
        | Some i => drop (i + 4) response
        | None => []
        end in
      if (200 <=? status) && (status <? 300) then mkResult true status body [] false
      else mkResult false status body (lit "cloud returned HTTP " ++ to_string status)
             ((500 <=? status) || (status =? 429))
  end.

Definition post (t : OpenSslTransport) (e : tls_env) (body content_type : str)
    : Result * list event :=
  match dial e (url_host (t_parsed t)) (port (t_parsed t)) with
  | Some m => (failed m true, [])
  | None =>
      match ssl_new_error e with
      | Some m => (failed (lit "SSL_new failed: " ++ m) true, [Dialed; Finished])
      | None =>
          match handshake_error e with
          | Some m => (failed (lit "TLS handshake failed: " ++ m) true, [Dialed; Finished])
          | None =>
              match verify_pin t e with
              | Some m => (failed m false, [Dialed; Handshake; PinRefused; Finished])
              | None =>
                  let request := request_text t body content_type in
                  let '(sent, tr) :=
                    write_all (length request) e 0 request [Dialed; Handshake; PinVerified] in
                  if negb sent then
                    (failed (lit "SSL_write failed: " ++ write_error e) true, tr ++ [Finished])
                  else (read_response (concat (reads e)), tr ++ [Finished])
              end
          end
      end
  end.

(** ** Lemmas *)

Lemma write_all_trace fuel e call data tr b tr' :
  write_all fuel e call data tr = (b, tr') -> exists ws, tr' = tr ++ (Wrote <$> ws).
Proof.
  revert call data tr. induction fuel as [|f IH]; intros call data tr; destruct data as [|c data]; simpl;
    try (intros [= <- <-]; exists []; by rewrite app_nil_r).
  destruct (ssl_write e call (i32 (len (c :: data))) <=? 0).
  { intros [= <- <-]. exists []. by rewrite app_nil_r. }
  intros H. apply IH in H as [ws ->]. eexists (_ :: ws). by rewrite <- app_assoc.
Qed.

(** [SSL_write] never reports more bytes than it was given. *)
Definition writes_within (e : tls_env) : Prop := forall call n, ssl_write e call n <= n.

Definition bytes_written (tr : list event) : str :=
  tr ≫= fun ev => match ev with Wrote b => b | _ => [] end.

Lemma write_all_complete fuel e call data tr :
  writes_within e -> len data < 2 ^ 31 -> (length data <= fuel)%nat ->
  exists done, bytes_written (write_all fuel e call data tr).2 = bytes_written tr ++ done /\
    (exists rest, data = done ++ rest) /\
    ((write_all fuel e call data tr).1 = true -> done = data).
Proof.
  intros He. revert call data tr. induction fuel as [|f IH]; intros call data tr Hl Hf.
  { destruct data; [|simpl in Hf; lia]. exists []. rewrite app_nil_r. split; [done|].
    split; [by exists []|done]. }
  destruct data as [|c data].
  { exists []. rewrite app_nil_r. split; [done|]. split; [by exists []|done]. }
  cbn [write_all]. set (d := c :: data) in *. pose proof (He call (i32 (len d))) as Hn.
  assert (i32 (len d) = len d) as Hi.
  { unfold i32, sgn. pose proof (len_nonneg d). rewrite Z.mod_small by lia.
    change (32 - 1) with 31. destruct (Z.ltb_spec (len d) (2 ^ 31)); lia. }
  rewrite Hi in *. destruct (Z.leb_spec (ssl_write e call (len d)) 0) as [|Hpos].
  { exists []. rewrite app_nil_r. split; [done|]. split; [by exists d|done]. }
  set (n := Z.to_nat (ssl_write e call (len d))).
  assert (0 < n <= length d)%nat as Hn' by (unfold n, len in *; lia).
  destruct (IH (S call) (drop n d) (tr ++ [Wrote (take n d)])) as (dn & H1 & (rest & H2) & H3).
  { unfold len in *. rewrite length_drop. lia. }
  { rewrite length_drop. lia. }
  exists (take n d ++ dn). split.
  { rewrite H1. unfold bytes_written. rewrite bind_app. simpl. by rewrite app_nil_r, app_assoc. }
  split; [exists rest; by rewrite <- app_assoc, <- H2, take_drop|].
  intros Ht. by rewrite (H3 Ht), take_drop.
Qed.

Lemma hex_nibble_inj x y : 0 <= x < 16 -> 0 <= y < 16 -> hex_char x = hex_char y -> x = y.
Proof.
  intros Hx Hy. assert (Forall (fun a => Forall (fun b => hex_char a = hex_char b -> a = b) (seqZ 0 16)) (seqZ 0 16)) as H.
  { repeat (apply Forall_cons_iff; split; [repeat (apply Forall_cons_iff; split; [by intros|]); constructor|]).
    constructor. }
  rewrite Forall_forall in H. specialize (H x ltac:(apply elem_of_seqZ; lia)).
  rewrite Forall_forall in H. apply H. apply elem_of_seqZ. lia.
Qed.

Lemma hex_lower_inj a b : hex_lower a = hex_lower b -> a = b.
Proof.
  revert b. induction a as [|x a IH]; intros [|y b]; try done. unfold hex_lower. simpl.
  intros [= E1 E2 E3]. f_equal; [|by apply IH].
  pose proof (code_range x) as Hx. pose proof (code_range y) as Hy.
  assert (forall z, 0 <= z < 256 -> 0 <= Z.land (Z.shiftr z 4) 15 < 16 /\ 0 <= Z.land z 15 < 16 /\
    z = 16 * Z.land (Z.shiftr z 4) 15 + Z.land z 15) as Hz.
  { intros z Hz. change 15 with (Z.ones 4). rewrite !Z.land_ones, Z.shiftr_div_pow2 by lia.
    change (2 ^ 4) with 16. Z.to_euclidean_division_equations. lia. }
  destruct (Hz _ Hx) as (? & ? & Ex), (Hz _ Hy) as (? & ? & Ey).
  apply hex_nibble_inj in E1, E2; [|done..]. apply code_inj. rewrite Ex, Ey, E1, E2. done.
Qed.

Lemma find_sub_https x : find_sub (lit "://") (lit "https://" ++ x) = Some 5%nat.
Proof. reflexivity. Qed.

Lemma find_sub_Some p s i : find_sub p s = Some i -> starts_with p (drop i s) = true.
Proof.
  revert i. induction s as [|c s IH]; intros i; cbn [find_sub].
  - destruct (starts_with p []) eqn:E; [|done]. by intros [= <-].
  - destruct (starts_with p (c :: s)) eqn:E; [by intros [= <-]|].
    destruct (find_sub p s) as [j|]; [|done]. intros [= <-]. by apply IH.
Qed.

Lemma dec_port n : 0 <= n < 2 ^ 31 -> atoi (to_string_u n) = n.
Proof.
  intros Hn. destruct (to_string_u_spec n) as (Hd & Hv & Hne); [lia|]. unfold atoi, strtoll10.
  rewrite <- (app_nil_r (to_string_u n)).
  rewrite digits_skip_ws, digits_scan_sign, span_all by done. cbn [fst]. rewrite Hv.
  rewrite Z.min_r, Z.max_r by lia. unfold i32, sgn. rewrite Z.mod_small by lia. change (32 - 1) with 31.
  destruct (Z.ltb_spec n (2 ^ 31)); lia.
Qed.

(** ** Properties *)

(** C12: no byte of a request leaves the host before the TLS handshake has
    completed and the SHA-256 of the peer's certificate has been found equal to
    the pin; a peer that does not match gets nothing, and the failure is not
    retried. *)
Theorem post_sends_only_to_pinned_peer (t : OpenSslTransport) (e : tls_env) (body content_type : str) :
  let '(r, tr) := post t e body content_type in
  (forall b, Wrote b ∈ tr ->
     handshake_error e = None /\ exists digest, peer_digest e = Some (Some digest) /\
       hex_lower digest = pin_ t /\
       exists ws, tr = [Dialed; Handshake; PinVerified] ++ (Wrote <$> ws) ++ [Finished]) /\
  (PinRefused ∈ tr -> ok r = false /\ retryable r = false /\ forall b, Wrote b ∉ tr).
Proof.
  unfold post. destruct (dial e _ _) as [m|]; [set_solver|].
  destruct (ssl_new_error e) as [m|]; [set_solver|].
  destruct (handshake_error e) as [m|]; [set_solver|].
  destruct (verify_pin t e) as [m|] eqn:Hv; [split; [set_solver|]; intros _; split_and!; try done; set_solver|].
  set (request := request_text t body content_type).
  destruct (write_all (length request) e 0 request [Dialed; Handshake; PinVerified]) as [sent tr] eqn:Hw.
  apply write_all_trace in Hw as [ws ->].
  assert (PinRefused ∉ ([Dialed; Handshake; PinVerified] ++ (Wrote <$> ws)) ++ [Finished]) as Hn.
  { rewrite !elem_of_app, list_elem_of_fmap. intros [[H|(x & ? & _)]|H]; [set_solver|done|set_solver]. }
  assert (exists digest, peer_digest e = Some (Some digest) /\ hex_lower digest = pin_ t) as (digest & H1 & H2).
  { unfold verify_pin in Hv. destruct (peer_digest e) as [[digest|]|]; try done.
    exists digest. split; [done|]. destruct (str_eqb (hex_lower digest) (pin_ t)) eqn:E; [|done].
    by apply str_eqb_eq. }
  destruct sent; cbn [negb]; (split; [|by intros H]);
    intros b _; (split; [done|]); exists digest; (split; [done|]); (split; [done|]);
    exists ws; by rewrite <- app_assoc.
Qed.




(** When [post] gets an answer at all, the whole request has been written,
    the batch included, as long as it is shorter than 2 GiB. *)
Theorem post_writes_whole_request (t : OpenSslTransport) (e : tls_env) (body content_type : str)
  (He : writes_within e) (Hl : len (request_text t body content_type) < 2 ^ 31)
  (Hok : ok (post t e body content_type).1 = true) :
  bytes_written (post t e body content_type).2 = request_text t body content_type.
Proof.
  revert Hok. unfold post. destruct (dial e _ _) as [m|]; [done|].
  destruct (ssl_new_error e) as [m|]; [done|]. destruct (handshake_error e) as [m|]; [done|].
  destruct (verify_pin t e) as [m|]; [done|].
  set (request := request_text t body content_type) in *.
  destruct (write_all_complete (length request) e 0 request [Dialed; Handshake; PinVerified] He Hl
    (Nat.le_refl _)) as (dn & H1 & _ & H3).
  destruct (write_all _ _ _ _ _) as [sent tr]. cbn [fst snd] in *. destruct sent; cbn [negb]; [|done].
  intros _. cbn [snd]. unfold bytes_written in *. rewrite bind_app, H1. cbn. by rewrite app_nil_r, (H3 eq_refl).
Qed.

Definition sample_digest : str := replicate 32 "171"%char.
Definition sample_transport : OpenSslTransport :=
  mkOpenSsl (mkTConfig [] [] [] [] 15000) (mkUrl (lit "https") (lit "c") 443 (lit "/in")) (hex_lower sample_digest).
Definition sample_tls : tls_env :=
  mkTls None [mkAddress true true] None None (Some (Some sample_digest)) (fun _ n => Z.min n 7) []
    [lit "HTTP/1.1 200 OK"; crlf ++ crlf].

Lemma post_writes_whole_request_witness :
  ok (post sample_transport sample_tls (lit "hello") (lit "text/plain")).1 = true /\
  bytes_written (post sample_transport sample_tls (lit "hello") (lit "text/plain")).2 =
  request_text sample_transport (lit "hello") (lit "text/plain").
Proof.
  split; [vm_compute; reflexivity|].
  apply post_writes_whole_request; [intros call n; simpl; lia|vm_compute; reflexivity..].
Defined.

(** A pin stands for one certificate: two peers that both pass the pin check
    have the same SHA-256 digest. *)
Theorem pin_identifies_digest (t : OpenSslTransport) (e e' : tls_env)
  (H : verify_pin t e = None) (H' : verify_pin t e' = None) :
  peer_digest e = peer_digest e'.
Proof.
  unfold verify_pin in *. destruct (peer_digest e) as [[d|]|], (peer_digest e') as [[d'|]|]; try done.
  destruct (str_eqb (hex_lower d) (pin_ t)) eqn:E, (str_eqb (hex_lower d') (pin_ t)) eqn:E'; try done.
  apply str_eqb_eq in E, E'. do 2 f_equal. apply hex_lower_inj. congruence.
Qed.

Lemma pin_identifies_digest_witness :
  verify_pin sample_transport sample_tls = None /\ peer_digest sample_tls = Some (Some sample_digest).
Proof.
  split; [vm_compute; reflexivity|].
  apply (pin_identifies_digest sample_transport sample_tls
    (mkTls None [] None None (Some (Some sample_digest)) (fun _ n => n) [] [])); vm_compute; reflexivity.
Defined.

(** A URL printed from a host, a port and a path is parsed back into them;
    an IPv6 literal's colons are not mistaken for the port's. *)
Theorem parse_url_roundtrip (h : str) (prt : Z) (p : str)
  (Hh : h <> []) (Hs : Forall (fun c => Ascii.eqb "/" c = false) h) (Hp : 0 <= prt < 2 ^ 31)
  (Hpath : exists r, p = "/"%char :: r) :
  parse_url (lit "https://" ++ h ++ lit ":" ++ to_string_u prt ++ p) = inl (mkUrl (lit "https") h prt p).
Proof.
  destruct Hpath as [r ->]. destruct (to_string_u_spec prt) as (Hd & _ & Hne); [lia|].
  unfold parse_url. rewrite find_sub_https.
  change (take 5 (lit "https://" ++ ?x)) with (lit "https").
  change (drop (5 + 3) (lit "https://" ++ ?x)) with x. cbn [is_https]. change (is_https (lit "https")) with true.
  cbn [negb]. set (auth := h ++ lit ":" ++ to_string_u prt).
  replace (h ++ lit ":" ++ to_string_u prt ++ "/"%char :: r) with (auth ++ "/"%char :: r)
    by (unfold auth; by rewrite <- !app_assoc).
  unfold find_char. rewrite find_first_app; [|unfold auth|done].
  2: { apply Forall_app. split; [done|]. constructor; [done|]. eapply Forall_impl; [exact Hd|].
       intros c Hc. revert Hc. by destruct c as [[] [] [] [] [] [] [] []]. }
  rewrite take_app_length, drop_app_length. unfold split_authority, auth, rfind_char.
  change (h ++ lit ":" ++ ?x) with (h ++ ":"%char :: x). rewrite find_last_app; [|done|].
  2: { eapply Forall_impl; [exact Hd|]. intros c Hc. revert Hc. by destruct c as [[] [] [] [] [] [] [] []]. }
  rewrite take_app_length, (cons_middle ":"%char h), app_assoc.
  replace (S (length h)) with (length (h ++ [":"%char])) by (rewrite length_app; simpl; lia).
  rewrite drop_app_length, bool_decide_eq_false_2 by done.
  replace (forallb isdigit (to_string_u prt)) with true
    by (symmetry; apply forallb_forall; by apply List.Forall_forall).
  cbn [negb andb]. rewrite dec_port by done. by destruct h.
Qed.

Lemma parse_url_roundtrip_witness :
  parse_url (lit "https://[::1]:8443/v1/batch") = inl (mkUrl (lit "https") (lit "[::1]") 8443 (lit "/v1/batch")).
Proof.
  exact (parse_url_roundtrip (lit "[::1]") 8443 (lit "/v1/batch") ltac:(discriminate)
    ltac:(repeat constructor) ltac:(split; reflexivity || discriminate) (ex_intro _ (lit "v1/batch") eq_refl)).
Defined.

(** Only https is ever accepted, and always with a host. *)
Theorem parse_url_only_https (url : str) (u : ParsedUrl) (H : parse_url url = inl u) :
  scheme u = lit "https" /\ url_host u <> [] /\ starts_with (lit "https://") url = true.
Proof.
  revert H. unfold parse_url. destruct (find_sub (lit "://") url) as [i|] eqn:Hi; [|done].
  destruct (is_https (take i url)) eqn:E; [|done]. cbn [negb]. unfold is_https in E. apply str_eqb_eq in E.
  destruct (match find_char "/" _ with Some _ => _ | None => _ end) as [a p].
  destruct (split_authority a) as [[|c h] prt]; [done|]. intros [= <-]. cbn [scheme url_host].
  split; [done|]. split; [done|]. apply starts_with_iff.
  destruct (proj1 (starts_with_iff _ _) (find_sub_Some _ _ _ Hi)) as [r Hr].
  exists r. by rewrite <- (take_drop i url), E, Hr.
Qed.

Lemma parse_url_only_https_witness :
  parse_url (lit "https://cloud/") = inl (mkUrl (lit "https") (lit "cloud") 443 (lit "/")) /\
  starts_with (lit "https://") (lit "https://cloud/") = true.
Proof.
  split; [reflexivity|].
  apply (parse_url_only_https _ (mkUrl (lit "https") (lit "cloud") 443 (lit "/"))). reflexivity.
Defined.

(** The backoff ceiling never exceeds the cap nor the doubled base, never
    overflows however many attempts there were, and does not shrink from one
    attempt to the next; the delay is within the ceiling. *)
Theorem backoff_bounds `{UniformInt} (g attempt base cap : Z)
  (Hb : 0 < base < 2 ^ 43) (Hc : 0 < cap) :
  0 <= backoff_delay_ms g attempt base cap <= backoff_ceiling attempt base cap /\
  backoff_ceiling attempt base cap <= cap /\
  backoff_ceiling attempt base cap <= base * 2 ^ Z.min (Z.max attempt 0) 20 /\
  backoff_ceiling attempt base cap <= backoff_ceiling (attempt + 1) base cap.
Proof.
  assert (forall a, backoff_ceiling a base cap = Z.min cap (base * 2 ^ Z.min (Z.max a 0) 20)) as Hceil.
  { intros a. unfold backoff_ceiling.
    replace (if a <? 0 then 0 else a) with (Z.max a 0) by (destruct (Z.ltb_spec a 0); lia).
    set (x := Z.min (Z.max a 0) 20). assert (0 <= x <= 20) as Hx by lia.
    pose proof (Z.pow_le_mono_r 2 x 20 ltac:(lia) ltac:(lia)) as Hp.
    pose proof (Z.pow_pos_nonneg 2 x ltac:(lia) ltac:(lia)) as Hp0.
    rewrite Z.shiftl_mul_pow2 by lia.
    assert (0 < base * 2 ^ x < 2 ^ 63) as Hr by (change (2 ^ 20) with 1048576 in Hp; nia).
    assert (i64 (base * 2 ^ x) = base * 2 ^ x) as ->.
    { unfold i64, sgn. rewrite Z.mod_small by lia. change (64 - 1) with 63.
      destruct (Z.ltb_spec (base * 2 ^ x) (2 ^ 63)); lia. }
    destruct (Z.ltb_spec cap (base * 2 ^ x)), (Z.leb_spec (base * 2 ^ x) 0); cbn; lia. }
  assert (base * 2 ^ Z.min (Z.max attempt 0) 20 <= base * 2 ^ Z.min (Z.max (attempt + 1) 0) 20) as Hm.
  { apply Z.mul_le_mono_nonneg_l; [lia|]. apply Z.pow_le_mono_r; lia. }
  assert (0 < 2 ^ Z.min (Z.max attempt 0) 20) as Hpos by (apply Z.pow_pos_nonneg; lia).
  unfold backoff_delay_ms. pose proof (uniform_range g 0 (backoff_ceiling attempt base cap)) as Hu.
  rewrite !Hceil in *. nia.
Qed.

Lemma backoff_bounds_witness :
  backoff_ceiling 1000000 1000 300000 = 300000 /\ backoff_delay_ms 12345 64 1000 300000 <= 300000.
Proof.
  split; [reflexivity|].
  etransitivity; [apply (backoff_bounds 12345 64 1000 300000); lia|].
  apply (backoff_bounds 12345 64 1000 300000); lia.
Defined.
