(* ===== verification/WinHttp.v ===== *)
(** * The WinHTTP transport (src/transport_winhttp.cpp)

    The Windows backend of the transport: the client certificate, the pin, and
    one request.  What WinHTTP and CryptoAPI answer during a request is an
    oracle, an [http_env]; the handles the request opens and closes and what it
    sends leave an event in a trace. *)
From S2P Require Import Prelude CppStd Json Log WinStr Transport.
From Stdlib Require Import Ascii.

#[local] Open Scope Z_scope.

(** [hex_lower] and [normalise_pin] are the functions of the OpenSSL backend. *)
Definition hex_lower (p : str) : str := Transport.hex_lower p.
Definition normalise_pin (pin : str) : str := Transport.normalise_pin pin.

(** ** Certificates *)

Record hash_env := mkHash {
  alg_opens : bool;            (* BCryptOpenAlgorithmProvider *)
  digest_of : str -> option str  (* BCryptHash *) }.

Definition cert_sha256 (e : hash_env) (encoded : str) : str + str :=
  if negb (alg_opens e) then inr (lit "BCryptOpenAlgorithmProvider(SHA256) failed")
  else
    match digest_of e encoded with
    | None => inr (lit "BCryptHash failed")
    | Some digest => inl (hex_lower digest)
    end.

(** A certificate of an imported bundle, with whether either private-key property
    is there. *)
Record cert := mkCert { cert_der : str; key_prov_info : bool; key_context : bool }.

Record pfx_env := mkPfx {
  pfx_file : str -> option str;
  import_store : str -> wstr -> Z -> list cert + Z  (* PFXImportCertStore: a store or an error *) }.

Definition kUserKeyset : Z := 0x1000.
Definition kNoPersistKey : Z := 0x8000.
Definition kAlwaysCng : Z := 0x200.

Definition attempts : list Z :=
  [Z.lor kUserKeyset kAlwaysCng; kUserKeyset; Z.lor kNoPersistKey kAlwaysCng].

(** The import is tried with each set of flags until one works. *)
Fixpoint try_import (import : Z -> list cert + Z) (flags : list Z) (last_error : Z) : list cert + Z :=
  match flags with
  | [] => inr last_error
  | f :: fs =>
      match import f with
      | inl store => inl store
      | inr err => try_import import fs err
      end
  end.

Definition has_key (c : cert) : bool := key_prov_info c || key_context c.

Definition load_client_pfx `{Utf16} (e : pfx_env) (path password : str) : cert + str :=
  match pfx_file e path with
  | None => inr (lit "cannot open client certificate: " ++ path)
  | Some blob =>
      match try_import (import_store e blob (widen password)) attempts 0 with
      | inr err => inr (lit "PFXImportCertStore failed for " ++ path ++ lit ", error " ++ to_string err)
      | inl store =>
          match List.find has_key store with
          | Some c => inl c
          | None => inr (lit "no certificate with an associated private key inside " ++ path)
          end
      end
  end.

(** ** The transport *)

Record WinHttpTransport := mkWinHttp {
  h_cfg : TransportConfig; h_url : ParsedUrl; h_pin : str; client_cert_ : option cert }.

Definition init `{Utf16} (e : pfx_env) (cfg : TransportConfig) (url : ParsedUrl) : WinHttpTransport + str :=
  let pin := normalise_pin (server_pin_sha256 cfg) in
  if negb (length pin =? 64)%nat then
    inr (lit "server pin must be a 64-character hex SHA-256, got " ++
         to_string (Z.of_nat (length pin)) ++ lit " characters")
  else
    match client_cert_path cfg with
    | [] => inl (mkWinHttp cfg url pin None)
    | path =>
        match load_client_pfx e path [] with
        | inr m => inr m
        | inl c => inl (mkWinHttp cfg url pin (Some c))
        end
    end.

Definition make_transport `{Utf16} (e : pfx_env) (cfg : TransportConfig) : WinHttpTransport + str :=
  match parse_url (t_url cfg) with
  | inr m => inr m
  | inl url => init e cfg url
  end.

(** One round of the loop that reads the response: what
    [WinHttpQueryDataAvailable] says, and what [WinHttpReadData] reads. *)
Record read_round := mkRound { available : option Z; data_read : option str }.

Record http_env := mkHttp {
  session_error : option Z;    (* WinHttpOpen *)
  connect_error : option Z;    (* WinHttpConnect *)
  request_error : option Z;    (* WinHttpOpenRequest *)
  attach_error : option Z;     (* WinHttpSetOption of the client certificate *)
  send_error : option Z;       (* WinHttpSendRequest: the handshake, no body *)
  server_cert : str + Z;       (* WinHttpQueryOption of the peer's certificate *)
  hashing : hash_env;
  body_error : option Z;       (* WinHttpWriteData *)
  receive_error : option Z;    (* WinHttpReceiveResponse *)
  status_code : Z;             (* what WinHttpQueryHeaders leaves in status *)
  rounds : list read_round     (* after these there is nothing available *) }.

Inductive handle := Session | Connect | Request.

#[global] Instance handle_eq_dec : EqDecision handle.
Proof. solve_decision. Defined.

Inductive http_event :=
| Opened (h : handle)
| Closed (h : handle)
| Attached (der : str)          (* the client certificate is attached to the request *)
| SentHeaders (headers : wstr) (length : Z)
| PinMatches
| PinFails
| HandedBody (bytes : str)      (* handed to WinHttpWriteData *)
| GotResponse.

Definition cleanup : list http_event := [Closed Request; Closed Connect; Closed Session].

Definition verify_pin (t : WinHttpTransport) (e : http_env) : option str :=
  match server_cert e with
  | inr err => Some (lit "could not read the server certificate, error " ++ to_string err)
  | inl der =>
      match cert_sha256 (hashing e) der with
      | inr m => Some m
      | inl actual =>
          if str_eqb actual (h_pin t) then None
          else Some (lit "server certificate pin mismatch: expected " ++ h_pin t ++ lit ", got " ++ actual)
      end
  end.

Fixpoint read_body (rs : list read_round) : str :=
  match rs with
  | [] => []
  | r :: rs' =>
      match available r with
      | None => []
      | Some n =>
          if n =? 0 then []
          else
            match data_read r with
            | None | Some [] => []
            | Some chunk => chunk ++ read_body rs'
            end
      end
  end.

(** The end of [post]: the result for a status and a body. *)
Definition status_result (status : Z) (body : str) : Result :=
  if (200 <=? status) && (status <? 300) then mkResult true status body [] false
  else mkResult false status body (lit "cloud returned HTTP " ++ to_string status)
         ((500 <=? status) || (status =? 429)).

Definition api_error (api : str) (err : Z) : str := api ++ lit " failed, error " ++ to_string err.

(** [post] once the request handle is there and the client certificate attached. *)
Definition exchange `{Utf16} (t : WinHttpTransport) (e : http_env) (body content_type : str)
    (tr : list http_event) : Result * list http_event :=
  let headers := widen (lit "Content-Type: " ++ content_type) in
  match send_error e with
  | Some err => (failed (api_error (lit "WinHttpSendRequest") err) true, tr ++ cleanup)
  | None =>
      let tr := tr ++ [SentHeaders headers (u32 (len body))] in
      match verify_pin t e with
      | Some m => (failed m false, tr ++ [PinFails] ++ cleanup)
      | None =>
          let tr := tr ++ [PinMatches] in
          let '(wrote, tr) :=
            match body with
            | [] => (None, tr)
            | _ => (body_error e, tr ++ [HandedBody (take (Z.to_nat (u32 (len body))) body)])
            end in
          match wrote with
          | Some err => (failed (api_error (lit "WinHttpWriteData") err) true, tr ++ cleanup)
          | None =>
              match receive_error e with
              | Some err => (failed (api_error (lit "WinHttpReceiveResponse") err) true, tr ++ cleanup)
              | None =>
                  (status_result (i32 (status_code e)) (read_body (rounds e)), tr ++ [GotResponse] ++ cleanup)
              end
          end
      end
  end.

Definition post `{Utf16} (t : WinHttpTransport) (e : http_env) (body content_type : str)
    : Result * list http_event :=
  match session_error e with
  | Some err => (failed (api_error (lit "WinHttpOpen") err) true, [])
  | None =>
      match connect_error e with
      | Some err => (failed (api_error (lit "WinHttpConnect") err) true, [Opened Session; Closed Session])
      | None =>
          match request_error e with
          | Some err =>
              (failed (api_error (lit "WinHttpOpenRequest") err) true,
               [Opened Session; Opened Connect; Closed Connect; Closed Session])
          | None =>
              let tr := [Opened Session; Opened Connect; Opened Request] in
              match client_cert_ t, attach_error e with
              | Some _, Some err =>
                  (failed (lit "could not attach the client certificate, error " ++ to_string err) false,
                   tr ++ cleanup)
              | Some c, None => exchange t e body content_type (tr ++ [Attached (cert_der c)])
              | None, _ => exchange t e body content_type tr
              end
          end
      end
  end.

(** ** Lemmas *)

(** The events of [exchange] between opening the handles and [cleanup]. *)
Inductive exchanged (t : WinHttpTransport) (e : http_env) (body : str) (h : http_event)
  : Result -> list http_event -> Prop :=
| ex_unsent r : ok r = false -> exchanged t e body h r []
| ex_refused r : ok r = false -> retryable r = false -> exchanged t e body h r [h; PinFails]
| ex_pinned r rest der digest :
    server_cert e = inl der -> alg_opens (hashing e) = true -> digest_of (hashing e) der = Some digest ->
    hex_lower digest = h_pin t -> send_error e = None ->
    rest = [] \/ rest = [GotResponse] ->
    exchanged t e body h r ([h; PinMatches] ++
      (match body with [] => [] | _ => [HandedBody (take (Z.to_nat (u32 (len body))) body)] end) ++ rest).

Lemma verify_pin_digest t e :
  verify_pin t e = None -> exists der digest, server_cert e = inl der /\
    alg_opens (hashing e) = true /\ digest_of (hashing e) der = Some digest /\ hex_lower digest = h_pin t.
Proof.
  unfold verify_pin, cert_sha256. destruct (server_cert e) as [der|]; [|done].
  destruct (alg_opens (hashing e)); [|done]. cbn [negb].
  destruct (digest_of (hashing e) der) as [digest|] eqn:Ed; [|done].
  destruct (str_eqb (hex_lower digest) (h_pin t)) eqn:E; [|done]. intros _.
  apply str_eqb_eq in E. eauto 6.
Qed.

Section WinHttp.
Context {HW : Utf16}.

Lemma exchange_events t e body content_type tr :
  exists h ev, (forall x, h <> Opened x /\ h <> Closed x) /\ (forall b, h <> HandedBody b) /\ h <> PinFails /\
    (exchange t e body content_type tr).2 = tr ++ ev ++ cleanup /\
    exchanged t e body h (exchange t e body content_type tr).1 ev.
Proof.
  exists (SentHeaders (widen (lit "Content-Type: " ++ content_type)) (u32 (len body))).
  unfold exchange. destruct (send_error e) as [err|] eqn:Es.
  { exists []. split_and!; try done. by constructor. }
  destruct (verify_pin t e) as [m|] eqn:Ev.
  { eexists [_; PinFails]. split_and!; try done; [|by constructor]. cbn [snd]. by rewrite <- app_assoc. }
  apply verify_pin_digest in Ev as (der & digest & H1 & H2 & H3 & H4).
  set (h := SentHeaders _ _).
  assert (forall r rest, rest = [] \/ rest = [GotResponse] -> exchanged t e body h r ([h; PinMatches] ++
      (match body with [] => [] | _ => [HandedBody (take (Z.to_nat (u32 (len body))) body)] end) ++ rest))
    as Hp by (intros; by eapply ex_pinned).
  destruct body as [|c body]; [|destruct (body_error e) as [err|]]; try destruct (receive_error e) as [err|];
    first [ solve [eexists; split_and!; [done|done|done| |apply Hp; by left]; cbn [snd app]; by rewrite <- ?app_assoc]
          | solve [eexists; split_and!; [done|done|done| |apply Hp; by right]; cbn [snd app]; by rewrite <- ?app_assoc] ].
Qed.

(** The handles of a trace, as a stack: closing one that is not the newest open
    one (or opening one twice) is an error. *)
Fixpoint run_handles (st : list handle) (tr : list http_event) : option (list handle) :=
  match tr with
  | [] => Some st
  | Opened h :: tr' => if bool_decide (h ∈ st) then None else run_handles (h :: st) tr'
  | Closed h :: tr' =>
      match st with
      | h' :: st' => if bool_decide (h = h') then run_handles st' tr' else None
      | [] => None
      end
  | _ :: tr' => run_handles st tr'
  end.

Definition handle_free (ev : http_event) : Prop := forall h, ev <> Opened h /\ ev <> Closed h.

Lemma run_handles_free st ev tr : Forall handle_free ev -> run_handles st (ev ++ tr) = run_handles st tr.
Proof.
  induction 1 as [|x ev Hx _ IH]; [done|]. destruct x as [h|h| | | | | |]; try done;
    destruct (Hx h) as [H1 H2]; congruence.
Qed.

Lemma exchanged_free t e body h r ev :
  handle_free h -> exchanged t e body h r ev -> Forall handle_free ev.
Proof.
  intros Hh. destruct 1 as [| |r rest der digest ? ? ? ? ? Hr]; [done|by repeat apply Forall_cons_2|].
  destruct Hr as [->| ->], body; by repeat apply Forall_cons_2.
Qed.

(** How [post] ends: before a request could be made, or after [exchange]. *)
Lemma post_cases t e body content_type :
  let '(r, tr) := post t e body content_type in
  (ok r = false /\ run_handles [] tr = Some [] /\ PinFails ∉ tr /\ forall b, HandedBody b ∉ tr) \/
  exists att h ev, (att = [] \/ exists der, att = [Attached der]) /\ handle_free h /\
    (forall b, h <> HandedBody b) /\ h <> PinFails /\
    tr = [Opened Session; Opened Connect; Opened Request] ++ att ++ ev ++ cleanup /\
    exchanged t e body h r ev.
Proof.
  unfold post. destruct (session_error e); [left; set_solver|].
  destruct (connect_error e); [left; set_solver|]. destruct (request_error e); [left; set_solver|].
  destruct (client_cert_ t) as [c|]; [destruct (attach_error e); [left; set_solver|]|];
    lazymatch goal with |- context [exchange _ _ _ _ ?tr] =>
      destruct (exchange_events t e body content_type tr) as (h & ev & H1 & H2 & H3 & H4 & H5);
      destruct (exchange t e body content_type tr) as [r tr'] end; cbn [fst snd] in *; right;
    [exists [Attached (cert_der c)]|exists []]; exists h, ev; split_and!; eauto; by rewrite H4.
Qed.

(** ** Properties *)

(** C13: The body of a request, which is the host's whole inventory, is handed to
    WinHTTP only after the handshake and after the SHA-256 of the peer's
    certificate was found equal to the pin; it is handed over at most once.  A
    peer that does not match gets no body and the failure is not retried. *)
Theorem body_only_to_pinned_peer (t : WinHttpTransport) (e : http_env) (body content_type : str) :
  let '(r, tr) := post t e body content_type in
  (forall b, HandedBody b ∈ tr ->
     send_error e = None /\
     (exists der digest, server_cert e = inl der /\ digest_of (hashing e) der = Some digest /\
        hex_lower digest = h_pin t) /\
     exists before after, tr = before ++ [PinMatches; HandedBody b] ++ after /\
       (forall b', HandedBody b' ∉ before ++ after)) /\
  (PinFails ∈ tr -> ok r = false /\ retryable r = false /\ forall b, HandedBody b ∉ tr).
Proof.
  pose proof (post_cases t e body content_type) as H. destruct (post t e body content_type) as [r tr].
  destruct H as [(H1 & H2 & H3 & H4)|(att & h & ev & Ha & Hh & H1 & H2 & -> & Hx)]; [set_solver|].
  assert (forall b, HandedBody b ∉ att) as Hatt by (destruct Ha as [->|[der ->]]; set_solver).
  assert (PinFails ∉ att) as Hatt' by (destruct Ha as [->|[der ->]]; set_solver).
  destruct Hx as [r Hr|r Hr Hr'|r rest der digest E1 E2 E3 E4 E5 Hr].
  - set_solver.
  - split; [set_solver|]. intros _. split_and!; [done..|set_solver].
  - assert (forall x, x ∈ rest -> x = GotResponse) as Hg by (destruct Hr as [->| ->]; set_solver).
    destruct body as [|c body]; [set_solver|]. set (hb := HandedBody _). split.
    + intros b Hb. assert (HandedBody b = hb) as Eb by (unfold hb in *; set_solver).
      split_and!; [done|by exists der, digest|]. rewrite Eb.
      exists ([Opened Session; Opened Connect; Opened Request] ++ att ++ [h]), (rest ++ cleanup).
      split; [by rewrite <- !app_assoc|]. intros b'. unfold cleanup. set_solver.
    + intros Hf. exfalso. unfold hb, cleanup in *. set_solver.
Qed.

(** Whatever fails, a request closes every handle it has opened exactly once, in
    the reverse order. *)
Theorem post_closes_handles (t : WinHttpTransport) (e : http_env) (body content_type : str) :
  run_handles [] (post t e body content_type).2 = Some [].
Proof.
  pose proof (post_cases t e body content_type) as H. destruct (post t e body content_type) as [r tr].
  destruct H as [(_ & H & _)|(att & h & ev & Ha & Hh & _ & _ & -> & Hx)]; [done|]. cbn [snd].
  rewrite (app_assoc att). cbn [app run_handles]. rewrite !bool_decide_false by set_solver.
  rewrite run_handles_free; [done|]. apply Forall_app. split; [|by eapply exchanged_free].
  destruct Ha as [->|[der ->]]; by repeat apply Forall_cons_2.
Qed.

Lemma parse_url_https url u : parse_url url = inl u -> scheme u = lit "https".
Proof.
  unfold parse_url. destruct (find_sub _ url) as [i|]; [|done].
  destruct (is_https (take i url)) eqn:E; [|done]. cbn [negb].
  destruct (match find_char _ _ with Some _ => _ | None => _ end) as [a p].
  destruct (split_authority a) as [[|c h] prt]; [done|]. intros [= <-]. by apply str_eqb_eq.
Qed.

Lemma normalise_pin_chars pin :
  Forall (fun c => tolower c = c /\ c <> ":"%char /\ c <> " "%char) (normalise_pin pin).
Proof.
  apply Forall_fmap, List.Forall_forall. intros c Hc. apply List.filter_In in Hc as [_ Hc]. bools.
  simpl. split; [apply tolower_idemp|].
  assert (forall d, code d = 58 \/ code d = 32 -> tolower c = d -> c = d) as Ht.
  { intros d Hd E. apply (f_equal code) in E. rewrite tolower_code in E. apply code_inj.
    destruct (Z.leb_spec 65 (code c)), (Z.leb_spec (code c) 90); cbn in E; lia. }
  split; intros E; apply Ht in E; [|by left| |by right]; by subst c.
Qed.

(** C35: A transport that was made speaks https only, has a pin of 64 characters in
    normal form, and has a client certificate with a private key exactly when one
    is configured. *)
Theorem make_transport_wf (e : pfx_env) (cfg : TransportConfig) (t : WinHttpTransport)
  (Hm : make_transport e cfg = inl t) :
  scheme (h_url t) = lit "https" /\ length (h_pin t) = 64%nat /\
  Forall (fun c => tolower c = c /\ c <> ":"%char /\ c <> " "%char) (h_pin t) /\
  (client_cert_ t = None <-> client_cert_path cfg = []) /\
  (forall c, client_cert_ t = Some c -> has_key c = true).
Proof.
  revert Hm. unfold make_transport. destruct (parse_url (t_url cfg)) as [u|] eqn:Eu; [|done].
  apply parse_url_https in Eu. unfold init. pose proof (normalise_pin_chars (server_pin_sha256 cfg)) as Hp.
  destruct (Nat.eqb_spec (length (normalise_pin (server_pin_sha256 cfg))) 64) as [E|]; [|done]. cbn [negb].
  destruct (client_cert_path cfg) as [|x path]; [by intros [= <-]|].
  unfold load_client_pfx. destruct (pfx_file e (x :: path)) as [blob|]; [|done].
  destruct (try_import _ _ _) as [store|]; [|done].
  destruct (List.find has_key store) as [c|] eqn:Ef; [|done]. intros [= <-]. split_and!; try done.
  intros c' [= <-]. by apply List.find_some in Ef as [_ Ef].
Qed.

(** ** The same answer as the OpenSSL backend *)












End WinHttp.

(** ** A request, evaluated *)




Definition sample_pfx : pfx_env :=
  mkPfx (fun _ => Some (lit "bundle"))
    (fun _ _ flags => if flags =? kUserKeyset then inl [mkCert (lit "ca") false false; mkCert (lit "leaf") true false]
                      else inr 5).

Definition sample_cfg : TransportConfig :=
  mkTConfig (lit "https://cloud/in") (lit "c.pfx") []
    (lit "AB:" ++ hex_lower (replicate 31 "171"%char)) 15000.

Lemma make_transport_wf_witness :
  exists t, make_transport sample_pfx sample_cfg = inl t /\ length (h_pin t) = 64%nat /\
    client_cert_ t = Some (mkCert (lit "leaf") true false).
Proof.
  destruct (make_transport sample_pfx sample_cfg) as [t|] eqn:E; [|vm_compute in E; discriminate].
  exists t. split; [reflexivity|]. split; [apply (make_transport_wf sample_pfx sample_cfg t E)|].
  vm_compute in E. injection E as <-. reflexivity.
Defined.
