(* ===== verification/Reporter.v ===== *)
(** * The reporter (src/main.cpp: make_record, read_first_line, struct Reporter)

    Collecting into the spool and draining it through a transport.  The world
    outside (the cloud behind the transport, the clock, the random generator, the
    stop flag set by a signal) is an abstract state [W] with the operations of
    [World]; the transport is used through its interface only.  The file system
    refuses nothing here ([io_ok]); its refusals are covered with the spool.  The
    loop of [drain] has no bound of its own: [drain] takes fuel and returns
    [None] when it runs out. *)
From S2P Require Import Prelude CppStd Json Log Inventory Frame Algorithms.
From S2P Require Import Spool SpoolLemmas SpoolQueue SpoolSpec Transport.
From Stdlib Require Import Ascii.

#[local] Open Scope Z_scope.

(** ** Records and batches *)

Definition dq : str := [quote].

Definition make_record (id type payload_json : str) : str :=
  lit "{" ++ dq ++ lit "id" ++ dq ++ lit ":" ++ dq ++ json_escape id ++ dq ++ lit "," ++
  dq ++ lit "type" ++ dq ++ lit ":" ++ dq ++ json_escape type ++ dq ++ lit "," ++
  dq ++ lit "payload" ++ dq ++ lit ":" ++ payload_json ++ lit "}".

(** The loop that puts a comma before every payload but the first. *)
Fixpoint batch_items (first : bool) (ps : list str) : str :=
  match ps with
  | [] => []
  | p :: ps' => (if first then [] else lit ",") ++ p ++ batch_items false ps'
  end.

Definition batch_body (ps : list str) : str :=
  lit "{" ++ dq ++ lit "records" ++ dq ++ lit ":[" ++ batch_items true ps ++ lit "]}".

(** [read_first_line]: a missing file gives an empty line. *)
Fixpoint strip_eol (rev_line : str) : str :=
  match rev_line with
  | c :: r => if Ascii.eqb c "013" || Ascii.eqb c nl then strip_eol r else rev_line
  | [] => []
  end.

Definition read_first_line (file : option str) : str :=
  match file with
  | None => []
  | Some text =>
      match getlines nl text with
      | [] => []
      | line :: _ => rev (strip_eol (rev line))
      end
  end.

(** ** Options of [report] *)

Record Options := mkOptions {
  pretty_ : bool; index_path : str; alias_path : str; packages_path : str;
  o_url : str; client_cert : str; client_key : str; pin : str; pin_file : str; spool_dir : str;
  spool_max_bytes : Z; batch_size : Z; max_attempts : Z; synthetic : Z; drain_only : bool;
  interval_s : Z; db : str; state_dir : str; log_file : str; pipe : str; fault : str;
  hang_timeout_s : Z }.

(** ** The world *)

Class World (W : Type) := {
  w_post : str -> str -> W -> Result * W;     (* transport->post *)
  w_backend : str;                            (* transport->backend_name *)
  w_stop : W -> bool * W;                     (* service::stop_requested *)
  w_draw : W -> Z * W;                        (* the generator behind the backoff *)
  w_sleep : Z -> W -> W;
  w_now : W -> Z * W                          (* unix_time_ms *)
}.

Record Reporter := mkReporter { spool : Spool; opt : Options; run_tag : str }.

Section Reporter.
Context {W : Type} {HW : World W} {HUni : UniformInt} {HS : StdSort} {HU : UnorderedIter}.

(** [sleep_interruptible]: the slices still to wait; [ms] is a delay, so it is
    at most the cap and its number of slices bounds the loop. *)
Fixpoint sleep_slices (fuel : nat) (ms waited : Z) (w : W) : W :=
  match fuel with
  | O => w
  | S f =>
      if waited <? ms then
        let '(stop, w) := w_stop w in
        if stop then w
        else
          let chunk := if ms - waited <? 200 then ms - waited else 200 in
          sleep_slices f ms (waited + 200) (w_sleep chunk w)
      else w
  end.

Definition sleep_interruptible (ms : Z) (w : W) : W := sleep_slices (Z.to_nat (ms / 200 + 1)) ms 0 w.

(** [%08x%08x] of two 32-bit numbers. *)
Definition hex8 (z : Z) : str :=
  (fun i => hex_char (Z.land (Z.shiftr z (4 * i)) 15)) <$> [7; 6; 5; 4; 3; 2; 1; 0].

(** [init]: the pin, the spool, the transport (whose construction is an argument),
    the tag from two draws of [std::random_device]. *)
Definition reporter_init (o : Options) (pin_text : option str) (s : Spool)
    (make : TransportConfig -> option str) (r1 r2 : Z) : Reporter + str * Spool :=
  let p := match pin o with
           | [] => match pin_file o with [] => [] | _ => read_first_line pin_text end
           | q => q
           end in
  match p with
  | [] => inr (lit "report needs --pin or --pin-file", s)
  | _ =>
      let scfg := mkConfig (spool_dir o) (spool_max_bytes o) (u64 (spool_max_bytes o / 8 + 1)) false in
      let '(opened, s, err) := open io_ok scfg s in
      if negb opened then inr (default [] err, s)
      else
        match make (mkTConfig (o_url o) (client_cert o) (client_key o) p 15000) with
        | Some err => inr (err, s)
        | None => inl (mkReporter s o (hex8 (u32 r1) ++ hex8 (u32 r2)))
        end
  end.

Definition with_spool (r : Reporter) (s : Spool) : Reporter := mkReporter s (opt r) (run_tag r).

Definition synthetic_payload (i now : Z) : str :=
  document false [field_i64 (lit "n") i; field_i64 (lit "ts") now].

Definition synthetic_record (r : Reporter) (now i : Z) : str :=
  make_record (lit "synthetic-" ++ run_tag r ++ lit "-" ++ to_string now ++ lit "-" ++ to_string i)
    (lit "synthetic") (synthetic_payload i now).

(** The loop of [collect] for synthetic records: the ids still to append. *)
Fixpoint append_all (r : Reporter) (records : list str) : bool * Reporter * option str :=
  match records with
  | [] => (true, r, None)
  | rec :: rest =>
      let '(okb, s, err) := append io_ok (spool r) rec in
      if negb okb then (false, with_spool r s, err) else append_all (with_spool r s) rest
  end.

Definition append_inventory (r : Reporter) (inv : Inventory) (w : W) : bool * Reporter * option str * W :=
  let '(now, w) := w_now w in
  let id := hostname (host inv) ++ lit "-" ++ run_tag r ++ lit "-" ++ to_string now ++ lit "-inventory" in
  let '(okb, s, err) := append io_ok (spool r) (make_record id (lit "inventory") (to_json inv false)) in
  (okb, with_spool r s, err, w).

(** [collect]: [inv] is what [collect_inventory] returns. *)
Definition collect (r : Reporter) (inv : Inventory) (w : W) : bool * Reporter * option str * W :=
  let '(now, w) := w_now w in
  if 0 <? synthetic (opt r) then
    let '(okb, r, err) :=
      append_all r (synthetic_record r now <$> (Z.of_nat <$> List.seq 0 (Z.to_nat (synthetic (opt r))))) in
    (okb, r, err, w)
  else append_inventory r inv w.

(** ** Draining *)

Record DrainResult := mkDrain { sent : Z; gave_up : bool }.

(** How one round of the loop ends. *)
Inductive round :=
| Done (s : Spool) (d : DrainResult) (w : W) (logs : list log_call)
| Again (s : Spool) (d : DrainResult) (attempt : Z) (w : W) (logs : list log_call).

Definition drain_round (o : Options) (s : Spool) (d : DrainResult) (attempt : Z) (w : W)
    (logs : list log_call) : round :=
  let '(stop, w) := w_stop w in
  if stop then Done s d w logs
  else
    let batch := (peek io_ok s (batch_size o)).1 in
    match batch with
    | [] => Done s d w logs
    | _ =>
        let '(result, w) := w_post (batch_body (payload <$> batch)) (lit "application/json") w in
        if ok result then
          let '(committed_ok, s, err) := commit io_ok s (Z.of_nat (length batch)) in
          if negb committed_ok then
            Done s (mkDrain (sent d) true) w
              (logs ++ [(Error, lit "spool commit failed", [(lit "error", default [] err)])])
          else Again s (mkDrain (u64 (sent d + Z.of_nat (length batch))) (gave_up d)) 0 w logs
        else if negb (retryable result) then
          Done s (mkDrain (sent d) true) w
            (logs ++ [(Error, lit "permanent send failure; records stay spooled",
               [(lit "error", r_error result); (lit "http_status", to_string (http_status result))])])
        else
          let attempt := attempt + 1 in
          if max_attempts o <=? attempt then
            Done s (mkDrain (sent d) true) w
              (logs ++ [(Warn, lit "giving up for this cycle; records stay spooled",
                 [(lit "attempts", to_string attempt); (lit "error", r_error result)])])
          else
            let '(g, w) := w_draw w in
            let delay := backoff_delay_ms g attempt 1000 300000 in
            let logs := logs ++ [(Warn, lit "send failed, backing off",
              [(lit "attempt", to_string attempt); (lit "delay_ms", to_string delay);
               (lit "error", r_error result)])] in
            Again s d attempt (sleep_interruptible delay w) logs
    end.

Fixpoint drain_loop (fuel : nat) (o : Options) (s : Spool) (d : DrainResult) (attempt : Z) (w : W)
    (logs : list log_call) : option (Spool * DrainResult * W * list log_call) :=
  match fuel with
  | O => None
  | S f =>
      match drain_round o s d attempt w logs with
      | Done s d w logs => Some (s, d, w, logs)
      | Again s d attempt w logs => drain_loop f o s d attempt w logs
      end
  end.

Definition drain (fuel : nat) (r : Reporter) (w : W)
    : option (Reporter * DrainResult * W * list log_call) :=
  match drain_loop fuel (opt r) (spool r) (mkDrain 0 false) 0 w [] with
  | Some (s, d, w, logs) => Some (with_spool r s, d, w, logs)
  | None => None
  end.

(** [print_stats]: the line on standard output. *)
Definition stats_body (backend : str) (d : DrainResult) (st : Stats) : list op :=
  [field_str (lit "backend") backend;
   field_i64 (lit "sent") (sent d);
   field_i64 (lit "pending") (st_pending st);
   field_i64 (lit "appended") (appended st);
   field_i64 (lit "committed") (committed st);
   field_i64 (lit "dropped") (dropped st);
   field_i64 (lit "bytes_on_disk") (bytes_on_disk st);
   field_bool (lit "gave_up") (gave_up d)].

Definition print_stats (r : Reporter) (d : DrainResult) (p : bool) : str * Reporter :=
  let '(st, s) := stats io_ok (spool r) in
  (document p (stats_body w_backend d st) ++ [nl], with_spool r s).

(** The exit code of [report] once the reporter runs. *)
Definition report_exit (d : DrainResult) : Z := if gave_up d && (sent d =? 0) then 1 else 0.

End Reporter.

(** ** Records and batches as JSON *)

Lemma items_compact d d' b l : items false d b l = items false d' b l.
Proof. revert b. induction l as [|x l IH]; intros b; [done|]. simpl. by rewrite IH. Qed.

Lemma wrap_compact d d' o c l : wrap false d o c l = wrap false d' o c l.
Proof. unfold wrap. rewrite (items_compact _ (S d')). by destruct l. Qed.

(** Compact text does not depend on the nesting depth. *)
Lemma render_compact d d' v : render false d v = render false d' v.
Proof.
  revert d d'. induction v as [s|raw|b| |ms IH|vs IH] using jval_rect_nested; intros d d'; try done.
  - rewrite !render_obj, (wrap_compact d d'). f_equal. rewrite <- !list_fmap_compose.
    apply list_fmap_ext. intros i [k x] Hi. simpl. rewrite Forall_forall in IH.
    do 2 f_equal. f_equal. apply (IH (k, x)). by apply list_elem_of_lookup_2 in Hi.
  - rewrite !render_arr, (wrap_compact d d'). f_equal. rewrite <- !list_fmap_compose.
    apply list_fmap_ext. intros i x Hi. simpl. rewrite Forall_forall in IH.
    apply IH. by apply list_elem_of_lookup_2 in Hi.
Qed.

Definition record_tree (id type : str) (v : jval) : jval :=
  JObj [(lit "id", JStr id); (lit "type", JStr type); (lit "payload", v)].

Lemma make_record_render id type v :
  make_record id type (render false 0 v) = render false 0 (record_tree id type v).
Proof.
  unfold record_tree. rewrite render_obj. unfold wrap. cbn [fmap list_fmap uncurry member items].
  unfold member, render_entry. rewrite (render_compact 1 0 v). unfold make_record, dq, colon, break.
  cbn [render]. unfold quoted. app_norm. done.
Qed.

Lemma batch_items_render vs b :
  batch_items b (render false 0 <$> vs) = items false 2 b (render_entry false 2 <$> (elem <$> vs)).
Proof.
  revert b. induction vs as [|v vs IH]; intros b; [done|].
  rewrite !fmap_cons. cbn [batch_items items break]. rewrite IH. unfold elem at 2, render_entry at 2.
  by rewrite (render_compact 2 0 v).
Qed.

Lemma batch_body_render vs :
  batch_body (render false 0 <$> vs) = render false 0 (JObj [(lit "records", JArr vs)]).
Proof.
  unfold batch_body. rewrite batch_items_render, render_obj. unfold wrap at 1.
  cbn [fmap list_fmap uncurry member items break app]. unfold member, render_entry at 2.
  rewrite render_arr. unfold wrap, quoted, dq, colon. cbn [break].
  replace (match _ with [] => [] | _ => [] end) with (@nil byte) by by destruct (render_entry false 2 <$> _).
  cbn [app lit String.list_ascii_of_string]. app_norm. done.
Qed.

(** ** The loop *)

(** A world that remembers the bodies the cloud has acknowledged. *)
#[global] Instance traced_world {W} (HW : World W) : World (W * list str) := {
  w_post body ct '(w, acked) :=
    let '(r, w) := w_post body ct w in (r, (w, if ok r then acked ++ [body] else acked));
  w_backend := w_backend;
  w_stop '(w, acked) := let '(b, w) := w_stop w in (b, (w, acked));
  w_draw '(w, acked) := let '(g, w) := w_draw w in (g, (w, acked));
  w_sleep ms '(w, acked) := (w_sleep ms w, acked);
  w_now '(w, acked) := let '(n, w) := w_now w in (n, (w, acked))
}.

(** What holds of the spool between two rounds. *)
Definition sound (s : Spool) (q : list str) : Prop :=
  exists done cur later, rep s done cur later /\ queue cur later = q /\ counted s q /\
    open_ s = true /\ 0 <= committed (stats_ s) /\
    committed (stats_ s) + Z.of_nat (length q) < 2 ^ 64.

Lemma peek_sound s q n : sound s q -> (peek io_ok s n).1 = number 0 (take (Z.to_nat n) q).
Proof. intros (d & c & l & R & <- & _). by rewrite (peek_rep _ _ _ _ _ _ io_ok_readable R). Qed.

(** A commit of a batch that was peeked releases that batch or nothing. *)
Lemma commit_sound s q n :
  sound s q -> (n <= length q)%nat -> (0 < n)%nat ->
  exists s' k, commit io_ok s (Z.of_nat n) = (true, s', None) /\ sound s' (drop k q) /\
    (k = 0 \/ k = n)%nat.
Proof.
  intros (d & c & l & R & <- & Hc & Ho & Hc0 & Hc1) Hn Hpos.
  destruct (commit_cases s d c l (Z.of_nat n) R Hc Ho ltac:(lia) ltac:(lia))
    as (s' & E & _ & Hset & _ & _ & k & d' & c' & l' & R' & Hc' & Hq & Hcm & Hk & Hl1 & Hl2).
  injection Hset as G1 G2 G3. exists s', k. split; [done|]. split.
  - exists d', c', l'. rewrite Hcm, u64_small by lia. rewrite Hq in Hc'.
    split_and!; try done; [congruence|lia|]. rewrite length_drop. lia.
  - destruct (decide (c = [])) as [Ec|Ec]; [left; by apply Hl2|right]. specialize (Hl1 Ec). lia.
Qed.

Section Drain.
Context {W : Type} {HW : World W} {HUni : UniformInt}.

(** Appending to the acknowledged list is all the trace does when sleeping. *)
Lemma sleep_slices_trace fuel ms waited w acked :
  exists w', sleep_slices (HW := traced_world HW) fuel ms waited (w, acked) = (w', acked).
Proof.
  revert waited w. induction fuel as [|f IH]; intros waited w; simpl; [by exists w|].
  destruct (waited <? ms); [|by exists w]. destruct (w_stop w) as [b w1].
  destruct b; [by exists w1|]. apply IH.
Qed.

Lemma sleep_trace ms w acked :
  exists w', sleep_interruptible (HW := traced_world HW) ms (w, acked) = (w', acked).
Proof. apply sleep_slices_trace. Qed.

Definition round_spool (r : round (W := W * list str)) : Spool :=
  match r with Done s _ _ _ => s | Again s _ _ _ _ => s end.
Definition round_acked (r : round (W := W * list str)) : list str :=
  match r with Done _ _ w _ => w.2 | Again _ _ _ w _ => w.2 end.

(** One round acknowledges at most one batch, the oldest records, and releases
    that batch or nothing. *)
Lemma round_release o s q d attempt w acked logs :
  sound s q ->
  let r := drain_round (HW := traced_world HW) o s d attempt (w, acked) logs in
  exists b new, round_acked r = acked ++ new /\ q = b ++ drop (length b) q /\
    sound (round_spool r) (drop (length b) q) /\ (b = [] \/ new = [batch_body b]).
Proof.
  intros Hs. assert (forall s', sound s' q -> exists b : list str, q = b ++ drop (length b) q /\
    sound s' (drop (length b) q) /\ b = []) as Hnone by (intros s' H; exists []; done).
  unfold drain_round. cbn [w_stop traced_world]. destruct (w_stop w) as [stop w1]. destruct stop.
  { destruct (Hnone s Hs) as (b & ? & ? & ?). exists b, []. rewrite app_nil_r. auto. }
  rewrite (peek_sound _ _ _ Hs). set (batch := take (Z.to_nat (batch_size o)) q).
  destruct (number 0 batch) as [|rec recs] eqn:Eb.
  { destruct (Hnone s Hs) as (b & ? & ? & ?). exists b, []. rewrite app_nil_r. auto. }
  rewrite <- Eb, number_payload, number_length. cbn [w_post traced_world].
  destruct (w_post (batch_body batch) (lit "application/json") w1) as [res w2].
  assert (0 < length batch)%nat as Hpos by (rewrite <- (number_length 0), Eb; simpl; lia).
  destruct (ok res).
  - destruct (commit_sound s q (length batch) Hs) as (s' & k & -> & Hs' & Hk);
      [unfold batch; rewrite length_take; lia|done|]. cbn [negb].
    destruct Hk as [->| ->].
    + exists [], [batch_body batch]. by split_and!; [..|left].
    + exists batch, [batch_body batch]. split_and!; [done| |done|by right].
      unfold batch. rewrite length_take. symmetry. 
      destruct (Nat.le_gt_cases (Z.to_nat (batch_size o)) (length q)).
      * rewrite Nat.min_l by lia. apply take_drop.
      * rewrite Nat.min_r, drop_all, app_nil_r by lia. apply take_ge. lia.
  - destruct (Hnone s Hs) as (b & ? & ? & ?).
    destruct (retryable res); cbn [negb]; [|exists b, []; rewrite app_nil_r; auto].
    destruct (max_attempts o <=? attempt + 1); [exists b, []; rewrite app_nil_r; auto|].
    cbn [w_draw traced_world]. destruct (w_draw w2) as [g w3].
    destruct (sleep_trace (backoff_delay_ms g (attempt + 1) 1000 300000) w3 acked) as [w4 E].
    rewrite E. exists b, []. rewrite app_nil_r. auto.
Qed.

Lemma drain_release fuel o s q d attempt w acked logs s' d' w' logs' :
  sound s q ->
  drain_loop (HW := traced_world HW) fuel o s d attempt (w, acked) logs = Some (s', d', w', logs') ->
  exists batches new q', w'.2 = acked ++ new /\ (batch_body <$> batches) `sublist_of` new /\
    q = concat batches ++ q' /\ sound s' q'.
Proof.
  revert s q d attempt w acked logs. induction fuel as [|f IH]; intros s q d attempt w acked logs Hs H; [done|].
  cbn [drain_loop] in H. destruct (round_release o s q d attempt w acked logs Hs) as (b & new & Ha & Eq & Hs1 & Hb).
  destruct (drain_round o s d attempt (w, acked) logs) as [s1 d1 w1 l1|s1 d1 a1 [w1 ac1] l1];
    cbn [round_acked round_spool snd] in *.
  - simplify_eq. destruct Hb as [->|Hb].
    + exists [], new, q. split_and!; [done|apply sublist_nil_l|done|done].
    + exists [b], new, (drop (length b) q). simpl. rewrite app_nil_r. split_and!; [done|by rewrite Hb|done|done].
  - subst ac1. destruct (IH _ _ _ _ _ _ _ Hs1 H) as (bs & new2 & q' & H1 & H2 & H3 & H4).
    destruct Hb as [->|Hb].
    + exists bs, (new ++ new2), q'. split_and!; [by rewrite app_assoc| |done|done].
      by apply sublist_inserts_l.
    + exists (b :: bs), (new ++ new2), q'. split_and!; [by rewrite app_assoc| | |done].
      * rewrite Hb. simpl. by constructor.
      * rewrite Eq, H3. simpl. by rewrite app_assoc.
Qed.
End Drain.

(** ** A cloud that always answers the same way *)

Definition never_stops {W} (HW : World W) : Prop := forall w, (w_stop w).1 = false.
Definition always_accepts {W} (HW : World W) : Prop := forall b c w, ok (w_post b c w).1 = true.

(** A commit within the last segment. *)
Lemma commit_single s done cur n :
  rep s done cur [] -> counted s cur -> open_ s = true -> 0 <= committed (stats_ s) < 2 ^ 64 ->
  (0 < n <= length cur)%nat ->
  exists s', commit io_ok s (Z.of_nat n) = (true, s', None) /\
    rep s' (done ++ take n cur) (drop n cur) [] /\ counted s' (drop n cur) /\ open_ s' = true /\
    committed (stats_ s') = u64 (committed (stats_ s) + Z.of_nat n).
Proof.
  intros R Hc Ho Hcm Hn. assert (queue cur [] = cur) as Eq by (unfold queue; simpl; by rewrite app_nil_r).
  unfold commit. rewrite Ho. cbn [negb]. destruct (Z.eqb_spec (Z.of_nat n) 0); [lia|].
  pose proof (rep_segs _ _ _ _ R) as Hs. destruct (segments_ s) as [|id ids] eqn:Es.
  { destruct Hs as (_ & -> & _). simpl in Hn. lia. }
  rewrite (commit_loop_step _ s id ids done cur [] (Z.of_nat n) R Es) by lia.
  destruct (Z.leb_spec (Z.of_nat n) (Z.of_nat (length cur))); [|lia].
  rewrite Nat2Z.id, Nat.min_l by lia. rewrite <- Eq in Hc.
  destruct (passed_rep s id ids done cur [] n R Es Hc Hcm ltac:(lia)) as (R1 & Hc1 & Hcm1 & _).
  destruct (save_state_rep _ _ _ _ R1) as (s' & -> & R' & _ & _ & Hsame).
  injection Hsame as E1 E2 E3 E4 E5 E6 E7.
  exists s'. split; [done|]. split; [done|]. split; [|split].
  - etrans; [exact (f_equal st_pending E7)|]. etrans; [exact Hc1|].
    unfold queue. simpl. by rewrite app_nil_r.
  - by rewrite E2.
  - etrans; [exact (f_equal committed E7)|]. exact Hcm1.
Qed.

Section Answers.
Context {W : Type} {HW : World W} {HUni : UniformInt}.

(** The round on a non-empty queue, with the stop flag clear. *)
Lemma round_unfold o s q d attempt w logs :
  never_stops HW -> sound s q -> q <> [] -> 0 < batch_size o ->
  let batch := take (Z.to_nat (batch_size o)) q in
  exists w1, w_stop w = (false, w1) /\ drain_round o s d attempt w logs =
    let '(result, w) := w_post (batch_body batch) (lit "application/json") w1 in
    if ok result then
      let '(committed_ok, s, err) := commit io_ok s (Z.of_nat (length batch)) in
      if negb committed_ok then
        Done s (mkDrain (sent d) true) w
          (logs ++ [(Error, lit "spool commit failed", [(lit "error", default [] err)])])
      else Again s (mkDrain (u64 (sent d + Z.of_nat (length batch))) (gave_up d)) 0 w logs
    else if negb (retryable result) then
      Done s (mkDrain (sent d) true) w
        (logs ++ [(Error, lit "permanent send failure; records stay spooled",
           [(lit "error", r_error result); (lit "http_status", to_string (http_status result))])])
    else
      let attempt := attempt + 1 in
      if max_attempts o <=? attempt then
        Done s (mkDrain (sent d) true) w
          (logs ++ [(Warn, lit "giving up for this cycle; records stay spooled",
             [(lit "attempts", to_string attempt); (lit "error", r_error result)])])
      else
        let '(g, w) := w_draw w in
        let delay := backoff_delay_ms g attempt 1000 300000 in
        Again s d attempt (sleep_interruptible delay w)
          (logs ++ [(Warn, lit "send failed, backing off",
            [(lit "attempt", to_string attempt); (lit "delay_ms", to_string delay);
             (lit "error", r_error result)])]).
Proof.
  intros Hstop Hs Hne Hb batch. unfold drain_round. pose proof (Hstop w) as Hw.
  destruct (w_stop w) as [stop w1]. simpl in Hw. subst stop. exists w1. split; [done|].
  rewrite (peek_sound _ _ _ Hs). fold batch.
  assert (batch <> []) as Hbne.
  { unfold batch. destruct q; [done|]. destruct (Z.to_nat (batch_size o)) eqn:E; [lia|done]. }
  destruct (number 0 batch) as [|rec recs] eqn:En; [by destruct batch|].
  by rewrite <- En, number_payload, number_length.
Qed.

Lemma drain_empty o s d attempt w logs :
  never_stops HW -> sound s [] ->
  exists w', w_stop w = (false, w') /\ drain_round o s d attempt w logs = Done s d w' logs.
Proof.
  intros Hstop Hs. unfold drain_round. pose proof (Hstop w) as Hw.
  destruct (w_stop w) as [stop w1]. simpl in Hw. subst stop. exists w1. split; [done|].
  by rewrite (peek_sound _ _ _ Hs), take_nil.
Qed.

Lemma drain_stall o fuel s done later d attempt w logs :
  never_stops HW -> always_accepts HW -> 0 < batch_size o ->
  rep s done [] later -> queue [] later <> [] -> counted s (queue [] later) -> open_ s = true ->
  0 <= committed (stats_ s) -> committed (stats_ s) + Z.of_nat (length (queue [] later)) < 2 ^ 64 ->
  drain_loop fuel o s d attempt w logs = None.
Proof.
  intros Hstop Hacc Hb. revert s d attempt w logs.
  induction fuel as [|fuel IH]; intros s d attempt w logs R Hq Hc Ho Hc0 Hcm; [done|].
  assert (sound s (queue [] later)) as Hs by (exists done, [], later; by split_and!). cbn [drain_loop].
  destruct (round_unfold o s _ d attempt w logs Hstop Hs Hq Hb) as (w1 & _ & ->).
  set (batch := take (Z.to_nat (batch_size o)) (queue [] later)).
  pose proof (Hacc (batch_body batch) (lit "application/json") w1) as Ha.
  destruct (w_post _ _ w1) as [res w2]. simpl in Ha. rewrite Ha.
  assert (0 < Z.of_nat (length batch)) as Hn.
  { unfold batch. rewrite length_take. destruct (queue [] later); [done|]. simpl. lia. }
  unfold commit. rewrite Ho. cbn [negb]. destruct (Z.eqb_spec (Z.of_nat (length batch)) 0); [lia|].
  rewrite (commit_loop_stall _ _ _ _ _ R Hn).
  destruct (save_state_rep s done [] later R) as (s' & -> & R' & _ & _ & Hsame).
  injection Hsame as E1 E2 E3 E4 E5 E6 E7. cbn [negb]. unfold counted in *.
  apply IH; try done; [by rewrite E7|congruence|by rewrite E7|by rewrite E7].
Qed.

End Answers.

(** A world that remembers every post: the body and its content type. *)
Definition recorded_world {W} (HW : World W) : World (W * list (str * str)) := {|
  w_post body ct '(w, posts) := let '(r, w) := w_post body ct w in (r, (w, posts ++ [(body, ct)]));
  w_backend := w_backend;
  w_stop '(w, posts) := let '(b, w) := w_stop w in (b, (w, posts));
  w_draw '(w, posts) := let '(g, w) := w_draw w in (g, (w, posts));
  w_sleep ms '(w, posts) := (w_sleep ms w, posts);
  w_now '(w, posts) := let '(n, w) := w_now w in (n, (w, posts))
|}.

Definition json_post (b : list str) : str * str := (batch_body b, lit "application/json").

Section Posts.
Context {W : Type} {HW : World W} {HUni : UniformInt}.

Lemma recorded_stops : never_stops HW -> never_stops (recorded_world HW).
Proof. intros H [w posts]. cbn. specialize (H w). by destruct (w_stop w). Qed.

Lemma recorded_stop w posts b w1 :
  w_stop (World := recorded_world HW) (w, posts) = (b, w1) -> exists w2, w1 = (w2, posts).
Proof. cbn. destruct (w_stop w) as [b' w2]. intros. simplify_eq. by exists w2. Qed.


(** The batches of a drain that is never refused: consecutive, none empty, none
    larger than the batch size and all but the last of exactly that size. *)
Definition batches_of (n : nat) (q : list str) (bs : list (list str)) : Prop :=
  concat bs = q /\ Forall (fun b => 0 < length b <= n)%nat bs /\
  forall i b, bs !! i = Some b -> (S i < length bs)%nat -> length b = n.

Lemma batches_cons n q bs :
  (0 < n)%nat -> q <> [] -> batches_of n (drop n q) bs -> batches_of n q (take n q :: bs).
Proof.
  intros Hn Hq (H1 & H2 & H3). split_and!.
  - simpl. by rewrite H1, take_drop.
  - constructor; [|done]. rewrite length_take. destruct q; [done|]. simpl. lia.
  - intros [|i] b Hi Hl; simpl in Hi, Hl; [simplify_eq|apply (H3 i b Hi); lia].
    destruct bs as [|b bs]; [simpl in Hl; lia|]. apply Forall_cons_iff in H2 as [Hb _].
    simpl in H1. apply (f_equal length) in H1. rewrite length_app, length_drop in H1.
    rewrite length_take. lia.
Qed.

Lemma drain_all o fuel s done cur d attempt w posts logs :
  never_stops HW -> always_accepts HW -> 0 < batch_size o ->
  rep s done cur [] -> counted s cur -> open_ s = true -> 0 <= committed (stats_ s) ->
  committed (stats_ s) + Z.of_nat (length cur) < 2 ^ 64 ->
  0 <= sent d -> sent d + Z.of_nat (length cur) < 2 ^ 64 -> (length cur < fuel)%nat ->
  exists s' done' w' bs, drain_loop (HW := recorded_world HW) fuel o s d attempt (w, posts) logs =
      Some (s', mkDrain (sent d + Z.of_nat (length cur)) (gave_up d), (w', posts ++ (json_post <$> bs)), logs) /\
    batches_of (Z.to_nat (batch_size o)) cur bs /\
    rep s' done' [] [] /\ committed (stats_ s') = committed (stats_ s) + Z.of_nat (length cur).
Proof.
  intros Hstop Hacc Hb. apply recorded_stops in Hstop. revert s done cur d attempt w posts logs.
  induction fuel as [|fuel IH]; intros s done cur d attempt w posts logs R Hc Ho Hc0 Hcm Hs0 Hsent Hf; [lia|].
  assert (queue cur [] = cur) as Eq by (unfold queue; simpl; by rewrite app_nil_r).
  assert (sound s cur) as Hs by (exists done, cur, []; by split_and!). cbn [drain_loop].
  destruct (decide (cur = [])) as [->|Hne].
  { destruct (drain_empty (HW := recorded_world HW) o s d attempt (w, posts) logs Hstop Hs) as (w' & Ew & ->).
    apply recorded_stop in Ew as [w2 ->]. exists s, done, w2, [].
    simpl. rewrite !Z.add_0_r, app_nil_r. destruct d. by split_and!. }
  destruct (round_unfold (HW := recorded_world HW) o s cur d attempt (w, posts) logs Hstop Hs Hne Hb) as (w1 & Ew & ->).
  apply recorded_stop in Ew as [w2 ->].
  set (batch := take (Z.to_nat (batch_size o)) cur).
  pose proof (Hacc (batch_body batch) (lit "application/json") w2) as Ha.
  cbn [w_post recorded_world]. destruct (w_post _ _ w2) as [res w3]. cbn [fst] in Ha. cbn iota beta zeta.
  rewrite Ha. set (n := length batch). assert (0 < n <= length cur)%nat as Hn.
  { unfold n, batch. rewrite length_take. destruct cur; [done|]. simpl. lia. }
  destruct (commit_single s done cur n R Hc Ho ltac:(lia) Hn) as (s' & -> & R' & Hc' & Ho' & Hcm').
  cbn [negb]. rewrite u64_small in Hcm' by lia. rewrite u64_small by lia.
  destruct (IH s' (done ++ take n cur) (drop n cur)
    (mkDrain (sent d + Z.of_nat n) (gave_up d)) 0 w3 (posts ++ [json_post batch]) logs R' Hc' Ho')
    as (s2 & done2 & w4 & bs & E & Hbs & R2 & Hcm2); try (cbn [sent]; rewrite ?length_drop; lia).
  exists s2, done2, w4, (batch :: bs). rewrite Hcm2, Hcm', length_drop. split_and!; [|..|done|lia].
  - etrans; [exact E|]. cbn [sent gave_up]. rewrite length_drop, <- app_assoc. cbn [app fmap list_fmap].
    replace (sent d + Z.of_nat n + Z.of_nat (length cur - n)) with (sent d + Z.of_nat (length cur)) by lia. done.
  - apply batches_cons; [lia|done|]. replace (drop (Z.to_nat (batch_size o)) cur) with (drop n cur); [done|].
    unfold n, batch. rewrite length_take. destruct (Nat.le_gt_cases (Z.to_nat (batch_size o)) (length cur)).
    + by rewrite Nat.min_l by lia.
    + by rewrite Nat.min_r, !drop_ge by lia.
Qed.


End Posts.

(** ** Properties *)

(** A batch posted by [drain] is JSON: it reads back as an object whose
    [records] are, in order, the records appended, each with its id, its type and
    its payload, whatever bytes ids and payload strings contain. *)
Theorem batch_parses (rs : list (str * str * jval)) (Hw : Forall (fun r => jwf r.2 = true) rs) :
  parse (batch_body ((fun '(id, ty, v) => make_record id ty (render false 0 v)) <$> rs)) =
  Some (JObj [(lit "records", JArr ((fun '(id, ty, v) => record_tree id ty v) <$> rs))]).
Proof.
  replace ((fun '(id, ty, v) => make_record id ty (render false 0 v)) <$> rs)
    with (render false 0 <$> ((fun '(id, ty, v) => record_tree id ty v) <$> rs)).
  - rewrite batch_body_render. apply render_reads. cbn [jwf forallb]. rewrite !andb_true_r.
    induction Hw as [|[[id ty] v] rs Hv _ IH]; [done|]. rewrite fmap_cons. cbn [forallb].
    rewrite IH, andb_true_r. simpl in *. by rewrite Hv.
  - rewrite <- list_fmap_compose. apply list_fmap_ext. intros i [[id ty] v] _. simpl.
    symmetry. apply make_record_render.
Qed.

Lemma batch_parses_witness :
  let rs := [(lit "host-1", lit "inventory", JObj [(lit "n", jint 1)]); (lit "host-2", lit "x", JNull)] in
  parse (batch_body ((fun '(id, ty, v) => make_record id ty (render false 0 v)) <$> rs)) =
  Some (JObj [(lit "records", JArr ((fun '(id, ty, v) => record_tree id ty v) <$> rs))]).
Proof. intros rs. apply batch_parses. repeat constructor. Defined.

(** C3: at-least-once delivery: whatever the cloud answers and however often the
    process is told to stop, the records a drain has removed from the queue are
    the concatenation of batches each of which the cloud had acknowledged, in
    order, and the rest of the queue is still pending. *)
Theorem drain_releases_only_acknowledged {W} (HW : World W) `{UniformInt} (fuel : nat) (r : Reporter)
  (q : list str) (w : W) (r' : Reporter) (d : DrainResult) (w' : W * list str) (logs : list log_call)
  (Hs : sound (spool r) q)
  (Hd : drain (HW := traced_world HW) fuel r (w, []) = Some (r', d, w', logs)) :
  exists batches q', (batch_body <$> batches) `sublist_of` w'.2 /\
    q = concat batches ++ q' /\ sound (spool r') q'.
Proof.
  unfold drain in Hd. destruct (drain_loop _ _ _ _ _ _ _) as [[[[s1 d1] w1] l1]|] eqn:E; [|done].
  simplify_eq. destruct (drain_release _ _ _ _ _ _ _ _ _ _ _ _ _ Hs E) as (bs & new & q' & H1 & H2 & H3 & H4).
  exists bs, q'. split_and!; [|done|done]. by rewrite H1.
Qed.

(** C26: with a cloud that accepts every batch, a drain of records that are all in
    one segment posts consecutive batches of the queue, each of [batch_size]
    records but the last, which may be smaller: every record is posted exactly
    once, in order.  It ends with an empty queue, having counted and committed
    each record once. *)
Theorem drain_empties_segment {W} (HW : World W) `{UniformInt} (fuel : nat) (r : Reporter)
  (dn cur : list str) (w : W)
  (Hstop : never_stops HW) (Hacc : always_accepts HW) (Hb : 0 < batch_size (opt r))
  (R : rep (spool r) dn cur []) (Hc : counted (spool r) cur) (Ho : open_ (spool r) = true)
  (Hc0 : 0 <= committed (stats_ (spool r)))
  (Hcm : committed (stats_ (spool r)) + Z.of_nat (length cur) < 2 ^ 64)
  (Hf : (length cur < fuel)%nat) :
  exists r' done' w' bs,
    drain (HW := recorded_world HW) fuel r (w, []) =
      Some (r', mkDrain (Z.of_nat (length cur)) false,
        (w', (fun b => (batch_body b, lit "application/json")) <$> bs), []) /\
    concat bs = cur /\ Forall (fun b => 0 < length b <= Z.to_nat (batch_size (opt r)))%nat bs /\
    (forall i b, bs !! i = Some b -> (S i < length bs)%nat -> length b = Z.to_nat (batch_size (opt r))) /\
    rep (spool r') done' [] [] /\
    committed (stats_ (spool r')) = committed (stats_ (spool r)) + Z.of_nat (length cur).
Proof.
  destruct (drain_all (opt r) fuel (spool r) dn cur (mkDrain 0 false) 0 w [] [])
    as (s' & d' & w' & bs & E & (H1 & H2 & H3) & R' & Hcm'); try done; [simpl; lia|].
  unfold drain. rewrite E. by eexists _, d', w', bs.
Qed.

(** The drain loop does not end when the cursor stands at the end of a
    segment that is not the last and the cloud accepts everything: no number of
    rounds is enough, although the queue is finite. *)
Theorem drain_livelock {W} (HW : World W) `{UniformInt} (fuel : nat) (r : Reporter)
  (dn : list str) (later : list (list str)) (w : W)
  (Hstop : never_stops HW) (Hacc : always_accepts HW) (Hb : 0 < batch_size (opt r))
  (R : rep (spool r) dn [] later) (Hq : queue [] later <> []) (Hc : counted (spool r) (queue [] later))
  (Ho : open_ (spool r) = true) (Hc0 : 0 <= committed (stats_ (spool r)))
  (Hcm : committed (stats_ (spool r)) + Z.of_nat (length (queue [] later)) < 2 ^ 64) :
  drain fuel r w = None.
Proof.
  unfold drain. by rewrite (drain_stall (opt r) fuel (spool r) dn later).
Qed.


(** ** The properties at work *)

Definition cloud (answer : Result) : World unit := {|
  w_post _ _ w := (answer, w); w_backend := lit "test"; w_stop w := (false, w);
  w_draw w := (0, w); w_sleep _ w := w; w_now w := (0, w) |}.

Definition accepted : Result := mkResult true 200 [] [] false.

Definition sample_options : Options :=
  mkOptions false [] [] [] [] [] [] [] [] (lit "spool") 1000 2 6 0 false 300 [] [] [] [] [] 120.

Definition sample_reporter (s : Spool) : Reporter := mkReporter s sample_options (lit "tag").

Definition wide_two : Spool := wide_append (wide_append (wide_open ∅) (lit "a")) (lit "b").

Lemma tiny_two_sound : sound tiny_two [lit "first"; lit "second"].
Proof.
  exists [], [lit "first"], [[lit "second"]]. split; [apply rep_check_ok; vm_compute; reflexivity|].
  repeat split; vm_compute; congruence.
Qed.

Lemma drain_releases_only_acknowledged_witness :
  exists batches q', concat batches ++ q' = [lit "first"; lit "second"] /\
    (batch_body <$> batches) `sublist_of` [batch_body [lit "first"; lit "second"]].
Proof.
  destruct (drain (HW := traced_world (cloud accepted)) 5 (sample_reporter tiny_two) (tt, []))
    as [[[[r' d] w'] logs]|] eqn:E; [|vm_compute in E; discriminate].
  destruct (drain_releases_only_acknowledged (cloud accepted) 5 (sample_reporter tiny_two) _ tt r' d w' logs
    tiny_two_sound E) as (bs & q' & H1 & H2 & _).
  exists bs, q'. split; [by rewrite H2|]. vm_compute in E. injection E as <- <- <- <-. exact H1.
Defined.

Lemma drain_empties_segment_witness :
  exists r' done' w' bs, drain (HW := recorded_world (cloud accepted)) 3 (sample_reporter wide_two) (tt, []) =
      Some (r', mkDrain 2 false, (w', (fun b => (batch_body b, lit "application/json")) <$> bs), []) /\
    concat bs = [lit "a"; lit "b"] /\ rep (spool r') done' [] [].
Proof.
  destruct (drain_empties_segment (cloud accepted) 3 (sample_reporter wide_two) [] [lit "a"; lit "b"] tt)
    as (r' & d' & w' & bs & E & Hbs & _ & _ & R & _).
  - intros w. reflexivity.
  - intros b c w. reflexivity.
  - reflexivity.
  - apply rep_check_ok. vm_compute. reflexivity.
  - vm_compute. reflexivity.
  - vm_compute. reflexivity.
  - vm_compute. congruence.
  - vm_compute. reflexivity.
  - simpl. lia.
  - exists r', d', w', bs. split; [exact E|]. split; [exact Hbs|exact R].
Defined.

Lemma drain_livelock_witness :
  drain (HW := cloud accepted) 1000 (sample_reporter tiny_end) tt = None.
Proof.
  apply (drain_livelock (cloud accepted) 1000 (sample_reporter tiny_end) [lit "first"] [[lit "second"]]).
  - intros w. reflexivity.
  - intros b c w. reflexivity.
  - reflexivity.
  - apply rep_check_ok. vm_compute. reflexivity.
  - discriminate.
  - vm_compute. reflexivity.
  - vm_compute. reflexivity.
  - vm_compute. congruence.
  - vm_compute. reflexivity.
Defined.

