(* ===== verification/Inet.v ===== *)
(** * Addresses as text

    What both collectors use of the socket library: [inet_ntop] for both families.
    For IPv6 it is an interface with the one fact the code relies on, which address
    prints as the wildcard; for IPv4 it is computed, and so is a hardware address. *)
From S2P Require Import Prelude CppStd Double Json Frame.
From Stdlib Require Import Ascii.

#[local] Open Scope Z_scope.

(** [inet_ntop(AF_INET)]: dotted decimal. *)
Definition inet_ntop4 (a : str) : str :=
  match a with
  | [] => []
  | b :: l => to_string (code b) ++ (l ≫= fun b => lit "." ++ to_string (code b))
  end.

(** [inet_ntop(AF_INET6)]: the only fact used is which address prints as ::. *)
Class InetNtop6 := {
  inet_ntop6 : str -> str;
  ntop6_wildcard : forall a, length a = 16%nat ->
    inet_ntop6 a = lit "::" <-> a = replicate 16 "000"%char;
  ntop6_not_v4 : forall a, inet_ntop6 a <> lit "0.0.0.0"
}.

(** A link-layer address, [%02x] between colons. *)
Definition hex2 (b : byte) : str := [hex_char (Z.shiftr (code b) 4); hex_char (Z.land (code b) 15)].
Definition mac_text (a : str) : str :=
  match a with [] => [] | b :: l => hex2 b ++ (l ≫= fun b => lit ":" ++ hex2 b) end.

(** ** Lemmas: numbers as words, the order of strings *)

Lemma to_string_chars n : Forall (fun c => isdigit c = true \/ c = "-"%char) (to_string n).
Proof.
  unfold to_string. destruct (Z.ltb_spec n 0); [constructor; [by right|]|];
    (eapply Forall_impl; [apply to_string_u_spec; lia|]; by left).
Qed.

Lemma to_string_word n : word (to_string n).
Proof.
  split.
  - unfold to_string. destruct (Z.ltb_spec n 0); [done|]. by apply to_string_u_spec.
  - eapply Forall_impl; [apply to_string_chars|]. intros c [Hc| ->]; [by apply isdigit_not_space|done].
Qed.

Lemma str_eqb_sym a b : str_eqb a b = str_eqb b a.
Proof.
  destruct (str_eqb a b) eqn:E; [by apply str_eqb_eq in E as ->; rewrite str_eqb_refl|].
  destruct (str_eqb b a) eqn:E'; [|done]. apply str_eqb_eq in E'. by rewrite E', str_eqb_refl in E.
Qed.

Lemma str_ltb_ntrans a b c : str_ltb a b = false -> str_ltb b c = false -> str_ltb a c = false.
Proof.
  intros H1 H2. destruct (str_ltb a c) eqn:E; [|done]. destruct (str_ltb b a) eqn:Hba.
  - by rewrite (str_ltb_trans b a c Hba E) in H2.
  - pose proof (str_ltb_total a b H1 Hba) as ->. congruence.
Qed.

(** ** Lemmas: dotted addresses *)

Lemma to_string_code_clean b : Forall (fun c => Ascii.eqb c "." = false) (to_string (code b)).
Proof.
  pose proof (code_range b). rewrite to_string_nonneg by lia.
  destruct (to_string_u_spec (code b)) as (Hd & _); [lia|]. eapply Forall_impl; [exact Hd|].
  intros c Hc%isdigit_iff. rewrite eqb_code. apply Z.eqb_neq. change (code ".") with 46. lia.
Qed.

Lemma getlines_last d a : Forall (fun c => Ascii.eqb c d = false) a -> a <> [] -> getlines d a = [a].
Proof.
  intros Ha Hne. unfold getlines.
  assert (forall cur st, a <> [] \/ st = true -> getlines_from d a cur st = [cur ++ a]) as H; [|by apply H; left].
  clear Hne. induction Ha as [|c a Hc _ IH]; intros cur st Hst; simpl.
  - destruct Hst as [| ->]; [done|]. by rewrite app_nil_r.
  - rewrite Hc, IH by (by right). by rewrite <- app_assoc.
Qed.

Lemma ntop4_parts b0 b1 b2 b3 :
  getlines "." (inet_ntop4 [b0; b1; b2; b3]) = (fun b => to_string (code b)) <$> [b0; b1; b2; b3].
Proof.
  unfold inet_ntop4. rewrite !bind_cons. change (lit ".") with ["."%char]. cbn [app].
  change ([] ≫= _) with (@nil byte). rewrite app_nil_r.
  rewrite getlines_cons by apply to_string_code_clean.
  rewrite getlines_cons by apply to_string_code_clean.
  rewrite getlines_cons by apply to_string_code_clean.
  rewrite getlines_last; [done|apply to_string_code_clean|].
  apply to_string_word.
Qed.

Lemma fmap_to_string_inj (l l' : list byte) :
  (fun b => to_string (code b)) <$> l = (fun b => to_string (code b)) <$> l' -> l = l'.
Proof.
  revert l'. induction l as [|b l IH]; intros [|b' l'] E; try done. rewrite !fmap_cons in E.
  injection E as E1 E2. f_equal; [|by apply IH]. pose proof (code_range b). pose proof (code_range b').
  rewrite !to_string_nonneg in E1 by lia. apply to_string_inj_nonneg in E1; [|lia..].
  by rewrite <- (chr_code b), <- (chr_code b'), E1.
Qed.

(** Only the zero address prints as 0.0.0.0, and no IPv4 address as ::. *)
Lemma ntop4_zero v : 0 <= v < 2 ^ 32 -> inet_ntop4 (put_u32 v) = lit "0.0.0.0" <-> v = 0.
Proof.
  intros Hv. split; [|by intros ->].
  pose proof (ntop4_parts (chr (Z.land v 0xFF)) (chr (Z.land (Z.shiftr v 8) 0xFF))
    (chr (Z.land (Z.shiftr v 16) 0xFF)) (chr (Z.land (Z.shiftr v 24) 0xFF))) as Hp.
  fold (put_u32 v) in Hp. intros E; rewrite E in Hp.
  change (getlines "." (lit "0.0.0.0")) with ((fun b => to_string (code b)) <$> replicate 4 "000"%char) in Hp.
  apply fmap_to_string_inj in Hp. rewrite <- (get_put_u32 v [] Hv), app_nil_r. by rewrite <- Hp.
Qed.

Lemma ntop4_not_v6 v : inet_ntop4 (put_u32 v) <> lit "::".
Proof.
  pose proof (ntop4_parts (chr (Z.land v 0xFF)) (chr (Z.land (Z.shiftr v 8) 0xFF))
    (chr (Z.land (Z.shiftr v 16) 0xFF)) (chr (Z.land (Z.shiftr v 24) 0xFF))) as Hp.
  fold (put_u32 v) in Hp. intros E. by rewrite E in Hp.
Qed.

Lemma hex2_length a : length (a ≫= hex2) = (2 * length a)%nat.
Proof. induction a as [|b a IH]; [done|]. rewrite bind_cons, length_app, IH. cbn. lia. Qed.

(** A text form of an IPv6 address that keeps the two promises. *)
#[refine, global] Instance plain_ntop6 : InetNtop6 := {
  inet_ntop6 a := if bool_decide (a = replicate 16 "000"%char) then lit "::" else a ≫= hex2
}.
Proof.
  - intros a Ha. destruct (bool_decide (a = _)) eqn:E; [by apply bool_decide_eq_true in E|].
    apply bool_decide_eq_false in E. split; [|done]. intros Ht. apply (f_equal length) in Ht.
    rewrite hex2_length, Ha in Ht. done.
  - intros a. destruct (bool_decide _); [done|]. intros Ht. apply (f_equal length) in Ht.
    rewrite hex2_length in Ht. change (length (lit "0.0.0.0")) with 7%nat in Ht. lia.
Defined.
