(* ===== verification/PlatformLinux.v ===== *)
(** * The Linux collectors (src/platform/platform_linux.cpp)

    What the collectors make of what the kernel and the package manager show
    them: /proc as a function from paths to file contents with directory listings
    and links, [getifaddrs] as a list of nodes, the package query as the text it
    prints.  [inet_ntop] is in Inet.v;
    everything else is computed.  The collectors together are an
    instance of the platform interface of Inventory.v. *)
From S2P Require Import Prelude CppStd Double Json Log Inventory Algorithms Cve Frame Inet.
From Stdlib Require Import Ascii.

#[local] Open Scope Z_scope.

(** ** The environment *)

(** An open of a process's fd directory: its links, denied, or gone. *)
Inductive fd_dir := FdLinks (l : list (str * option str)) | FdDenied | FdGone.

(** A node of [getifaddrs]: an address with the bytes of its mask; a link-layer
    address with its length. *)
Inductive sockaddr := SaInet (a : str) | SaInet6 (a : str) | SaPacket (a : str) (halen : Z) | SaOther.

Record ifnode := mkNode {
  ifa_name : option str; ifa_flags : Z; ifa_addr : option sockaddr; ifa_netmask : option str }.

Record linux_env := mkLinux {
  file : str -> option str;             (* a readable file's contents *)
  proc_list : option (list str) * str;  (* readdir of /proc, or none and the error's text *)
  fd_links : str -> fd_dir;             (* /proc/<pid>/fd *)
  exe_link : str -> option str;         (* readlink of /proc/<pid>/exe *)
  getpwuid : Z -> option str;
  gethostname : str + str;              (* the name, or the error's text *)
  uname : (str * str) + str;            (* release and machine *)
  getifaddrs : list ifnode + str;
  exists_ : str -> bool;                (* access(path, F_OK) *)
  popen : str + str;                    (* what the query prints, or the error's text *)
  pclose_rc : Z }.

(** ** Text helpers *)

Definition strip_quotes (s : str) : str :=
  match s, last s with
  | c :: s', Some e =>
      if (2 <=? len s) && Ascii.eqb c quote && Ascii.eqb e quote then take (length s - 2) s' else s
  | _, _ => s
  end.

Definition read_file (e : linux_env) (path : str) : str := default [] (file e path).

Definition is_number (s : str) : bool :=
  match s with [] => false | _ => forallb isdigit s end.

(** One line of /etc/os-release. *)
Definition os_release_line (nv : str * str) (line : str) : str * str :=
  match find_char "=" line with
  | None => nv
  | Some eq =>
      let key := take eq line in
      let val := strip_quotes (trim (drop (eq + 1) line)) in
      if str_eqb key (lit "NAME") then (val, nv.2)
      else if str_eqb key (lit "VERSION_ID") then (nv.1, val) else nv
  end.

(** The name and version that were there before stay if no line sets them. *)
Definition read_os_release (e : linux_env) (nv : str * str) : bool * (str * str) :=
  match file e (lit "/etc/os-release") with
  | None => (false, nv)
  | Some text =>
      let nv := fold_left os_release_line (getlines nl text) nv in
      (match nv.1 with [] => false | _ => true end, nv)
  end.

(** ** Addresses of /proc/net *)

(** [strtoul(s, nullptr, 16)] with 64 bits: an optional 0x, then digits. *)
Definition hex_text (s : str) : str :=
  match s with
  | a :: b :: c :: r =>
      if Ascii.eqb a "0" && (Ascii.eqb b "x" || Ascii.eqb b "X") && is_hex c then c :: r else s
  | _ => s
  end.

Definition strtoul16 (s : str) : Z :=
  let '(neg, s1) := scan_sign (skip_ws s) in
  let v := hex_value (fst (span is_hex (hex_text s1))) in
  if u64_max <? v then u64_max else if neg then u64 (- v) else v.

Definition strtol16 (s : str) : Z :=
  let '(neg, s1) := scan_sign (skip_ws s) in
  let v := hex_value (fst (span is_hex (hex_text s1))) in
  let v := if neg then - v else v in
  Z.max (- 2 ^ 63) (Z.min (2 ^ 63 - 1) v).

(** Whole words are written back in little-endian order, as [memcpy] does. *)
Definition parse_hex_addr `{InetNtop6} (hex : str) : option (str * bool) :=
  if len hex =? 8 then Some (inet_ntop4 (put_u32 (u32 (strtoul16 hex))), false)
  else if len hex =? 32 then
    let w i := put_u32 (u32 (strtoul16 (substr hex (i * 8) 8))) in
    Some (inet_ntop6 (w 0%nat ++ w 1%nat ++ w 2%nat ++ w 3%nat), true)
  else None.

Definition is_wildcard (addr : str) : bool := str_eqb addr (lit "0.0.0.0") || str_eqb addr (lit "::").

Definition kTcpListen : Z := 0x0A.

Record RawSocket := mkRaw { raw_proto : str; raw_addr : str; raw_port : Z; raw_inode : Z }.

(** One line of a table: eight words are needed. *)
Definition proc_net_line `{InetNtop6} (proto : str) (tcp_only_listen : bool) (line : str) : list RawSocket :=
  match words line with
  | sl :: local :: rem :: st :: txrx :: uid :: timeout :: inode :: _ =>
      if tcp_only_listen && negb (strtol16 st =? kTcpListen) then []
      else
        match rfind_char ":" local with
        | None => []
        | Some colon =>
            match parse_hex_addr (take colon local) with
            | None => []
            | Some (addr, _) =>
                [mkRaw proto addr (u16 (strtoul16 (drop (colon + 1) local))) (strtoull10 inode)]
            end
        end
  | _ => []
  end.

Definition parse_proc_net `{InetNtop6} (e : linux_env) (path proto : str) (tcp_only_listen : bool)
    : option (list RawSocket) :=
  match file e path with
  | None => None
  | Some text => Some (tail (getlines nl text) ≫= proc_net_line proto tcp_only_listen)
  end.

(** ** Sockets to processes *)

(** One link of an fd directory; [emplace] keeps the first pid of an inode.  The
    buffer takes 127 bytes of the target. *)
Definition add_link (pid : Z) (m : gmap Z Z) (l : str * option str) : gmap Z Z :=
  let '(name, target) := l in
  if starts_with (lit ".") name then m
  else
    match take 127 (default [] target) with
    | [] => m
    | t =>
        if starts_with (lit "socket:[") t then
          let inode := strtoull10 (drop 8 t) in
          if inode =? 0 then m
          else match m !! inode with Some _ => m | None => <[inode := pid]> m end
        else m
    end.

Definition add_process (e : linux_env) (st : gmap Z Z * Z) (pid_s : str) : gmap Z Z * Z :=
  let '(m, denied) := st in
  if negb (is_number pid_s) then st
  else
    match fd_links e pid_s with
    | FdDenied => (m, denied + 1)
    | FdGone => st
    | FdLinks l => (fold_left (add_link (strtoll10 pid_s)) l m, denied)
    end.

Definition build_inode_to_pid (e : linux_env) : gmap Z Z * Z :=
  match (proc_list e).1 with
  | None => (∅, 0)
  | Some names => fold_left (add_process e) names (∅, 0)
  end.

Definition process_comm (e : linux_env) (pid : Z) : str :=
  trim (read_file e (lit "/proc/" ++ to_string pid ++ lit "/comm")).

(** ** Host *)

Definition set_hostname (n : str) (h : HostInfo) : HostInfo := mkHost n (os_name h) (os_version h) (kernel h) (arch h).

Definition linux_collect_host (e : linux_env) (out : HostInfo) : HostInfo * Status :=
  let '(out, ws) :=
    match gethostname e with
    | inl n => (set_hostname (take 255 n) out, [])
    | inr err => (out, [lit "gethostname failed: " ++ err])
    end in
  let '(named, (name, version)) := read_os_release e (os_name out, os_version out) in
  let out := mkHost (hostname out) name version (kernel out) (arch out) in
  let ws := ws ++ (if named then [] else [lit "/etc/os-release unreadable or had no NAME"]) in
  match uname e with
  | inl (release, machine) =>
      (mkHost (hostname out) (os_name out) (os_version out) release machine, mkStatus true ws)
  | inr err => (out, mkStatus true (ws ++ [lit "uname failed: " ++ err]))
  end.

(** ** Interfaces *)

Definition be32 (m : str) : Z := fold_left (fun v b => v * 256 + code b) m 0.

Fixpoint prefix4_loop (fuel : nat) (m prefix : Z) : Z :=
  match fuel with
  | O => prefix
  | S f =>
      if (prefix <? 32) && negb (Z.land m (Z.shiftr 0x80000000 prefix) =? 0)
      then prefix4_loop f m (prefix + 1) else prefix
  end.
Definition prefix4 (mask : str) : Z := prefix4_loop 33 (be32 mask) 0.

(** The bits of one byte from the highest on: how many were set before the first
    clear one, and whether all were. *)
Fixpoint byte_prefix (b : nat) (m prefix : Z) : Z * bool :=
  match b with
  | O => (prefix, true)
  | S b' =>
      if negb (Z.land m (Z.shiftl 1 (Z.of_nat b')) =? 0) then byte_prefix b' m (prefix + 1)
      else (prefix, false)
  end.
Fixpoint prefix6 (mask : str) (prefix : Z) : Z :=
  match mask with
  | [] => prefix
  | m :: rest => let '(p, full) := byte_prefix 8 (code m) prefix in if full then prefix6 rest p else p
  end.

(** The address text of a node, if it has one. *)
Definition node_address `{InetNtop6} (n : ifnode) : option str :=
  match ifa_addr n with
  | Some (SaInet a) =>
      Some (inet_ntop4 a ++ lit "/" ++ to_string (match ifa_netmask n with Some m => prefix4 m | None => 0 end))
  | Some (SaInet6 a) =>
      Some (inet_ntop6 a ++ lit "/" ++ to_string (match ifa_netmask n with Some m => prefix6 m 0 | None => 0 end))
  | _ => None
  end.

Definition node_mac (n : ifnode) : option str :=
  match ifa_addr n with
  | Some (SaPacket a halen) => if halen =? 6 then Some (mac_text a) else None
  | _ => None
  end.

Definition flag_set (bit flags : Z) : bool := negb (Z.land flags bit =? 0).

Definition update_interface `{InetNtop6} (n : ifnode) (ni : NetInterface) : NetInterface :=
  mkNet (ni_name ni) (default (mac ni) (node_mac n))
    (addresses ni ++ match node_address n with Some a => [a] | None => [] end)
    (flag_set 1 (ifa_flags n)) (flag_set 8 (ifa_flags n)).

(** [slot] and the update of the interface it returns. *)
Definition add_node `{InetNtop6} (st : gmap str nat * list NetInterface) (n : ifnode)
    : gmap str nat * list NetInterface :=
  let '(index, out) := st in
  match ifa_name n with
  | None => st
  | Some name =>
      match index !! name with
      | Some i => (index, alter (update_interface n) i out)
      | None => (<[name := length out]> index,
                 out ++ [update_interface n (mkNet name [] [] false false)])
      end
  end.

Definition linux_collect_interfaces `{InetNtop6} (e : linux_env) (out : list NetInterface)
    : list NetInterface * Status :=
  match getifaddrs e with
  | inr err => (out, mkStatus true [lit "getifaddrs failed: " ++ err])
  | inl nodes => ((fold_left add_node nodes (∅, out)).2, mkStatus true [])
  end.

(** ** Sockets *)

Definition net_tables : list (str * str * bool) :=
  [(lit "/proc/net/tcp", lit "tcp", true); (lit "/proc/net/tcp6", lit "tcp6", true);
   (lit "/proc/net/udp", lit "udp", false); (lit "/proc/net/udp6", lit "udp6", false)].

Definition read_table `{InetNtop6} (e : linux_env) (st : list RawSocket * list str) (t : str * str * bool)
    : list RawSocket * list str :=
  let '(raw, ws) := st in
  let '(path, proto, listen_only) := t in
  match parse_proc_net e path proto listen_only with
  | Some l => (raw ++ l, ws)
  | None => (raw, ws ++ [lit "could not read " ++ path])
  end.

Definition resolve_socket (e : linux_env) (m : gmap Z Z) (r : RawSocket) : ListeningSocket :=
  let '(pid, name) := match m !! raw_inode r with Some p => (p, process_comm e p) | None => (-1, []) end in
  mkSocket (raw_proto r) (raw_addr r) (raw_port r) pid name (is_wildcard (raw_addr r)).

Definition socket_before (a b : ListeningSocket) : bool :=
  if negb (str_eqb (proto a) (proto b)) then str_ltb (proto a) (proto b) else local_port a <? local_port b.

Definition linux_collect_sockets `{InetNtop6} {HS : StdSort} (e : linux_env) (out : list ListeningSocket)
    : list ListeningSocket * Status :=
  let '(raw, ws) := fold_left (read_table e) net_tables ([], []) in
  let '(m, denied) := build_inode_to_pid e in
  let ws := ws ++
    (if 0 <? denied then
       [to_string denied ++ lit " processes denied fd enumeration (run as root to resolve every " ++
        lit "socket to its owning process)"]
     else []) in
  (std_sort socket_before (out ++ (resolve_socket e m <$> raw)), mkStatus true ws).

(** ** Processes *)

(** The parent's pid from the text of /proc/<pid>/stat, located from the last
    closing parenthesis. *)
Definition stat_ppid (stat : str) : Z :=
  match rfind_char ")" stat with
  | None => -1
  | Some close_paren =>
      if (close_paren + 2 <? length stat)%nat then
        match words (drop (close_paren + 2) stat) with
        | _ :: ppid :: _ => strtoll10 ppid
        | _ => -1
        end
      else -1
  end.

(** [ls >> uid] for a 32-bit unsigned [uid]. *)
Definition extract_u32 (s : str) : option Z :=
  let '(neg, s1) := scan_sign (skip_ws s) in
  match fst (span isdigit s1) with
  | [] => None
  | ds =>
      let v := dec_value ds in
      if 2 ^ 32 - 1 <? v then None else Some (if neg then u32 (- v) else v)
  end.

Definition status_user (e : linux_env) (status : str) : str :=
  match List.find (starts_with (lit "Uid:")) (getlines nl status) with
  | None => []
  | Some line =>
      match extract_u32 (drop 4 line) with
      | None => []
      | Some uid => default (to_string uid) (getpwuid e uid)
      end
  end.

(** One entry of /proc: the processes found so far and those without an
    executable link. *)
Definition add_proc (e : linux_env) (st : list Process * Z) (pid_s : str) : list Process * Z :=
  let '(out, no_exe) := st in
  if negb (is_number pid_s) then st
  else
    let pid := strtoll10 pid_s in
    let name := process_comm e pid in
    let ppid := stat_ppid (read_file e (lit "/proc/" ++ pid_s ++ lit "/stat")) in
    let exe := take 4095 (default [] (exe_link e pid_s)) in
    let no_exe := match exe with [] => no_exe + 1 | _ => no_exe end in
    let user := status_user e (read_file e (lit "/proc/" ++ pid_s ++ lit "/status")) in
    (match name with [] => out | _ => out ++ [mkProcess pid ppid name exe user] end, no_exe).

Definition linux_collect_processes (e : linux_env) (out : list Process) : list Process * Status :=
  match proc_list e with
  | (None, err) => (out, mkStatus true [lit "opendir(/proc) failed: " ++ err])
  | (Some names, _) =>
      let '(out, no_exe) := fold_left (add_proc e) names (out, 0) in
      (out, mkStatus true
        (if 0 <? no_exe then
           [to_string no_exe ++ lit " of " ++ to_string (Z.of_nat (length out) + no_exe) ++
            lit " processes had no readable exe link (kernel threads, or run as " ++
            lit "root for full coverage)"]
         else []))
  end.

(** ** Packages *)

(** [fgets] with a buffer of [n + 1] bytes, until the end of the input: pieces of
    at most [n] bytes, each up to and with its newline. *)
Fixpoint fgets_from (n : nat) (s cur : str) : list str :=
  match s with
  | [] => match cur with [] => [] | _ => [cur] end
  | c :: s' =>
      let cur := cur ++ [c] in
      if Ascii.eqb c nl || (n <=? length cur)%nat then cur :: fgets_from n s' []
      else fgets_from n s' cur
  end.
Definition fgets_all (n : nat) (s : str) : list str := fgets_from n s [].

(** [std::getline] on what is left of a stream: nothing once it is exhausted. *)
Definition next_field (d : byte) (s : str) : str * str := default ([], []) (getline d s).

Definition package_of_query (source : str) (line : str) : list Package :=
  let '(status, r) := next_field tab line in
  let '(pkg, r) := next_field tab r in
  let '(version, r) := next_field tab r in
  let '(vendor, r) := next_field nl r in
  if negb (str_eqb (trim status) (lit "installed")) || bool_decide (pkg = []) then []
  else [mkPackage (trim pkg) (trim version) (trim vendor) source].

Definition package_before (a b : Package) : bool := str_ltb (pk_name a) (pk_name b).

Definition linux_collect_packages {HS : StdSort} (e : linux_env) (out : list Package) : list Package * Status :=
  let have_dpkg := exists_ e (lit "/var/lib/dpkg/status") in
  let have_rpm := exists_ e (lit "/var/lib/rpm") in
  if negb have_dpkg && negb have_rpm then
    (out, mkStatus false [lit "no dpkg or rpm database found; installed software not collected"])
  else
    let source := if have_dpkg then lit "dpkg" else lit "rpm" in
    match popen e with
    | inr err => (out, mkStatus true [lit "popen failed for " ++ source ++ lit ": " ++ err])
    | inl text =>
        let out := out ++ (fgets_all 4095 text ≫= package_of_query source) in
        let ws := (if pclose_rc e =? 0 then []
                   else [source ++ lit " query exited with status " ++ to_string (pclose_rc e)]) ++
                  (match out with [] => [lit "package query returned nothing"] | _ => [] end) in
        (std_sort package_before out, mkStatus true ws)
    end.

Definition linux_platform `{InetNtop6} {HS : StdSort} (e : linux_env) : Platform := {|
  platform_name := lit "linux";
  collect_host := linux_collect_host e;
  collect_interfaces := linux_collect_interfaces e;
  collect_listening_sockets := linux_collect_sockets e;
  collect_processes := linux_collect_processes e;
  collect_packages := linux_collect_packages e
|}.

(** ** Lemmas: words and numbers *)

(** [%0<n>X]. *)
Definition hex_digits : str := lit "0123456789ABCDEF".
Fixpoint print_hex (n : nat) (v : Z) : str :=
  match n with
  | O => []
  | S n' => print_hex n' (v / 16) ++ [nth (Z.to_nat (v mod 16)) hex_digits "0"%char]
  end.

Lemma hex_digit_nth d : 0 <= d < 16 -> hex_digit (nth (Z.to_nat d) hex_digits "0"%char) = Some d.
Proof.
  intros Hd. assert (d ∈ (Z.of_nat <$> List.seq 0 16)) as Hin.
  { apply list_elem_of_fmap. exists (Z.to_nat d). split; [lia|]. apply list_elem_of_In, in_seq. lia. }
  clear Hd. revert d Hin. apply Forall_forall. vm_compute. repeat constructor.
Qed.

Lemma print_hex_value n v : 0 <= v -> hex_value (print_hex n v) = v mod 16 ^ Z.of_nat n.
Proof.
  revert v. induction n as [|n IH]; intros v Hv; [by rewrite Z.mod_1_r|].
  cbn [print_hex]. unfold hex_value. rewrite fold_left_app. cbn [fold_left].
  fold (hex_value (print_hex n (v / 16))). rewrite IH by (by apply Z.div_pos).
  pose proof (Z.mod_pos_bound v 16 ltac:(lia)). rewrite hex_digit_nth by lia. change (default 0 (Some (v mod 16))) with (v mod 16).
  rewrite Nat2Z.inj_succ, Z.pow_succ_r by lia. pose proof (Z.pow_pos_nonneg 16 (Z.of_nat n) ltac:(lia) ltac:(lia)).
  rewrite Z.rem_mul_r by lia. lia.
Qed.

Lemma print_hex_is_hex n v : 0 <= v -> Forall (fun c => is_hex c = true) (print_hex n v).
Proof.
  revert v. induction n as [|n IH]; intros v Hv; [constructor|]. cbn [print_hex]. apply Forall_app.
  split; [apply IH; by apply Z.div_pos|]. constructor; [|done]. unfold is_hex.
  pose proof (Z.mod_pos_bound v 16 ltac:(lia)). rewrite hex_digit_nth by lia. by apply bool_decide_eq_true_2.
Qed.

Lemma print_hex_length n v : length (print_hex n v) = n.
Proof. revert v. induction n as [|n IH]; intros v; [done|]. cbn. rewrite length_app, IH. cbn. lia. Qed.

Lemma is_hex_code c : is_hex c = true -> 48 <= code c <= 57 \/ 97 <= code c <= 102 \/ 65 <= code c <= 70.
Proof.
  unfold is_hex, hex_digit. intros H. apply bool_decide_eq_true in H. destruct H as [d H].
  destruct ((48 <=? code c) && (code c <=? 57)) eqn:E1; [bools; lia|].
  destruct ((97 <=? code c) && (code c <=? 102)) eqn:E2; [bools; lia|].
  destruct ((65 <=? code c) && (code c <=? 70)) eqn:E3; [bools; lia|]. done.
Qed.

Lemma scan_hex ds :
  Forall (fun c => is_hex c = true) ds -> ds <> [] ->
  scan_sign (skip_ws ds) = (false, ds) /\ fst (span is_hex (hex_text ds)) = ds.
Proof.
  intros Hd Hne. destruct ds as [|c ds]; [done|]. apply Forall_cons_iff in Hd as [Hc Hd].
  pose proof (is_hex_code c Hc) as Hcode. split.
  - unfold skip_ws. cbn [span]. destruct (isspace c) eqn:E; [apply isspace_code in E; lia|]. cbn [snd scan_sign].
    rewrite !eqb_code. change (code "-") with 45. change (code "+") with 43.
    destruct (Z.eqb_spec (code c) 45); [lia|]. destruct (Z.eqb_spec (code c) 43); [lia|done].
  - assert (hex_text (c :: ds) = c :: ds) as ->.
    { unfold hex_text. destruct ds as [|b [|c' r]]; try done. apply Forall_cons_iff in Hd as [Hb _].
      apply is_hex_code in Hb. rewrite !(eqb_code b). change (code "x") with 120. change (code "X") with 88.
      destruct (Z.eqb_spec (code b) 120); [lia|]. destruct (Z.eqb_spec (code b) 88); [lia|].
      cbn [orb]. by rewrite andb_false_r. }
    rewrite <- (app_nil_r (c :: ds)) at 1. rewrite span_all; [done| |done]. by constructor.
Qed.

Lemma strtoul16_print n v :
  (0 < n)%nat -> 0 <= v < 16 ^ Z.of_nat n -> v < 2 ^ 63 ->
  strtoul16 (print_hex n v) = v /\ strtol16 (print_hex n v) = v.
Proof.
  intros Hn Hv Hb. unfold strtoul16, strtol16.
  destruct (scan_hex (print_hex n v)) as [-> ->].
  - apply print_hex_is_hex; lia.
  - intros E. apply (f_equal length) in E. rewrite print_hex_length in E. cbn in E. lia.
  - rewrite print_hex_value, Z.mod_small by lia. unfold u64_max.
    destruct (Z.ltb_spec (2 ^ 64 - 1) v); [lia|]. split; [done|lia].
Qed.

Lemma print_hex_word n v : (0 < n)%nat -> 0 <= v -> word (print_hex n v).
Proof.
  intros Hn Hv. split.
  - intros E. apply (f_equal length) in E. rewrite print_hex_length in E. cbn in E. lia.
  - eapply Forall_impl; [by apply print_hex_is_hex|]. intros c Hc%is_hex_code.
    apply not_true_iff_false. rewrite isspace_code. lia.
Qed.

(** ** Lemmas: addresses *)

Lemma ntop4_wildcard v :
  0 <= v < 2 ^ 32 -> is_wildcard (inet_ntop4 (put_u32 v)) = true <-> v = 0.
Proof.
  intros Hv. unfold is_wildcard. rewrite orb_true_iff, !str_eqb_eq, (ntop4_zero v Hv).
  pose proof (ntop4_not_v6 v). tauto.
Qed.

Lemma parse_hex_word `{InetNtop6} v :
  0 <= v < 2 ^ 32 -> parse_hex_addr (print_hex 8 v) = Some (inet_ntop4 (put_u32 v), false).
Proof.
  intros Hv. unfold parse_hex_addr, len. rewrite print_hex_length. cbn [Z.of_nat Z.eqb].
  destruct (strtoul16_print 8 v) as [-> _]; [lia|lia|lia|]. by rewrite u32_small.
Qed.

(** ** Lemmas: owners of sockets *)

(** The inode a link names, if it is a socket. *)
Definition link_inode (l : str * option str) : option Z :=
  let '(name, target) := l in
  if starts_with (lit ".") name then None
  else
    let t := take 127 (default [] target) in
    if starts_with (lit "socket:[") t && negb (strtoull10 (drop 8 t) =? 0)
    then Some (strtoull10 (drop 8 t)) else None.

(** The processes that have a socket open, in the order of the listing. *)
Definition socket_owners (e : linux_env) (names : list str) : list (Z * Z) :=
  names ≫= fun pid_s =>
    if is_number pid_s then
      match fd_links e pid_s with
      | FdLinks l => l ≫= fun x => match link_inode x with Some i => [(i, strtoll10 pid_s)] | None => [] end
      | _ => []
      end
    else [].

Definition emplace (m : gmap Z Z) (kv : Z * Z) : gmap Z Z :=
  match m !! kv.1 with Some _ => m | None => <[kv.1 := kv.2]> m end.

Lemma emplace_lookup l m i :
  fold_left emplace l m !! i =
  match m !! i with Some p => Some p | None => snd <$> List.find (fun kv => kv.1 =? i) l end.
Proof.
  revert m. induction l as [|[k v] l IH]; intros m; cbn [fold_left List.find fst].
  - by destruct (m !! i).
  - rewrite IH. unfold emplace. cbn [fst snd]. destruct (m !! k) eqn:Ek.
    + destruct (Z.eqb_spec k i) as [->|]; [by rewrite Ek|done].
    + destruct (Z.eqb_spec k i) as [->|Hne]; [by rewrite lookup_insert_eq, Ek|].
      by rewrite lookup_insert_ne.
Qed.

Lemma add_link_emplace pid m x :
  add_link pid m x = fold_left emplace (match link_inode x with Some i => [(i, pid)] | None => [] end) m.
Proof.
  destruct x as [name target]. unfold add_link, link_inode. destruct (starts_with (lit ".") name); [done|].
  destruct (take 127 (default [] target)) as [|c t] eqn:E; [done|]. rewrite <- E.
  destruct (starts_with (lit "socket:[") _); [|done]. cbn [andb].
  destruct (strtoull10 _ =? 0); cbn [negb]; [done|]. cbn [fold_left]. unfold emplace. cbn [fst snd]. done.
Qed.

Lemma add_links pid l m :
  fold_left (add_link pid) l m =
  fold_left emplace (l ≫= fun x => match link_inode x with Some i => [(i, pid)] | None => [] end) m.
Proof.
  revert m. induction l as [|x l IH]; intros m; [done|].
  rewrite bind_cons, fold_left_app. cbn [fold_left]. by rewrite IH, add_link_emplace.
Qed.

Lemma add_processes e names st :
  (fold_left (add_process e) names st).1 = fold_left emplace (socket_owners e names) st.1.
Proof.
  revert st. induction names as [|p names IH]; intros [m d]; [done|]. cbn [fold_left].
  unfold socket_owners. rewrite bind_cons, fold_left_app. fold (socket_owners e names). rewrite IH. f_equal.
  unfold add_process. destruct (is_number p); [|done]. cbn [negb].
  destruct (fd_links e p); [|done..]. apply add_links.
Qed.

(** The first process of the listing that has the socket open. *)
Definition first_owner (e : linux_env) (inode : Z) : option Z :=
  snd <$> List.find (fun kv => kv.1 =? inode) (socket_owners e (default [] (proc_list e).1)).

Lemma inode_to_pid_first e i : (build_inode_to_pid e).1 !! i = first_owner e i.
Proof.
  unfold build_inode_to_pid, first_owner. destruct (proc_list e) as [[names|] err]; cbn [fst]; [|done].
  rewrite add_processes, emplace_lookup. cbn [fst]. by rewrite lookup_empty.
Qed.

Lemma read_tables `{InetNtop6} e ts st :
  (fold_left (read_table e) ts st).1 =
  st.1 ++ (ts ≫= fun '(path, proto, listen_only) => default [] (parse_proc_net e path proto listen_only)).
Proof.
  revert st. induction ts as [|[[path proto] lo] ts IH]; intros [raw ws]; [by rewrite app_nil_r|].
  cbn [fold_left]. rewrite IH, bind_cons. unfold read_table.
  destruct (parse_proc_net e path proto lo); cbn [fst default]; [by rewrite <- app_assoc|done].
Qed.

Lemma socket_before_swo l : StrictWeakOn socket_before l.
Proof.
  split.
  - intros x y _ _. unfold socket_before. destruct (str_eqb (proto x) (proto y)) eqn:E.
    + apply str_eqb_eq in E. rewrite E, str_eqb_refl. cbn [negb]. intros. bools. apply Z.ltb_ge. lia.
    + destruct (str_eqb (proto y) (proto x)) eqn:E'; [apply str_eqb_eq in E'; by rewrite E', str_eqb_refl in E|].
      cbn [negb]. apply str_ltb_asym.
  - intros x y z _ _ _. unfold socket_before.
    destruct (str_eqb (proto x) (proto y)) eqn:E1, (str_eqb (proto y) (proto z)) eqn:E2; cbn [negb].
    + apply str_eqb_eq in E1, E2. rewrite E1, E2, str_eqb_refl. cbn [negb]. intros. bools. apply Z.ltb_ge. lia.
    + apply str_eqb_eq in E1. rewrite E1, E2. done.
    + apply str_eqb_eq in E2. rewrite <- E2, E1. done.
    + intros H1 H2. destruct (str_eqb (proto x) (proto z)) eqn:E3; cbn [negb]; [|by eapply str_ltb_ntrans].
      apply str_eqb_eq in E3. rewrite <- E3 in *. pose proof (str_ltb_total _ _ H1 H2) as E.
      by rewrite E, str_eqb_refl in E1.
Qed.

(** The order of the comparator, spelled out. *)
Lemma socket_order_spelled a b : socket_before b a = false ->
  str_ltb (proto a) (proto b) = true \/ (proto a = proto b /\ local_port a <= local_port b).
Proof.
  unfold socket_before. destruct (str_eqb (proto b) (proto a)) eqn:E; cbn [negb]; intros H.
  - apply str_eqb_eq in E. bools. by right.
  - left. destruct (str_ltb (proto a) (proto b)) eqn:E'; [done|].
    by rewrite (str_ltb_total _ _ H E'), str_eqb_refl in E.
Qed.

(** ** Lemmas: the tables of the kernel *)

(** A socket as the kernel knows it: the words of its address as they are in
    memory, one or four, its port, its state, the user that owns it and its inode. *)
Record ksocket := mkKernel { k_words : list Z; k_port : Z; k_state : Z; k_uid : Z; k_inode : Z }.

Definition ksocket_ok (words : nat) (k : ksocket) : Prop :=
  length (k_words k) = words /\ Forall (fun v => 0 <= v < 2 ^ 32) (k_words k) /\
  0 <= k_port k < 2 ^ 16 /\ 0 <= k_state k < 2 ^ 8 /\ 0 <= k_uid k < 2 ^ 32 /\ 0 <= k_inode k < 2 ^ 64.

(** The line of a socket, as documented in proc(5) and with any number of blanks:
    the slot, the local address and port in hexadecimal, the remote ones, the
    state, the queues, the timer, the retransmissions, the user, the time-out and
    the inode, then columns of the protocol. *)
Definition prints_socket (k : ksocket) (line : str) : Prop :=
  exists sl rem queues timer retrnsmt timeout more,
    words line = [sl; (k_words k ≫= print_hex 8) ++ lit ":" ++ print_hex 4 (k_port k); rem;
                  print_hex 2 (k_state k); queues; timer; retrnsmt; to_string (k_uid k); timeout;
                  to_string (k_inode k)] ++ more.

(** A file of /proc/net: a line with the names of the columns, then a line per
    socket. *)
Definition prints_table (n : nat) (ks : list ksocket) (text : str) : Prop :=
  exists header lines, text = concat ((fun l => l ++ [nl]) <$> header :: lines) /\
    Forall (Forall (fun c => Ascii.eqb c nl = false)) (header :: lines) /\
    Forall2 prints_socket ks lines /\ Forall (ksocket_ok n) ks.

(** What a readable file lists; nothing is known of a file that cannot be read. *)
Definition lists_sockets (f : option str) (n : nat) (ks : list ksocket) : Prop :=
  match f with None => ks = [] | Some text => prints_table n ks text end.

Section Tables.
Context `{InetNtop6}.

Definition address_text (ws : list Z) : str :=
  match ws with [v] => inet_ntop4 (put_u32 v) | _ => inet_ntop6 (ws ≫= put_u32) end.

(** What the parser takes from a line: the number it keeps as the inode is the
    eighth word, which is the user. *)
Definition raw_of (proto : str) (k : ksocket) : RawSocket :=
  mkRaw proto (address_text (k_words k)) (k_port k) (k_uid k).

Lemma parse_hex_words ws :
  Forall (fun v => 0 <= v < 2 ^ 32) ws -> (length ws = 1 \/ length ws = 4)%nat ->
  exists v6, parse_hex_addr (ws ≫= print_hex 8) = Some (address_text ws, v6).
Proof.
  intros Hv [Hl|Hl].
  - destruct ws as [|v [|]]; try done. apply Forall_cons_iff in Hv as [Hv _]. exists false.
    cbn [mbind list_bind]. rewrite app_nil_r. by apply parse_hex_word.
  - destruct ws as [|a [|b [|c [|d [|]]]]]; try done. exists true. unfold parse_hex_addr, len.
    repeat (apply Forall_cons_iff in Hv as [? Hv]). cbn [mbind list_bind]. rewrite app_nil_r.
    rewrite !length_app, !print_hex_length. change (Z.of_nat (8 + (8 + (8 + 8)))) with 32. cbn [Z.eqb Pos.eqb].
    assert (forall x, 0 <= x < 2 ^ 32 -> put_u32 (u32 (strtoul16 (print_hex 8 x))) = put_u32 x) as Hw.
    { intros x Hx. destruct (strtoul16_print 8 x) as [-> _]; [lia|lia|lia|]. by rewrite u32_small. }
    unfold substr. change (1 * 8)%nat with 8%nat. change (2 * 8)%nat with (8 + 8)%nat.
    change (3 * 8)%nat with (8 + (8 + 8))%nat. rewrite <- !drop_drop. cbn [Nat.mul].
    rewrite drop_0, !drop_app_length', take_app_length', take_app_length', take_app_length', take_ge
      by (by rewrite ?print_hex_length).
    rewrite !Hw by done. cbn [address_text mbind list_bind]. by rewrite app_nil_r.
Qed.

(** A line is read back; a TCP socket is kept exactly when it listens. *)
Lemma line_reads n k proto tcp line :
  prints_socket k line -> ksocket_ok n k -> (n = 1 \/ n = 4)%nat ->
  proc_net_line proto tcp line = if tcp && negb (k_state k =? 10) then [] else [raw_of proto k].
Proof.
  intros (sl & rem & queues & timer & retrnsmt & timeout & more & Hl) (Hn & Hw & Hp & Hs & Hi & _) Hn'.
  unfold proc_net_line. rewrite Hl. cbn [app].
  destruct (strtoul16_print 2 (k_state k)) as [_ ->]; [lia|lia|lia|]. change kTcpListen with 10.
  destruct (tcp && negb (k_state k =? 10)); [done|]. unfold rfind_char. change (lit ":") with [":"%char]. cbn [app].
  rewrite find_last_app; [|done|].
  - destruct (parse_hex_words (k_words k)) as [v6 Ha]; [done|lia|].
    set (h := k_words k ≫= print_hex 8) in *. rewrite take_app_length, drop_app_ge, Ha by lia.
    replace (length h + 1 - length h)%nat with 1%nat by lia. cbn [drop].
    rewrite drop_0. destruct (strtoul16_print 4 (k_port k)) as [-> _]; [lia|lia|lia|].
    unfold u16. rewrite Z.mod_small by lia. unfold raw_of. do 2 f_equal.
    rewrite to_string_nonneg by lia. destruct (to_string_u_spec (k_uid k)) as (Hd & Hval & Hne); [lia|].
    rewrite <- (app_nil_r (to_string_u (k_uid k))), strtoull10_digits by (done || lia). done.
  - eapply Forall_impl; [apply print_hex_is_hex; lia|]. intros c Hc%is_hex_code.
    apply Ascii.eqb_neq. intros <-. change (code ":") with 58 in Hc. lia.
Qed.

Definition kept (tcp : bool) (ks : list ksocket) : list ksocket :=
  if tcp then List.filter (fun k => k_state k =? 10) ks else ks.

Lemma table_reads e path proto tcp n ks :
  lists_sockets (file e path) n ks -> (n = 1 \/ n = 4)%nat ->
  default [] (parse_proc_net e path proto tcp) = raw_of proto <$> kept tcp ks.
Proof.
  unfold lists_sockets, parse_proc_net. destruct (file e path) as [text|]; [|intros ->; by destruct tcp].
  intros (header & lines & -> & Hnl & Hl & Hk) Hn. cbn [default from_option]. unfold Datatypes.id.
  rewrite getlines_concat by done. cbn [tail]. clear Hnl.
  induction Hl as [|k line ks lines Hp _ IH]; [by destruct tcp|]. apply Forall_cons_iff in Hk as [Hk0 Hk].
  rewrite bind_cons, (line_reads n k proto tcp line) by done. rewrite IH by done.
  destruct tcp; cbn [andb kept List.filter]; [|done]. by destruct (k_state k =? 10).
Qed.

Lemma put_u32_zero v : 0 <= v < 2 ^ 32 -> put_u32 v = replicate 4 "000"%char <-> v = 0.
Proof.
  intros Hv. split; [|by intros ->]. intros E. rewrite <- (get_put_u32 v [] Hv), app_nil_r, E. done.
Qed.

(** The wildcard address is the one whose words are all zero. *)
Lemma address_wildcard ws :
  Forall (fun v => 0 <= v < 2 ^ 32) ws -> (length ws = 1 \/ length ws = 4)%nat ->
  is_wildcard (address_text ws) = bool_decide (Forall (fun v => v = 0) ws).
Proof.
  intros Hv Hl. apply eq_true_iff_eq. rewrite bool_decide_eq_true. destruct Hl as [Hl|Hl].
  - destruct ws as [|v [|]]; try done. apply Forall_cons_iff in Hv as [Hv _]. cbn [address_text].
    rewrite ntop4_wildcard by done. by rewrite Forall_singleton.
  - destruct ws as [|a [|b [|c [|d [|]]]]]; try done. cbn [address_text]. unfold is_wildcard.
    set (x := [a; b; c; d] ≫= put_u32). assert (length x = 16%nat) as Hx by done.
    rewrite orb_true_iff, !str_eqb_eq, (ntop6_wildcard x Hx). pose proof (ntop6_not_v4 x) as Hn4.
    assert (x = replicate 16 "000"%char <-> Forall (fun v => v = 0) [a; b; c; d]) as Hz; [|tauto].
    rewrite !Forall_cons_iff in Hv. destruct Hv as (Ha & Hb & Hc & Hd & _). unfold x.
    change (replicate 16 "000"%char) with ([0; 0; 0; 0] ≫= put_u32). split.
    + cbn [mbind list_bind]. intros E. do 3 (apply app_inj_1 in E as [? E]; [|done]).
      apply app_inj_1 in E as [? _]; [|done]. repeat constructor; by apply put_u32_zero.
    + intros Hz. rewrite !Forall_cons_iff in Hz. by destruct Hz as (-> & -> & -> & -> & _).
Qed.
End Tables.

(** ** Lemmas: the package query *)

Lemma fgets_line n a r cur :
  Forall (fun c => Ascii.eqb c nl = false) a -> (length cur + length a < n)%nat ->
  fgets_from n (a ++ nl :: r) cur = (cur ++ a ++ [nl]) :: fgets_all n r.
Proof.
  intros Ha. revert cur. induction Ha as [|c a Hc _ IH]; intros cur Hn; cbn [app fgets_from].
  - by rewrite Ascii.eqb_refl.
  - rewrite Hc. cbn [orb]. rewrite length_app. cbn [length] in *.
    destruct (Nat.leb_spec n (length cur + 1)); [lia|].
    rewrite IH by (rewrite length_app; cbn; lia). by rewrite <- app_assoc.
Qed.

Lemma fgets_lines n ls :
  Forall (fun a => Forall (fun c => Ascii.eqb c nl = false) a /\ (length a < n)%nat) ls ->
  fgets_all n (concat ((fun a => a ++ [nl]) <$> ls)) = (fun a => a ++ [nl]) <$> ls.
Proof.
  induction 1 as [|a ls [Ha Hn] _ IH]; [done|]. rewrite !fmap_cons. cbn [concat].
  rewrite <- app_assoc. cbn [app]. unfold fgets_all at 1. rewrite fgets_line by done. by rewrite IH.
Qed.

Lemma next_field_cons d a r :
  Forall (fun c => Ascii.eqb c d = false) a -> next_field d (a ++ d :: r) = (a, r).
Proof.
  intros Ha. unfold next_field, getline. destruct (a ++ d :: r) eqn:E; [by destruct a|]. rewrite <- E.
  rewrite span_all; [done| |by rewrite Ascii.eqb_refl].
  eapply Forall_impl; [exact Ha|]. intros c Hc. cbv beta. by rewrite Hc.
Qed.

(** A row of the query: status, name, version and maintainer. *)
Definition query_row : Type := str * str * str * str.

Definition row_text (r : query_row) : str :=
  let '(status, name, version, vendor) := r in status ++ tab :: name ++ tab :: version ++ tab :: vendor.

Definition query_field (s : str) : Prop :=
  Forall (fun c => Ascii.eqb c tab = false /\ Ascii.eqb c nl = false) s /\ trim s = s.

Definition clean_row (r : query_row) : Prop :=
  let '(status, name, version, vendor) := r in
  query_field status /\ query_field name /\ query_field version /\ query_field vendor /\
  (length (row_text r) < 4095)%nat.

Definition installed_package (source : str) (r : query_row) : list Package :=
  let '(status, name, version, vendor) := r in
  if negb (str_eqb status (lit "installed")) || bool_decide (name = []) then []
  else [mkPackage name version vendor source].

Lemma package_of_row source r : clean_row r -> package_of_query source (row_text r ++ [nl]) = installed_package source r.
Proof.
  destruct r as [[[status name] version] vendor].
  intros ((Hs & Ts) & (Hn & Tn) & (Hv & Tv) & (Hm & Tm) & _).
  assert (forall l, Forall (fun c => Ascii.eqb c tab = false /\ Ascii.eqb c nl = false) l ->
    Forall (fun c => Ascii.eqb c tab = false) l /\ Forall (fun c => Ascii.eqb c nl = false) l) as Hsplit
    by (intros l Hl; split; eapply Forall_impl; [exact Hl| |exact Hl|]; by intros c [? ?]).
  unfold row_text, package_of_query. rewrite <- app_assoc. cbn [app].
  rewrite next_field_cons by (by apply Hsplit). rewrite <- app_assoc. cbn [app].
  rewrite next_field_cons by (by apply Hsplit). rewrite <- app_assoc. cbn [app].
  rewrite next_field_cons by (by apply Hsplit).
  rewrite next_field_cons by (by apply Hsplit).
  by rewrite Ts, Tn, Tv, Tm.
Qed.

Lemma row_text_clean r : clean_row r ->
  Forall (fun c => Ascii.eqb c nl = false) (row_text r) /\ (length (row_text r) < 4095)%nat.
Proof.
  destruct r as [[[status name] version] vendor].
  intros ((Hs & _) & (Hn & _) & (Hv & _) & (Hm & _) & Hlen). split; [|done]. unfold row_text.
  assert (forall l, Forall (fun c => Ascii.eqb c tab = false /\ Ascii.eqb c nl = false) l ->
    Forall (fun c => Ascii.eqb c nl = false) l) as Hsplit
    by (intros l Hl; eapply Forall_impl; [exact Hl|]; by intros c [? ?]).
  apply Forall_app; split; [auto|]. constructor; [done|]. apply Forall_app; split; [auto|].
  constructor; [done|]. apply Forall_app; split; [auto|]. constructor; [done|]. auto.
Qed.

Lemma query_rows source rows :
  Forall clean_row rows ->
  fgets_all 4095 (concat ((fun a => a ++ [nl]) <$> (row_text <$> rows))) ≫= package_of_query source
  = rows ≫= installed_package source.
Proof.
  intros Hr. rewrite fgets_lines.
  - induction Hr as [|r rows Hr _ IH]; [done|]. rewrite !fmap_cons, !bind_cons, IH. by rewrite package_of_row.
  - apply Forall_fmap. eapply Forall_impl; [exact Hr|]. intros r. apply row_text_clean.
Qed.

Lemma package_before_swo l : StrictWeakOn package_before l.
Proof.
  split; intros; unfold package_before in *; [by apply str_ltb_asym|by eapply str_ltb_ntrans].
Qed.

(** ** Lemmas: interfaces *)

Section Interfaces.
Context `{InetNtop6}.

Definition is_named (name : str) (n : ifnode) : bool := bool_decide (ifa_name n = Some name).

(** All nodes of one name, folded into one interface. *)
Definition gather (nodes : list ifnode) (name : str) : NetInterface :=
  fold_left (fun ni n => update_interface n ni) (List.filter (is_named name) nodes) (mkNet name [] [] false false).

Lemma gather_snoc nodes n name :
  gather (nodes ++ [n]) name =
  if is_named name n then update_interface n (gather nodes name) else gather nodes name.
Proof.
  unfold gather. rewrite List.filter_app. cbn [List.filter]. destruct (is_named name n).
  - by rewrite fold_left_app.
  - by rewrite app_nil_r.
Qed.

Record grouped (nodes : list ifnode) (st : gmap str nat * list NetInterface) : Prop := {
  gr_index : forall name i, st.1 !! name = Some i <-> (ni_name <$> st.2) !! i = Some name;
  gr_content : forall i ni, st.2 !! i = Some ni -> ni = gather nodes (ni_name ni);
  gr_cover : forall name, name ∈ ni_name <$> st.2 <-> exists n, n ∈ nodes /\ ifa_name n = Some name }.

Lemma alter_names n i (out : list NetInterface) : ni_name <$> alter (update_interface n) i out = ni_name <$> out.
Proof.
  revert i. induction out as [|x out IH]; intros [|i]; try done. cbn. f_equal. apply IH.
Qed.

Lemma grouped_old nodes index out n name i :
  grouped nodes (index, out) -> ifa_name n = Some name -> index !! name = Some i ->
  grouped (nodes ++ [n]) (index, alter (update_interface n) i out).
Proof.
  intros [Hi Hc Hv] Hn Hl. cbn [fst snd] in *. split; cbn [fst snd].
  - intros name' i'. rewrite alter_names. apply Hi.
  - intros j ni Hj. pose proof (proj1 (Hi name i) Hl) as Hname. rewrite list_lookup_fmap in Hname.
    destruct (decide (i = j)) as [->|Hne].
    + rewrite list_lookup_alter_eq in Hj. destruct (out !! j) as [x|] eqn:Ex; [|done].
      cbn in Hj, Hname. injection Hj as <-. injection Hname as Hx. cbn [update_interface ni_name]. rewrite gather_snoc. unfold is_named.
      rewrite Hn, Hx, bool_decide_eq_true_2 by done. rewrite <- Hx. by rewrite <- (Hc j x Ex).
    + rewrite list_lookup_alter_ne in Hj by done. rewrite gather_snoc. unfold is_named.
      rewrite bool_decide_eq_false_2; [by apply (Hc j)|]. rewrite Hn. intros [= ->].
      apply Hne. assert (index !! ni_name ni = Some j) as Hj'
        by (apply Hi; by rewrite list_lookup_fmap, Hj). congruence.
  - intros name'. rewrite alter_names, Hv. setoid_rewrite elem_of_app. setoid_rewrite list_elem_of_singleton.
    split; [naive_solver|]. intros (n' & [?| ->] & E); [eauto|]. rewrite Hn in E. injection E as <-.
    apply Hv. apply Hi in Hl. by apply list_elem_of_lookup_2 in Hl.
Qed.

Lemma grouped_new nodes index out n name :
  grouped nodes (index, out) -> ifa_name n = Some name -> index !! name = None ->
  grouped (nodes ++ [n]) (<[name := length out]> index,
    out ++ [update_interface n (mkNet name [] [] false false)]).
Proof.
  intros [Hi Hc Hv] Hn Hl. cbn [fst snd] in *.
  assert (forall i, (ni_name <$> out) !! i <> Some name) as Hfresh
    by (intros i E; apply Hi in E; congruence).
  split; cbn [fst snd].
  - intros name' i. rewrite fmap_app. destruct (decide (name = name')) as [->|Hne].
    + rewrite lookup_insert_eq. split.
      * intros [= <-]. rewrite lookup_app_r; rewrite length_fmap; [|lia]. by rewrite Nat.sub_diag.
      * intros E. destruct (decide (i < length out)%nat) as [Hlt|Hge].
        -- rewrite lookup_app_l in E by (rewrite length_fmap; lia). by apply Hfresh in E.
        -- rewrite lookup_app_r in E by (rewrite length_fmap; lia). rewrite length_fmap in E.
           apply lookup_lt_Some in E as Hlen. cbn in Hlen. f_equal. lia.
    + rewrite lookup_insert_ne, Hi by done. split; intros E.
      * apply lookup_lt_Some in E as Hlen. by rewrite lookup_app_l.
      * apply lookup_app_Some in E as [E|[Hlen E]]; [done|]. apply list_lookup_singleton_Some in E as [_ E].
        by destruct Hne.
  - intros i ni E. rewrite gather_snoc. unfold is_named. apply lookup_app_Some in E as [E|[Hlen E]].
    + rewrite bool_decide_eq_false_2; [by apply (Hc i)|]. rewrite Hn. intros [= ->].
      apply (Hfresh i). by rewrite list_lookup_fmap, E.
    + apply list_lookup_singleton_Some in E as [_ <-]. cbn [update_interface ni_name].
      rewrite Hn, bool_decide_eq_true_2 by done. f_equal. unfold gather.
      rewrite (List.filter_ext_in _ (fun _ => false)); [by rewrite filter_false|].
      intros n' Hn'. apply bool_decide_eq_false_2. intros E.
      assert (name ∈ ni_name <$> out) as Hin by (apply Hv; exists n'; split; [by apply list_elem_of_In|done]).
      apply list_elem_of_lookup in Hin as [j Hj]. by apply Hfresh in Hj.
  - intros name'. rewrite fmap_app, elem_of_app, Hv. cbn. rewrite list_elem_of_singleton.
    setoid_rewrite elem_of_app. setoid_rewrite list_elem_of_singleton.
    split; [|naive_solver]. intros [(n' & ? & ?)| ->]; eauto.
Qed.

Lemma nodes_grouped nodes : grouped nodes (fold_left add_node nodes (∅, [])).
Proof.
  induction nodes as [|n nodes IH] using rev_ind.
  - split; cbn; [done|done|]. intros name. split; [by intros ?%elem_of_nil|]. by intros (n & ?%elem_of_nil & _).
  - rewrite fold_left_app. cbn [fold_left]. destruct (fold_left add_node nodes (∅, [])) as [index out].
    unfold add_node. destruct (ifa_name n) as [name|] eqn:En.
    + destruct (index !! name) eqn:El; [by eapply grouped_old|by apply grouped_new].
    + destruct IH as [Hi Hc Hv]. split; [done| |].
      * intros i ni E. rewrite gather_snoc. unfold is_named. rewrite En, bool_decide_eq_false_2 by done.
        by apply (Hc i).
      * intros name. rewrite Hv. setoid_rewrite elem_of_app. setoid_rewrite list_elem_of_singleton.
        split; [naive_solver|]. intros (n' & [?| ->] & E); [eauto|congruence].
Qed.
End Interfaces.

(** ** Properties *)

(** The parent of a process is read correctly whatever its command name is:
    the name may contain blanks, parentheses and whole fake fields, since the
    fields are located from the last closing parenthesis. *)
Theorem stat_ppid_any_name (pid comm state rest : str) (parent : Z)
  (Hs : word state) (Hs' : Forall (fun c => c <> ")"%char) state)
  (Hr : Forall (fun c => c <> ")"%char) rest) (Hp : - 2 ^ 63 <= parent < 2 ^ 63) :
  stat_ppid (pid ++ lit " (" ++ comm ++ lit ") " ++ state ++ lit " " ++ to_string parent ++ lit " " ++ rest)
  = parent.
Proof.
  set (tl := state ++ lit " " ++ to_string parent ++ lit " " ++ rest).
  assert (Forall (fun c => Ascii.eqb ")" c = false) (" "%char :: tl)) as Hclean.
  { assert (forall l, Forall (fun c => c <> ")"%char) l -> Forall (fun c => Ascii.eqb ")" c = false) l)
      as Hconv by (intros l Hl; eapply Forall_impl; [exact Hl|]; intros c Hc; apply Ascii.eqb_neq; congruence).
    apply Hconv. subst tl. constructor; [done|]. repeat (apply Forall_app; split); try done; try (by repeat constructor).
    eapply Forall_impl; [apply to_string_chars|]. by intros c [Hc| ->]; [intros ->|]. }
  unfold stat_ppid.
  replace (pid ++ lit " (" ++ comm ++ lit ") " ++ tl) with ((pid ++ lit " (" ++ comm) ++ ")"%char :: " "%char :: tl)
    by (rewrite <- !app_assoc; done).
  set (pre := pid ++ lit " (" ++ comm). unfold rfind_char. rewrite find_last_app by done.
  assert (tl <> []) as Htl by (destruct Hs as [Hne _]; subst tl; by destruct state).
  destruct (Nat.ltb_spec (length pre + 2) (length (pre ++ ")"%char :: " "%char :: tl))) as [_|Hlen].
  - rewrite drop_app_ge by lia. replace (length pre + 2 - length pre)%nat with 2%nat by lia. cbn [drop]. rewrite drop_0.
    change tl with (state ++ " "%char :: (to_string parent ++ " "%char :: rest)).
    rewrite words_space_cons by done. rewrite words_space_cons by (done || apply to_string_word).
    by apply strtoll10_to_string.
  - rewrite length_app in Hlen. cbn in Hlen. destruct tl; [done|]. cbn in Hlen. lia.
Qed.

Lemma stat_ppid_any_name_witness :
  stat_ppid (lit "42 (evil) R 1 (x)) S 7 0 0") = 7.
Proof.
  apply (stat_ppid_any_name (lit "42") (lit "evil) R 1 (x)") (lit "S") (lit "0 0") 7); [|..|lia].
  - split; [discriminate|]. repeat constructor.
  - repeat constructor; discriminate.
  - repeat constructor; discriminate.
Defined.

(** The collector folds the nodes of [getifaddrs] into one entry per interface
    name, whatever order they come in: names are distinct, every name appears, and
    an interface holds all its addresses, in order, with its last link-layer
    address and flags. *)
Theorem interfaces_grouped `{InetNtop6} (e : linux_env) (nodes : list ifnode)
  (He : getifaddrs e = inl nodes) :
  let out := (linux_collect_interfaces e []).1 in
  NoDup (ni_name <$> out) /\
  (forall name, name ∈ ni_name <$> out <-> exists n, n ∈ nodes /\ ifa_name n = Some name) /\
  (forall ni, ni ∈ out -> ni = gather nodes (ni_name ni)).
Proof.
  unfold linux_collect_interfaces. rewrite He. cbn [fst].
  destruct (nodes_grouped nodes) as [Hi Hc Hv]. split_and!; [|done|].
  - apply NoDup_alt. intros i j name H1 H2. apply Hi in H1, H2. congruence.
  - intros ni Hin. apply list_elem_of_lookup in Hin as [i E]. by apply (Hc i).
Qed.

(** What the report says of a socket of the kernel: its address as text, its
    port, as owner the first process of the /proc listing that has open the socket
    whose inode is the number of the owning user (the code takes the eighth column
    for the inode; see [owner_not_found]), and reachable from outside exactly when
    the address is all zero. *)
Definition reported `{InetNtop6} (e : linux_env) (proto : str) (k : ksocket) : ListeningSocket :=
  mkSocket proto (address_text (k_words k)) (k_port k) (default (-1) (first_owner e (k_uid k)))
    (match first_owner e (k_uid k) with Some p => process_comm e p | None => [] end)
    (bool_decide (Forall (fun v => v = 0) (k_words k))).

Lemma resolve_reported `{InetNtop6} e n ks proto m :
  Forall (ksocket_ok n) ks -> (n = 1 \/ n = 4)%nat -> (forall i, m !! i = first_owner e i) ->
  resolve_socket e m <$> (raw_of proto <$> ks) = reported e proto <$> ks.
Proof.
  intros Hk Hn Hm. rewrite <- list_fmap_compose. induction Hk as [|k ks (Hl & Hw & _) _ IH]; [done|].
  rewrite !fmap_cons, IH. f_equal. unfold reported, resolve_socket, compose, raw_of.
  cbn [raw_inode raw_proto raw_addr raw_port]. rewrite Hm, address_wildcard by (done || lia).
  by destruct (first_owner e (k_uid k)).
Qed.

Lemma listed_ok f n ks tcp : lists_sockets f n ks -> Forall (ksocket_ok n) (kept tcp ks).
Proof.
  intros Hf. assert (Forall (ksocket_ok n) ks) as Hk.
  { unfold lists_sockets in Hf. destruct f; [by destruct Hf as (? & ? & _ & _ & _ & Hk)|by subst]. }
  destruct tcp; [|done]. apply List.Forall_forall. intros k Hin. apply List.filter_In in Hin as [Hin _].
  by apply (proj1 (List.Forall_forall _ _) Hk).
Qed.

(** C37: the socket report of a host whose kernel prints the sockets [tcp], [tcp6],
    [udp] and [udp6] in the four tables of /proc/net, in the format of proc(5) (a
    table that cannot be read counts as empty): exactly the TCP sockets that listen
    and all the UDP sockets, each once, with its address, its port and whether it
    is bound to the all-zero address; sorted by protocol and then port.  The owner
    is looked up under the number in the eighth column, which is the user and not
    the inode. *)
Theorem sockets_reported `{InetNtop6} {HS : StdSort} (e : linux_env) (tcp tcp6 udp udp6 : list ksocket)
  (Ht : lists_sockets (file e (lit "/proc/net/tcp")) 1 tcp)
  (Ht6 : lists_sockets (file e (lit "/proc/net/tcp6")) 4 tcp6)
  (Hu : lists_sockets (file e (lit "/proc/net/udp")) 1 udp)
  (Hu6 : lists_sockets (file e (lit "/proc/net/udp6")) 4 udp6) :
  let out := (linux_collect_sockets e []).1 in
  out ≡ₚ (reported e (lit "tcp") <$> List.filter (fun k => k_state k =? 10) tcp) ++
         (reported e (lit "tcp6") <$> List.filter (fun k => k_state k =? 10) tcp6) ++
         (reported e (lit "udp") <$> udp) ++ (reported e (lit "udp6") <$> udp6) /\
  StronglySorted (fun a b => str_ltb (proto a) (proto b) = true \/
    (proto a = proto b /\ local_port a <= local_port b)) out.
Proof.
  unfold linux_collect_sockets. pose proof (read_tables e net_tables ([], [])) as Hr.
  destruct (fold_left (read_table e) net_tables ([], [])) as [raw ws]. cbn [fst app] in Hr.
  pose proof (inode_to_pid_first e) as Hm. destruct (build_inode_to_pid e) as [m denied]. cbn [fst app] in *.
  split.
  - rewrite std_sort_perm by apply socket_before_swo. unfold net_tables in Hr. rewrite !bind_cons in Hr.
    rewrite (table_reads _ _ _ _ 1 tcp), (table_reads _ _ _ _ 4 tcp6), (table_reads _ _ _ _ 1 udp),
      (table_reads _ _ _ _ 4 udp6) in Hr by auto.
    rewrite Hr, !fmap_app. rewrite (resolve_reported e 1), (resolve_reported e 4), (resolve_reported e 1),
      (resolve_reported e 4) by (auto || by eapply listed_ok).
    cbn [kept fmap list_fmap mbind list_bind]. by rewrite app_nil_r.
  - eapply (StronglySorted_on (fun _ => True)); [by apply Forall_true|by apply std_sort_sorted, socket_before_swo|].
    intros a b _ _. apply socket_order_spelled.
Qed.

(** The package report: of the rows the package query prints (each shorter than
    the line buffer), exactly the installed ones with a name, each with its version
    and maintainer, sorted by name. *)
Theorem packages_installed {HS : StdSort} (e : linux_env) (rows : list query_row)
  (Hd : exists_ e (lit "/var/lib/dpkg/status") = true)
  (Hq : popen e = inl (concat ((fun a => a ++ [nl]) <$> (row_text <$> rows))))
  (Hr : Forall clean_row rows) :
  let out := (linux_collect_packages e []).1 in
  out ≡ₚ rows ≫= installed_package (lit "dpkg") /\
  StronglySorted (fun a b => package_before b a = false) out.
Proof.
  unfold linux_collect_packages. rewrite Hd, Hq. cbn [negb andb fst app]. rewrite query_rows by done.
  split; [by apply std_sort_perm, package_before_swo|by apply std_sort_sorted, package_before_swo].
Qed.

(** ** The properties at work *)

(** A web server that listens on every address, one of its connections, and no
    other table. *)
Definition tcp_header : str := lit "  sl  local_address rem_address   st tx_queue rx_queue tr tm->when retrnsmt   uid  timeout inode".
Definition tcp_listen : str :=
  lit "   0: 00000000:1F90 00000000:0000 0A 00000000:00000000 00:00000000 00000000  1000        0 4242 1".
Definition tcp_connection : str :=
  lit "   1: 0100007F:1F90 0100007F:C350 01 00000000:00000000 00:00000000 00000000  1000        0 4243 1".

Definition web_host : linux_env :=
  mkLinux (fun p => if str_eqb p (lit "/proc/net/tcp")
                    then Some (tcp_header ++ [nl] ++ tcp_listen ++ [nl] ++ tcp_connection ++ [nl])
                    else if str_eqb p (lit "/proc/17/comm") then Some (lit "nginx" ++ [nl]) else None)
    (Some [lit "1"; lit "17"], []) (fun p => if str_eqb p (lit "17") then FdLinks [(lit "3", Some (lit "socket:[4242]"))] else FdDenied)
    (fun _ => None) (fun _ => None) (inl (lit "host")) (inl (lit "6.1", lit "x86_64")) (inl []) (fun _ => false) (inr []) 0.

Lemma web_host_tables :
  lists_sockets (file web_host (lit "/proc/net/tcp")) 1
    [mkKernel [0] 8080 10 1000 4242; mkKernel [0x0100007F] 8080 1 1000 4243].
Proof.
  exists tcp_header, [tcp_listen; tcp_connection]. split; [reflexivity|]. split; [repeat constructor|].
  split; [|repeat constructor; vm_compute; congruence].
  apply Forall2_cons_2; [|apply Forall2_cons_2; [|apply Forall2_nil_2]];
    do 7 eexists; vm_compute; reflexivity.
Qed.

Lemma sockets_reported_witness :
  (linux_collect_sockets web_host []).1 ≡ₚ [mkSocket (lit "tcp") (lit "0.0.0.0") 8080 (-1) [] true].
Proof.
  destruct (sockets_reported web_host _ [] [] [] web_host_tables) as [Hp _]; [reflexivity..|]. exact Hp.
Defined.

(** The owner of a socket is not found although the process that has it open can
    be read: the server's socket has the inode 4242 and process 17 has it open,
    but what is looked up is the user, 1000. *)
Theorem owner_not_found :
  first_owner web_host 4242 = Some 17 /\ process_comm web_host 17 = lit "nginx" /\
  (fun s => (local_port s, s_pid s, process_name s)) <$> (linux_collect_sockets web_host []).1
  = [(8080, -1, [])].
Proof. vm_compute. repeat split; reflexivity. Qed.

Definition sample_linux (nodes : list ifnode) (query : str) : linux_env :=
  mkLinux (fun _ => None) (Some [lit "1"; lit "self"], []) (fun _ => FdDenied) (fun _ => None) (fun _ => None)
    (inl (lit "host")) (inl (lit "6.1", lit "x86_64")) (inl nodes)
    (fun p => str_eqb p (lit "/var/lib/dpkg/status")) (inl query) 0.

Lemma interfaces_grouped_witness :
  let nodes := [mkNode (Some (lit "lo")) 9 (Some (SaInet ["127"; "000"; "000"; "001"]%char))
                  (Some ["255"; "000"; "000"; "000"]%char);
                mkNode (Some (lit "eth0")) 1 None None;
                mkNode (Some (lit "lo")) 9 (Some (SaInet6 (replicate 16 "000"%char))) None] in
  (linux_collect_interfaces (sample_linux nodes []) []).1
  = [mkNet (lit "lo") [] [lit "127.0.0.1/8"; lit "::/0"] true true; mkNet (lit "eth0") [] [] true false] /\
  NoDup (ni_name <$> (linux_collect_interfaces (sample_linux nodes []) []).1).
Proof.
  intros nodes. split; [vm_compute; reflexivity|].
  apply (interfaces_grouped (sample_linux nodes []) nodes). reflexivity.
Defined.

Lemma packages_installed_witness :
  let rows := [(lit "installed", lit "openssl", lit "3.0.2-0ubuntu1", lit "Ubuntu");
               (lit "config-files", lit "nginx", lit "1.18", lit "x");
               (lit "installed", lit "bash", lit "5.1", lit "y")] in
  let e := sample_linux [] (concat ((fun a => a ++ [nl]) <$> (row_text <$> rows))) in
  (linux_collect_packages e []).1 ≡ₚ rows ≫= installed_package (lit "dpkg").
Proof.
  intros rows e. apply (packages_installed e rows); [reflexivity|reflexivity|].
  repeat (constructor; [split_and!; first [vm_compute; lia | split; [repeat constructor|reflexivity]]|]).
  constructor.
Defined.

(** The note about a missing package database never reaches the report: the
    collector is marked as not implemented, and its warnings are dropped. *)
Example missing_database_note_lost :
  let e := mkLinux (fun _ => None) (Some [], []) (fun _ => FdGone) (fun _ => None) (fun _ => None)
    (inl (lit "host")) (inl (lit "6.1", lit "x86_64")) (inl []) (fun _ => false) (inl []) 0 in
  let inv := (collect_inventory (H := linux_platform e) 0 0 0 0 (mkLog Info [])).1 in
  last (warnings inv) = Some (lit "packages: not implemented on linux yet") /\
  st_warnings (linux_collect_packages e []).2
  = [lit "no dpkg or rpm database found; installed software not collected"].
Proof. split; reflexivity. Qed.

(** One kernel thread on the host: the warning speaks of two processes, since a
    process without an executable link is also in the list. *)
Example no_exe_counted_twice :
  let e := mkLinux (fun p => if str_eqb p (lit "/proc/2/comm") then Some (lit "kthreadd") else None)
    (Some [lit "2"], []) (fun _ => FdGone) (fun _ => None) (fun _ => None) (inl (lit "host"))
    (inl (lit "6.1", lit "x86_64")) (inl []) (fun _ => false) (inl []) 0 in
  length (linux_collect_processes e []).1 = 1%nat /\
  st_warnings (linux_collect_processes e []).2
  = [lit "1 of 2 processes had no readable exe link (kernel threads, or run as root for full coverage)"].
Proof. split; reflexivity. Qed.
