(* ===== verification/PlatformWindows.v ===== *)
(** * The Windows collectors (src/platform/platform_windows.cpp)

    What the collectors make of what Windows answers: each call of the operating
    system is a field of [win_env], with its error code where it fails.  Sizes of
    buffers are kept where the code passes them around: the registry reads, the
    adapter list and the socket tables.  The collectors together are an instance
    of the platform interface of Inventory.v. *)
From S2P Require Import Prelude CppStd Double Json Log Inventory Algorithms Cve Frame WinStr Inet.
From Stdlib Require Import Ascii.

#[local] Open Scope Z_scope.

Definition kErrorFileNotFound : Z := 2.
Definition kErrorBufferOverflow : Z := 111.
Definition kErrorInsufficientBuffer : Z := 122.

Definition last_error_string (api : str) (err : Z) : str := api ++ lit " failed, error " ++ to_string err.

(** ** The environment *)

(** A string value: the answer to the call that asks for its size (in bytes), and
    what the call that reads it finds (without the terminator). *)
Record reg_sz := mkSz { sz_size : Z + Z; sz_data : wstr + Z }.

(** A key under Uninstall: the values the scan reads. *)
Record reg_entry := mkEntry {
  display_name : reg_sz; display_version : reg_sz; publisher : reg_sz; system_component : option Z }.

(** [RegEnumKeyExW] index by index, up to the end of the key: an error, or a name
    whose key can be opened or not. *)
Inductive enum_result := EnumFail (rc : Z) | EnumKey (e : option reg_entry).

(** An adapter as [GetAdaptersAddresses] lists it. *)
Inductive win_addr := WaInet (a : str) | WaInet6 (a : str) | WaOther.
Record adapter := mkAdapter {
  friendly_name : option wstr; oper_up : bool; software_loopback : bool; physical_address : str;
  unicast : list (win_addr * Z) }.

(** An answer of [GetAdaptersAddresses]: the list, a size that is needed, or
    another error. *)
Inductive adapters_answer := AdOk (l : list adapter) | AdOverflow (need : Z) | AdError (rc : Z).

(** A row of a socket table: the address, the port field and the owner. *)
Record table_row := mkRow { row_addr : str; row_port : Z; row_pid : Z }.

(** The two calls that fetch a table: the answer to the first and the size it
    asks for, and the rows or an error for a buffer of a given size. *)
Record table_calls := mkCalls { first_rc : Z; first_size : Z; second_call : Z -> list table_row + Z }.

Record snapshot_entry := mkSnap {
  th_pid : Z; th_ppid : Z; sz_exe : wstr;
  image_path : option wstr  (* of the process, if it can be opened and asked *) }.

(** The roots of the registry the scan opens. *)
Inductive hkey := HKEY_LOCAL_MACHINE | HKEY_CURRENT_USER.

Record win_env := mkWin {
  computer_name : wstr + Z;
  current_version : str -> reg_sz;         (* values of the CurrentVersion key *)
  processor_architecture : Z;
  adapters : nat -> Z -> adapters_answer;  (* the n-th call, with this much room *)
  snapshot : (list snapshot_entry + Z) + Z; (* the first entry, or the snapshot itself, can fail *)
  socket_table : bool -> bool -> table_calls;  (* ipv6, udp *)
  uninstall : hkey -> str -> Z -> Z + list enum_result  (* root, path, KEY_WOW64 flags *) }.

Section Collectors.
Context {HW : Utf16} {HN : InetNtop6} {HS : StdSort}.

(** ** Registry values *)

(** Units in the buffer that is allocated for a value of this many bytes. *)
Definition sz_room (bytes : Z) : Z := bytes / 2 + 1.

(** The value and its terminator must fit the buffer; [None] leaves the
    destination alone. *)
Definition reg_value_string (v : reg_sz) : option str :=
  match sz_size v with
  | inr _ => None
  | inl bytes =>
      if bytes =? 0 then None
      else
        match sz_data v with
        | inr _ => None
        | inl w => if Z.of_nat (length w) + 1 <=? sz_room bytes then Some (utf8_from_wide (Some (c_wstr w))) else None
        end
  end.

(** [reg_read_string], the same against a root and a subkey. *)
Definition reg_read_string (e : win_env) (value : str) : option str := reg_value_string (current_version e value).

(** ** Host *)

Definition native_arch (e : win_env) : str :=
  let a := processor_architecture e in
  if a =? 9 then lit "x86_64" else if a =? 12 then lit "arm64"
  else if a =? 5 then lit "arm" else if a =? 0 then lit "x86" else [].

(** [strtol(s, nullptr, 10)] where [long] has 32 bits. *)
Definition strtol10 (s : str) : Z := Z.max (- 2 ^ 31) (Z.min (2 ^ 31 - 1) (strtoll10 s)).

(** The product name still says Windows 10 on Windows 11. *)
Definition correct_name (build os : str) : str :=
  if (22000 <=? strtol10 (c_str build)) && starts_with (lit "Windows 10") os
  then lit "Windows 11" ++ drop 10 os else os.

Definition win_collect_host (e : win_env) (out : HostInfo) : HostInfo * Status :=
  let '(host, ws) :=
    match computer_name e with
    | inl w => (utf8_from_wide (Some w), [])
    | inr err => (hostname out, [last_error_string (lit "GetComputerNameExW") err])
    end in
  let '(os, ws) :=
    match reg_read_string e (lit "ProductName") with
    | Some n => (n, ws)
    | None => (os_name out, ws ++ [lit "could not read ProductName from the registry"])
    end in
  let version :=
    match reg_read_string e (lit "DisplayVersion") with
    | Some v => v
    | None => default (os_version out) (reg_read_string e (lit "ReleaseId"))
    end in
  let '(os, kern, ws) :=
    match reg_read_string e (lit "CurrentBuildNumber") with
    | Some build => (correct_name build os, lit "10.0." ++ build, ws)
    | None => (os, kernel out, ws ++ [lit "could not read CurrentBuildNumber from the registry"])
    end in
  let a := native_arch e in
  (mkHost host os version kern a,
   mkStatus true (ws ++ match a with [] => [lit "unrecognised processor architecture"] | _ => [] end)).

(** ** Interfaces *)

(** The loop around [GetAdaptersAddresses]: how much room the buffer has, the size
    that is passed and the answer to each call made. *)
Fixpoint query_adapters (e : win_env) (attempts n : nat) (room size : Z)
    : adapters_answer * list (Z * Z) :=
  match attempts with
  | O => (AdError 0, [])
  | S k =>
      match adapters e n size with
      | AdOverflow need =>
          match k with
          | O => (AdOverflow need, [(room, size)])
          | S _ => let '(a, calls) := query_adapters e k (S n) (u32 need) (u32 need) in (a, (room, size) :: calls)
          end
      | a => (a, [(room, size)])
      end
  end.

Definition adapter_query (e : win_env) : adapters_answer * list (Z * Z) :=
  query_adapters e 4 0 (15 * 1024) (15 * 1024).

Definition sockaddr_to_string (a : win_addr) : str :=
  match a with WaInet b => inet_ntop4 b | WaInet6 b => inet_ntop6 b | WaOther => [] end.

Definition unicast_address (u : win_addr * Z) : list str :=
  match sockaddr_to_string u.1 with [] => [] | s => [s ++ lit "/" ++ to_string u.2] end.

Definition adapter_interface (a : adapter) : NetInterface :=
  mkNet (utf8_from_wide (friendly_name a))
    (if len (physical_address a) =? 6 then mac_text (physical_address a) else [])
    (unicast a ≫= unicast_address) (oper_up a) (software_loopback a).

Definition win_collect_interfaces (e : win_env) (out : list NetInterface) : list NetInterface * Status :=
  match (adapter_query e).1 with
  | AdOk l => (out ++ (adapter_interface <$> l), mkStatus true [])
  | AdOverflow _ =>
      (out, mkStatus true [lit "GetAdaptersAddresses failed, status " ++ to_string kErrorBufferOverflow])
  | AdError rc => (out, mkStatus true [lit "GetAdaptersAddresses failed, status " ++ to_string rc])
  end.

(** ** Processes *)

Definition process_of (x : snapshot_entry) : Process :=
  mkProcess (th_pid x) (th_ppid x) (utf8_from_wide (Some (sz_exe x))) (utf8_from_wide (image_path x)) [].

(** [emplace] keeps the first name of a pid. *)
Definition name_process (m : gmap Z str) (x : snapshot_entry) : gmap Z str :=
  match m !! th_pid x with Some _ => m | None => <[th_pid x := utf8_from_wide (Some (sz_exe x))]> m end.

Definition take_process_snapshot (e : win_env) : (list Process * gmap Z str) + str :=
  match snapshot e with
  | inr err => inr (last_error_string (lit "CreateToolhelp32Snapshot") err)
  | inl (inr err) => inr (last_error_string (lit "Process32FirstW") err)
  | inl (inl l) => inl (process_of <$> l, fold_left name_process l ∅)
  end.

Definition unresolved (procs : list Process) : list Process :=
  List.filter (fun p => bool_decide (exe_path p = [])) procs.

Definition win_collect_processes (e : win_env) (out : list Process) : list Process * Status :=
  match take_process_snapshot e with
  | inr err => (out, mkStatus true [err])
  | inl (procs, _) =>
      let n := Z.of_nat (length (unresolved procs)) in
      (procs, mkStatus true
        (if 0 <? n then
           [to_string n ++ lit " of " ++ to_string (Z.of_nat (length procs)) ++
            lit " processes had no readable image path (run elevated for full coverage)"]
         else []))
  end.

(** ** Sockets *)

Definition is_wildcard (addr : str) : bool := str_eqb addr (lit "0.0.0.0") || str_eqb addr (lit "::").

(** [ntohs] on a little-endian machine. *)
Definition ntohs (p : Z) : Z := Z.lor (Z.shiftl (Z.land p 0xFF) 8) (Z.shiftr p 8).
Definition port_from_dword (p : Z) : Z := ntohs (u16 (Z.land p 0xFFFF)).

(** The size is asked for first; only a table that wants a buffer is fetched. *)
Definition fetch_table (e : win_env) (ipv6 udp : bool) : option (list table_row) :=
  let c := socket_table e ipv6 udp in
  if negb (first_rc c =? kErrorInsufficientBuffer) then None
  else match second_call c (first_size c) with inl rows => Some rows | inr _ => None end.

Definition row_socket (names : gmap Z str) (proto : str) (ipv6 : bool) (r : table_row) : ListeningSocket :=
  let addr := if ipv6 then inet_ntop6 (row_addr r) else inet_ntop4 (row_addr r) in
  mkSocket proto addr (port_from_dword (row_port r)) (row_pid r) (default [] (names !! row_pid r)) (is_wildcard addr).

(** The four tables, in the order they are read. *)
Definition tables : list (bool * bool * str * str) :=
  [(false, false, lit "tcp", lit "GetExtendedTcpTable(AF_INET) failed");
   (true, false, lit "tcp6", lit "GetExtendedTcpTable(AF_INET6) failed");
   (false, true, lit "udp", lit "GetExtendedUdpTable(AF_INET) failed");
   (true, true, lit "udp6", lit "GetExtendedUdpTable(AF_INET6) failed")].

Definition read_win_table (e : win_env) (names : gmap Z str) (st : list ListeningSocket * list str)
    (t : bool * bool * str * str) : list ListeningSocket * list str :=
  let '(out, ws) := st in
  let '(ipv6, udp, proto, warning) := t in
  match fetch_table e ipv6 udp with
  | Some rows => (out ++ (row_socket names proto ipv6 <$> rows), ws)
  | None => (out, ws ++ [warning])
  end.

Definition win_socket_before (a b : ListeningSocket) : bool :=
  if negb (str_eqb (proto a) (proto b)) then str_ltb (proto a) (proto b) else local_port a <? local_port b.

Definition win_collect_sockets (e : win_env) (out : list ListeningSocket) : list ListeningSocket * Status :=
  let '(names, ws) :=
    match take_process_snapshot e with
    | inl (_, names) => (names, [])
    | inr err => (∅, [lit "process names unavailable (" ++ err ++ lit "); pids reported unresolved"])
    end in
  let '(out, ws) := fold_left (read_win_table e names) tables (out, ws) in
  (std_sort win_socket_before out, mkStatus true ws).

(** ** Packages *)

Definition hidden (x : reg_entry) : bool :=
  match system_component x with Some v => v =? 1 | None => false end.

(** The package an entry of a view stands for, if it is one. *)
Definition entry_package (label : str) (x : reg_entry) : list Package :=
  match reg_value_string (display_name x) with
  | Some (c :: n) =>
      if hidden x then []
      else [mkPackage (c :: n) (default [] (reg_value_string (display_version x)))
              (default [] (reg_value_string (publisher x))) label]
  | _ => []
  end.

(** The loop over the keys of a view; an error of the enumeration ends it. *)
Fixpoint scan_entries (label : str) (l : list enum_result) (out : list Package) : list Package * list str :=
  match l with
  | [] => (out, [])
  | EnumFail rc :: _ => (out, [lit "RegEnumKeyExW stopped early in " ++ label ++ lit ", status " ++ to_string rc])
  | EnumKey None :: l' => scan_entries label l' out
  | EnumKey (Some x) :: l' => scan_entries label l' (out ++ entry_package label x)
  end.

Record UninstallView := mkView { v_root : hkey; v_path : str; v_extra : Z; v_label : str }.

Definition scan_uninstall_view (e : win_env) (view : UninstallView) (out : list Package)
    : list Package * list str :=
  match uninstall e (v_root view) (v_path view) (v_extra view) with
  | inl rc =>
      (out, if rc =? kErrorFileNotFound then []
            else [lit "could not open the " ++ v_label view ++ lit " uninstall key, status " ++ to_string rc])
  | inr l => scan_entries (v_label view) l out
  end.

Definition kWow64_64Key : Z := 0x100.
Definition kWow64_32Key : Z := 0x200.

Definition views : list UninstallView :=
  [mkView HKEY_LOCAL_MACHINE (lit "SOFTWARE\Microsoft\Windows\CurrentVersion\Uninstall") kWow64_64Key
     (lit "windows-registry");
   mkView HKEY_LOCAL_MACHINE (lit "SOFTWARE\Microsoft\Windows\CurrentVersion\Uninstall") kWow64_32Key
     (lit "windows-registry-wow64");
   mkView HKEY_CURRENT_USER (lit "SOFTWARE\Microsoft\Windows\CurrentVersion\Uninstall") 0
     (lit "windows-registry-hkcu")].

Definition win_package_before (a b : Package) : bool :=
  if negb (str_eqb (pk_name a) (pk_name b)) then str_ltb (pk_name a) (pk_name b)
  else str_ltb (pk_version a) (pk_version b).

Definition same_package (a b : Package) : bool :=
  str_eqb (pk_name a) (pk_name b) && str_eqb (pk_version a) (pk_version b).

(** The views in turn, into one list. *)
Definition scan_views (e : win_env) (out : list Package) : list Package * list str :=
  fold_left (fun '(out, ws) v => let '(out, w) := scan_uninstall_view e v out in (out, ws ++ w))
    views (out, []).

Definition win_collect_packages (e : win_env) (out : list Package) : list Package * Status :=
  let '(out, ws) := scan_views e out in
  let out := std_unique same_package (std_sort win_package_before out) in
  (out, mkStatus true
    (ws ++ match out with [] => [lit "no installed software found in any registry view"] | _ => [] end)).

End Collectors.

Definition windows_platform `{Utf16} `{InetNtop6} {HS : StdSort} (e : win_env) : Platform := {|
  platform_name := lit "windows";
  collect_host := win_collect_host e;
  collect_interfaces := win_collect_interfaces e;
  collect_listening_sockets := win_collect_sockets e;
  collect_processes := win_collect_processes e;
  collect_packages := win_collect_packages e
|}.

(** ** Lemmas *)

Section Lemmas.
Context {HW : Utf16} {HN : InetNtop6} {HS : StdSort}.

(** Two keys compared one after the other. *)
Lemma package_order_asym a b : win_package_before a b = true -> win_package_before b a = false.
Proof.
  unfold win_package_before. rewrite (str_eqb_sym (pk_name b)).
  destruct (str_eqb (pk_name a) (pk_name b)); cbn; apply str_ltb_asym.
Qed.

Lemma package_order_eq a b :
  same_package a b = true <-> win_package_before a b = false /\ win_package_before b a = false.
Proof.
  unfold same_package, win_package_before. rewrite (str_eqb_sym (pk_name b)), andb_true_iff, !str_eqb_eq.
  destruct (str_eqb (pk_name a) (pk_name b)) eqn:E; cbn; split.
  - intros [_ ->]. by rewrite str_ltb_irrefl.
  - apply str_eqb_eq in E. intros [H1 H2]. split; [done|]. by apply str_ltb_total.
  - intros [E' _]. apply str_eqb_eq in E'. congruence.
  - intros [H1 H2]. pose proof (str_ltb_total _ _ H1 H2) as E'. apply str_eqb_eq in E'. congruence.
Qed.

Lemma package_order_ntrans a b c :
  win_package_before a b = false -> win_package_before b c = false -> win_package_before a c = false.
Proof.
  unfold win_package_before.
  destruct (str_eqb (pk_name a) (pk_name b)) eqn:E1, (str_eqb (pk_name b) (pk_name c)) eqn:E2; cbn.
  - apply str_eqb_eq in E1, E2. rewrite E1, E2, str_eqb_refl. cbn. apply str_ltb_ntrans.
  - apply str_eqb_eq in E1. rewrite E1, E2. done.
  - apply str_eqb_eq in E2. rewrite <- E2, E1. done.
  - intros H1 H2. destruct (str_eqb (pk_name a) (pk_name c)) eqn:E3; cbn; [|by eapply str_ltb_ntrans].
    apply str_eqb_eq in E3. rewrite <- E3 in *. pose proof (str_ltb_total _ _ H1 H2) as E.
    by rewrite E, str_eqb_refl in E1.
Qed.

Lemma package_order_spelled a b : win_package_before a b = true ->
  str_ltb (pk_name a) (pk_name b) = true \/
  (pk_name a = pk_name b /\ str_ltb (pk_version a) (pk_version b) = true).
Proof.
  unfold win_package_before. destruct (str_eqb (pk_name a) (pk_name b)) eqn:E; cbn; [|by left].
  apply str_eqb_eq in E. by right.
Qed.

(** The entries the enumeration of a view gets to and can open. *)
Fixpoint readable_entries (l : list enum_result) : list reg_entry :=
  match l with
  | [] | EnumFail _ :: _ => []
  | EnumKey None :: l' => readable_entries l'
  | EnumKey (Some x) :: l' => x :: readable_entries l'
  end.

Definition view_software (e : win_env) (v : UninstallView) : list Package :=
  match uninstall e (v_root v) (v_path v) (v_extra v) with
  | inl _ => []
  | inr l => readable_entries l ≫= entry_package (v_label v)
  end.

Lemma scan_entries_shown label l out :
  (scan_entries label l out).1 = out ++ (readable_entries l ≫= entry_package label).
Proof.
  revert out. induction l as [|[rc|[x|]] l IH]; intros out; cbn; try by rewrite app_nil_r.
  - by rewrite IH, <- app_assoc.
  - apply IH.
Qed.

Lemma scan_views_shown e out : (scan_views e out).1 = out ++ (views ≫= view_software e).
Proof.
  unfold scan_views. generalize views as vs. intros vs.
  assert (forall st : list Package * list str, (fold_left (fun '(out, ws) v =>
    let '(out, w) := scan_uninstall_view e v out in (out, ws ++ w)) vs st).1
    = st.1 ++ (vs ≫= view_software e)) as H; [|by rewrite H].
  induction vs as [|v vs IH]; intros [o ws]; [by rewrite app_nil_r|].
  cbn [fold_left]. rewrite IH, bind_cons. unfold scan_uninstall_view, view_software at 2.
  destruct (uninstall e _ _ _) as [rc|l]; cbn [fst]; [done|].
  pose proof (scan_entries_shown (v_label v) l o) as E. destruct (scan_entries _ l o) as [o' w]. cbn [fst] in *.
  by rewrite E, <- app_assoc.
Qed.

(** What the registry shows, independently of the scan.  An entry of a key can be
    read when it can be opened and no error ends the enumeration before it. *)
Definition entry_of (l : list enum_result) (x : reg_entry) : Prop :=
  exists before after, l = before ++ EnumKey (Some x) :: after /\ forall rc, EnumFail rc ∉ before.

(** The places where software registers itself and what the report calls them. *)
Definition registered (e : win_env) (label : str) (x : reg_entry) : Prop :=
  exists l, entry_of l x /\
    ((uninstall e HKEY_LOCAL_MACHINE (lit "SOFTWARE\Microsoft\Windows\CurrentVersion\Uninstall") 0x100 = inr l /\
      label = lit "windows-registry") \/
     (uninstall e HKEY_LOCAL_MACHINE (lit "SOFTWARE\Microsoft\Windows\CurrentVersion\Uninstall") 0x200 = inr l /\
      label = lit "windows-registry-wow64") \/
     (uninstall e HKEY_CURRENT_USER (lit "SOFTWARE\Microsoft\Windows\CurrentVersion\Uninstall") 0 = inr l /\
      label = lit "windows-registry-hkcu")).

(** A registered entry with a name that is not marked as a system component. *)
Definition shown_software (e : win_env) (p : Package) : Prop :=
  exists x, registered e (source p) x /\ system_component x <> Some 1 /\
    reg_value_string (display_name x) = Some (pk_name p) /\ pk_name p <> [] /\
    pk_version p = default [] (reg_value_string (display_version x)) /\
    pk_vendor p = default [] (reg_value_string (publisher x)).

Lemma entry_of_iff l x : entry_of l x <-> x ∈ readable_entries l.
Proof.
  split.
  - intros (a & b & -> & Ha). induction a as [|r a IH]; [by constructor|].
    assert (forall rc, EnumFail rc ∉ a) as Ha' by (intros rc; specialize (Ha rc); set_solver).
    destruct r as [rc|[y|]]; cbn; [exfalso; apply (Ha rc); by constructor|constructor; by apply IH|by apply IH].
  - induction l as [|[rc|[y|]] l IH]; cbn; try by intros []%elem_of_nil.
    + intros [->|Hx]%elem_of_cons; [exists [], l; split; [done|]; intros rc []%elem_of_nil|].
      destruct (IH Hx) as (a & b & -> & Ha). exists (EnumKey (Some y) :: a), b. split; [done|].
      intros rc [?|?]%elem_of_cons; [done|by apply (Ha rc)].
    + intros Hx. destruct (IH Hx) as (a & b & -> & Ha). exists (EnumKey None :: a), b. split; [done|].
      intros rc [?|?]%elem_of_cons; [done|by apply (Ha rc)].
Qed.

Lemma entry_package_iff label x p :
  p ∈ entry_package label x <->
  source p = label /\ system_component x <> Some 1 /\
  reg_value_string (display_name x) = Some (pk_name p) /\ pk_name p <> [] /\
  pk_version p = default [] (reg_value_string (display_version x)) /\
  pk_vendor p = default [] (reg_value_string (publisher x)).
Proof.
  unfold entry_package. assert (hidden x = true <-> system_component x = Some 1) as Hh.
  { unfold hidden. destruct (system_component x) as [v|]; [|done].
    destruct (Z.eqb_spec v 1) as [->|]; split; intros; simplify_eq; done. }
  destruct (reg_value_string (display_name x)) as [[|c n]|].
  - split; [by intros []%elem_of_nil|]. naive_solver.
  - destruct (hidden x).
    { split; [by intros []%elem_of_nil|]. naive_solver. }
    rewrite list_elem_of_singleton. split.
    + intros ->. split_and!; try done. naive_solver.
    + intros (E1 & _ & [= E2] & _ & E3 & E4). destruct p; simpl in *. congruence.
  - split; [by intros []%elem_of_nil|]. naive_solver.
Qed.

Lemma shown_iff e p : p ∈ views ≫= view_software e <-> shown_software e p.
Proof.
  rewrite list_elem_of_bind. unfold shown_software, registered. split.
  - intros (v & Hp & Hv). unfold view_software in Hp.
    destruct (uninstall e _ _ _) as [rc|l] eqn:El; [by apply elem_of_nil in Hp|].
    apply list_elem_of_bind in Hp as (x & Hp & Hx). apply entry_of_iff in Hx.
    apply entry_package_iff in Hp as (-> & H). exists x. split; [|done]. exists l. split; [done|].
    unfold views in Hv. rewrite !elem_of_cons in Hv. destruct Hv as [->|[->|[->|[]%elem_of_nil]]]; auto.
  - intros (x & (l & Hx & Hv) & H). apply entry_of_iff in Hx.
    assert (forall v, uninstall e (v_root v) (v_path v) (v_extra v) = inr l -> v_label v = source p ->
      p ∈ view_software e v) as Hin.
    { intros v El Hl. unfold view_software. rewrite El. apply list_elem_of_bind. exists x. split; [|done].
      by apply entry_package_iff. }
    destruct Hv as [[El Es]|[[El Es]|[El Es]]];
      lazymatch type of El with uninstall _ ?r ?pa ?x = _ =>
        exists (mkView r pa x (source p)); split; [by apply Hin|]; rewrite Es; unfold views end;
      rewrite !elem_of_cons; auto.
Qed.

(** The first process of the snapshot with a pid. *)
Definition first_name (e : win_env) (pid : Z) : option str :=
  match snapshot e with
  | inl (inl l) => (fun x => utf8_from_wide (Some (sz_exe x))) <$> List.find (fun x => th_pid x =? pid) l
  | _ => None
  end.

Lemma name_processes l m pid :
  fold_left name_process l m !! pid =
  match m !! pid with
  | Some n => Some n
  | None => (fun x => utf8_from_wide (Some (sz_exe x))) <$> List.find (fun x => th_pid x =? pid) l
  end.
Proof.
  revert m. induction l as [|x l IH]; intros m; cbn [fold_left List.find]; [by destruct (m !! pid)|].
  rewrite IH. unfold name_process. destruct (m !! th_pid x) eqn:E.
  - destruct (Z.eqb_spec (th_pid x) pid) as [<-|]; [by rewrite E|done].
  - destruct (Z.eqb_spec (th_pid x) pid) as [<-|Hne]; [by rewrite lookup_insert_eq, E|].
    by rewrite lookup_insert_ne.
Qed.

(** A row as Windows fills it: an address of the family's length, a port field. *)
Definition row_ok (ipv6 : bool) (r : table_row) : Prop :=
  length (row_addr r) = (if ipv6 then 16 else 4)%nat /\ 0 <= row_port r < 2 ^ 32.

Lemma ntop4_wild a : length a = 4%nat -> is_wildcard (inet_ntop4 a) = true <-> a = replicate 4 "000"%char.
Proof.
  intros Hl. destruct a as [|b0 [|b1 [|b2 [|b3 [|]]]]]; try done.
  unfold is_wildcard. rewrite orb_true_iff, !str_eqb_eq. split; [|by intros [= -> -> -> ->]; left].
  pose proof (ntop4_parts b0 b1 b2 b3) as Hp. intros [E|E]; rewrite E in Hp; [|by vm_compute in Hp].
  change (getlines "." (lit "0.0.0.0")) with ((fun b => to_string (code b)) <$> replicate 4 "000"%char) in Hp.
  by apply fmap_to_string_inj in Hp.
Qed.

Lemma ntop6_wild a : length a = 16%nat -> is_wildcard (inet_ntop6 a) = true <-> a = replicate 16 "000"%char.
Proof.
  intros Hl. unfold is_wildcard. rewrite orb_true_iff, !str_eqb_eq, (ntop6_wildcard a Hl).
  pose proof (ntop6_not_v4 a). tauto.
Qed.

(** The low 16 bits of the field with their bytes swapped. *)
Lemma port_swapped p : 0 <= p -> port_from_dword p = (p mod 256) * 256 + (p / 256) mod 256.
Proof.
  intros Hp. unfold port_from_dword, ntohs, u16. change 65535 with (Z.ones 16). change 255 with (Z.ones 8).
  rewrite !Z.land_ones, Z.mod_mod by lia. rewrite Z.shiftl_mul_pow2, Z.shiftr_div_pow2 by lia.
  change (2 ^ 8) with 256. change (2 ^ 16) with 65536.
  replace ((p mod 65536) mod 256) with (p mod 256) by (Z.to_euclidean_division_equations; lia).
  replace (p mod 65536 / 256) with ((p / 256) mod 256) by (Z.to_euclidean_division_equations; lia).
  pose proof (Z.mod_pos_bound p 256). pose proof (Z.mod_pos_bound (p / 256) 256).
  rewrite <- Z.lxor_lor; [symmetry; apply Z.add_nocarry_lxor|];
    (apply Z.bits_inj'; intros i Hi; rewrite Z.land_spec, Z.bits_0; change 256 with (2 ^ 8);
     destruct (Z.ltb_spec i 8);
     [rewrite Z.mul_pow2_bits_low by lia; done|rewrite (Z.mod_pow2_bits_high _ 8) by lia; apply andb_false_r]).
Qed.
End Lemmas.

(** ** Properties *)

(** C36: The software report on Windows: every program that is registered under one
    of the three Uninstall keys (the machine's 64-bit view, its 32-bit view, the
    user's), with a name and not marked as a system component, is there under its
    name and version; nothing else is; and the list is strictly ascending by name
    and then version, so that each of them is there once. *)
Theorem win_packages_once `{Utf16} {HS : StdSort} (e : win_env) :
  let out := (win_collect_packages e []).1 in
  StronglySorted (fun a b => str_ltb (pk_name a) (pk_name b) = true \/
    (pk_name a = pk_name b /\ str_ltb (pk_version a) (pk_version b) = true)) out /\
  (forall p, p ∈ out -> shown_software e p) /\
  (forall p, shown_software e p -> exists q, q ∈ out /\ pk_name q = pk_name p /\ pk_version q = pk_version p).
Proof.
  unfold win_collect_packages. pose proof (scan_views_shown e []) as Hv.
  destruct (scan_views e []) as [o ws]. cbn [fst app] in *. subst o.
  destruct (unique_sort _ _ package_order_asym package_order_ntrans package_order_eq (views ≫= view_software e))
    as (H1 & H2 & H3). split_and!.
  - eapply (StronglySorted_on (fun _ => True)); [by apply Forall_true|exact H1|]. intros a b _ _.
    apply package_order_spelled.
  - intros p Hp. apply shown_iff. by apply H2.
  - intros p Hp. apply shown_iff in Hp. destruct (H3 p Hp) as (q & Hq & E). exists q. split; [done|].
    unfold same_package in E. by rewrite andb_true_iff, !str_eqb_eq in E.
Qed.

(** A row of a table as the report should show it: the port with its bytes in host
    order, the name of the first process of the snapshot with the owner's id, and
    reachable from outside exactly when the address is all zero. *)
Definition shown_socket `{Utf16} `{InetNtop6} (e : win_env) (proto : str) (ipv6 : bool) (r : table_row)
    : ListeningSocket :=
  mkSocket proto (if ipv6 then inet_ntop6 (row_addr r) else inet_ntop4 (row_addr r))
    ((row_port r mod 256) * 256 + (row_port r / 256) mod 256) (row_pid r) (default [] (first_name e (row_pid r)))
    (bool_decide (row_addr r = replicate (if ipv6 then 16 else 4) "000"%char)).

Definition shown_sockets `{Utf16} `{InetNtop6} (e : win_env) : list ListeningSocket :=
  tables ≫= fun '(ipv6, udp, proto, _) => shown_socket e proto ipv6 <$> default [] (fetch_table e ipv6 udp).

Lemma row_socket_shown `{Utf16} `{InetNtop6} e names proto ipv6 r :
  (forall pid, names !! pid = first_name e pid) -> row_ok ipv6 r ->
  row_socket names proto ipv6 r = shown_socket e proto ipv6 r.
Proof.
  intros Hn [Hl Hp]. unfold row_socket, shown_socket. rewrite Hn, port_swapped by lia. f_equal.
  apply eq_bool_prop_intro. rewrite bool_decide_spec.
  destruct ipv6; [rewrite <- ntop6_wild by done|rewrite <- ntop4_wild by done]; by rewrite Is_true_true.
Qed.

Lemma read_win_tables `{Utf16} `{InetNtop6} e names ts st :
  (forall pid, names !! pid = first_name e pid) ->
  (forall ipv6 udp rows, fetch_table e ipv6 udp = Some rows -> Forall (row_ok ipv6) rows) ->
  (fold_left (read_win_table e names) ts st).1 =
  st.1 ++ (ts ≫= fun '(ipv6, udp, proto, _) => shown_socket e proto ipv6 <$> default [] (fetch_table e ipv6 udp)).
Proof.
  intros Hn Hok. revert st. induction ts as [|[[[ipv6 udp] proto] warning] ts IH]; intros [out ws]; [by rewrite app_nil_r|].
  cbn [fold_left]. rewrite IH, bind_cons. unfold read_win_table.
  destruct (fetch_table e ipv6 udp) as [rows|] eqn:E; cbn [fst default]; [|done].
  rewrite <- app_assoc. f_equal. f_equal. apply list_fmap_ext. intros i r Hr.
  apply row_socket_shown; [done|]. eapply Forall_lookup_1; [by eapply Hok|exact Hr].
Qed.

Lemma win_socket_swo l : StrictWeakOn win_socket_before l.
Proof.
  split.
  - intros x y _ _. unfold win_socket_before. rewrite (str_eqb_sym (proto y)).
    destruct (str_eqb (proto x) (proto y)); cbn [negb]; [intros; bools; apply Z.ltb_ge; lia|apply str_ltb_asym].
  - intros x y z _ _ _. unfold win_socket_before.
    destruct (str_eqb (proto x) (proto y)) eqn:E1, (str_eqb (proto y) (proto z)) eqn:E2; cbn [negb].
    + apply str_eqb_eq in E1, E2. rewrite E1, E2, str_eqb_refl. cbn [negb]. intros. bools. apply Z.ltb_ge. lia.
    + apply str_eqb_eq in E1. rewrite E1, E2. done.
    + apply str_eqb_eq in E2. rewrite <- E2, E1. done.
    + intros H1 H2. destruct (str_eqb (proto x) (proto z)) eqn:E3; cbn [negb]; [|by eapply str_ltb_ntrans].
      apply str_eqb_eq in E3. rewrite <- E3 in *. pose proof (str_ltb_total _ _ H1 H2) as E.
      by rewrite E, str_eqb_refl in E1.
Qed.

(** The socket report on Windows: every row of the tables that could be fetched
    exactly once, with the port in host byte order, the first process of the
    snapshot with the owner's id, and marked reachable exactly when it is bound to
    the all-zero address; sorted by protocol and port. *)
Theorem win_sockets_reported `{Utf16} `{InetNtop6} {HS : StdSort} (e : win_env)
  (Hok : forall ipv6 udp rows, fetch_table e ipv6 udp = Some rows -> Forall (row_ok ipv6) rows) :
  let out := (win_collect_sockets e []).1 in
  out ≡ₚ shown_sockets e /\ StronglySorted (fun a b => win_socket_before b a = false) out.
Proof.
  unfold win_collect_sockets.
  set (nw := match take_process_snapshot e with inl (_, n) => (n, []) | inr err => _ end).
  assert (forall pid, nw.1 !! pid = first_name e pid) as Hn.
  { intros pid. subst nw. unfold take_process_snapshot, first_name. destruct (snapshot e) as [[l|]|]; cbn; try done.
    by rewrite name_processes, lookup_empty. }
  destruct nw as [names ws]. cbn [fst] in Hn. pose proof (read_win_tables e names tables ([], ws) Hn Hok) as E.
  destruct (fold_left (read_win_table e names) tables ([], ws)) as [o w]. cbn [fst app] in *. subst o.
  split; [apply std_sort_perm|apply std_sort_sorted]; apply win_socket_swo.
Qed.

(** The adapter list is fetched in at most four calls; every call says exactly how
    much room its buffer has; what the collector goes on with is the answer to the
    last call, and it gives up on a growing list only after the fourth. *)
Theorem adapter_query_bounded (e : win_env) :
  let a := (adapter_query e).1 in
  let calls := (adapter_query e).2 in
  (1 <= length calls <= 4)%nat /\ Forall (fun c => c.1 = c.2) calls /\
  (exists size, last calls = Some (size, size) /\ adapters e (length calls - 1) size = a) /\
  ((exists need, a = AdOverflow need) -> length calls = 4%nat).
Proof.
  unfold adapter_query. cbn [query_adapters].
  repeat match goal with
  | |- context [match adapters e ?n ?s with _ => _ end] => destruct (adapters e n s) eqn:?; cbn
  end; (split_and!; [lia|lia|by repeat constructor|by eauto|by intros [? ?]]).
Qed.

(** Windows 11 reports itself as Windows 10 in the registry; the build number puts
    the name right and nothing else about it changes. *)
Theorem windows_11_named `{Utf16} (e : win_env) (out : HostInfo) (edition : str) (n : Z)
  (Hname : reg_read_string e (lit "ProductName") = Some (lit "Windows 10" ++ edition))
  (Hbuild : reg_read_string e (lit "CurrentBuildNumber") = Some (to_string n)) (Hn : 0 <= n < 2 ^ 31) :
  let h := (win_collect_host e out).1 in
  os_name h = (if 22000 <=? n then lit "Windows 11" else lit "Windows 10") ++ edition /\
  kernel h = lit "10.0." ++ to_string n.
Proof.
  unfold win_collect_host. destruct (match computer_name e with inl w => _ | inr err => _ end) as [host ws].
  rewrite Hname, Hbuild. cbn [fst os_name kernel]. split; [|done]. unfold correct_name, strtol10.
  rewrite c_str_id.
  - rewrite strtoll10_to_string by lia. replace (Z.max _ (Z.min _ n)) with n by lia.
    destruct (22000 <=? n); done.
  - eapply Forall_impl; [apply to_string_chars|]. intros c [Hc%isdigit_iff| ->]; [lia|done].
Qed.

(** ** The properties at work *)

Definition sample_sz (s : str) : reg_sz := mkSz (inl (2 * (len s + 1))) (inl (code <$> s)).
Definition no_sz : reg_sz := mkSz (inr 2) (inr 2).

(** A host with a web server, a resolver and one program in two registry views. *)
Definition sample_win : win_env :=
  mkWin (inl (code <$> lit "WIN-7")) 
    (fun v => if str_eqb v (lit "ProductName") then sample_sz (lit "Windows 10 Pro")
              else if str_eqb v (lit "CurrentBuildNumber") then sample_sz (lit "22631") else no_sz)
    9 (fun n size => if size <? 20000 then AdOverflow 20000 else AdOk [])
    (inl (inl [mkSnap 4 0 (code <$> lit "System") None;
               mkSnap 900 4 (code <$> lit "nginx.exe") (Some (code <$> lit "C:\nginx.exe"))]))
    (fun ipv6 udp =>
       if ipv6 then mkCalls 50 0 (fun _ => inr 50)
       else if udp then mkCalls kErrorInsufficientBuffer 24 (fun _ => inl [mkRow ["127"; "000"; "000"; "001"]%char 0x3500 4])
       else mkCalls kErrorInsufficientBuffer 24 (fun _ => inl [mkRow (replicate 4 "000"%char) 0x5000 900]))
    (fun root path extra =>
       let app := mkEntry (sample_sz (lit "nginx")) (sample_sz (lit "1.25.3")) no_sz None in
       match root with
       | HKEY_LOCAL_MACHINE =>
           if extra =? 0x100 then inr [EnumKey (Some app); EnumKey None]
           else inr [EnumKey (Some (mkEntry (sample_sz (lit "KB1")) no_sz no_sz (Some 1))); EnumKey (Some app); EnumFail 5]
       | HKEY_CURRENT_USER => inl 2
       end).

Lemma win_sockets_reported_witness :
  (win_collect_sockets sample_win []).1
  = [mkSocket (lit "tcp") (lit "0.0.0.0") 80 900 (lit "nginx.exe") true;
     mkSocket (lit "udp") (lit "127.0.0.1") 53 4 (lit "System") false] /\
  (win_collect_sockets sample_win []).1 ≡ₚ shown_sockets sample_win.
Proof.
  split; [vm_compute; reflexivity|]. apply (win_sockets_reported sample_win).
  intros [] [] rows E; vm_compute in E; try discriminate; injection E as <-; repeat constructor; vm_compute; congruence.
Defined.

Lemma windows_11_named_witness :
  os_name (win_collect_host sample_win default_host).1 = lit "Windows 11 Pro" /\
  kernel (win_collect_host sample_win default_host).1 = lit "10.0.22631".
Proof.
  apply (windows_11_named sample_win default_host (lit " Pro") 22631); [reflexivity|reflexivity|lia].
Defined.

(** The program of two views is reported once; an update stub is not; the view
    that could not be listed to its end is named. *)
Example sample_packages :
  win_collect_packages sample_win []
  = ([mkPackage (lit "nginx") (lit "1.25.3") [] (lit "windows-registry-wow64")],
     mkStatus true [lit "RegEnumKeyExW stopped early in windows-registry-wow64, status 5"]).
Proof. vm_compute. reflexivity. Qed.
