(* ===== verification/Agent.v ===== *)
(** * The agent (src/agent.cpp, include/ns/agent.hpp, src/windows_only_stubs.cpp)

    What the agent's threads compute: a scan and what it leaves in the shared
    state, the replies to the control pipe's requests, the watchdog's book-keeping
    and the fault switch.  The database is used through the interface [DbOps]
    (with what the code relies on in [DbLaws]); time and the collectors' results
    are arguments.  The interleaving of the threads is in AgentThreads.v. *)
From S2P Require Import Prelude CppStd Double Json Log Inventory Algorithms Cve Spool.
From Stdlib Require Import Ascii SpecFloat.

#[local] Open Scope Z_scope.

(** ** Faults and configuration *)

Inductive Fault := FaultNone | UseAfterFree | Deadlock | WorkerCrash.

#[global] Instance Fault_eq_dec : EqDecision Fault.
Proof. solve_decision. Defined.

Definition parse_fault (name : str) : option Fault :=
  if str_eqb name (lit "none") then Some FaultNone
  else if str_eqb name (lit "uaf") then Some UseAfterFree
  else if str_eqb name (lit "deadlock") then Some Deadlock
  else if str_eqb name (lit "worker-crash") then Some WorkerCrash
  else None.

Definition fault_name (f : Fault) : str :=
  match f with
  | FaultNone => lit "none"
  | UseAfterFree => lit "uaf"
  | Deadlock => lit "deadlock"
  | WorkerCrash => lit "worker-crash"
  end.

Definition is_fault (f g : Fault) : bool := bool_decide (f = g).

(** [on_inventory] is kept with the state it works on; see [run_scan]. *)
Record AgentConfig := mkAgentConfig {
  a_index_path : str; a_alias_path : str; db_connection : str; pipe_name : str; pipe_sddl : str;
  a_interval_s : Z; a_hang_timeout_s : Z; a_fault : Fault }.

(** ** The database interface *)

Record FindingRow := mkRow {
  row_hostname : str; row_cve : str; row_package : str; row_version : str; row_cvss : double;
  row_severity : str; row_exposed : bool; row_scan_id : Z }.

(** [Some err] is a failure.  [record_scan] takes the scan id it may overwrite and
    returns it, also when it fails. *)
Class DbOps (D : Type) := {
  db_connected : D -> bool;
  db_connect : str -> D -> option str * D;
  db_disconnect : D -> D;
  db_record_scan : Inventory -> list Finding -> Z -> D -> option str * Z * D;
  db_host_findings : str -> double -> Z -> D -> option str * list FindingRow * D;
  db_hosts_affected : str -> D -> option str * list FindingRow * D
}.

Class DbLaws (D : Type) {HD : DbOps D} := {
  connect_connects : forall cs d d', db_connect cs d = (None, d') -> db_connected d' = true;
  disconnect_disconnects : forall d, db_connected (db_disconnect d) = false;
  connect_error : forall cs d d' e, db_connect cs d = (Some e, d') -> e <> [] /\ db_connected d' = false;
  record_error : forall i fs k d e k' d', db_record_scan i fs k d = (Some e, k', d') -> e <> []
}.

(** The Linux build: no database. *)
#[global] Instance linux_db : DbOps unit := {
  db_connected _ := false;
  db_connect _ d := (Some (lit "SQL Server storage is Windows-only"), d);
  db_disconnect d := d;
  db_record_scan _ _ k d := (Some (lit "not connected"), k, d);
  db_host_findings _ _ _ d := (Some (lit "not connected"), [], d);
  db_hosts_affected _ d := (Some (lit "not connected"), [], d)
}.

#[global] Instance linux_db_laws : DbLaws unit.
Proof. split; intros; simpl in *; by simplify_eq. Qed.

(** ** Scan results *)

Record ScanResult := mkScanResult {
  sr_ok : bool; scan_id : Z; sr_packages : Z; sr_findings : Z; sr_critical : Z;
  duration_ms : Z; finished_unix_ms : Z; worst : str; db_error : str }.

Definition new_result : ScanResult := mkScanResult false 0 0 0 0 0 0 [] [].

(** [std::max_element]: the first element no later one exceeds. *)
Fixpoint max_from (best : Finding) (l : list Finding) : Finding :=
  match l with
  | [] => best
  | f :: l' => max_from (if d_lt (cvss_score best) (cvss_score f) then f else best) l'
  end.

(** [None] is the exception of the planted bug, which nothing catches. *)
Definition worst_finding (findings : list Finding) (fault : Fault) : option str :=
  if is_fault fault WorkerCrash then None
  else
    match findings with
    | [] => Some (lit "none")
    | f :: l => Some (cve_id (max_from f l))
    end.

Definition write_result (r : ScanResult) : list op :=
  [field_bool (lit "ok") (sr_ok r);
   field_i64 (lit "scan_id") (scan_id r);
   field_i64 (lit "packages") (sr_packages r);
   field_i64 (lit "findings") (sr_findings r);
   field_i64 (lit "critical") (sr_critical r);
   field_str (lit "worst") (worst r);
   field_i64 (lit "duration_ms") (duration_ms r);
   field_i64 (lit "finished_unix_ms") (finished_unix_ms r)] ++
  (match db_error r with [] => [] | e => [field_str (lit "db_error") e] end).

Definition error_json (msg : str) : str := document false [field_str (lit "error") msg].

Definition valid_cve_id (s : str) : bool :=
  if (len s <? 9) || (32 <? len s) || negb (starts_with (lit "CVE-") s) then false
  else forallb (fun c => isdigit c || Ascii.eqb c "-") (drop 4 s).

(** ** The watchdog *)

Record Watchdog := mkWatchdog {
  wd_stopping : bool; wd_next : Z; wd_active : list (Z * (str * Z)); wd_timeout : Z }.

Definition new_watchdog : Watchdog := mkWatchdog false 0 [] 0.

(** [std::map::emplace] and [erase] on a map kept in the order of its keys; an
    entry that is there already is kept. *)
Fixpoint map_emplace {V} (k : Z) (v : V) (m : list (Z * V)) : list (Z * V) :=
  match m with
  | [] => [(k, v)]
  | (k', v') :: m' =>
      if k <? k' then (k, v) :: m else if k =? k' then m else (k', v') :: map_emplace k v m'
  end.

Definition map_erase {V} (k : Z) (m : list (Z * V)) : list (Z * V) :=
  List.filter (fun kv => negb (kv.1 =? k)) m.

(** [start]: [None] when the timeout switches the watchdog off. *)
Definition wd_start (timeout_s : Z) (w : Watchdog) : option Watchdog :=
  if timeout_s <=? 0 then None
  else Some (mkWatchdog (wd_stopping w) (wd_next w) (wd_active w) (timeout_s * 1000000000)).

Definition wd_enter (what : str) (now : Z) (w : Watchdog) : Z * Watchdog :=
  let id := u64 (wd_next w + 1) in
  (id, mkWatchdog (wd_stopping w) id (map_emplace id (what, now) (wd_active w)) (wd_timeout w)).

Definition wd_leave (id : Z) (w : Watchdog) : Watchdog :=
  mkWatchdog (wd_stopping w) (wd_next w) (map_erase id (wd_active w)) (wd_timeout w).

Definition wd_stop (w : Watchdog) : Watchdog := mkWatchdog true (wd_next w) (wd_active w) (wd_timeout w).

Definition overdue (now timeout : Z) (e : str * Z) : bool := negb (now - e.2 <? timeout).

(** One round of [loop] at [now]: what [on_hang] is called with, if anything. *)
Definition wd_round (now : Z) (w : Watchdog) : option (str * Z) :=
  match List.find (fun kv => overdue now (wd_timeout w) kv.2) (wd_active w) with
  | Some (_, (what, since)) => Some (what, ms_of_ns (now - since))
  | None => None
  end.

(** [on_hang]: the log calls; the process then exits with code 4. *)
Definition on_hang (what : str) (age_ms : Z) (dump : str + str) : list log_call * Z :=
  ([(Error, lit "hang detected; writing dump and exiting so the SCM restarts the service",
     [(lit "stuck", what); (lit "age_ms", to_string age_ms)]);
    match dump with
    | inl path => (Error, lit "hang dump written", [(lit "dump", path)])
    | inr err => (Error, lit "hang dump failed", [(lit "error", err)])
    end], 4).

(** ** The shared state and a scan *)

Section Agent.
Context {HS : StdSort} {HU : UnorderedIter} {D : Type} {HD : DbOps D}.

(** [struct Agent::Impl] without its locks and threads. *)
Record Impl := mkImpl {
  a_cfg : AgentConfig; a_index : CveIndex; a_db : D; started_unix_ms : Z; scans : Z;
  a_hostname : str; last_scan : ScanResult }.

Definition set_db (d : D) (m : Impl) : Impl :=
  mkImpl (a_cfg m) (a_index m) d (started_unix_ms m) (scans m) (a_hostname m) (last_scan m).

Definition with_db_error (e : str) (r : ScanResult) : ScanResult :=
  mkScanResult (sr_ok r) (scan_id r) (sr_packages r) (sr_findings r) (sr_critical r) (duration_ms r)
    (finished_unix_ms r) (worst r) e.
Definition with_scan_id (k : Z) (r : ScanResult) : ScanResult :=
  mkScanResult (sr_ok r) k (sr_packages r) (sr_findings r) (sr_critical r) (duration_ms r)
    (finished_unix_ms r) (worst r) (db_error r).

Definition write_db (cfg : AgentConfig) (inv : Inventory) (findings : list Finding) (r : ScanResult)
    (d : D) : ScanResult * D :=
  match db_connection cfg with
  | [] => (r, d)
  | cs =>
      let '(failed, d) := if db_connected d then (None, d) else db_connect cs d in
      match failed with
      | Some err => (with_db_error err r, d)
      | None =>
          let '(failed, k, d) := db_record_scan inv findings (scan_id r) d in
          let r := with_scan_id k r in
          match failed with
          | Some err => (with_db_error err r, db_disconnect d)
          | None => (r, d)
          end
      end
  end.

Definition update_state (inv : Inventory) (r : ScanResult) (m : Impl) : Impl :=
  mkImpl (a_cfg m) (a_index m) (a_db m) (started_unix_ms m) (u64 (scans m + 1)) (hostname (host inv)) r.

(** What [run_scan] computes before it takes a lock; [None] is the uncaught
    exception. *)
Definition scan_report (cfg : AgentConfig) (idx : CveIndex) (inv : Inventory)
    : option (ScanResult * list Finding) :=
  let '(findings, summary) := scan idx inv new_summary in
  match worst_finding findings (a_fault cfg) with
  | None => None
  | Some w =>
      Some (mkScanResult false 0 (Z.of_nat (length (packages inv))) (Z.of_nat (length findings))
              (critical summary) 0 0 w [], findings)
  end.

(** The result once the database is written, at [t1] on the steady clock (the
    scan started at [t0]) and [wall] on the wall clock. *)
Definition finish_result (t0 t1 wall : Z) (r : ScanResult) : ScanResult :=
  mkScanResult (match db_error r with [] => true | _ => false end) (scan_id r) (sr_packages r)
    (sr_findings r) (sr_critical r) (ms_of_ns (t1 - t0)) (unix_time_ms wall) (worst r) (db_error r).

Definition scan_log (r : ScanResult) : log_call :=
  (Info, lit "scan complete",
   [(lit "packages", to_string (sr_packages r)); (lit "findings", to_string (sr_findings r));
    (lit "worst", worst r); (lit "scan_id", to_string (scan_id r));
    (lit "duration_ms", to_string (duration_ms r)); (lit "db_error", db_error r)]).

(** [run_scan] with no other thread in between: the state after it, the result
    every waiter is handed, and the log call. *)
Definition run_scan (t0 t1 wall : Z) (inv : Inventory) (m : Impl) : option (Impl * ScanResult * log_call) :=
  match scan_report (a_cfg m) (a_index m) inv with
  | None => None
  | Some (r, findings) =>
      let '(r, d) := write_db (a_cfg m) inv findings r (a_db m) in
      let r := finish_result t0 t1 wall r in
      Some (update_state inv r (set_db d m), r, scan_log r)
  end.

(** ** Replies *)

Record ProcInfo := mkProcInfo {
  pi_pid : Z; pi_user : str; elevated : bool; privileges_enabled : Z; private_bytes : Z;
  working_set : Z; peak_working_set : Z; handles : Z; threads : Z }.

Definition process_body (p : ProcInfo) : list op :=
  [field_i64 (lit "pid") (pi_pid p);
   field_str (lit "user") (pi_user p);
   field_bool (lit "elevated") (elevated p);
   field_i64 (lit "privileges_enabled") (privileges_enabled p);
   field_i64 (lit "private_bytes") (private_bytes p);
   field_i64 (lit "working_set") (working_set p);
   field_i64 (lit "peak_working_set") (peak_working_set p);
   field_i64 (lit "handles") (handles p);
   field_i64 (lit "threads") (threads p)].

(** [busy]: the try-lock on the database failed (never with the deadlock fault,
    which waits for the lock). *)
Definition db_state (busy : bool) (m : Impl) : str :=
  if busy && negb (is_fault (a_fault (a_cfg m)) Deadlock) then lit "busy"
  else if db_connected (a_db m) then lit "connected" else lit "disconnected".

Definition handle_status (p : ProcInfo) (served dumps wall : Z) (busy : bool) (m : Impl) : str :=
  document false [
    field_cstr (lit "service") (Some kAgentName);
    field_cstr (lit "version") (Some kAgentVersion);
    field_cstr (lit "fault") (Some (fault_name (a_fault (a_cfg m))));
    object_at (lit "process") (process_body p);
    field_i64 (lit "pipe_requests_served") served;
    field_i64 (lit "dumps_written") dumps;
    field_i64 (lit "uptime_s") (Z.quot (unix_time_ms wall - started_unix_ms m) 1000);
    field_str (lit "hostname") (a_hostname m);
    field_i64 (lit "scans_completed") (scans m);
    object_at (lit "last_scan") (write_result (last_scan m));
    object_at (lit "database") [
      field_bool (lit "configured") (match db_connection (a_cfg m) with [] => false | _ => true end);
      field_cstr (lit "state") (Some (db_state busy m))]].

(** [std::clamp(v, lo, hi)]. *)
Definition clamp (v lo hi : Z) : Z := if v <? lo then lo else if hi <? v then hi else v.

(** How long [handle_scan] waits; the product is an [int]. *)
Definition scan_cap (cfg : AgentConfig) : Z :=
  if 0 <? a_hang_timeout_s cfg then i32 (a_hang_timeout_s cfg * 500) else 60000.
Definition scan_wait (cfg : AgentConfig) (wait_ms : Z) : Z := clamp wait_ms 0 (scan_cap cfg).

(** The reply of [handle_scan], by what the waiter returned. *)
Definition scan_reply (result : option ScanResult) : str :=
  document false
    (match result with
     | Some r => [field_bool (lit "completed") true; object_at (lit "scan") (write_result r)]
     | None => [field_bool (lit "completed") false;
                field_cstr (lit "note") (Some (lit "scan still running; it will finish in the background"))]
     end).

Definition row_op (r : FindingRow) : op :=
  object_elem [
    field_str (lit "host") (row_hostname r);
    field_str (lit "cve") (row_cve r);
    field_str (lit "package") (row_package r);
    field_str (lit "version") (row_version r);
    field_double (lit "cvss") (row_cvss r);
    field_str (lit "severity") (row_severity r);
    field_bool (lit "exposed") (row_exposed r);
    field_i64 (lit "scan_id") (row_scan_id r)].

Definition rows_json (rows : list FindingRow) : str :=
  document false [
    field_i64 (lit "count") (Z.of_nat (length rows));
    array_at (lit "rows") (row_op <$> rows)].

Definition handle_findings (min_cvss : double) (limit : Z) (m : Impl) : str * Impl :=
  match a_hostname m with
  | [] => (error_json (lit "no scan has completed yet"), m)
  | h =>
      if negb (db_connected (a_db m)) then (error_json (lit "database not connected"), m)
      else
        let '(failed, rows, d) := db_host_findings h min_cvss (clamp limit 1 1000) (a_db m) in
        (match failed with Some err => error_json err | None => rows_json rows end, set_db d m)
  end.

Definition handle_affected (cve : str) (m : Impl) : str * Impl :=
  if negb (valid_cve_id cve) then (error_json (lit "expected a CVE id like CVE-2024-6387"), m)
  else if negb (db_connected (a_db m)) then (error_json (lit "database not connected"), m)
  else
    let '(failed, rows, d) := db_hosts_affected cve (a_db m) in
    (match failed with Some err => error_json err | None => rows_json rows end, set_db d m).

(** ** Requests *)

(** [in >> word]: the word and the unread text; no word is a failure and leaves
    the string empty. *)
Definition extract_word (s : str) : option str * str :=
  let '(w, r) := span (fun c => negb (isspace c)) (skip_ws s) in
  match w with [] => (None, r) | _ => (Some w, r) end.

(** [in >> x] for an [int]: failure when there is no digit or the value does not
    fit. *)
Definition extract_int (s : str) : option Z * str :=
  let '(neg, s1) := scan_sign (skip_ws s) in
  let '(ds, r) := span isdigit s1 in
  match ds with
  | [] => (None, r)
  | _ =>
      let v := if neg then - dec_value ds else dec_value ds in
      (if (- 2 ^ 31 <=? v) && (v <? 2 ^ 31) then Some v else None, r)
  end.

(** The characters [in >> x] takes for a [double]: digits, one point before the
    exponent, and, once a digit was seen, one exponent mark with an optional
    sign. *)
Fixpoint float_scan (s : str) (mant dec sci : bool) : str * str :=
  match s with
  | [] => ([], [])
  | c :: s' =>
      if isdigit c then let '(t, r) := float_scan s' true dec sci in (c :: t, r)
      else if Ascii.eqb c "." && negb dec && negb sci then
        let '(t, r) := float_scan s' mant true sci in (c :: t, r)
      else if (Ascii.eqb c "e" || Ascii.eqb c "E") && negb sci && mant then
        match s' with
        | c2 :: s'' =>
            if Ascii.eqb c2 "+" || Ascii.eqb c2 "-" then
              let '(t, r) := float_scan s'' mant dec true in (c :: c2 :: t, r)
            else let '(t, r) := float_scan s' mant dec true in (c :: t, r)
        | [] => ([c], [])
        end
      else ([], s)
  end.

(** [strtod] takes all of it: a digit, and one at the end of an exponent. *)
Definition float_complete (t : str) : bool :=
  existsb isdigit t &&
  (negb (existsb (fun c => Ascii.eqb c "e" || Ascii.eqb c "E") t) ||
   match last t with Some c => isdigit c | None => false end).

(** [in >> x] for a [double]; an infinite result is a failure too. *)
Definition extract_double (s : str) : option double * str :=
  let '(neg, s1) := scan_sign (skip_ws s) in
  let '(t, r) := float_scan s1 false false false in
  if float_complete t then
    match strtod t with
    | S754_infinity _ => (None, r)
    | x => (Some (if neg then SFopp x else x), r)
    end
  else (None, r).

Record ClientInfo := mkClient { ci_pid : Z; ci_user : str }.

(** What the outside contributes to a reply: the process figures, the counters of
    the pipe and the dump writer, the wall clock, whether the database is locked
    by the worker, what waiting that long for a scan brings, and the dump. *)
Record handle_env := mkHandleEnv {
  he_proc : ProcInfo; he_served : Z; he_dumps : Z; he_wall : Z; he_busy : bool;
  he_wait : Z -> option ScanResult; he_dump : str + str }.

Definition pong : str := lit "{" ++ [quote] ++ lit "pong" ++ [quote] ++ lit ":true}".

Definition request_log (cmd : str) (who : ClientInfo) : log_call :=
  (Info, lit "pipe request",
   [(lit "cmd", cmd); (lit "client_pid", to_string (ci_pid who)); (lit "client_user", ci_user who)]).

Definition handle (e : handle_env) (request : str) (who : ClientInfo) (m : Impl) : str * Impl * log_call :=
  let '(w, rest) := extract_word request in
  let cmd := default [] w in
  let reply :=
    if str_eqb cmd (lit "ping") then (pong, m)
    else if str_eqb cmd (lit "status") then
      (handle_status (he_proc e) (he_served e) (he_dumps e) (he_wall e) (he_busy e) m, m)
    else if str_eqb cmd (lit "scan") then
      let wait_ms := default 30000 (extract_int rest).1 in
      (scan_reply (he_wait e (scan_wait (a_cfg m) wait_ms)), m)
    else if str_eqb cmd (lit "findings") then
      let '(x, rest) := extract_double rest in
      let min_cvss := default d_zero x in
      (* a failed extraction makes the next one fail *)
      let limit := match x with Some _ => default 20 (extract_int rest).1 | None => 20 end in
      handle_findings min_cvss limit m
    else if str_eqb cmd (lit "affected") then
      let cve := default [] (extract_word rest).1 in
      handle_affected cve m
    else if str_eqb cmd (lit "dump") then
      (match he_dump e with
       | inr err => error_json err
       | inl path => document false [field_str (lit "dump") path]
       end, m)
    else (error_json (lit "unknown command; expected ping|status|scan|findings|affected|dump"), m) in
  (reply, request_log cmd who).

(** ** Starting *)

(** [Agent::start]: [files] gives the contents of the index and alias files,
    [server] the pipe server's error if it does not start, which only Windows
    treats as fatal.  The error, or the state the threads start from and the log
    calls. *)
Definition agent_start (windows : bool) (files : str -> option str) (server : option str) (wall : Z)
    (cfg : AgentConfig) (d : D) : (Impl * list log_call) + str :=
  match load_rules (a_index_path cfg) (files (a_index_path cfg)) new_index with
  | (_, Some err) => inr err
  | (idx, None) =>
      match load_aliases (a_alias_path cfg) (files (a_alias_path cfg)) idx with
      | (_, Some err) => inr err
      | (idx, None) =>
          let '(unavailable, d) :=
            match db_connection cfg with [] => (None, d) | cs => db_connect cs d end in
          let warned :=
            match unavailable with
            | Some err => [(Warn, lit "database unavailable; will retry each scan", [(lit "error", err)])]
            | None => []
            end in
          let m := mkImpl cfg idx d (unix_time_ms wall) 0 [] new_result in
          let running := (Info, lit "agent started",
            [(lit "pipe", pipe_name cfg); (lit "interval_s", to_string (a_interval_s cfg));
             (lit "db", match db_connection cfg with [] => lit "off" | _ => lit "on" end);
             (lit "fault", fault_name (a_fault cfg))]) in
          match server with
          | None => inl (m, warned ++ [running])
          | Some err =>
              if windows then inr err
              else inl (m, warned ++ [(Info, lit "control channel not available on this platform",
                                       [(lit "reason", err)]); running])
          end
      end
  end.

End Agent.

(** ** Lemmas: replies as JSON *)

Lemma emits_mem_app fs gs ms ns :
  emits (seq fs) (uncurry member <$> ms) -> emits (seq gs) (uncurry member <$> ns) ->
  emits (seq (fs ++ gs)) (uncurry member <$> (ms ++ ns)).
Proof.
  intros Hf Hg. rewrite fmap_app. intros w. unfold seq. rewrite fold_left_app.
  exact (emits_comp (seq fs) (seq gs) _ _ Hf Hg w).
Qed.

Definition result_tree (r : ScanResult) : list (str * jval) :=
  [(lit "ok", JBool (sr_ok r)); (lit "scan_id", jint (scan_id r)); (lit "packages", jint (sr_packages r));
   (lit "findings", jint (sr_findings r)); (lit "critical", jint (sr_critical r));
   (lit "worst", JStr (worst r)); (lit "duration_ms", jint (duration_ms r));
   (lit "finished_unix_ms", jint (finished_unix_ms r))] ++
  (match db_error r with [] => [] | e => [(lit "db_error", JStr e)] end).

Lemma write_result_emits r : emits (seq (write_result r)) (uncurry member <$> result_tree r).
Proof. unfold write_result, result_tree. apply emits_mem_app; [emit|]. destruct (db_error r); emit. Qed.

Lemma result_tree_wf r : jwf (JObj (result_tree r)) = true.
Proof.
  unfold result_tree. cbn [jwf]. rewrite forallb_app. cbn [forallb jwf]. rewrite !jwf_int.
  by destruct (db_error r).
Qed.

Definition row_tree (r : FindingRow) : jval :=
  JObj [(lit "host", JStr (row_hostname r)); (lit "cve", JStr (row_cve r));
        (lit "package", JStr (row_package r)); (lit "version", JStr (row_version r));
        (lit "cvss", JNum (take 31 (format1 (row_cvss r)))); (lit "severity", JStr (row_severity r));
        (lit "exposed", JBool (row_exposed r)); (lit "scan_id", jint (row_scan_id r))].

Definition printable_row (r : FindingRow) : Prop := printable_score (row_cvss r) = true.

Definition rows_tree (rows : list FindingRow) : list (str * jval) :=
  [(lit "count", jint (Z.of_nat (length rows))); (lit "rows", JArr (row_tree <$> rows))].

Definition error_tree (msg : str) : list (str * jval) := [(lit "error", JStr msg)].

Definition reply_keys : list str := [lit "pong"; lit "service"; lit "completed"; lit "count"; lit "dump"].

(** A reply is the compact text of an object with a first member; the object is
    an error report exactly when that member is called error. *)
Definition is_reply (reply : str) (ms : list (str * jval)) : Prop :=
  reply = render false 0 (JObj ms) /\ jwf (JObj ms) = true /\
  exists k v ms', ms = (k, v) :: ms' /\
    (if str_eqb k (lit "error") then exists msg, ms = error_tree msg
     else existsb (str_eqb k) reply_keys = true).

Lemma document_reply body ms k v ms' :
  emits (seq body) (uncurry member <$> ms) -> jwf (JObj ms) = true -> ms = (k, v) :: ms' ->
  existsb (str_eqb k) reply_keys = true ->
  is_reply (document false body) ms.
Proof.
  intros Hb Hw Hms Hk. split; [by apply document_render|]. split; [done|].
  exists k, v, ms'. split; [done|]. destruct (str_eqb k (lit "error")) eqn:E; [|done].
  apply str_eqb_eq in E as ->. by vm_compute in Hk.
Qed.

Lemma error_reply msg : is_reply (error_json msg) (error_tree msg).
Proof.
  split; [apply document_render; unfold error_tree; emit|]. split; [done|].
  exists (lit "error"), (JStr msg), []. split; [done|]. rewrite str_eqb_refl. by exists msg.
Qed.

Lemma rows_reply rows : Forall printable_row rows -> is_reply (rows_json rows) (rows_tree rows).
Proof.
  intros Hr. eapply document_reply; [unfold rows_tree, row_tree, row_op; emit| |done|done].
  unfold rows_tree. cbn [jwf forallb]. rewrite jwf_int. cbn [andb]. rewrite andb_true_r.
  induction Hr as [|r rows Hr _ IH]; [done|]. cbn [fmap list_fmap forallb]. rewrite IH, andb_true_r.
  unfold row_tree. cbn [jwf forallb]. by rewrite score_number, jwf_int.
Qed.

Definition scan_tree (result : option ScanResult) : list (str * jval) :=
  match result with
  | Some r => [(lit "completed", JBool true); (lit "scan", JObj (result_tree r))]
  | None => [(lit "completed", JBool false);
             (lit "note", JStr (lit "scan still running; it will finish in the background"))]
  end.

Lemma scan_reply_reply result : is_reply (scan_reply result) (scan_tree result).
Proof.
  unfold scan_reply, scan_tree. destruct result as [r|].
  - eapply document_reply; [emit; apply write_result_emits| |done|done].
    pose proof (result_tree_wf r) as H. cbn [jwf forallb] in *. by rewrite H.
  - eapply document_reply; [emit|done|done|done].
Qed.

Section Replies.
Context {HS : StdSort} {HU : UnorderedIter} {D : Type} {HD : DbOps D}.

Definition process_tree (p : ProcInfo) : jval :=
  JObj [(lit "pid", jint (pi_pid p)); (lit "user", JStr (pi_user p)); (lit "elevated", JBool (elevated p));
        (lit "privileges_enabled", jint (privileges_enabled p)); (lit "private_bytes", jint (private_bytes p));
        (lit "working_set", jint (working_set p)); (lit "peak_working_set", jint (peak_working_set p));
        (lit "handles", jint (handles p)); (lit "threads", jint (threads p))].

Definition status_tree (p : ProcInfo) (served dumps wall : Z) (busy : bool) (m : Impl) : list (str * jval) :=
  [(lit "service", JStr kAgentName); (lit "version", JStr kAgentVersion);
   (lit "fault", JStr (fault_name (a_fault (a_cfg m)))); (lit "process", process_tree p);
   (lit "pipe_requests_served", jint served); (lit "dumps_written", jint dumps);
   (lit "uptime_s", jint (Z.quot (unix_time_ms wall - started_unix_ms m) 1000));
   (lit "hostname", JStr (a_hostname m)); (lit "scans_completed", jint (scans m));
   (lit "last_scan", JObj (result_tree (last_scan m)));
   (lit "database", JObj [(lit "configured", JBool (match db_connection (a_cfg m) with [] => false | _ => true end));
                          (lit "state", JStr (db_state busy m))])].

Lemma status_reply p served dumps wall busy m :
  is_reply (handle_status p served dumps wall busy m) (status_tree p served dumps wall busy m).
Proof.
  eapply document_reply; [|..].
  - unfold status_tree, process_tree, process_body. emit; apply write_result_emits.
  - pose proof (result_tree_wf (last_scan m)) as H. unfold status_tree, process_tree.
    cbn [jwf forallb] in *. by rewrite H, !jwf_int.
  - done.
  - done.
Qed.

(** The rows the database returns have scores that can be printed. *)
Definition printable_db : Prop :=
  (forall h x l d, Forall printable_row (db_host_findings h x l d).1.2) /\
  (forall c d, Forall printable_row (db_hosts_affected c d).1.2).

Lemma findings_reply min_cvss limit m :
  printable_db -> exists ms, is_reply (handle_findings min_cvss limit m).1 ms.
Proof.
  intros [Hp _]. unfold handle_findings. destruct (a_hostname m) as [|c h]; [eexists; apply error_reply|].
  destruct (db_connected (a_db m)); cbn [negb]; [|eexists; apply error_reply].
  pose proof (Hp (c :: h) min_cvss (clamp limit 1 1000) (a_db m)) as Hr.
  destruct (db_host_findings _ _ _ _) as [[[e|] rows] d]; [eexists; apply error_reply|].
  eexists. by apply rows_reply.
Qed.

Lemma affected_reply cve m : printable_db -> exists ms, is_reply (handle_affected cve m).1 ms.
Proof.
  intros [_ Hp]. unfold handle_affected. destruct (valid_cve_id cve); cbn [negb]; [|eexists; apply error_reply].
  destruct (db_connected (a_db m)); cbn [negb]; [|eexists; apply error_reply].
  pose proof (Hp cve (a_db m)) as Hr.
  destruct (db_hosts_affected _ _) as [[[e|] rows] d]; [eexists; apply error_reply|].
  eexists. by apply rows_reply.
Qed.

Lemma pong_reply : is_reply pong [(lit "pong", JBool true)].
Proof. split; [reflexivity|]. split; [reflexivity|]. by exists (lit "pong"), (JBool true), []. Qed.

Lemma dump_reply path : is_reply (document false [field_str (lit "dump") path]) [(lit "dump", JStr path)].
Proof. eapply document_reply; [emit|done|done|done]. Qed.

(** Every request gets a reply. *)
Lemma handle_reply e request who m :
  printable_db -> exists ms, is_reply (handle e request who m).1.1 ms.
Proof.
  intros Hp. unfold handle. destruct (extract_word request) as [w rest]. cbn [fst].
  destruct (str_eqb _ (lit "ping")); [eexists; apply pong_reply|].
  destruct (str_eqb _ (lit "status")); [eexists; apply status_reply|].
  destruct (str_eqb _ (lit "scan")); [eexists; apply scan_reply_reply|].
  destruct (str_eqb _ (lit "findings"));
    [destruct (extract_double rest) as [x rest']; by apply findings_reply|].
  destruct (str_eqb _ (lit "affected")); [by apply affected_reply|].
  destruct (str_eqb _ (lit "dump")); [destruct (he_dump e); eexists; [apply dump_reply|apply error_reply]|].
  eexists. apply error_reply.
Qed.
End Replies.

(** ** Lemmas: the worst finding *)

Lemma max_from_head f l :
  Forall (fun g => d_lt (cvss_score f) (cvss_score g) = false) l -> max_from f l = f.
Proof. induction 1 as [|g l Hg _ IH]; [done|]. simpl. by rewrite Hg. Qed.

Lemma before_false_score f g :
  scored f -> scored g -> finding_before g f = false -> d_lt (cvss_score f) (cvss_score g) = false.
Proof.
  intros Hf Hg Hb. apply (nbefore_iff _ _ Hg Hf) in Hb. apply not_true_iff_false.
  rewrite (d_lt_key _ _ Hf Hg). intros Hlt. destruct Hb as [Hb|[Hb _]].
  - exact (key_lt_irrefl _ (key_lt_trans _ _ _ Hlt Hb)).
  - rewrite Hb in Hlt. exact (key_lt_irrefl _ Hlt).
Qed.

(** ** Lemmas: the watchdog *)

(** Keys in increasing order, none above the last id handed out. *)
Definition wd_ok (w : Watchdog) : Prop :=
  StronglySorted (fun a b => a.1 < b.1) (wd_active w) /\
  Forall (fun kv => kv.1 <= wd_next w) (wd_active w) /\ 0 <= wd_next w.

Lemma map_emplace_end {V} k (v : V) m :
  Forall (fun kv => kv.1 < k) m -> map_emplace k v m = m ++ [(k, v)].
Proof.
  induction 1 as [|[k' v'] m Hk _ IH]; [done|]. cbn in *. rewrite IH.
  destruct (Z.ltb_spec k k'); [lia|]. destruct (Z.eqb_spec k k'); [lia|done].
Qed.

Lemma sorted_snoc {A} (R : A -> A -> Prop) l x :
  StronglySorted R l -> Forall (fun y => R y x) l -> StronglySorted R (l ++ [x]).
Proof.
  induction 1 as [|y l Hl IH Hy]; intros Hx; cbn; [by repeat constructor|].
  apply Forall_cons_iff in Hx as [Hyx Hx]. constructor; [auto|]. apply Forall_app. auto.
Qed.

Lemma sorted_filter {A} (R : A -> A -> Prop) P l :
  StronglySorted R l -> StronglySorted R (List.filter P l).
Proof.
  induction 1 as [|y l Hl IH Hy]; cbn; [constructor|]. destruct (P y); [|done]. constructor; [done|].
  apply List.Forall_forall. intros z Hz. apply filter_In in Hz as [Hz _]. rewrite List.Forall_forall in Hy. auto.
Qed.

Lemma wd_enter_ok what now w :
  wd_ok w -> wd_next w < 2 ^ 64 - 1 ->
  wd_ok (wd_enter what now w).2 /\ (wd_enter what now w).1 = wd_next w + 1 /\
  wd_active (wd_enter what now w).2 = wd_active w ++ [(wd_next w + 1, (what, now))].
Proof.
  intros (Hs & Hb & H0) Hn. unfold wd_enter. rewrite u64_small by lia. cbn [fst snd wd_active wd_next].
  assert (Forall (fun kv => kv.1 < wd_next w + 1) (wd_active w)) as Hlt
    by (eapply Forall_impl; [exact Hb|]; cbn; lia).
  rewrite map_emplace_end by done. split; [|done]. split_and!; cbn [wd_active wd_next].
  - by apply sorted_snoc.
  - apply Forall_app. split; [eapply Forall_impl; [exact Hb|]; cbn; lia|]. by constructor; [cbn; lia|].
  - lia.
Qed.

Lemma wd_leave_ok id w : wd_ok w -> wd_ok (wd_leave id w).
Proof.
  intros (Hs & Hb & H0). split_and!; [by apply sorted_filter| |done].
  apply List.Forall_forall. intros kv Hin. apply filter_In in Hin as [Hin _].
  rewrite List.Forall_forall in Hb. by apply Hb.
Qed.

(** The scopes that run: entered, with a name and a time, and not left. *)
Inductive wd_run : Watchdog -> list (Z * (str * Z)) -> Prop :=
| wd_new t w : wd_start t new_watchdog = Some w -> wd_run w []
| wd_entered w open what now :
    wd_run w open -> wd_next w < 2 ^ 64 - 1 ->
    wd_run (wd_enter what now w).2 (open ++ [((wd_enter what now w).1, (what, now))])
| wd_left w open id : wd_run w open -> wd_run (wd_leave id w) (List.filter (fun kv => negb (kv.1 =? id)) open).

Lemma wd_run_active w open : wd_run w open -> wd_ok w /\ wd_active w = open.
Proof.
  induction 1 as [t w Hw|w open what now _ [Hok IH] Hn|w open id _ [Hok IH]].
  - unfold wd_start in Hw. destruct (t <=? 0); [done|]. simplify_eq. by repeat constructor.
  - destruct (wd_enter_ok what now w Hok Hn) as (Hok' & Hid & Ha). split; [done|].
    by rewrite Ha, Hid, IH.
  - split; [by apply wd_leave_ok|]. cbn [wd_leave wd_active]. by rewrite IH.
Qed.

Lemma wd_round_spec now w :
  match wd_round now w with
  | None => Forall (fun kv => now - kv.2.2 < wd_timeout w) (wd_active w)
  | Some (what, age) => exists id since, (id, (what, since)) ∈ wd_active w /\
      wd_timeout w <= now - since /\ age = ms_of_ns (now - since)
  end.
Proof.
  unfold wd_round. destruct (List.find _ _) as [[id [what since]]|] eqn:E.
  - apply find_some in E as [Hin Hov]. exists id, since. split; [by apply list_elem_of_In|].
    unfold overdue in Hov. cbn in Hov. bools. split; [lia|done].
  - apply List.Forall_forall. intros kv Hin. pose proof (find_none _ _ E kv Hin) as Hov.
    unfold overdue in Hov. cbv beta in Hov. bools. lia.
Qed.

(** ** Properties *)

Section Properties.
Context {HS : StdSort} {HU : UnorderedIter} {D : Type} {HD : DbOps D}.

(** C33: whatever bytes arrive as a request, the agent answers with one JSON
    object, which reads back as the reply's members; it is an error report
    exactly when its first member is "error". *)
Theorem handle_replies_json (e : handle_env) (request : str) (who : ClientInfo) (m : Impl)
  (Hp : printable_db) :
  exists ms, parse (handle e request who m).1.1 = Some (JObj ms) /\
    forall v, (exists ms', ms = (lit "error", v) :: ms') -> exists msg, ms = error_tree msg.
Proof.
  destruct (handle_reply e request who m Hp) as (ms & -> & Hw & k & v & ms' & -> & Hk).
  exists ((k, v) :: ms'). split; [by apply render_reads|].
  intros v' (ms'' & [= -> _ _]). by rewrite str_eqb_refl in Hk.
Qed.

(** The finding the scan result names as the worst is the first of the scan's
    findings, so none scores higher; without findings it is "none". *)
Theorem worst_is_first_finding (cfg : AgentConfig) (idx : CveIndex) (inv : Inventory)
  (Hf : a_fault cfg <> WorkerCrash) (Hs : scored_index idx) :
  exists r, scan_report cfg idx inv = Some (r, (scan idx inv new_summary).1) /\
    sr_findings r = Z.of_nat (length (scan idx inv new_summary).1) /\
    worst r = match (scan idx inv new_summary).1 with [] => lit "none" | f :: _ => cve_id f end /\
    match (scan idx inv new_summary).1 with
    | [] => True
    | f :: l => Forall (fun g => d_lt (cvss_score f) (cvss_score g) = false) l
    end.
Proof.
  destruct (scan_sorted idx inv new_summary Hs) as [Hp Hsort].
  assert (Forall scored (scan idx inv new_summary).1) as Hsc
    by (rewrite Hp; by apply package_findings_scored).
  unfold scan_report. destruct (scan idx inv new_summary) as [fs summary]. cbn [fst] in *.
  unfold worst_finding, is_fault. rewrite bool_decide_eq_false_2 by done.
  destruct fs as [|f l]; [by eexists|].
  apply StronglySorted_inv in Hsort as [_ Hl]. apply Forall_cons_iff in Hsc as [Hf' Hl'].
  assert (Forall (fun g => d_lt (cvss_score f) (cvss_score g) = false) l) as Hmax.
  { rewrite Forall_forall in Hl, Hl' |- *. intros g Hg. apply before_false_score; auto. }
  eexists. split; [done|]. split; [done|]. split; [|done]. cbn [worst]. by rewrite max_from_head.
Qed.

(** C34: after a scan the shared state holds its result, the host's name and one
    more scan; the result is ok exactly when no database is configured or the
    scan was recorded; and whenever recording failed the connection is closed, so
    that the next scan connects again. *)
Theorem run_scan_outcome {HL : DbLaws D} (t0 t1 wall : Z) (inv : Inventory) (m m' : Impl) (r : ScanResult)
  (lg : log_call) (Hr : run_scan t0 t1 wall inv m = Some (m', r, lg)) :
  last_scan m' = r /\ a_hostname m' = hostname (host inv) /\ scans m' = u64 (scans m + 1) /\
  (db_connection (a_cfg m) = [] -> sr_ok r = true /\ a_db m' = a_db m) /\
  (db_connection (a_cfg m) <> [] ->
     if sr_ok r then
       exists d findings k, db_record_scan inv findings k d = (None, scan_id r, a_db m') /\
         findings = (scan (a_index m) inv new_summary).1 /\ (d = a_db m \/ db_connected d = true)
     else db_connected (a_db m') = false).
Proof.
  unfold run_scan, scan_report in Hr. destruct (scan (a_index m) inv new_summary) as [fs summary] eqn:Es.
  destruct (worst_finding fs _) as [w|]; [|done]. unfold write_db in Hr.
  destruct (db_connection (a_cfg m)) as [|c cs] eqn:Ec; [simplify_eq; by split_and!|].
  set (con := if db_connected (a_db m) then (None, a_db m) else db_connect (c :: cs) (a_db m)) in *.
  assert (Hd : match con with (None, d) => d = a_db m \/ db_connected d = true
               | (Some e, d) => e <> [] /\ db_connected d = false end).
  { subst con. destruct (db_connected (a_db m)); [by left|].
    destruct (db_connect (c :: cs) (a_db m)) as [[e|] d] eqn:E; [by eapply connect_error|].
    right. by eapply connect_connects. }
  destruct con as [[e|] d].
  - destruct Hd as [He Hd]. simplify_eq/=. split_and!; try done. by destruct e.
  - cbn [scan_id] in Hr. destruct (db_record_scan inv fs 0 d) as [[[e|] k] d'] eqn:Er; simplify_eq/=;
      split_and!; try done; intros _.
    + pose proof (record_error _ _ _ _ _ _ _ Er). destruct e; [done|]. apply disconnect_disconnects.
    + by exists d, fs, 0.
Qed.
End Properties.

(** The watchdog reports a scope only if it is still running and at least as
    old as the timeout, and when a scope is that old its round reports one: a
    finished or young request never kills the service, a stuck one always does. *)
Theorem watchdog_reports_stuck (w : Watchdog) (open : list (Z * (str * Z))) (now : Z)
  (Hw : wd_run w open) :
  match wd_round now w with
  | None => forall id what since, (id, (what, since)) ∈ open -> now - since < wd_timeout w
  | Some (what, age) => exists id since, (id, (what, since)) ∈ open /\
      wd_timeout w <= now - since /\ age = ms_of_ns (now - since)
  end.
Proof.
  destruct (wd_run_active w open Hw) as [_ <-]. pose proof (wd_round_spec now w) as H.
  destruct (wd_round now w) as [[what age]|]; [done|]. intros id what since Hin.
  rewrite Forall_forall in H. exact (H _ Hin).
Qed.

(** A "scan" request waits at most half the watchdog's timeout, whatever the
    client asks for, so that waiting is never taken for a hang (for timeouts whose
    product with 500 is an int). *)
Theorem scan_wait_within_watchdog (cfg : AgentConfig) (wait_ms : Z) (w w' : Watchdog)
  (Hh : a_hang_timeout_s cfg < 4294968) (Hw : wd_start (a_hang_timeout_s cfg) w = Some w') :
  0 <= scan_wait cfg wait_ms /\ 2 * (scan_wait cfg wait_ms * 1000000) <= wd_timeout w'.
Proof.
  unfold wd_start in Hw. destruct (Z.leb_spec (a_hang_timeout_s cfg) 0); [done|]. simplify_eq. cbn [wd_timeout].
  unfold scan_wait, scan_cap, clamp. destruct (Z.ltb_spec 0 (a_hang_timeout_s cfg)); [|lia].
  rewrite i32_small by lia. split_ifs; bools; lia.
Qed.

Lemma scan_wait_within_watchdog_witness :
  let cfg := mkAgentConfig [] [] [] [] [] 300 120 FaultNone in
  scan_wait cfg 999999 = 60000 /\ 0 <= scan_wait cfg 999999 /\ 2 * (scan_wait cfg 999999 * 1000000) <= 120 * 1000000000.
Proof.
  intros cfg. split; [reflexivity|].
  apply (scan_wait_within_watchdog cfg 999999 new_watchdog (mkWatchdog false 0 [] (120 * 1000000000)));
    [cbn; lia|reflexivity].
Defined.


Definition sample_agent : Impl (D := unit) :=
  mkImpl (mkAgentConfig [] [] (lit "Driver=x") [] [] 300 120 FaultNone) sample_index tt 0 4 [] new_result.

Lemma linux_db_printable : printable_db (D := unit).
Proof. split; intros; constructor. Qed.

Lemma handle_replies_json_witness :
  let e := mkHandleEnv (mkProcInfo 1 [] false 0 0 0 0 0 0) 0 0 0 false (fun _ => None) (inr (lit "no")) in
  exists ms, parse (handle e (lit " affected CVE-2024-6387") (mkClient 7 (lit "u")) sample_agent).1.1 = Some (JObj ms) /\
    forall v, (exists ms', ms = (lit "error", v) :: ms') -> exists msg, ms = error_tree msg.
Proof. intros e. apply handle_replies_json. exact linux_db_printable. Defined.

Lemma worst_is_first_finding_witness :
  exists r, scan_report (a_cfg sample_agent) sample_index sample_inventory
              = Some (r, (scan sample_index sample_inventory new_summary).1) /\ sr_findings r = 2.
Proof.
  destruct (worst_is_first_finding (a_cfg sample_agent) sample_index sample_inventory) as (r & H1 & H2 & _);
    [done|apply scored_check_ok; vm_compute; reflexivity|].
  exists r. split; [exact H1|]. rewrite H2. vm_compute. reflexivity.
Defined.

Lemma run_scan_outcome_witness :
  exists m' r lg, run_scan 0 5000000 0 sample_inventory sample_agent = Some (m', r, lg) /\
    scans m' = 5 /\ sr_ok r = false /\ duration_ms r = 5.
Proof.
  destruct (run_scan 0 5000000 0 sample_inventory sample_agent) as [[[m' r] lg]|] eqn:E.
  - exists m', r, lg. split; [reflexivity|].
    destruct (run_scan_outcome 0 5000000 0 sample_inventory sample_agent m' r lg E) as (_ & _ & Hs & _).
    split; [rewrite Hs; reflexivity|]. vm_compute in E. injection E as <- <- <-. split; reflexivity.
  - vm_compute in E. discriminate.
Defined.

Lemma watchdog_reports_stuck_witness :
  let w0 := mkWatchdog false 0 [] (120 * 1000000000) in
  let w := (wd_enter (lit "scan") 7 w0).2 in
  wd_round (130 * 1000000000) w = Some (lit "scan", 129999) /\
  exists id since, (id, (lit "scan", since)) ∈ [(1, (lit "scan", 7))] /\ wd_timeout w <= 130 * 1000000000 - since.
Proof.
  intros w0 w. split; [reflexivity|].
  pose proof (watchdog_reports_stuck w ([] ++ [((wd_enter (lit "scan") 7 w0).1, (lit "scan", 7))])
    (130 * 1000000000)) as H.
  destruct H as (id & since & H1 & H2 & _); [|exists id, since; split; [exact H1|exact H2]].
  apply wd_entered; [apply (wd_new 120); reflexivity|reflexivity].
Defined.

(** A database whose transaction fails at its commit, after the scan row was
    inserted: the result keeps the id of the scan that was rolled back. *)
Definition commit_fails_db : DbOps bool := {|
  db_connected d := d;
  db_connect _ _ := (None, true);
  db_disconnect _ := false;
  db_record_scan _ _ _ d := (Some (lit "commit: lost connection"), 42, d);
  db_host_findings _ _ _ d := (None, [], d);
  db_hosts_affected _ d := (None, [], d)
|}.

Example rolled_back_scan_keeps_id :
  let m := mkImpl (D := bool) (mkAgentConfig [] [] (lit "Driver=x") [] [] 300 120 FaultNone) sample_index
             false 0 0 [] new_result in
  exists m' r lg, run_scan (HD := commit_fails_db) 0 0 0 sample_inventory m = Some (m', r, lg) /\
    sr_ok r = false /\ scan_id r = 42.
Proof. intros m. eexists _, _, _. split; [vm_compute; reflexivity|]. split; reflexivity. Qed.

(** With a timeout of fifty days the cap of a scan's wait overflows its [int]
    and the bounds of the clamp are crossed. *)
Example scan_cap_overflows : scan_cap (mkAgentConfig [] [] [] [] [] 300 4320000 FaultNone) = -2134967296.
Proof. reflexivity. Qed.
