(* ===== verification/AgentThreads.v ===== *)
(** * The agent's threads (src/agent.cpp: Agent::Impl, ScanWaiter)

    The scan worker and any number of pipe handlers as a transition system: a
    state is where every thread stands, who holds the database and state locks,
    who is registered for the next scan, and which waiters are alive.  One action
    is one thread's next atomic step; the short critical sections of
    [listeners_mu], [wake_mu] and a waiter's own lock, in which nothing blocks,
    are one step each.  What the threads compute is in Agent.v. *)
From S2P Require Import Prelude Agent.

(** ** States *)

Inductive owner := OWorker | OHandler (h : nat).

(** Where the worker is, in the order of [worker_loop] and [run_scan]. *)
Inductive wpc :=
| WIdle                          (* in wake_cv.wait_until *)
| WCollect                       (* collecting, matching: no lock *)
| WNeedDb | WInDb                (* write_db under db_mu *)
| WNeedState | WInState          (* update_state under state_mu *)
| WHook                          (* log, on_inventory: no lock *)
| WSwap                          (* about to swap the listeners out *)
| WDeliver (todo all : list nat) (* calling on_scan_complete *)
| WExit                          (* returned: the agent stops *)
| WCrashed.                      (* an exception left the thread *)

(** Where a pipe handler is. *)
Inductive hpc :=
| HStatusNeedState | HStatusInState                  (* handle_status *)
| HStatusNeedDb | HStatusBoth                        (* ... with the deadlock fault *)
| HStatusTryDb | HStatusHasDb                        (* ... the try-lock *)
| HScanStart | HScanPushed (w : nat) | HScanWaiting (w : nat)
| HFindNeedState | HFindInState                      (* handle_findings: the host's name *)
| HNeedDb | HInDb                                    (* handle_findings, handle_affected *)
| HDone.

#[global] Instance hpc_eq_dec : EqDecision hpc.
Proof. solve_decision. Defined.

(** A waiter: whether the handler's local pointer and the listener list's (or the
    worker's) copy still refer to it, whether it has its result, whether its
    memory is freed. *)
Record waiter := mkWaiter { w_local : bool; w_listed : bool; w_done : bool; w_freed : bool }.

Record threads := mkThreads {
  t_fault : Fault; worker : wpc; handlers : gmap nat hpc;
  db_owner : option owner; state_owner : option owner;
  listeners : list nat; waiters : gmap nat waiter; scan_requested : bool; stopping : bool;
  uaf : bool  (* a method was called on a freed waiter *) }.

Definition set_worker (p : wpc) (s : threads) : threads :=
  mkThreads (t_fault s) p (handlers s) (db_owner s) (state_owner s) (listeners s) (waiters s)
    (scan_requested s) (stopping s) (uaf s).
Definition set_handler (h : nat) (p : hpc) (s : threads) : threads :=
  mkThreads (t_fault s) (worker s) (<[h := p]> (handlers s)) (db_owner s) (state_owner s) (listeners s)
    (waiters s) (scan_requested s) (stopping s) (uaf s).
Definition set_db_owner (o : option owner) (s : threads) : threads :=
  mkThreads (t_fault s) (worker s) (handlers s) o (state_owner s) (listeners s) (waiters s)
    (scan_requested s) (stopping s) (uaf s).
Definition set_state_owner (o : option owner) (s : threads) : threads :=
  mkThreads (t_fault s) (worker s) (handlers s) (db_owner s) o (listeners s) (waiters s)
    (scan_requested s) (stopping s) (uaf s).
Definition set_listeners (l : list nat) (s : threads) : threads :=
  mkThreads (t_fault s) (worker s) (handlers s) (db_owner s) (state_owner s) l (waiters s)
    (scan_requested s) (stopping s) (uaf s).
Definition set_waiters (m : gmap nat waiter) (s : threads) : threads :=
  mkThreads (t_fault s) (worker s) (handlers s) (db_owner s) (state_owner s) (listeners s) m
    (scan_requested s) (stopping s) (uaf s).
Definition set_requested (b : bool) (s : threads) : threads :=
  mkThreads (t_fault s) (worker s) (handlers s) (db_owner s) (state_owner s) (listeners s) (waiters s)
    b (stopping s) (uaf s).
Definition set_stopping (b : bool) (s : threads) : threads :=
  mkThreads (t_fault s) (worker s) (handlers s) (db_owner s) (state_owner s) (listeners s) (waiters s)
    (scan_requested s) b (uaf s).
Definition set_uaf (b : bool) (s : threads) : threads :=
  mkThreads (t_fault s) (worker s) (handlers s) (db_owner s) (state_owner s) (listeners s) (waiters s)
    (scan_requested s) (stopping s) b.

Definition started (f : Fault) : threads := mkThreads f WIdle ∅ None None [] ∅ false false false.

(** ** Waiters *)

(** The last reference frees the waiter; with the use-after-free fault the
    pointer in the list owns nothing. *)
Definition drop_local (f : Fault) (x : waiter) : waiter :=
  mkWaiter false (w_listed x) (w_done x) (w_freed x || is_fault f UseAfterFree || negb (w_listed x)).
Definition drop_listed (f : Fault) (x : waiter) : waiter :=
  mkWaiter (w_local x) false (w_done x)
    (w_freed x || (negb (is_fault f UseAfterFree) && negb (w_local x))).
Definition set_done (x : waiter) : waiter := mkWaiter (w_local x) (w_listed x) true (w_freed x).

(** [on_scan_complete] on a waiter of the list. *)
Definition deliver (w : nat) (s : threads) : threads :=
  match waiters s !! w with
  | Some x =>
      if w_freed x then set_uaf true s else set_waiters (<[w := set_done x]> (waiters s)) s
  | None => s
  end.

Definition drop_all (ws : list nat) (s : threads) : threads :=
  set_waiters (fold_left (fun m w => alter (drop_listed (t_fault s)) w m) ws (waiters s)) s.

(** ** Steps *)

(** The worker's next step; [tick] says that the interval has passed.  [None]:
    it waits. *)
Definition worker_step (tick : bool) (s : threads) : option threads :=
  match worker s with
  | WIdle =>
      if stopping s then Some (set_worker WExit s)
      else if scan_requested s || tick then Some (set_worker WCollect (set_requested false s))
      else None
  | WCollect => Some (set_worker (if is_fault (t_fault s) WorkerCrash then WCrashed else WNeedDb) s)
  | WNeedDb =>
      match db_owner s with
      | None => Some (set_worker WInDb (set_db_owner (Some OWorker) s))
      | Some _ => None
      end
  | WInDb =>
      Some (set_worker WNeedState (if is_fault (t_fault s) Deadlock then s else set_db_owner None s))
  | WNeedState =>
      match state_owner s with
      | None => Some (set_worker WInState (set_state_owner (Some OWorker) s))
      | Some _ => None
      end
  | WInState =>
      let s := set_worker WHook (set_state_owner None s) in
      Some (if is_fault (t_fault s) Deadlock then set_db_owner None s else s)
  | WHook => Some (set_worker WSwap s)
  | WSwap => Some (set_worker (WDeliver (listeners s) (listeners s)) (set_listeners [] s))
  | WDeliver (w :: todo) all => Some (set_worker (WDeliver todo all) (deliver w s))
  | WDeliver [] all => Some (set_worker WIdle (drop_all all s))
  | WExit | WCrashed => None
  end.

(** A handler's next step; [b] says that the wait of a scan request times out, or
    that no host name is known yet.  [None]: it waits, or is done. *)
Definition handler_step (h : nat) (b : bool) (s : threads) : option threads :=
  match handlers s !! h with
  | None | Some HDone => None
  | Some HStatusNeedState =>
      match state_owner s with
      | None => Some (set_handler h HStatusInState (set_state_owner (Some (OHandler h)) s))
      | Some _ => None
      end
  | Some HStatusInState =>
      Some (if is_fault (t_fault s) Deadlock then set_handler h HStatusNeedDb s
            else set_handler h HStatusTryDb (set_state_owner None s))
  | Some HStatusNeedDb =>
      match db_owner s with
      | None => Some (set_handler h HStatusBoth (set_db_owner (Some (OHandler h)) s))
      | Some _ => None
      end
  | Some HStatusBoth => Some (set_handler h HDone (set_db_owner None (set_state_owner None s)))
  | Some HStatusTryDb =>
      Some (match db_owner s with
            | None => set_handler h HStatusHasDb (set_db_owner (Some (OHandler h)) s)
            | Some _ => set_handler h HDone s
            end)
  | Some HStatusHasDb => Some (set_handler h HDone (set_db_owner None s))
  | Some HScanStart =>
      let w := fresh (dom (waiters s)) in
      Some (set_handler h (HScanPushed w)
        (set_listeners (listeners s ++ [w])
          (set_waiters (<[w := mkWaiter true true false false]> (waiters s)) s)))
  | Some (HScanPushed w) => Some (set_handler h (HScanWaiting w) (set_requested true s))
  | Some (HScanWaiting w) =>
      match waiters s !! w with
      | Some x =>
          if w_done x || b then
            Some (set_handler h HDone (set_waiters (<[w := drop_local (t_fault s) x]> (waiters s)) s))
          else None
      | None => None
      end
  | Some HFindNeedState =>
      match state_owner s with
      | None => Some (set_handler h HFindInState (set_state_owner (Some (OHandler h)) s))
      | Some _ => None
      end
  | Some HFindInState => Some (set_handler h (if b then HDone else HNeedDb) (set_state_owner None s))
  | Some HNeedDb =>
      match db_owner s with
      | None => Some (set_handler h HInDb (set_db_owner (Some (OHandler h)) s))
      | Some _ => None
      end
  | Some HInDb => Some (set_handler h HDone (set_db_owner None s))
  end.

(** The requests that touch shared state, and where they start. *)
Inductive request := RStatus | RScan | RFindings | RAffected.

Definition entry (r : request) : hpc :=
  match r with
  | RStatus => HStatusNeedState
  | RScan => HScanStart
  | RFindings => HFindNeedState
  | RAffected => HNeedDb
  end.

Inductive action := AWorker (tick : bool) | AHandler (h : nat) (b : bool) | AConnect (h : nat) (r : request) | AStop.

(** [Agent::stop] sets the flag once the pipe server has joined its handlers. *)
Definition step (a : action) (s : threads) : option threads :=
  match a with
  | AWorker tick => worker_step tick s
  | AHandler h b => handler_step h b s
  | AConnect h r =>
      if stopping s then None
      else match handlers s !! h with None => Some (set_handler h (entry r) s) | Some _ => None end
  | AStop => if bool_decide (map_Forall (fun _ p => p = HDone) (handlers s)) then Some (set_stopping true s) else None
  end.

Fixpoint run (acts : list action) (s : threads) : option threads :=
  match acts with
  | [] => Some s
  | a :: acts' => match step a s with Some s' => run acts' s' | None => None end
  end.

Inductive reachable (f : Fault) : threads -> Prop :=
| reach_start : reachable f (started f)
| reach_step a s s' : reachable f s -> step a s = Some s' -> reachable f s'.

(** ** The locks *)

Definition holds_db (s : threads) (o : owner) : bool :=
  match o with
  | OWorker =>
      match worker s with
      | WInDb => true
      | WNeedState | WInState => is_fault (t_fault s) Deadlock
      | _ => false
      end
  | OHandler h =>
      match handlers s !! h with Some (HStatusBoth | HStatusHasDb | HInDb) => true | _ => false end
  end.

Definition holds_state (s : threads) (o : owner) : bool :=
  match o with
  | OWorker => match worker s with WInState => true | _ => false end
  | OHandler h =>
      match handlers s !! h with
      | Some (HStatusInState | HStatusNeedDb | HStatusBoth | HFindInState) => true
      | _ => false
      end
  end.

(** Who waits for which lock. *)
Definition waits_db (s : threads) (o : owner) : bool :=
  match o with
  | OWorker => match worker s with WNeedDb => true | _ => false end
  | OHandler h => match handlers s !! h with Some (HStatusNeedDb | HNeedDb) => true | _ => false end
  end.

Definition waits_state (s : threads) (o : owner) : bool :=
  match o with
  | OWorker => match worker s with WNeedState => true | _ => false end
  | OHandler h =>
      match handlers s !! h with Some (HStatusNeedState | HFindNeedState) => true | _ => false end
  end.

(** A lock's owner is the thread that is inside its critical section. *)
Definition owned (holds : owner -> bool) (own : option owner) : Prop :=
  forall o, holds o = true <-> own = Some o.

Definition locks_ok (s : threads) : Prop :=
  owned (holds_db s) (db_owner s) /\ owned (holds_state s) (state_owner s).

Lemma owned_same h h' own : owned h own -> (forall o, h' o = h o) -> owned h' own.
Proof. intros H E o. rewrite E. apply H. Qed.

Lemma owned_acquire h h' o :
  owned h None -> h' o = true -> (forall o', o' <> o -> h' o' = h o') -> owned h' (Some o).
Proof.
  intros H Ho E o'. destruct (decide (h' o' = true)) as [H'|H'].
  - split; [|done]. intros _. f_equal. destruct o as [|n], o' as [|n']; try done.
    + rewrite E in H' by done. by apply H in H'.
    + rewrite E in H' by done. by apply H in H'.
    + destruct (decide (n = n')) as [->|Hn]; [done|]. rewrite E in H' by congruence. by apply H in H'.
  - split; [done|]. intros [= ->]. done.
Qed.

Lemma owned_release h h' own o :
  owned h own -> h o = true -> h' o = false -> (forall o', o' <> o -> h' o' = h o') -> owned h' None.
Proof.
  intros H Ho Hf E o'. split; [|done]. intros H'. apply H in Ho.
  assert (o' <> o) as Hne by (intros ->; congruence). rewrite E in H' by done. apply H in H'. congruence.
Qed.

(** A step of the worker or of one handler, case by case. *)
Ltac fields H :=
  cbn [t_fault worker handlers db_owner state_owner listeners waiters scan_requested stopping uaf] in H.

Ltac by_cases_on_step H :=
  unfold set_worker, set_handler, set_db_owner, set_state_owner, set_listeners, set_waiters, set_requested,
    set_stopping, set_uaf, drop_all, deliver in H; fields H;
  repeat match type of H with
  | None = Some _ => discriminate H
  | context [match worker ?s with _ => _ end] => destruct (worker s) eqn:?
  | context [match handlers ?s !! ?h with _ => _ end] => destruct (handlers s !! h) as [[]|] eqn:?
  | context [match db_owner ?s with _ => _ end] => destruct (db_owner s) eqn:?
  | context [match state_owner ?s with _ => _ end] => destruct (state_owner s) eqn:?
  | context [match ?l with [] => _ | _ :: _ => _ end] => destruct l eqn:?
  | context [match waiters ?s !! ?w with _ => _ end] => destruct (waiters s !! w) eqn:?
  | context [if ?b then _ else _] => destruct b eqn:?
  end; fields H; try discriminate H; injection H as <-.

(** Who holds a lock after a step, from who held it before. *)
Ltac held :=
  cbn [holds_db holds_state worker handlers t_fault];
  repeat match goal with
  | E : worker _ = _ |- _ => rewrite E
  | E : is_fault _ _ = _ |- _ => rewrite E
  | |- context [<[?h := _]> _ !! ?h] => rewrite lookup_insert_eq
  | |- context [<[?h := _]> _ !! ?h'] =>
      destruct (decide (h = h')) as [<-|?]; [rewrite lookup_insert_eq|rewrite lookup_insert_ne by done]
  | E : handlers _ !! _ = _ |- _ => rewrite E
  end; try done; try congruence.

Ltac lock_case H o :=
  cbn [db_owner state_owner];
  first [ apply (owned_same _ _ _ H); intros [|h']; solve [held]
        | apply (owned_acquire _ _ o H); [solve [held]|intros [|h'] ?; solve [held]]
        | apply (owned_release _ _ _ o H); [solve [held]|solve [held]|intros [|h'] ?; solve [held]] ].

Lemma locks_step a s s' : locks_ok s -> step a s = Some s' -> locks_ok s'.
Proof.
  intros [Hd Hs] Hst. destruct a as [tick|h b|h r|]; cbn [step] in Hst.
  - unfold worker_step in Hst. by_cases_on_step Hst; (split; [lock_case Hd OWorker|lock_case Hs OWorker]).
  - unfold handler_step in Hst.
    by_cases_on_step Hst; (split; [lock_case Hd (OHandler h)|lock_case Hs (OHandler h)]).
  - by_cases_on_step Hst; destruct r; (split; [lock_case Hd (OHandler h)|lock_case Hs (OHandler h)]).
  - by_cases_on_step Hst; (split; [lock_case Hd OWorker|lock_case Hs OWorker]).
Qed.

Lemma started_locks f : locks_ok (started f).
Proof. split; intros [|h]; cbn; try rewrite lookup_empty; done. Qed.

Lemma step_fault a s s' : step a s = Some s' -> t_fault s' = t_fault s.
Proof.
  intros Hst. destruct a as [tick|h b|h r|]; cbn [step] in Hst;
    unfold worker_step, handler_step in Hst; by_cases_on_step Hst; done.
Qed.

Lemma reachable_locks f s : reachable f s -> locks_ok s /\ t_fault s = f.
Proof.
  induction 1 as [|a s s' _ [IH Hf] Hst]; [by split; [apply started_locks|]|].
  split; [by eapply locks_step|]. by rewrite (step_fault _ _ _ Hst).
Qed.

(** Without the deadlock fault no request asks for the database lock while it
    holds the state lock. *)
Definition one_lock (s : threads) : Prop :=
  forall h, handlers s !! h <> Some HStatusNeedDb /\ handlers s !! h <> Some HStatusBoth.

Lemma one_lock_insert h p m :
  p <> HStatusNeedDb -> p <> HStatusBoth ->
  (forall h', m !! h' <> Some HStatusNeedDb /\ m !! h' <> Some HStatusBoth) ->
  forall h', <[h := p]> m !! h' <> Some HStatusNeedDb /\ (<[h := p]> m : gmap nat hpc) !! h' <> Some HStatusBoth.
Proof.
  intros H1 H2 Hm h'. destruct (decide (h = h')) as [->|Hne].
  - rewrite lookup_insert_eq. split; congruence.
  - rewrite lookup_insert_ne by done. apply Hm.
Qed.

Lemma one_lock_step a s s' :
  is_fault (t_fault s) Deadlock = false -> one_lock s -> step a s = Some s' -> one_lock s'.
Proof.
  intros Hf Ho Hst. destruct a as [tick|h b|h r|]; cbn [step] in Hst;
    unfold worker_step, handler_step in Hst; rewrite ?Hf in Hst; by_cases_on_step Hst; try exact Ho;
    try (by destruct (Ho h)); unfold one_lock; cbn [handlers]; apply one_lock_insert; try done;
    by destruct r.
Qed.

Lemma reachable_one_lock f s : f <> Deadlock -> reachable f s -> one_lock s.
Proof.
  intros Hf. induction 1 as [|a s s' Hr IH Hst]; [intros h; cbn; by rewrite lookup_empty|].
  eapply one_lock_step; [|done|done]. destruct (reachable_locks f s Hr) as [_ ->].
  by apply bool_decide_eq_false_2.
Qed.

(** ** The waiters *)

Definition to_serve (s : threads) : list nat := match worker s with WDeliver todo _ => todo | _ => [] end.
Definition taken (s : threads) : list nat := match worker s with WDeliver _ all => all | _ => [] end.

(** Every waiter a listener list refers to is alive: the list's own reference
    keeps it so. *)
Record waiters_ok (s : threads) : Prop := {
  wo_listed : forall w, w ∈ listeners s ++ taken s -> exists x, waiters s !! w = Some x /\ w_listed x = true;
  wo_freed : forall w x, waiters s !! w = Some x -> w_freed x = true -> w_local x = false /\ w_listed x = false;
  wo_todo : forall w, w ∈ to_serve s -> w ∈ taken s;
  wo_nodup : NoDup (listeners s ++ taken s);
  wo_uaf : uaf s = false }.

Lemma waiters_same s s' :
  waiters_ok s -> listeners s' = listeners s -> waiters s' = waiters s -> to_serve s' = to_serve s ->
  taken s' = taken s -> uaf s' = uaf s -> waiters_ok s'.
Proof. intros [H1 H2 H3 H4 H5] E1 E2 E3 E4 E5. by split; rewrite ?E1, ?E2, ?E3, ?E4, ?E5. Qed.

Lemma waiters_swap s :
  waiters_ok s -> taken s = [] ->
  waiters_ok (set_worker (WDeliver (listeners s) (listeners s)) (set_listeners [] s)).
Proof.
  intros [H1 H2 H3 H4 H5] Ht. rewrite Ht, app_nil_r in *. by split.
Qed.

Lemma waiters_deliver s w todo all :
  waiters_ok s -> worker s = WDeliver (w :: todo) all ->
  waiters_ok (set_worker (WDeliver todo all) (deliver w s)).
Proof.
  intros [H1 H2 H3 H4 H5] Hw. unfold to_serve, taken in *. rewrite Hw in *.
  destruct (H1 w) as (x & Hx & Hl); [apply elem_of_app; right; apply H3; by left|].
  unfold deliver. rewrite Hx. destruct (w_freed x) eqn:Hf; [by destruct (H2 w x Hx Hf); congruence|].
  split; cbn; try done.
  - intros w' Hw'. destruct (H1 w' Hw') as (x' & Hx' & Hl').
    destruct (decide (w = w')) as [->|Hne]; [|by exists x'; rewrite lookup_insert_ne].
    exists (set_done x). rewrite lookup_insert_eq. by split; [|].
  - intros w' x'. destruct (decide (w = w')) as [->|Hne]; [|rewrite lookup_insert_ne by done; apply H2].
    rewrite lookup_insert_eq. intros [= <-]. cbn. congruence.
  - intros w' Hw'. apply H3. by right.
Qed.

(** Dropping the references of a list of waiters. *)
Lemma drop_listed_lookup f ws (m : gmap nat waiter) w :
  NoDup ws -> fold_left (fun m w => alter (drop_listed f) w m) ws m !! w =
  (if bool_decide (w ∈ ws) then drop_listed f <$> m !! w else m !! w).
Proof.
  intros Hnd. revert m. induction Hnd as [|w' ws Hw' _ IH]; intros m; [done|]. cbn [fold_left]. rewrite IH.
  destruct (decide (w = w')) as [->|Hne].
  - rewrite (bool_decide_eq_false_2 (w' ∈ ws)), bool_decide_eq_true_2 by (done || by left).
    apply lookup_alter_eq.
  - rewrite lookup_alter_ne by done. destruct (decide (w ∈ ws)).
    + by rewrite !bool_decide_eq_true_2 by (done || by right).
    + rewrite !bool_decide_eq_false_2; [done| |done]. rewrite elem_of_cons. naive_solver.
Qed.

Lemma waiters_drop s all :
  waiters_ok s -> worker s = WDeliver [] all -> t_fault s <> UseAfterFree ->
  waiters_ok (set_worker WIdle (drop_all all s)).
Proof.
  intros [H1 H2 H3 H4 H5] Hw Hf. unfold to_serve, taken in *. rewrite Hw in *.
  apply NoDup_app in H4 as (Hl & Hdisj & Ha).
  split; cbn; try done.
  - intros w Hin. rewrite app_nil_r in Hin. rewrite drop_listed_lookup by done.
    rewrite bool_decide_eq_false_2 by (by apply Hdisj). apply H1, elem_of_app. by left.
  - intros w x. rewrite drop_listed_lookup by done. destruct (decide (w ∈ all)).
    + rewrite bool_decide_eq_true_2 by done. destruct (waiters s !! w) as [y|] eqn:Ey; [|done].
      intros [= <-]. unfold drop_listed, is_fault. cbn. rewrite bool_decide_eq_false_2 by done. cbn.
      intros Hfr. split; [|done]. destruct (w_local y) eqn:El; [|done].
      rewrite orb_false_r in Hfr. destruct (H2 w y Ey Hfr). congruence.
    + rewrite bool_decide_eq_false_2 by done. apply H2.
  - rewrite app_nil_r. done.
Qed.

Lemma waiters_push s h w :
  waiters_ok s -> waiters s !! w = None ->
  waiters_ok (set_handler h (HScanPushed w)
    (set_listeners (listeners s ++ [w]) (set_waiters (<[w := mkWaiter true true false false]> (waiters s)) s))).
Proof.
  intros [H1 H2 H3 H4 H5] Hw.
  assert (w ∉ listeners s ++ taken s) as Hnot by (intros Hin; destruct (H1 w Hin) as (x & Hx & _); congruence).
  unfold taken, to_serve in *. split; cbn; try done.
  - intros w' Hin. destruct (decide (w = w')) as [->|Hne]; [rewrite lookup_insert_eq; eauto|].
    rewrite lookup_insert_ne by done. apply H1. set_solver.
  - intros w' x. destruct (decide (w = w')) as [->|Hne]; [|rewrite lookup_insert_ne by done; apply H2].
    rewrite lookup_insert_eq. by intros [= <-].
  - rewrite <- app_assoc. cbn. apply NoDup_app. apply NoDup_app in H4 as (Ha & Hb & Hc).
    split_and!; [done| |constructor; [set_solver|done]]. set_solver.
Qed.

Lemma waiters_leave s h w x :
  waiters_ok s -> waiters s !! w = Some x -> t_fault s <> UseAfterFree ->
  waiters_ok (set_handler h HDone (set_waiters (<[w := drop_local (t_fault s) x]> (waiters s)) s)).
Proof.
  intros [H1 H2 H3 H4 H5] Hw Hf. unfold taken, to_serve in *. split; cbn; try done.
  - intros w' Hin. destruct (H1 w' Hin) as (y & Hy & Hl). destruct (decide (w = w')) as [->|Hne].
    + rewrite lookup_insert_eq. eexists. split; [done|]. simplify_eq. done.
    + rewrite lookup_insert_ne by done. eauto.
  - intros w' y. destruct (decide (w = w')) as [->|Hne]; [|rewrite lookup_insert_ne by done; apply H2].
    rewrite lookup_insert_eq. intros [= <-]. unfold drop_local, is_fault. cbn.
    rewrite bool_decide_eq_false_2, orb_false_r by done. intros Hfr. split; [done|].
    destruct (w_listed x) eqn:El; [|done]. rewrite orb_false_r in Hfr. destruct (H2 w' x Hw Hfr). congruence.
Qed.

Lemma waiters_step a s s' :
  t_fault s <> UseAfterFree -> waiters_ok s -> step a s = Some s' -> waiters_ok s'.
Proof.
  intros Hf Hok Hst. destruct a as [tick|h b|h r|]; cbn [step] in Hst.
  - destruct (worker s) as [ | | | | | | | |[|w todo] all| | ] eqn:Hw; unfold worker_step in Hst; rewrite Hw in Hst.
    8: { injection Hst as <-. apply waiters_swap; [done|]. unfold taken. by rewrite Hw. }
    8: { injection Hst as <-. by apply waiters_drop. }
    8: { injection Hst as <-. by apply waiters_deliver. }
    all: by_cases_on_step Hst; apply (waiters_same _ _ Hok); unfold to_serve, taken; cbn; by rewrite ?Hw.
  - destruct (handlers s !! h) as [p|] eqn:Hh; unfold handler_step in Hst; rewrite Hh in Hst; [|done].
    destruct p.
    7: { injection Hst as <-. apply waiters_push; [done|]. apply not_elem_of_dom, is_fresh. }
    8: { destruct (waiters s !! w) as [x|] eqn:Hx; [|done]. destruct (w_done x || b); [|done].
         injection Hst as <-. by apply waiters_leave. }
    all: by_cases_on_step Hst; by apply (waiters_same _ _ Hok).
  - by_cases_on_step Hst. by apply (waiters_same _ _ Hok).
  - by_cases_on_step Hst. by apply (waiters_same _ _ Hok).
Qed.

Lemma started_waiters f : waiters_ok (started f).
Proof. split; cbn; try done; [by intros ? ?%elem_of_nil|constructor]. Qed.

Lemma reachable_waiters f s : f <> UseAfterFree -> reachable f s -> waiters_ok s.
Proof.
  intros Hf. induction 1 as [|a s s' Hr IH Hst]; [apply started_waiters|].
  eapply waiters_step; [|done|done]. by destruct (reachable_locks f s Hr) as [_ ->].
Qed.

(** ** Wake-ups *)

(** The worker has no listener left to serve before it next looks at the request
    flag. *)
Definition past_swap (s : threads) : bool :=
  match worker s with WIdle | WDeliver _ _ => true | _ => false end.

Definition requested_ok (s : threads) : Prop :=
  past_swap s = true -> listeners s = [] \/ scan_requested s = true \/
    exists h w, handlers s !! h = Some (HScanPushed w).

Lemma requested_handler h p s :
  (forall w, handlers s !! h <> Some (HScanPushed w)) -> requested_ok s -> requested_ok (set_handler h p s).
Proof.
  intros Hh Hr Hp. destruct (Hr Hp) as [H|[H|(h' & w & H)]]; [by left|by right; left|].
  right; right. exists h', w. cbn. rewrite lookup_insert_ne; [done|]. intros ->. by eapply Hh.
Qed.

Lemma requested_step a s s' : requested_ok s -> step a s = Some s' -> requested_ok s'.
Proof.
  intros Hr Hst. destruct a as [tick|h b|h r|]; cbn [step] in Hst.
  - unfold worker_step in Hst. unfold requested_ok, past_swap in *.
    by_cases_on_step Hst; cbn in *; try done; try (by left); auto.
  - destruct (handlers s !! h) as [p|] eqn:Hh; unfold handler_step in Hst; rewrite Hh in Hst; [|done].
    destruct p.
    7: { injection Hst as <-. intros _. right; right. eexists h, _. cbn. by rewrite lookup_insert_eq. }
    7: { injection Hst as <-. intros _. right; left. done. }
    all: try discriminate Hst; repeat (case_match; try discriminate Hst); injection Hst as <-;
      apply requested_handler; try (cbn; rewrite Hh; done); exact Hr.
  - destruct (stopping s); [done|]. destruct (handlers s !! h) eqn:Hh; [done|]. injection Hst as <-.
    apply requested_handler; [by rewrite Hh|done].
  - case_match; [|done]. injection Hst as <-. exact Hr.
Qed.

Lemma reachable_requested f s : reachable f s -> requested_ok s.
Proof.
  induction 1 as [|a s s' _ IH Hst]; [by left|]. by eapply requested_step.
Qed.

(** ** A scan from start to end *)

Lemma run_app a1 a2 s s' : run a1 s = Some s' -> run (a1 ++ a2) s = run a2 s'.
Proof.
  revert s. induction a1 as [|a a1 IH]; intros s; cbn; [by intros [= ->]|].
  destruct (step a s) as [s1|]; [|done]. apply IH.
Qed.

Lemma reachable_run f acts s s' : reachable f s -> run acts s = Some s' -> reachable f s'.
Proof.
  revert s. induction acts as [|a acts IH]; intros s Hr; cbn; [by intros [= <-]|].
  destruct (step a s) as [s1|] eqn:E; [|done]. apply IH. by eapply reach_step.
Qed.

(** From the request to the swap: seven steps of the worker. *)
Lemma run_to_swap s :
  worker s = WIdle -> stopping s = false -> scan_requested s = true -> db_owner s = None ->
  state_owner s = None -> t_fault s = FaultNone ->
  run (replicate 8 (AWorker false)) s
  = Some (set_worker (WDeliver (listeners s) (listeners s)) (set_listeners [] (set_requested false s))).
Proof.
  destruct s as [f w hs d st l ws rq sp u]. cbn. intros -> -> -> -> -> ->. done.
Qed.

Definition is_done (s : threads) (w : nat) : Prop := exists x, waiters s !! w = Some x /\ w_done x = true.

(** Serving the rest of the list: one step each. *)
Lemma run_deliveries todo all s :
  waiters_ok s -> worker s = WDeliver todo all ->
  exists s', run (replicate (length todo) (AWorker false)) s = Some s' /\ waiters_ok s' /\
    worker s' = WDeliver [] all /\ t_fault s' = t_fault s /\
    (forall w, is_done s w -> is_done s' w) /\ (forall w, w ∈ todo -> is_done s' w).
Proof.
  revert s. induction todo as [|w todo IH]; intros s Hok Hw.
  { exists s. split_and!; try done. by intros w ?%elem_of_nil. }
  pose proof (waiters_deliver s w todo all Hok Hw) as Hok1.
  destruct (wo_listed s Hok w) as (x & Hx & Hl).
  { apply elem_of_app. right. unfold taken. rewrite Hw.
    pose proof (wo_todo s Hok w) as H. unfold to_serve, taken in H. rewrite Hw in H. apply H. by left. }
  assert (w_freed x = false) as Hfr.
  { destruct (w_freed x) eqn:E; [|done]. destruct (wo_freed s Hok w x Hx E). congruence. }
  assert (deliver w s = set_waiters (<[w := set_done x]> (waiters s)) s) as Hdel
    by (unfold deliver; by rewrite Hx, Hfr).
  destruct (IH _ Hok1 eq_refl) as (s' & Hrun & Hok' & Hw' & Hf' & Hmono & Htodo).
  exists s'. cbn [length replicate run step]. unfold worker_step at 1. rewrite Hw. rewrite Hrun.
  rewrite Hdel in *. split_and!; try done.
  - intros w' (y & Hy & Hdn). apply Hmono. destruct (decide (w = w')) as [->|Hne].
    + exists (set_done x). cbn. by rewrite lookup_insert_eq.
    + exists y. cbn. by rewrite lookup_insert_ne.
  - intros w' [->|Hin]%elem_of_cons; [|by apply Htodo]. apply Hmono. exists (set_done x). cbn.
    by rewrite lookup_insert_eq.
Qed.

(** Dropping references does not take a result away. *)
Lemma drop_all_done all s w : NoDup all -> is_done s w -> is_done (drop_all all s) w.
Proof.
  intros Hnd (x & Hx & Hd). unfold is_done, drop_all. cbn. rewrite drop_listed_lookup, Hx by done.
  destruct (bool_decide _); eauto.
Qed.

(** ** Properties *)

Definition thread_step (o : owner) (s : threads) : option threads :=
  match o with OWorker => worker_step false s | OHandler h => handler_step h false s end.

(** C8: without the deadlock fault, in every state the threads can reach, the
    thread that holds the database lock or the state lock gives it up in its very
    next step, without waiting for anything: no thread ever holds one lock while
    it waits for the other, so the threads cannot deadlock. *)
Theorem locks_never_block (f : Fault) (s : threads) (Hf : f <> Deadlock) (Hr : reachable f s) :
  (forall o, db_owner s = Some o -> exists s', thread_step o s = Some s' /\ db_owner s' = None) /\
  (forall o, state_owner s = Some o -> exists s', thread_step o s = Some s' /\ state_owner s' = None).
Proof.
  destruct (reachable_locks f s Hr) as [[Hd Hs] Ef]. pose proof (reachable_one_lock f s Hf Hr) as Ho.
  assert (is_fault (t_fault s) Deadlock = false) as Hnd
    by (unfold is_fault; rewrite Ef; by apply bool_decide_eq_false_2).
  split; intros [|h] Hown; [apply Hd in Hown|apply Hd in Hown|apply Hs in Hown|apply Hs in Hown];
    try (destruct (Ho h) as [Ho1 Ho2]);
    cbn [holds_db holds_state thread_step] in *; unfold worker_step, handler_step; rewrite ?Hnd in *;
    repeat case_match; simplify_eq; eexists; (split; [done|]); cbn; try done.
Qed.

(** One handler and the worker, each past its first lock. *)
Definition deadlock_schedule : list action :=
  [AConnect 0 RStatus; AWorker true; AWorker false; AWorker false; AHandler 0 false; AHandler 0 false;
   AWorker false].

Definition deadlocked (s : threads) : Prop :=
  worker s = WNeedState /\ state_owner s = Some (OHandler 0) /\
  handlers s !! 0%nat = Some HStatusNeedDb /\ db_owner s = Some OWorker /\ stopping s = false.

Lemma deadlocked_step a s s' : locks_ok s -> deadlocked s -> step a s = Some s' -> deadlocked s'.
Proof.
  intros [Hod Hos] (Hw & Hs & Hh & Hd & Hsp) Hst. destruct a as [tick|h b|h r|]; cbn [step] in Hst.
  - unfold worker_step in Hst. rewrite Hw, Hs in Hst. done.
  - destruct (decide (h = 0%nat)) as [->|Hne]; [unfold handler_step in Hst; rewrite Hh, Hd in Hst; done|].
    pose proof (Hod (OHandler h)) as Hdh. pose proof (Hos (OHandler h)) as Hsh. cbn in Hdh, Hsh.
    unfold handler_step in Hst. rewrite ?Hs, ?Hd in *.
    by_cases_on_step Hst; unfold deadlocked; cbn; rewrite ?lookup_insert_ne by done; try done;
      exfalso; first [ destruct Hdh as [Hdh _]; specialize (Hdh eq_refl); congruence
                     | destruct Hsh as [Hsh _]; specialize (Hsh eq_refl); congruence ].
  - rewrite Hsp in Hst. destruct (handlers s !! h) eqn:E; [done|]. injection Hst as <-. split_and!; try done.
    cbn. rewrite lookup_insert_ne; [done|]. intros ->. congruence.
  - destruct (bool_decide _) eqn:E; [|done]. apply bool_decide_eq_true in E. by specialize (E _ _ Hh).
Qed.

Lemma deadlocked_run acts s s' : locks_ok s -> deadlocked s -> run acts s = Some s' -> deadlocked s'.
Proof.
  revert s. induction acts as [|a acts IH]; intros s Hl Hd; cbn; [by intros [= <-]|].
  destruct (step a s) as [s1|] eqn:E; [|done]. apply IH; [by eapply locks_step|by eapply deadlocked_step].
Qed.

(** With the deadlock fault the lock order of "status" and of a scan do lead
    into a deadlock: a schedule of seven steps reaches a state in which the worker
    and a handler each hold the lock the other waits for, and whatever the other
    threads do afterwards, neither of the two ever takes a step again. *)
Theorem deadlock_fault_deadlocks :
  exists s, run deadlock_schedule (started Deadlock) = Some s /\
    forall acts s', run acts s = Some s' ->
      thread_step OWorker s' = None /\ thread_step (OHandler 0) s' = None.
Proof.
  destruct (run deadlock_schedule (started Deadlock)) as [s|] eqn:E; [|by vm_compute in E].
  exists s. split; [done|]. intros acts s' Hrun.
  assert (locks_ok s) as Hl by (eapply reachable_locks, reachable_run; [apply reach_start|done]).
  assert (deadlocked s) as Hd by (vm_compute in E; injection E as <-; by split_and!).
  destruct (deadlocked_run acts s s' Hl Hd Hrun) as (Hw & Hs & Hh & Hdb & _).
  cbn [thread_step]. unfold worker_step, handler_step. by rewrite Hw, Hs, Hh, Hdb.
Qed.

(** A scan request that gives up before the scan is delivered. *)
Definition uaf_schedule : list action :=
  [AConnect 0 RScan; AHandler 0 false; AHandler 0 false; AHandler 0 true] ++ replicate 9 (AWorker false).

(** C9: a scan waiter is never used after it is freed, even when the request that
    owns it has timed out: the reference in the listener list keeps it alive.
    With the use-after-free fault, whose list owns nothing, a request that times
    out makes the worker call a freed waiter. *)
Theorem waiters_outlive_requests :
  (forall f s, f <> UseAfterFree -> reachable f s ->
     uaf s = false /\
     forall w, w ∈ listeners s -> exists x, waiters s !! w = Some x /\ w_freed x = false) /\
  (exists s, run uaf_schedule (started UseAfterFree) = Some s /\ uaf s = true).
Proof.
  split.
  - intros f s Hf Hr. destruct (reachable_waiters f s Hf Hr) as [H1 H2 _ _ H5]. split; [done|].
    intros w Hw. destruct (H1 w) as (x & Hx & Hl); [apply elem_of_app; by left|]. exists x. split; [done|].
    destruct (w_freed x) eqn:E; [|done]. destruct (H2 w x Hx E). congruence.
  - eexists. split; vm_compute; reflexivity.
Qed.

(** C11: no wake-up is lost: when the worker is about to wait while someone is
    registered for the next scan, and no request is just between registering and
    asking for the scan, the worker does not wait: it starts the scan at once (or
    ends, if the agent stops). *)
Theorem no_lost_wakeup (f : Fault) (s : threads) (Hr : reachable f s) (Hw : worker s = WIdle)
  (Hl : listeners s <> []) (Hp : forall h w, handlers s !! h <> Some (HScanPushed w)) :
  exists s', worker_step false s = Some s' /\
    worker s' = (if stopping s then WExit else WCollect).
Proof.
  destruct (reachable_requested f s Hr) as [H|[H|(h & w & H)]]; [unfold past_swap; by rewrite Hw|done| |].
  - unfold worker_step. rewrite Hw, H. destruct (stopping s); eexists; (split; [done|]); done.
  - by destruct (Hp h w).
Qed.

(** C10: a requested scan serves everyone who is registered when it starts: with
    the locks free, the worker's own next steps take it through the scan and back
    to waiting, and every waiter of the list has its result. *)
Theorem scan_serves_waiters (s : threads) (Hr : reachable FaultNone s) (Hw : worker s = WIdle)
  (Hq : scan_requested s = true) (Hsp : stopping s = false) (Hd : db_owner s = None)
  (Hs : state_owner s = None) :
  exists s', run (replicate (9 + length (listeners s)) (AWorker false)) s = Some s' /\
    worker s' = WIdle /\ forall w, w ∈ listeners s -> is_done s' w.
Proof.
  destruct (reachable_locks _ _ Hr) as [_ Hf].
  pose proof (run_to_swap s Hw Hsp Hq Hd Hs Hf) as H8. set (s1 := set_worker _ _) in H8.
  assert (waiters_ok s1) as Hok.
  { eapply (reachable_waiters FaultNone); [done|]. by eapply reachable_run. }
  destruct (run_deliveries (listeners s) (listeners s) s1 Hok eq_refl)
    as (s2 & H2 & Hok2 & Hw2 & Hf2 & _ & Hdone).
  exists (set_worker WIdle (drop_all (listeners s) s2)). split_and!.
  - replace (9 + length (listeners s))%nat with (8 + (length (listeners s) + 1))%nat by lia.
    rewrite !replicate_add. erewrite run_app by exact H8. erewrite run_app by exact H2.
    cbn [replicate run step]. unfold worker_step. by rewrite Hw2.
  - done.
  - intros w Hin. apply drop_all_done; [|by apply Hdone].
    pose proof (wo_nodup s2 Hok2) as Hnd. unfold taken in Hnd. rewrite Hw2 in Hnd.
    by apply NoDup_app in Hnd as (_ & _ & ?).
Qed.

(** ** The properties at work *)

(** A state with one waiter registered and its scan requested. *)
Definition one_waiting : threads :=
  default (started FaultNone)
    (run [AConnect 3 RScan; AHandler 3 false; AHandler 3 false] (started FaultNone)).

Lemma one_waiting_reachable : reachable FaultNone one_waiting.
Proof.
  eapply (reachable_run _ [AConnect 3 RScan; AHandler 3 false; AHandler 3 false]); [apply reach_start|].
  vm_compute. reflexivity.
Qed.

Lemma locks_never_block_witness :
  exists s s', run [AWorker true; AWorker false; AWorker false] (started FaultNone) = Some s /\
    db_owner s = Some OWorker /\ thread_step OWorker s = Some s' /\ db_owner s' = None.
Proof.
  destruct (run [AWorker true; AWorker false; AWorker false] (started FaultNone)) as [s|] eqn:E;
    [|vm_compute in E; discriminate].
  assert (reachable FaultNone s) as Hr by (eapply reachable_run; [apply reach_start|exact E]).
  assert (db_owner s = Some OWorker) as Ho by (vm_compute in E; injection E as <-; reflexivity).
  destruct (locks_never_block FaultNone s) as [H _]; [discriminate|exact Hr|].
  destruct (H OWorker Ho) as (s' & H1 & H2). exists s, s'. split; [reflexivity|]. auto.
Defined.

Lemma no_lost_wakeup_witness : exists s', worker_step false one_waiting = Some s' /\ worker s' = WCollect.
Proof.
  apply (no_lost_wakeup FaultNone one_waiting one_waiting_reachable); [reflexivity|vm_compute; discriminate|].
  intros h w. assert (handlers one_waiting = <[3%nat := HScanWaiting 0]> ∅) as -> by (vm_compute; reflexivity).
  destruct (decide (h = 3%nat)) as [->|Hne];
    [rewrite lookup_insert_eq|rewrite lookup_insert_ne, lookup_empty by congruence]; discriminate.
Defined.

Lemma scan_serves_waiters_witness :
  exists s', run (replicate 10 (AWorker false)) one_waiting = Some s' /\ worker s' = WIdle /\
    forall w, w ∈ listeners one_waiting -> is_done s' w.
Proof.
  apply (scan_serves_waiters one_waiting one_waiting_reachable); reflexivity.
Defined.
