(* ===== verification/CrashDump.v ===== *)
(** * Crash dumps and process figures (src/crashdump_windows.cpp,
      src/procinfo_windows.cpp)

    The dump writer with its fixed buffers, the dump on request, and the crash
    path as a transition system of threads: a fault on any thread goes through one
    atomic exchange, and the thread that wins it writes the dump, says so on
    standard error and ends the process.  The figures about the process that
    [status] reports are at the end. *)
From S2P Require Import Prelude CppStd Double Vercmp Json Log Inventory Algorithms Cve Frame.
From S2P Require Import Spool WinStr Inet Agent.
From Stdlib Require Import Ascii.

#[local] Open Scope Z_scope.

Definition kMaxPath : Z := 260.
Definition kTerminateCode : Z := 0xE0000001.

(** ** The dump writer *)

(** What Windows answers: the clock, the process id, and the errors of the two
    calls that can fail. *)
Record dump_env := mkDumpEnv {
  ft_high : Z; ft_low : Z; current_pid : Z; create_error : option Z; dump_error : option Z }.

Definition unix_ms (e : dump_env) : Z :=
  u64 (Z.lor (Z.shiftl (ft_high e) 32) (ft_low e) / 10000 - 11644473600000).

Definition wide (s : str) : wstr := code <$> s.

(** The text [swprintf_s] produces. *)
Definition dump_path (g_dir reason : wstr) (e : dump_env) : wstr :=
  c_wstr g_dir ++ wide (lit "\nano-sensor-") ++ wide (to_string (current_pid e)) ++ wide (lit "-") ++
  wide (to_string (unix_ms e)) ++ wide (lit "-") ++ c_wstr reason ++ wide (lit ".dmp").

(** [Overrun]: the text and its terminator do not fit the buffer, and the C runtime
    calls the invalid-parameter handler. *)
Inductive dump_result := Written (path : wstr) | NotWritten (path : wstr) (err : Z) | Overrun.

Definition write_dump (g_dir reason : wstr) (path_len : Z) (e : dump_env) : dump_result :=
  let path := dump_path g_dir reason e in
  if path_len <? Z.of_nat (length path) + 1 then Overrun
  else
    match create_error e with
    | Some err => NotWritten path err
    | None => match dump_error e with Some err => NotWritten path err | None => Written path end
    end.

(** The line on standard error; the runtime prints the wide path as text, which is
    followed for the characters UTF-8 and its code page share. *)
Definition announce `{Utf16} (what : str) (path : wstr) (ok : bool) : str :=
  lit "{" ++ [quote] ++ lit "level" ++ [quote] ++ lit ":" ++ [quote] ++ lit "error" ++ [quote] ++ lit "," ++
  [quote] ++ lit "msg" ++ [quote] ++ lit ":" ++ [quote] ++ what ++ [quote] ++ lit "," ++
  [quote] ++ lit "dump" ++ [quote] ++ lit ":" ++ [quote] ++ (if ok then to_utf8 path else []) ++ [quote] ++ lit "," ++
  [quote] ++ lit "written" ++ [quote] ++ lit ":" ++ (if ok then lit "true" else lit "false") ++ lit "}" ++ [nl].

(** ** Installing, and a dump on request *)

Record globals := mkGlobals { g_dir : wstr; g_installed : bool; g_written : Z }.

Definition no_globals : globals := mkGlobals [] false 0.

(** The directory must fit the buffer with its terminator; a conversion that fails
    leaves [partial] in the buffer. *)
Definition crashdump_install `{Utf16} (partial : wstr) (dir : str) (g : globals) : bool * globals :=
  let w := to_wide (c_str dir) in
  if kMaxPath <? Z.of_nat (length w) + 1 then (false, mkGlobals partial (g_installed g) (g_written g))
  else (true, mkGlobals w true (g_written g)).

(** [std::wstring(reason.begin(), reason.end())]: [char] is signed. *)
Definition wide_char (c : byte) : Z := if code c <? 128 then code c else code c + 65280.

(** [Garbage]: the path does not fit the narrow buffer, which is then read as it
    was. *)
Inductive now_result := NowPath (path : str) | NowError (error : str) | NowGarbage | NowAborted.

Definition write_now `{Utf16} (reason : str) (e : dump_env) (g : globals) : now_result * globals :=
  if negb (g_installed g) then (NowError (lit "crash dumps are not enabled (no --state-dir)"), g)
  else
    match write_dump (g_dir g) (wide_char <$> reason) (kMaxPath * 2) e with
    | Overrun => (NowAborted, g)
    | NotWritten _ err => (NowError (lit "MiniDumpWriteDump failed, error " ++ to_string err), g)
    | Written path =>
        let g := mkGlobals (g_dir g) true (u32 (g_written g + 1)) in
        if kMaxPath * 4 <? len (to_utf8 path) + 1 then (NowGarbage, g) else (NowPath (to_utf8 path), g)
    end.

Definition dumps_written (g : globals) : Z := g_written g.

(** ** The crash path *)

(** The exception that is current when [std::terminate] is called. *)
Inductive exception := NoException | StdException (what : str) | OtherException.

(** How a thread dies: an exception nobody handles, or one of the runtime's fatal
    errors. *)
Inductive fault_kind := Unhandled | Terminate (x : exception) | Purecall | InvalidParameter.

Definition reason_of (f : fault_kind) : str :=
  match f with
  | Unhandled => lit "crash" | Terminate _ => lit "terminate" | Purecall => lit "purecall"
  | InvalidParameter => lit "invalid-parameter"
  end.

Definition what_of (f : fault_kind) : str :=
  match f with
  | Unhandled => lit "unhandled exception; process terminating"
  | _ => lit "fatal runtime error; process terminating"
  end.

(** [log_current_exception]: the line it prints. *)
Definition exception_line (x : exception) : list str :=
  let open_ msg := lit "{" ++ [quote] ++ lit "level" ++ [quote] ++ lit ":" ++ [quote] ++ lit "error" ++ [quote] ++
    lit "," ++ [quote] ++ lit "msg" ++ [quote] ++ lit ":" ++ [quote] ++ lit msg ++ [quote] in
  match x with
  | NoException => []
  | StdException what =>
      [open_ "uncaught C++ exception" ++ lit "," ++ [quote] ++ lit "what" ++ [quote] ++ lit ":" ++ [quote] ++
       c_str what ++ [quote] ++ lit "}" ++ [nl]]
  | OtherException => [open_ "uncaught non-std exception" ++ lit "}" ++ [nl]]
  end.

(** Where a thread stands: running, in the terminate handler, entering the crash path, asleep for good because
    another thread is writing, writing, announcing, or leaving its handler. *)
Inductive tpc :=
| TRun | TLog (x : exception) | TExchange (f : fault_kind) | TSleep | TDump (f : fault_kind)
| TAnnounce (f : fault_kind) (r : dump_result) | TLeave (f : fault_kind).

(** A thread: whether its terminate handler is set (the runtime keeps it per
    thread), and where it stands. *)
Record crash_thread := mkThread { has_handler : bool; pc : tpc }.

(** How the process ended: with no dump, by the default handling of an unhandled
    exception, or by [TerminateProcess]. *)
Inductive ending := EndSilent | EndSearch | EndTerminated (code : Z).

Record crash_proc := mkProc {
  x_globals : globals; g_crashing : bool; x_said : list str; x_lines : list str;
  x_ended : option ending; x_threads : list crash_thread }.

Inductive crash_action :=
| OnThreadStart (i : nat)
| Fault (i : nat) (f : fault_kind)
| Step (i : nat) (e : dump_env).

Definition set_pc (i : nat) (p : tpc) (s : crash_proc) : crash_proc :=
  mkProc (x_globals s) (g_crashing s) (x_said s) (x_lines s) (x_ended s)
    (alter (fun t => mkThread (has_handler t) p) i (x_threads s)).

Definition end_process (x : ending) (s : crash_proc) : crash_proc :=
  mkProc (x_globals s) (g_crashing s) (x_said s) (x_lines s) (Some x) (x_threads s).

(** Whether a fault reaches a handler of this file. *)
Definition handled (t : crash_thread) (g : globals) (f : fault_kind) : bool :=
  match f with Terminate _ => has_handler t | _ => g_installed g end.

(** The terminate handler logs first, the others go straight on. *)
Definition handler_entry (f : fault_kind) : tpc := match f with Terminate x => TLog x | _ => TExchange f end.

Section Crash.
Context {HW : Utf16}.

(** One step of a thread inside a handler. *)
Definition fault_step (i : nat) (p : tpc) (e : dump_env) (s : crash_proc) : option crash_proc :=
  match p with
  | TRun | TSleep => None
  | TLog x =>
      Some (set_pc i (TExchange (Terminate x))
              (mkProc (x_globals s) (g_crashing s) (x_said s ++ exception_line x) (x_lines s) (x_ended s) (x_threads s)))
  | TExchange f =>
      Some (if g_crashing s then set_pc i TSleep s
            else set_pc i (TDump f) (mkProc (x_globals s) true (x_said s) (x_lines s) (x_ended s) (x_threads s)))
  | TDump f =>
      let r := write_dump (g_dir (x_globals s)) (wide (reason_of f)) (kMaxPath * 2) e in
      let g := x_globals s in
      let g := match r with Written _ => mkGlobals (g_dir g) (g_installed g) (u32 (g_written g + 1)) | _ => g end in
      let s := mkProc g (g_crashing s) (x_said s) (x_lines s) (x_ended s) (x_threads s) in
      (* an overrun re-enters a handler on this very thread *)
      Some (match r with Overrun => set_pc i (TExchange InvalidParameter) s | _ => set_pc i (TAnnounce f r) s end)
  | TAnnounce f r =>
      let line := match r with
                  | Written path => announce (what_of f) path true
                  | _ => announce (what_of f) [] false
                  end in
      Some (set_pc i (TLeave f)
              (mkProc (x_globals s) (g_crashing s) (x_said s) (x_lines s ++ [line]) (x_ended s) (x_threads s)))
  | TLeave f => Some (end_process (match f with Unhandled => EndSearch | _ => EndTerminated kTerminateCode end) s)
  end.

Definition crash_step (a : crash_action) (s : crash_proc) : option crash_proc :=
  match x_ended s with
  | Some _ => None
  | None =>
      match a with
      | OnThreadStart i =>
          match x_threads s !! i with
          | Some (mkThread _ TRun) =>
              Some (mkProc (x_globals s) (g_crashing s) (x_said s) (x_lines s) (x_ended s)
                      (alter (fun t => mkThread true (pc t)) i (x_threads s)))
          | _ => None
          end
      | Fault i f =>
          match x_threads s !! i with
          | Some (mkThread h TRun) =>
              Some (if handled (mkThread h TRun) (x_globals s) f then set_pc i (handler_entry f) s
                    else end_process EndSilent s)
          | _ => None
          end
      | Step i e =>
          match x_threads s !! i with Some t => fault_step i (pc t) e s | None => None end
      end
  end.

(** The process ids Windows hands out. *)
Definition env_ok (a : crash_action) : Prop :=
  match a with Step _ e => 0 <= current_pid e < 2 ^ 32 | _ => True end.

Inductive crash_reachable (s0 : crash_proc) : crash_proc -> Prop :=
| crash_start : crash_reachable s0 s0
| crash_next a s s' : crash_reachable s0 s -> env_ok a -> crash_step a s = Some s' -> crash_reachable s0 s'.

End Crash.

(** ** Figures about the process (src/procinfo_windows.cpp) *)

Record token_env := mkToken {
  token_account : option (wstr * wstr);     (* domain and name, if both lookups work *)
  token_elevated : option Z;
  token_privileges : Z * option (list Z)    (* the size asked for; the attributes *) }.

Record self_env := mkSelf {
  self_pid : Z; self_token : option token_env; thread_owners : option (list Z);
  memory : option (Z * Z * Z); handle_count : option Z }.

Definition thread_count (e : self_env) : Z :=
  match thread_owners e with
  | None => 0
  | Some l => u32 (Z.of_nat (length (List.filter (fun o => o =? self_pid e) l)))
  end.

Definition enabled_privileges (t : token_env) : Z :=
  let '(size, attrs) := token_privileges t in
  if size =? 0 then 0
  else match attrs with
       | None => 0
       | Some l => u32 (Z.of_nat (length (List.filter (fun a => negb (Z.land a 2 =? 0)) l)))
       end.

Definition self_info `{Utf16} (e : self_env) : ProcInfo :=
  let '(priv, ws, peak) := default (0, 0, 0) (memory e) in
  mkProcInfo (self_pid e)
    (match self_token e with
     | Some t => match token_account t with Some (domain, name) => narrow (domain ++ [92] ++ name) | None => [] end
     | None => []
     end)
    (match self_token e with
     | Some t => match token_elevated t with Some v => negb (v =? 0) | None => false end
     | None => false
     end)
    (match self_token e with Some t => enabled_privileges t | None => 0 end)
    priv ws peak (default 0 (handle_count e)) (thread_count e).

(** ** Lemmas: the buffers are large enough *)

Lemma c_wstr_length w : (length (c_wstr w) <= length w)%nat.
Proof. induction w as [|u w IH]; [done|]. cbn. destruct (u =? 0); cbn; lia. Qed.

Lemma unix_ms_length e : (length (to_string (unix_ms e)) <= 20)%nat.
Proof.
  unfold unix_ms. set (t := _ - 11644473600000). pose proof (u64_range t).
  rewrite to_string_nonneg by lia. apply to_string_u_length; [|lia]. split; [lia|].
  eapply Z.lt_trans; [apply H|]. reflexivity.
Qed.

Lemma dump_path_length g_dir reason e :
  (length g_dir < 260)%nat -> (length reason <= 20)%nat -> 0 <= current_pid e < 2 ^ 32 ->
  (length (dump_path g_dir reason e) <= 328)%nat.
Proof.
  intros Hg Hr Hp. unfold dump_path, wide. rewrite !length_app, !length_fmap.
  pose proof (c_wstr_length g_dir). pose proof (c_wstr_length reason). pose proof (unix_ms_length e).
  assert (length (to_string (current_pid e)) <= 10)%nat.
  { rewrite to_string_nonneg by lia. apply to_string_u_length; [|lia]. change (10 ^ Z.of_nat 10) with 10000000000. lia. }
  change (length (lit "\nano-sensor-")) with 13%nat. change (length (lit "-")) with 1%nat.
  change (length (lit ".dmp")) with 4%nat. lia.
Qed.

Lemma write_dump_fits g_dir reason e :
  (length g_dir < 260)%nat -> (length reason <= 20)%nat -> 0 <= current_pid e < 2 ^ 32 ->
  write_dump g_dir reason (kMaxPath * 2) e =
  let path := dump_path g_dir reason e in
  match create_error e with
  | Some err => NotWritten path err
  | None => match dump_error e with Some err => NotWritten path err | None => Written path end
  end.
Proof.
  intros Hg Hr Hp. pose proof (dump_path_length _ _ _ Hg Hr Hp) as Hl. unfold write_dump.
  destruct (Z.ltb_spec (kMaxPath * 2) (Z.of_nat (length (dump_path g_dir reason e)) + 1)); [|done].
  change (kMaxPath * 2) with 520 in *. lia.
Qed.

(** The name of a dump, as bytes. *)
Definition dump_name (dir reason : str) (e : dump_env) : str :=
  dir ++ lit "\nano-sensor-" ++ to_string (current_pid e) ++ lit "-" ++ to_string (unix_ms e) ++ lit "-" ++
  reason ++ lit ".dmp".

Lemma ascii_app s t : ascii_text s = true -> ascii_text t = true -> ascii_text (s ++ t) = true.
Proof. unfold ascii_text. rewrite forallb_app. intros -> ->. done. Qed.

Lemma to_string_ascii n : ascii_text (to_string n) = true.
Proof.
  unfold ascii_text. apply forallb_forall. intros c Hc. apply list_elem_of_In in Hc.
  pose proof (proj1 (Forall_forall _ _) (to_string_chars n) c Hc) as [H%isdigit_iff| ->]; [|done].
  apply andb_true_iff. split; [apply Z.ltb_lt|apply Z.ltb_lt]; lia.
Qed.

Lemma wide_char_ascii s : ascii_text s = true -> wide_char <$> s = code <$> s.
Proof.
  intros Hs. apply list_fmap_ext. intros i c Hc. unfold ascii_text in Hs. rewrite forallb_forall in Hs.
  assert (In c s) as Hi by (apply list_elem_of_In; by eapply list_elem_of_lookup_2).
  apply Hs in Hi. bools. unfold wide_char. by destruct (Z.ltb_spec (code c) 128); [|lia].
Qed.

(** The path in UTF-16 is the conversion of the name. *)
Lemma dump_path_wide `{Utf16} dir reason e :
  utf8_valid dir = true -> ascii_text reason = true ->
  utf8_valid (dump_name dir reason e) = true /\
  dump_path (to_wide dir) (wide_char <$> reason) e = to_wide (dump_name dir reason e).
Proof.
  intros Hd Hr. unfold dump_path, dump_name.
  set (rest := lit "\nano-sensor-" ++ to_string (current_pid e) ++ lit "-" ++ to_string (unix_ms e) ++ lit "-" ++
    reason ++ lit ".dmp").
  assert (ascii_text rest = true) as Ha
    by (repeat (apply ascii_app; [apply to_string_ascii || done|]); done).
  destruct (utf8_ascii rest Ha) as [Hv Hw]. destruct (to_wide_app dir rest Hd Hv) as [Hv' ->]. split; [done|].
  rewrite (c_wstr_id (to_wide dir)) by (by apply wide_no_nul). f_equal. rewrite Hw. subst rest.
  rewrite wide_char_ascii, c_wstr_id by (done || (apply Forall_fmap; by apply ascii_no_nul)).
  unfold wide. by rewrite !fmap_app.
Qed.

(** ** Lemmas: one writer *)

Definition is_writer (p : tpc) : bool :=
  match p with TDump _ | TAnnounce _ _ | TLeave _ => true | _ => false end.

(** What the globals must be for the crash path to stay within its buffers. *)
Definition dir_fits (g : globals) : Prop := (length (g_dir g) < 260)%nat.

(** The lines that are out when the writer stands at [p]. *)
Definition lines_at (p : tpc) : nat := match p with TLeave _ => 1 | _ => 0 end.

Record crash_inv (s : crash_proc) : Prop := {
  ci_fits : dir_fits (x_globals s);
  ci_idle : g_crashing s = false -> x_lines s = [] /\ (forall i t, x_threads s !! i = Some t -> is_writer (pc t) = false);
  ci_one : g_crashing s = true -> exists i t, x_threads s !! i = Some t /\ is_writer (pc t) = true /\
    length (x_lines s) = lines_at (pc t) /\
    forall j u, x_threads s !! j = Some u -> is_writer (pc u) = true -> j = i;
  ci_end : forall x, x_ended s = Some x -> x = EndSilent \/ (g_crashing s = true /\ length (x_lines s) = 1%nat)
}.

Lemma set_pc_lookup i p s j :
  x_threads (set_pc i p s) !! j =
  (fun t => if decide (i = j) then mkThread (has_handler t) p else t) <$> x_threads s !! j.
Proof.
  cbn. destruct (decide (i = j)) as [->|Hne]; [by rewrite list_lookup_alter_eq|].
  rewrite list_lookup_alter_ne by done. by destruct (x_threads s !! j).
Qed.

(** A thread that is not the writer moves to a place that is not a writer's. *)
Lemma inv_bystander i p s t :
  crash_inv s -> x_ended s = None -> x_threads s !! i = Some t -> is_writer (pc t) = false -> is_writer p = false ->
  crash_inv (set_pc i p s).
Proof.
  intros [H1 H2 H3 H4] He Hi Ht Hp. split; [done| | |by cbn; rewrite He].
  - intros Hc. destruct (H2 Hc) as [Hl Hw]. split; [done|]. intros j u. rewrite set_pc_lookup.
    destruct (x_threads s !! j) eqn:Ej; [|done]. cbn. intros [= <-]. destruct (decide (i = j)); [done|by eapply Hw].
  - intros Hc. destruct (H3 Hc) as (k & w & Hk & Hw & Hl & Hu). exists k, w.
    assert (i <> k) as Hne by (intros ->; congruence).
    split_and!; [|done|done|].
    + rewrite set_pc_lookup, Hk. cbn. by destruct (decide (i = k)).
    + intros j u. rewrite set_pc_lookup. destruct (x_threads s !! j) eqn:Ej; [|done]. cbn. intros [= <-].
      destruct (decide (i = j)); [cbn; by rewrite Hp|]. by apply Hu.
Qed.

(** The writer moves on, or a thread becomes the writer. *)
Lemma inv_writer i p s s' t :
  dir_fits (x_globals s') -> x_ended s' = None -> g_crashing s' = true -> is_writer p = true ->
  length (x_lines s') = lines_at p -> x_threads s' = x_threads s -> x_threads s !! i = Some t ->
  (forall j u, x_threads s !! j = Some u -> is_writer (pc u) = true -> j = i) ->
  crash_inv (set_pc i p s').
Proof.
  intros H1 He Hc Hp Hl Hts Hi Hu. split; [done|by cbn; congruence| |by cbn; rewrite He].
  intros _. exists i, (mkThread (has_handler t) p).
  split_and!; [rewrite set_pc_lookup, Hts, Hi; cbn; by destruct (decide (i = i))|done|done|].
  intros j u. rewrite set_pc_lookup, Hts. destruct (x_threads s !! j) eqn:Ej; [|done]. cbn. intros [= <-].
  destruct (decide (i = j)); [done|]. by apply Hu.
Qed.

Lemma reason_short f : (length (wide (reason_of f)) <= 20)%nat.
Proof. destruct f; vm_compute; lia. Qed.

Lemma fault_inv `{Utf16} i t e s s' :
  crash_inv s -> x_ended s = None -> x_threads s !! i = Some t -> 0 <= current_pid e < 2 ^ 32 ->
  fault_step i (pc t) e s = Some s' -> crash_inv s'.
Proof.
  intros Hinv He Hi Hp. pose proof Hinv as [H1 H2 H3 H4].
  assert (is_writer (pc t) = true -> g_crashing s = true /\ length (x_lines s) = lines_at (pc t) /\
    forall j u, x_threads s !! j = Some u -> is_writer (pc u) = true -> j = i) as Hw.
  { intros Ht. destruct (g_crashing s) eqn:Ec.
    - destruct (H3 eq_refl) as (k & w & Hk & Hkw & Hl & Hu). pose proof (Hu i t Hi Ht) as ->.
      rewrite Hi in Hk. injection Hk as <-. done.
    - destruct (H2 eq_refl) as [_ Hn]. rewrite (Hn i t Hi) in Ht. done. }
  unfold fault_step. destruct (pc t) as [|x|f| |f|f r|f] eqn:Et; try done.
  - intros [= <-]. eapply (inv_bystander i _ (mkProc _ _ _ _ _ _) t); [|done|done|by rewrite Et|done].
    by destruct Hinv.
  - intros [= <-]. destruct (g_crashing s) eqn:Ec; [by eapply inv_bystander; rewrite ?Et|].
    destruct (H2 eq_refl) as [Hl Hn]. eapply (inv_writer i _ s); try done; [by cbn; rewrite Hl|].
    intros j u Hj Hu. by rewrite (Hn j u Hj) in Hu.
  - intros [= <-]. destruct (Hw eq_refl) as (Hc & Hl & Hu).
    rewrite write_dump_fits by (done || apply reason_short). cbv zeta.
    destruct (create_error e), (dump_error e); by eapply (inv_writer i _ s).
  - intros [= <-]. destruct (Hw eq_refl) as (Hc & Hl & Hu).
    eapply (inv_writer i _ s); try done. cbn in *. rewrite length_app, Hl. done.
  - intros [= <-]. destruct (Hw eq_refl) as (Hc & Hl & Hu). split; [done|done|done|].
    intros x [= <-]. right. done.
Qed.

Lemma crash_step_inv `{Utf16} a s s' : crash_inv s -> env_ok a -> crash_step a s = Some s' -> crash_inv s'.
Proof.
  intros Hinv Ha. unfold crash_step. destruct (x_ended s) eqn:He; [done|].
  destruct a as [i|i f|i e].
  - destruct (x_threads s !! i) as [[h []]|] eqn:Hi; try done. intros [= <-]. rewrite <- He.
    assert (forall j u, alter (fun t => mkThread true (pc t)) i (x_threads s) !! j = Some u ->
      exists v, x_threads s !! j = Some v /\ pc u = pc v) as Hback.
    { intros j u. destruct (decide (i = j)) as [->|]; [|rewrite list_lookup_alter_ne by done; eauto].
      rewrite list_lookup_alter_eq, Hi. cbn. intros [= <-]. eauto. }
    destruct Hinv as [H1 H2 H3 H4]. split; cbn; [done| | |done].
    + intros Hc. destruct (H2 Hc) as [Hl Hn]. split; [done|]. intros j u (v & Hv & ->)%Hback. by eapply Hn.
    + intros Hc. destruct (H3 Hc) as (k & w & Hk & Hw & Hl & Hu). exists k, w. split_and!; try done.
      * rewrite list_lookup_alter_ne; [done|]. intros ->. rewrite Hi in Hk. injection Hk as <-. done.
      * intros j u (v & Hv & Ev)%Hback. rewrite Ev. by apply Hu.
  - destruct (x_threads s !! i) as [[h []]|] eqn:Hi; try done. intros [= <-].
    destruct (handled _ _ f); [by eapply inv_bystander; [..|destruct f]|]. destruct Hinv as [H1 H2 H3 H4].
    split; [done|done|done|]. intros x [= <-]. by left.
  - destruct (x_threads s !! i) as [t|] eqn:Hi; [|done]. by eapply fault_inv.
Qed.

(** ** Properties *)

(** A process with a thread for every element of the list, which says whether the
    thread has set its terminate handler. *)
Definition started_process (g : globals) (handlers : list bool) : crash_proc :=
  mkProc g false [] [] None ((fun h => mkThread h TRun) <$> handlers).

Lemma started_inv g hs : dir_fits g -> crash_inv (started_process g hs).
Proof.
  intros Hg. split; [done| |done|done]. intros _. split; [done|]. intros i t Hi.
  cbn in Hi. rewrite list_lookup_fmap in Hi. destruct (hs !! i); [|done]. by injection Hi as <-.
Qed.

Lemma step_installed `{Utf16} a s s' :
  crash_step a s = Some s' -> g_installed (x_globals s') = g_installed (x_globals s).
Proof.
  unfold crash_step. destruct (x_ended s); [done|]. destruct a as [i|i f|i e].
  - destruct (x_threads s !! i) as [[h []]|]; try done. by intros [= <-].
  - destruct (x_threads s !! i) as [[h []]|]; try done. intros [= <-]. by destruct (handled _ _ _).
  - destruct (x_threads s !! i) as [t|]; [|done]. unfold fault_step.
    destruct (pc t) as [|x|f| |f|f r|f]; try done; intros [= <-]; [done| | |done|done].
    + by destruct (g_crashing s).
    + by destruct (write_dump _ _ _ e).
Qed.

Lemma reachable_installed `{Utf16} s0 s :
  crash_reachable s0 s -> g_installed (x_globals s0) = true -> g_installed (x_globals s) = true.
Proof. induction 1 as [|a s s' _ IH _ Hs]; [done|]. intros Hg. rewrite (step_installed a s s' Hs). auto. Qed.

Lemma reachable_inv `{Utf16} g hs s :
  dir_fits g -> crash_reachable (started_process g hs) s -> crash_inv s.
Proof.
  intros Hf. induction 1 as [|a s s' _ IH Ha Hs]; [by apply started_inv|]. by eapply crash_step_inv.
Qed.

(** The one way to end without a dump: an exception nobody catches, on a thread
    whose terminate handler was not set. *)
Lemma silent_step `{Utf16} a s s' :
  g_installed (x_globals s) = true -> crash_step a s = Some s' -> x_ended s' = Some EndSilent ->
  exists i x t, a = Fault i (Terminate x) /\ x_threads s !! i = Some t /\ has_handler t = false.
Proof.
  intros Hg. unfold crash_step. destruct (x_ended s) eqn:He; [done|]. destruct a as [i|i f|i e].
  - destruct (x_threads s !! i) as [[h []]|]; try done. intros [= <-]. cbn. congruence.
  - destruct (x_threads s !! i) as [[h []]|] eqn:Hi; try done. intros [= <-].
    destruct (handled (mkThread h TRun) (x_globals s) f) eqn:Eh; [cbn; congruence|]. intros _.
    destruct f as [|x| |]; cbn in Eh; try congruence. eauto 10.
  - destruct (x_threads s !! i) as [t|]; [|done]. unfold fault_step.
    destruct (pc t) as [|x|f| |f|f r|f]; try done; intros [= <-]; cbn; try congruence.
    + destruct (g_crashing s); cbn; congruence.
    + destruct (write_dump _ _ _ e); cbn; congruence.
    + by destruct f.
Qed.

Lemma step_at `{Utf16} i e s t :
  x_ended s = None -> x_threads s !! i = Some t -> crash_step (Step i e) s = fault_step i (pc t) e s.
Proof. intros He Hi. unfold crash_step. by rewrite He, Hi. Qed.

Lemma step_set `{Utf16} i p e s t :
  x_ended s = None -> x_threads s !! i = Some t ->
  crash_step (Step i e) (set_pc i p s) = fault_step i p e (set_pc i p s).
Proof.
  intros He Hi. apply (step_at i e _ (mkThread (has_handler t) p)); [done|].
  rewrite set_pc_lookup, Hi. cbn. by destruct (decide (i = i)).
Qed.

(** C28: However many threads fault, and however they fault, at most one of them
    writes the crash dump; a process that ends through the handlers has attempted
    and announced one dump exactly; the only end without a dump is a C++ exception
    nobody catches on a thread that has not set its terminate handler, which the
    runtime keeps per thread; and while the dump is being written the writer's own
    next steps end the process, whatever the others do. *)
Theorem one_crash_dump `{Utf16} (partial : wstr) (dir : str) (g0 g : globals) (handlers : list bool) (s : crash_proc)
  (Hin : crashdump_install partial dir g0 = (true, g)) (Hr : crash_reachable (started_process g handlers) s) :
  (forall i j t u, x_threads s !! i = Some t -> x_threads s !! j = Some u ->
     is_writer (pc t) = true -> is_writer (pc u) = true -> i = j) /\
  (forall x, x_ended s = Some x -> x <> EndSilent -> length (x_lines s) = 1%nat) /\
  (forall a s', crash_step a s = Some s' -> x_ended s' = Some EndSilent ->
     exists i x t, a = Fault i (Terminate x) /\ x_threads s !! i = Some t /\ has_handler t = false) /\
  (forall i f e, x_ended s = None -> pc <$> x_threads s !! i = Some (TDump f) -> 0 <= current_pid e < 2 ^ 32 ->
     exists s1 s2 s3, crash_step (Step i e) s = Some s1 /\ crash_step (Step i e) s1 = Some s2 /\
       crash_step (Step i e) s2 = Some s3 /\
       x_ended s3 = Some (match f with Unhandled => EndSearch | _ => EndTerminated kTerminateCode end)).
Proof.
  assert (dir_fits g /\ g_installed g = true) as [Hf Hg].
  { unfold crashdump_install in Hin. destruct (Z.ltb_spec kMaxPath (Z.of_nat (length (to_wide (c_str dir))) + 1)); [done|].
    injection Hin as <-. split; [|done]. unfold dir_fits. cbn. change kMaxPath with 260 in *. lia. }
  destruct (reachable_inv g handlers s Hf Hr) as [H1 H2 H3 H4]. split_and!.
  - intros i j t u Hi Hj Ht Hu. destruct (g_crashing s).
    + destruct (H3 eq_refl) as (k & w & _ & _ & _ & Hone). by rewrite (Hone i t), (Hone j u).
    + destruct (H2 eq_refl) as [_ Hn]. by rewrite (Hn i t) in Ht.
  - intros x Hx Hne. by destruct (H4 x Hx) as [->|[_ ?]].
  - intros a s'. apply silent_step. by apply (reachable_installed _ _ Hr).
  - intros i f e He Hi Hp. destruct (x_threads s !! i) as [t|] eqn:Et; [|done]. injection Hi as Hi.
    rewrite (step_at i e s t He Et), Hi. cbn [fault_step].
    rewrite write_dump_fits by (done || apply reason_short). cbv zeta.
    destruct (create_error e), (dump_error e);
      (eexists _, _, _; split; [reflexivity|]; rewrite (step_set i _ e _ t) by done;
       split; [reflexivity|]; rewrite (step_set i _ e _ (mkThread (has_handler t) _))
         by (done || (cbn; by rewrite list_lookup_alter_eq, Et));
       split; [reflexivity|done]).
Qed.

(** C29: A dump on request: if Windows lets it be written, its file is the documented
    <dir>\nano-sensor-<pid>-<time>-<reason>.dmp and the caller gets exactly that
    path; if not, the caller gets the error and no dump is counted.  No directory
    that was accepted and no reason of the program overruns the path buffers. *)
Theorem write_now_path `{Utf16} (partial : wstr) (dir reason : str) (g0 g : globals) (e : dump_env)
  (Hin : crashdump_install partial dir g0 = (true, g)) (Hd : utf8_valid dir = true) (Hn : Forall (fun c => code c <> 0) dir)
  (Hr : ascii_text reason = true) (Hl : (length reason <= 20)%nat) (Hp : 0 <= current_pid e < 2 ^ 32) :
  write_now reason e g =
  match create_error e, dump_error e with
  | Some err, _ | None, Some err => (NowError (lit "MiniDumpWriteDump failed, error " ++ to_string err), g)
  | None, None => (NowPath (dump_name dir reason e), mkGlobals (g_dir g) true (u32 (g_written g + 1)))
  end.
Proof.
  unfold crashdump_install in Hin. rewrite c_str_id in Hin by done.
  destruct (Z.ltb_spec kMaxPath (Z.of_nat (length (to_wide dir)) + 1)) as [|Hfit]; [done|].
  injection Hin as <-. change kMaxPath with 260 in Hfit. unfold write_now. cbn [g_installed g_dir g_written negb].
  rewrite write_dump_fits by (rewrite ?length_fmap; lia). cbv zeta.
  destruct (create_error e); [done|]. destruct (dump_error e); [done|].
  destruct (dump_path_wide dir reason e Hd Hr) as [Hv Hw].
  pose proof (dump_path_length (to_wide dir) (wide_char <$> reason) e ltac:(lia) ltac:(rewrite length_fmap; lia) Hp) as Hlen.
  rewrite Hw in *. rewrite utf8_wide by done. pose proof (utf8_width _ Hv).
  destruct (Z.ltb_spec (kMaxPath * 4) (len (dump_name dir reason e) + 1)); [|done].
  change (kMaxPath * 4) with 1040 in *. unfold len in *. lia.
Qed.

(** ** The properties at work *)

Definition sample_dump : dump_env := mkDumpEnv 31200000 0 4242 None None.
Definition sample_dir : str := lit "C:\ProgramData\nano-sensor\dumps".
Definition sample_globals : globals := mkGlobals (wide sample_dir) true 0.

Lemma write_now_path_witness :
  write_now (lit "manual") sample_dump sample_globals
  = (NowPath (lit "C:\ProgramData\nano-sensor\dumps\nano-sensor-4242-1755824363520-manual.dmp"),
     mkGlobals (wide sample_dir) true 1).
Proof.
  apply (write_now_path [] sample_dir (lit "manual") no_globals sample_globals sample_dump);
    [reflexivity|reflexivity| |reflexivity|vm_compute; lia|vm_compute; split; congruence].
  repeat constructor; vm_compute; congruence.
Defined.

(** Two threads fault; the second one finds the first writing. *)
Definition two_faults : list crash_action :=
  [Fault 0 Unhandled; Fault 1 (Terminate (StdException (lit "bad_alloc"))); Step 0 sample_dump; Step 1 sample_dump;
   Step 1 sample_dump; Step 0 sample_dump;
   Step 0 sample_dump; Step 0 sample_dump].

Fixpoint run_crash `{Utf16} (l : list crash_action) (s : crash_proc) : option crash_proc :=
  match l with
  | [] => Some s
  | a :: l' => match crash_step a s with Some s' => run_crash l' s' | None => None end
  end.

Lemma run_crash_reachable `{Utf16} l s0 s s' :
  crash_reachable s0 s -> Forall env_ok l -> run_crash l s = Some s' -> crash_reachable s0 s'.
Proof.
  revert s. induction l as [|a l IH]; intros s Hs Ho; cbn; [by intros [= <-]|].
  apply Forall_cons in Ho as [Ha Ho]. destruct (crash_step a s) as [s1|] eqn:E; [|done].
  intros Hl. apply (IH s1); [by eapply crash_next|done|done].
Qed.

Lemma one_crash_dump_witness :
  exists s, run_crash two_faults (started_process sample_globals [true; true]) = Some s /\
    x_ended s = Some EndSearch /\ (pc <$> x_threads s) = [TLeave Unhandled; TSleep] /\ length (x_lines s) = 1%nat.
Proof.
  destruct (run_crash two_faults (started_process sample_globals [true; true])) as [s|] eqn:E; [|vm_compute in E; discriminate].
  assert (crash_reachable (started_process sample_globals [true; true]) s) as Hr.
  { apply (run_crash_reachable two_faults _ (started_process sample_globals [true; true])); [constructor| |exact E].
    repeat constructor; vm_compute; congruence. }
  assert (x_ended s = Some EndSearch) as He by (vm_compute in E; injection E as <-; reflexivity).
  exists s. split; [reflexivity|]. split; [exact He|]. split; [vm_compute in E; injection E as <-; reflexivity|].
  destruct (one_crash_dump (H := ascii_utf16) [] sample_dir no_globals sample_globals [true; true] s ltac:(reflexivity) Hr)
    as (_ & H2 & _).
  exact (H2 EndSearch He ltac:(discriminate)).
Defined.

(** The thread that runs the body of the service is started by Windows and never
    calls [on_thread_start]: an exception that escapes the body ends the process
    with no dump and no line, with the handlers installed. *)
Theorem service_thread_dies_silently :
  exists s, run_crash [Fault 1 (Terminate (StdException (lit "bad_alloc")))]
      (started_process sample_globals [true; false]) = Some s /\
    x_ended s = Some EndSilent /\ x_lines s = [] /\ x_said s = [].
Proof. eexists. split; [vm_compute; reflexivity|]. repeat split; reflexivity. Qed.

(** A crash whose dump was written is announced with the path's backslashes as they
    are, so the line is no JSON; one whose dump failed is. *)
Example crash_line_not_json :
  parse (removelast (announce (what_of Unhandled) (dump_path (wide sample_dir) (wide (reason_of Unhandled)) sample_dump) true))
  = None /\
  parse (removelast (announce (what_of Unhandled) [] false))
  = Some (JObj [(lit "level", JStr (lit "error")); (lit "msg", JStr (what_of Unhandled)); (lit "dump", JStr []);
                (lit "written", JBool false)]).
Proof. split; vm_compute; reflexivity. Qed.
