(* ===== verification/LinuxStubs.v ===== *)
(** * The Linux builds of the Windows-only parts (src/windows_only_stubs.cpp)

    The stubs of the control pipe, the dump writer, the storage calls only the
    benchmark uses and the process figures; the stub of the storage the agent uses
    is the instance [linux_db] of Agent.v.  They keep no state. *)
From S2P Require Import Prelude CppStd Double Vercmp Json Log Inventory Algorithms Cve Frame.
From S2P Require Import Spool Agent.
From Stdlib Require Import Ascii.

#[local] Open Scope Z_scope.

Definition stub_install (dir : str) : bool := false.
Definition stub_write_now (reason : str) : str + str := inr (lit "minidumps are Windows-only; use core dumps on Linux").
Definition stub_dumps_written : Z := 0.

Definition stub_default_sddl : str := [].
Definition stub_start (pipe_name sddl : str) : option str := Some (lit "the control pipe is Windows-only").
Definition stub_requests_served : Z := 0.
Definition stub_call (pipe_name request : str) (timeout_ms : Z) : (str + str) * Z :=
  (inr (lit "the control pipe is Windows-only"), 0).

Definition stub_exec (sql : str) : option str := Some (lit "not connected").
Definition stub_scalar (sql : str) : option str := Some (lit "not connected").
Definition stub_column (sql : str) : option str := Some (lit "not connected").

Definition stub_self_info (pid : Z) : ProcInfo := mkProcInfo (u32 pid) [] false 0 0 0 0 0 0.

(** With these stubs the agent still starts on Linux whenever its two files load:
    the missing pipe is logged, and with a connection string the missing storage is
    too, and every scan is then tried against it again. *)
Theorem linux_agent_starts {HS : StdSort} {HU : UnorderedIter} (files : str -> option str) (wall : Z) (cfg : AgentConfig)
  (idx idx' : CveIndex) (Hr : load_rules (a_index_path cfg) (files (a_index_path cfg)) new_index = (idx, None))
  (Ha : load_aliases (a_alias_path cfg) (files (a_alias_path cfg)) idx = (idx', None)) :
  exists m logs, agent_start false files (stub_start (pipe_name cfg) (pipe_sddl cfg)) wall cfg tt = inl (m, logs) /\
    a_index m = idx' /\ db_connected (a_db m) = false /\
    (Info, lit "control channel not available on this platform",
      [(lit "reason", lit "the control pipe is Windows-only")]) ∈ logs /\
    ((Warn, lit "database unavailable; will retry each scan",
       [(lit "error", lit "SQL Server storage is Windows-only")]) ∈ logs <-> db_connection cfg <> []).
Proof.
  unfold agent_start. rewrite Hr, Ha. cbn [stub_start].
  destruct (db_connection cfg) as [|c cs]; cbn;
    (eexists _, _; split; [reflexivity|]; cbn; split_and!; [done|done|set_solver|]).
  - split; [|done]. rewrite !elem_of_cons, elem_of_nil. naive_solver.
  - split; [done|]. intros _. set_solver.
Qed.
