(* ===== verification/Odbc.v ===== *)
(** * The SQL Server storage (src/db_odbc.cpp, include/ns/db.hpp)

    Statements with their parameter slots, the connection, the transaction that
    records a scan and the two queries.  The ODBC driver and the server behind it
    are the interface [Odbc]: a state and what each call answers; what SQL Server
    promises about the statements of this file is stated in OdbcSql.v.  At the
    end the storage is an instance of the agent's database interface. *)
From S2P Require Import Prelude CppStd Double Json Log Inventory Algorithms Cve WinStr Agent.
From Stdlib Require Import Ascii SpecFloat.

#[local] Open Scope Z_scope.

(** ** What the driver answers *)

Inductive sqlreturn := SQL_SUCCESS | SQL_SUCCESS_WITH_INFO | SQL_NO_DATA | SQL_ERROR.

Definition ok (rc : sqlreturn) : bool :=
  match rc with SQL_SUCCESS | SQL_SUCCESS_WITH_INFO => true | _ => false end.

Definition is_no_data (rc : sqlreturn) : bool := match rc with SQL_NO_DATA => true | _ => false end.

Record timestamp := mkTs {
  ts_year : Z; ts_month : Z; ts_day : Z; ts_hour : Z; ts_minute : Z; ts_second : Z; ts_fraction : Z }.

(** A bound parameter as the driver sees it, with the column size of the texts. *)
Inductive param :=
| PWide (w : wstr) (size : Z)
| PChar (s : str) (size : Z)
| PInt (z : Z)
| PDouble (d : double)
| PBit (b : Z)
| PTime (t : timestamp).

(** A column of a result row. *)
Inductive value :=
| VNull
| VWide (w : wstr)
| VChar (s : str)
| VInt (z : Z)
| VFloat (d : double)
| VBit (b : bool).

(** The answer to an execution: its return code and messages, the rows, what the
    fetch after the last row returns, and the further result sets, each with its
    messages. *)
Record reply := mkReply {
  rp_rc : sqlreturn; rp_diag : list wstr; rp_rows : list (list value);
  rp_last : sqlreturn; rp_last_diag : list wstr; rp_more : list (sqlreturn * list wstr) }.

(** [acp_wide]: the driver's conversion of a [varchar] column to wide text;
    [stack]: what lies behind the buffer of [get_text]. *)
Class Odbc (S : Type) := {
  alloc_env : S -> sqlreturn * S;
  alloc_dbc : S -> bool * S;
  driver_connect : wstr -> S -> sqlreturn * list wstr * S;
  sql_disconnect : S -> S;
  sql_autocommit : bool -> S -> sqlreturn * S;
  end_tran : bool -> S -> sqlreturn * list wstr * S;   (* true commits, false rolls back *)
  sql_prepare : str -> S -> sqlreturn * list wstr * S;
  bind_parameter : nat -> param -> S -> sqlreturn * list wstr;
  sql_execute : str -> list (nat * param) -> S -> reply * S;
  exec_direct : wstr -> S -> reply * S;
  acp_wide : str -> wstr;
  stack : wstr
}.

(** ** Statements *)

Inductive slot_kind := KNone | KWStr | KStr | KI64 | KDbl | KBit | KTs.

Record Slot := mkSlot {
  s_kind : slot_kind; column_size : Z; s_w : wstr; s_s : str; s_i64 : Z; s_dbl : double; s_bit : Z;
  s_ts : timestamp; s_ind : Z }.

Definition no_ts : timestamp := mkTs 0 0 0 0 0 0 0.
Definition new_slot : Slot := mkSlot KNone 0 [] [] 0 d_zero 0 no_ts 0.

(** The slots of a statement, numbered from one; an access beyond the end makes
    new ones. *)
Abbreviation Stmt := (list Slot).

Definition slot (i : nat) (f : Slot -> Slot) (st : Stmt) : Stmt :=
  alter f (pred i) (st ++ replicate (i - length st) new_slot).

Definition with_kind (k : slot_kind) (n : Z) (x : Slot) : Slot :=
  mkSlot k n (s_w x) (s_s x) (s_i64 x) (s_dbl x) (s_bit x) (s_ts x) (s_ind x).

Definition bind_wstr (i : nat) (n : Z) (st : Stmt) : Stmt := slot i (with_kind KWStr n) st.
Definition bind_str (i : nat) (n : Z) (st : Stmt) : Stmt := slot i (with_kind KStr n) st.
Definition bind_i64 (i : nat) (st : Stmt) : Stmt := slot i (fun x => with_kind KI64 (column_size x) x) st.
Definition bind_double (i : nat) (st : Stmt) : Stmt := slot i (fun x => with_kind KDbl (column_size x) x) st.
Definition bind_bit (i : nat) (st : Stmt) : Stmt := slot i (fun x => with_kind KBit (column_size x) x) st.
Definition bind_ts (i : nat) (st : Stmt) : Stmt := slot i (fun x => with_kind KTs (column_size x) x) st.

Definition set_text `{Utf16} (i : nat) (v : str) (st : Stmt) : Stmt :=
  slot i (fun x =>
    match s_kind x with
    | KWStr =>
        let w := widen v in
        mkSlot (s_kind x) (column_size x) w (s_s x) (s_i64 x) (s_dbl x) (s_bit x) (s_ts x)
          (Z.of_nat (length w) * 2)
    | _ => mkSlot (s_kind x) (column_size x) (s_w x) v (s_i64 x) (s_dbl x) (s_bit x) (s_ts x) (len v)
    end) st.

Definition set_i64 (i : nat) (v : Z) (st : Stmt) : Stmt :=
  slot i (fun x => mkSlot (s_kind x) (column_size x) (s_w x) (s_s x) v (s_dbl x) (s_bit x) (s_ts x) 0) st.
Definition set_double (i : nat) (v : double) (st : Stmt) : Stmt :=
  slot i (fun x => mkSlot (s_kind x) (column_size x) (s_w x) (s_s x) (s_i64 x) v (s_bit x) (s_ts x) 0) st.
Definition set_bit (i : nat) (v : bool) (st : Stmt) : Stmt :=
  slot i (fun x => mkSlot (s_kind x) (column_size x) (s_w x) (s_s x) (s_i64 x) (s_dbl x)
                     (if v then 1 else 0) (s_ts x) 0) st.

(** [gmtime_s]: fails (every field is -1) before 1970 and after the year 3000. *)
Definition gmtime (t : Z) : Z * Z * Z * Z * Z * Z :=
  if (0 <=? t) && (t <=? 32536799999) then
    let '(y, m, d) := civil_from_days (t / 86400) in
    let sod := t mod 86400 in
    (y - 1900, m - 1, d, sod / 3600, sod / 60 mod 60, sod mod 60)
  else (-1, -1, -1, -1, -1, -1).

Definition timestamp_of (ms : Z) : timestamp :=
  let '(y, mo, d, h, mi, s) := gmtime (Z.quot ms 1000) in
  mkTs (sgn 16 (y + 1900)) (u16 (mo + 1)) (u16 d) (u16 h) (u16 mi) (u16 s) (u32 (Z.rem ms 1000 * 1000000)).

Definition set_unix_ms (i : nat) (ms : Z) (st : Stmt) : Stmt :=
  slot i (fun x => mkSlot (s_kind x) (column_size x) (s_w x) (s_s x) (s_i64 x) (s_dbl x) (s_bit x)
                     (timestamp_of ms) 0) st.

(** What a slot hands to [SQLBindParameter]; a slot of no kind is not bound. *)
Definition param_of (x : Slot) : option param :=
  match s_kind x with
  | KNone => None
  | KWStr => Some (PWide (s_w x) (column_size x))
  | KStr => Some (PChar (s_s x) (column_size x))
  | KI64 => Some (PInt (s_i64 x))
  | KDbl => Some (PDouble (s_dbl x))
  | KBit => Some (PBit (s_bit x))
  | KTs => Some (PTime (s_ts x))
  end.

Section Db.
Context {S : Type} {HO : Odbc S} {HW : Utf16}.

(** [diag]: the messages joined by line breaks.  An empty text so far takes no
    line break. *)
Definition diag (ds : list wstr) : str :=
  fold_left (fun out d => (match out with [] => [] | _ => out ++ [nl] end) ++ narrow_n d) ds [].

Definition prepare (sql : str) (s : S) : option str * S :=
  let '(rc, ds, s) := sql_prepare sql s in
  (if ok rc then None else Some (lit "prepare: " ++ diag ds), s).

(** The loop of [execute] that binds the slots, from slot [i] on. *)
Fixpoint bind_slots (i : nat) (st : Stmt) (s : S) : list (nat * param) + str :=
  match st with
  | [] => inl []
  | x :: st' =>
      match param_of x with
      | None => bind_slots (Datatypes.S i) st' s
      | Some p =>
          let '(rc, ds) := bind_parameter i p s in
          if ok rc then
            match bind_slots (Datatypes.S i) st' s with
            | inl ps => inl ((i, p) :: ps)
            | inr e => inr e
            end
          else inr (lit "bind: " ++ diag ds)
      end
  end.

Definition execute (sql : str) (st : Stmt) (s : S) : (reply + str) * S :=
  match bind_slots 1 st s with
  | inr e => (inr e, s)
  | inl ps =>
      let '(rp, s) := sql_execute sql ps s in
      (if is_no_data (rp_rc rp) || ok (rp_rc rp) then inl rp else inr (diag (rp_diag rp)), s)
  end.

(** The first column of the first row: whether the fetch worked, whether there
    was a value, and what [out] holds afterwards. *)
Definition fetch_i64 (rp : reply) (out : Z) : bool * bool * Z :=
  match rp_rows rp with
  | row :: _ =>
      match row with
      | VInt z :: _ => (true, true, z)
      | VNull :: _ => (true, false, 0)
      | _ => (true, true, 0)
      end
  | [] => (is_no_data (rp_last rp), false, out)
  end.

(** The buffer holds 1023 units and a terminator; the indicator is the length of
    the whole value. *)
Definition get_text (v : value) : str :=
  let read w := narrow_n (if (length w <=? 1023)%nat then w else take (length w) (take 1023 w ++ 0 :: stack)) in
  match v with
  | VWide w => read w
  | VChar s => read (acp_wide s)
  | _ => []
  end.

Definition column_at (row : list value) (i : nat) : value := default VNull (row !! pred i).

Definition read_row (row : list value) : FindingRow :=
  mkRow (get_text (column_at row 1)) (get_text (column_at row 2)) (get_text (column_at row 3))
    (get_text (column_at row 4))
    (match column_at row 5 with VFloat d => d | _ => d_zero end)
    (get_text (column_at row 6))
    (match column_at row 7 with VBit b => b | _ => false end)
    (match column_at row 8 with VInt z => z | _ => 0 end).

Definition read_rows (rp : reply) (out : list FindingRow) : list FindingRow :=
  out ++ (read_row <$> rp_rows rp).

Definition add_message (ds : list wstr) (messages : option str) : option str :=
  match messages with
  | None => None
  | Some m => Some (match diag ds with [] => m | d => m ++ d ++ [nl] end)
  end.

(** [drain_messages]: the messages of the last fetch, then those of every further
    result set up to the one that ends the loop. *)
Fixpoint more_messages (more : list (sqlreturn * list wstr)) (messages : option str) : option str :=
  match more with
  | [] => messages
  | (rc, ds) :: more' => if ok rc then more_messages more' (add_message ds messages) else messages
  end.

Definition drain_messages (rp : reply) (messages : option str) : option str :=
  more_messages (rp_more rp) (add_message (rp_last_diag rp) messages).

(** ** The connection *)

Record Db := mkDb { srv : S; env_ : bool; dbc_ : bool; connected : bool }.

Definition with_srv (s : S) (d : Db) : Db := mkDb s (env_ d) (dbc_ d) (connected d).

Definition disconnect (d : Db) : Db :=
  mkDb (if connected d then sql_disconnect (srv d) else srv d) false false false.

Definition connect (cs : str) (d : Db) : option str * Db :=
  let d := disconnect d in
  let '(rc, s) := alloc_env (srv d) in
  if negb (ok rc) then (Some (lit "SQLAllocHandle(ENV) failed"), with_srv s d)
  else
    let '(dbc, s) := alloc_dbc s in
    let '(rc, ds, s) := driver_connect (widen cs) s in
    if negb (ok rc) then (Some (lit "connect: " ++ diag ds), disconnect (mkDb s true dbc false))
    else (None, mkDb s true dbc true).

(** ** Recording a scan

    The body of [record_scan] runs on the server's state and the caller's scan
    id, which a later failure does not undo; it stops at the first error. *)

Definition M (A : Type) : Type := S * Z -> (str + A) * (S * Z).

#[global] Instance M_ret : MRet M := fun A a st => (inr a, st).
#[global] Instance M_bind : MBind M := fun A B f m st =>
  match m st with
  | (inr a, st) => f a st
  | (inl e, st) => (inl e, st)
  end.

Definition raise {A} (e : str) : M A := fun st => (inl e, st).

Definition prepared (sql : str) : M unit := fun '(s, k) =>
  let '(failed, s) := prepare sql s in
  (match failed with None => inr tt | Some e => inl e end, (s, k)).

(** [execute], with the text the caller puts before the error. *)
Definition executed (what sql : str) (st : Stmt) : M reply := fun '(s, k) =>
  let '(r, s) := execute sql st s in
  (match r with inl rp => inr rp | inr e => inl (what ++ e) end, (s, k)).

Definition set_scan_id (id : Z) : M unit := fun '(s, _) => (inr tt, (s, id)).
Definition get_scan_id : M Z := fun '(s, k) => (inr k, (s, k)).

Definition kUpdateHost : str :=
  lit "UPDATE dbo.hosts SET os_name = ?, os_version = ?, " ++
  lit "last_seen = SYSUTCDATETIME() OUTPUT INSERTED.host_id " ++ lit "WHERE hostname = ?".
Definition kInsertHost : str :=
  lit "INSERT dbo.hosts (hostname, os_name, os_version, last_seen) " ++
  lit "OUTPUT INSERTED.host_id VALUES (?, ?, ?, SYSUTCDATETIME())".
Definition kInsertScan : str :=
  lit "INSERT dbo.scans (host_id, collected_at, agent_version, " ++
  lit "package_count, finding_count) OUTPUT INSERTED.scan_id " ++ lit "VALUES (?, ?, ?, ?, ?)".
Definition kInsertPackage : str :=
  lit "INSERT dbo.packages (scan_id, package_id, name, version, vendor, " ++
  lit "source) VALUES (?, ?, ?, ?, ?, ?)".
Definition kInsertFinding : str :=
  lit "INSERT dbo.findings (scan_id, cve_id, package_name, package_version, " ++
  lit "cvss, severity, exposed) VALUES (?, ?, ?, ?, ?, ?, ?)".
Definition kSetLatest : str := lit "UPDATE dbo.hosts SET latest_scan_id = ? WHERE host_id = ?".

Definition update_host_stmt (h : HostInfo) : Stmt :=
  set_text 3 (hostname h) (set_text 2 (os_version h) (set_text 1 (os_name h)
    (bind_wstr 3 255 (bind_wstr 2 64 (bind_wstr 1 128 []))))).

Definition insert_host_stmt (h : HostInfo) : Stmt :=
  set_text 3 (os_version h) (set_text 2 (os_name h) (set_text 1 (hostname h)
    (bind_wstr 3 64 (bind_wstr 2 128 (bind_wstr 1 255 []))))).

Definition insert_host (h : HostInfo) : M Z :=
  _ ← prepared kInsertHost;
  rp ← executed (lit "host insert: ") kInsertHost (insert_host_stmt h);
  let '(fetched, found, host_id) := fetch_i64 rp 0 in
  if negb fetched || negb found then raise (lit "host insert: ") else mret host_id.

(** Update, then insert if there was nothing to update. *)
Definition record_host (h : HostInfo) : M Z :=
  _ ← prepared kUpdateHost;
  rp ← executed (lit "host update: ") kUpdateHost (update_host_stmt h);
  let '(fetched, found, host_id) := fetch_i64 rp 0 in
  if negb fetched then raise (lit "host update: ")
  else if found then mret host_id else insert_host h.

Definition insert_scan_stmt (host_id : Z) (inv : Inventory) (findings : list Finding) : Stmt :=
  set_i64 5 (Z.of_nat (length findings)) (set_i64 4 (Z.of_nat (length (packages inv)))
    (set_text 3 kAgentVersion (set_unix_ms 2 (collected_at_unix_ms inv) (set_i64 1 host_id
      (bind_i64 5 (bind_i64 4 (bind_str 3 32 (bind_ts 2 (bind_i64 1 []))))))))).

Definition record_scan_row (host_id : Z) (inv : Inventory) (findings : list Finding) : M unit :=
  _ ← prepared kInsertScan;
  rp ← executed (lit "scan insert: ") kInsertScan (insert_scan_stmt host_id inv findings);
  k ← get_scan_id;
  let '(fetched, found, id) := fetch_i64 rp k in
  _ ← set_scan_id id;
  if negb fetched || negb found then raise (lit "scan insert: ") else mret tt.

Definition package_binds : Stmt :=
  bind_str 6 32 (bind_wstr 5 256 (bind_wstr 4 128 (bind_wstr 3 400 (bind_i64 2 (bind_i64 1 []))))).

Definition package_stmt (scan_id ordinal : Z) (pkg : Package) (st : Stmt) : Stmt :=
  set_text 6 (substr (source pkg) 0 32) (set_text 5 (substr (pk_vendor pkg) 0 256)
    (set_text 4 (substr (pk_version pkg) 0 128) (set_text 3 (substr (pk_name pkg) 0 400)
      (set_i64 2 ordinal (set_i64 1 scan_id st))))).

(** The statement is bound once and its slots are overwritten for every row. *)
Fixpoint insert_packages (scan_id ordinal : Z) (st : Stmt) (pkgs : list Package) : M unit :=
  match pkgs with
  | [] => mret tt
  | pkg :: pkgs' =>
      let st := package_stmt scan_id ordinal pkg st in
      _ ← executed (lit "package insert: ") kInsertPackage st;
      insert_packages scan_id (i64 (ordinal + 1)) st pkgs'
  end.

Definition finding_binds : Stmt :=
  bind_bit 7 (bind_str 6 10 (bind_double 5 (bind_wstr 4 128 (bind_wstr 3 400 (bind_str 2 32
    (bind_i64 1 [])))))).

Definition severity_text (f : Finding) : str :=
  match cvss_severity f with [] => lit "NONE" | s => s end.

Definition finding_stmt (scan_id : Z) (x : Finding) (st : Stmt) : Stmt :=
  set_bit 7 (network_exposed x) (set_text 6 (severity_text x) (set_double 5 (cvss_score x)
    (set_text 4 (substr (package_version x) 0 128) (set_text 3 (substr (package_name x) 0 400)
      (set_text 2 (cve_id x) (set_i64 1 scan_id st)))))).

Fixpoint insert_findings (scan_id : Z) (st : Stmt) (findings : list Finding) : M unit :=
  match findings with
  | [] => mret tt
  | x :: findings' =>
      let st := finding_stmt scan_id x st in
      _ ← executed (lit "finding insert: ") kInsertFinding st;
      insert_findings scan_id st findings'
  end.

Definition set_latest (scan_id host_id : Z) : M unit :=
  _ ← prepared kSetLatest;
  _ ← executed (lit "latest_scan_id: ") kSetLatest
        (set_i64 2 host_id (set_i64 1 scan_id (bind_i64 2 (bind_i64 1 []))));
  mret tt.

Definition commit_tran : M unit := fun '(s, k) =>
  let '(rc, ds, s) := end_tran true s in
  (if ok rc then inr tt else inl (lit "commit: " ++ diag ds), (s, k)).

Definition record_body (inv : Inventory) (findings : list Finding) : M unit :=
  host_id ← record_host (host inv);
  _ ← record_scan_row host_id inv findings;
  scan_id ← get_scan_id;
  _ ← prepared kInsertPackage;
  _ ← insert_packages scan_id 0 package_binds (packages inv);
  _ ← prepared kInsertFinding;
  _ ← insert_findings scan_id finding_binds findings;
  set_latest scan_id host_id.

(** The answer to the call is not looked at. *)
Definition set_autocommit (on : bool) (s : S) : S := (sql_autocommit on s).2.

(** [fail] of [record_scan]: the answer to the rollback is not looked at either. *)
Definition roll_back (s : S) : S :=
  let '(_, _, s) := end_tran false s in set_autocommit true s.

Definition record_scan (inv : Inventory) (findings : list Finding) (k : Z) (d : Db) : option str * Z * Db :=
  if negb (connected d) then (Some (lit "not connected"), k, d)
  else
    let '(r, (s, k)) := (_ ← record_body inv findings; commit_tran) (set_autocommit false (srv d), k) in
    match r with
    | inl what => (Some what, k, with_srv (roll_back s) d)
    | inr _ => (None, k, with_srv (set_autocommit true s) d)
    end.

(** ** Queries *)

Definition kRowColumns : str :=
  lit "h.hostname, f.cve_id, f.package_name, f.package_version, " ++
  lit "CAST(f.cvss AS float), f.severity, f.exposed, f.scan_id ".

Definition kHostFindings : str :=
  lit "SELECT TOP (?) " ++ kRowColumns ++ lit "FROM dbo.hosts h JOIN dbo.findings f " ++
  lit "ON f.scan_id = h.latest_scan_id " ++ lit "WHERE h.hostname = ? AND f.cvss >= ? " ++
  lit "ORDER BY f.cvss DESC, f.cve_id".

Definition host_findings_stmt (hostname : str) (min_cvss : double) (limit : Z) : Stmt :=
  set_double 3 min_cvss (set_text 2 hostname (set_i64 1 limit
    (bind_double 3 (bind_wstr 2 255 (bind_i64 1 []))))).

Definition host_findings (hostname : str) (min_cvss : double) (limit : Z) (d : Db)
    : option str * list FindingRow * Db :=
  if negb (connected d) then (Some (lit "not connected"), [], d)
  else
    let '(failed, s) := prepare kHostFindings (srv d) in
    match failed with
    | Some e => (Some e, [], with_srv s d)
    | None =>
        let '(r, s) := execute kHostFindings (host_findings_stmt hostname min_cvss limit) s in
        match r with
        | inr e => (Some e, [], with_srv s d)
        | inl rp => (None, read_rows rp [], with_srv s d)
        end
    end.

Definition kHostsAffected : str :=
  lit "SELECT " ++ kRowColumns ++ lit "FROM dbo.findings f JOIN dbo.hosts h " ++
  lit "ON h.latest_scan_id = f.scan_id " ++ lit "WHERE f.cve_id = ? ORDER BY h.hostname".

Definition hosts_affected_stmt (cve : str) : Stmt := set_text 1 cve (bind_str 1 32 []).

Definition hosts_affected (cve : str) (messages : option str) (d : Db)
    : option str * list FindingRow * option str * Db :=
  if negb (connected d) then (Some (lit "not connected"), [], messages, d)
  else
    let '(failed, s) := prepare kHostsAffected (srv d) in
    match failed with
    | Some e => (Some e, [], messages, with_srv s d)
    | None =>
        let '(r, s) := execute kHostsAffected (hosts_affected_stmt cve) s in
        match r with
        | inr e => (Some e, [], messages, with_srv s d)
        | inl rp =>
            let messages := add_message (rp_diag rp) messages in
            (None, read_rows rp [], drain_messages rp messages, with_srv s d)
        end
    end.

(** [exec], [scalar] and [column]: fixed statements of the benchmark. *)
Definition exec (sql : str) (messages : option str) (d : Db) : option str * option str * Db :=
  if negb (connected d) then (Some (lit "not connected"), messages, d)
  else
    let '(rp, s) := exec_direct (widen sql) (srv d) in
    if negb (ok (rp_rc rp)) && negb (is_no_data (rp_rc rp)) then
      (Some (diag (rp_diag rp)), messages, with_srv s d)
    else
      (None, more_messages (rp_more rp) (add_message (rp_diag rp) messages), with_srv s d).

Definition scalar (sql : str) (out : Z) (d : Db) : option str * Z * Db :=
  if negb (connected d) then (Some (lit "not connected"), out, d)
  else
    let '(rp, s) := exec_direct (widen sql) (srv d) in
    if negb (ok (rp_rc rp)) then (Some (diag (rp_diag rp)), out, with_srv s d)
    else
      let '(_, found, v) := fetch_i64 rp out in
      (None, if found then v else 0, with_srv s d).

Definition column (sql : str) (out : list str) (d : Db) : option str * list str * Db :=
  if negb (connected d) then (Some (lit "not connected"), out, d)
  else
    let '(rp, s) := exec_direct (widen sql) (srv d) in
    if negb (ok (rp_rc rp)) then (Some (diag (rp_diag rp)), out, with_srv s d)
    else (None, out ++ ((fun row => get_text (column_at row 1)) <$> rp_rows rp), with_srv s d).

(** ** The storage as the agent's database *)

#[global] Instance odbc_db : DbOps Db := {
  db_connected := connected;
  db_connect := connect;
  db_disconnect := disconnect;
  db_record_scan := record_scan;
  db_host_findings := host_findings;
  db_hosts_affected cve d := let '(e, rows, _, d) := hosts_affected cve None d in (e, rows, d)
}.

(** Every error of the body of [record_scan] has a text. *)
Definition speaks {A} (m : M A) : Prop := forall st e st', m st = (inl e, st') -> e <> [].

Lemma speaks_ret {A} (a : A) : speaks (mret a).
Proof. intros st e st' H. done. Qed.

Lemma speaks_raise {A} e : e <> [] -> speaks (raise (A:=A) e).
Proof. intros He st e' st' H. unfold raise in H. by simplify_eq. Qed.

Lemma speaks_bind {A B} (m : M A) (f : A -> M B) : speaks m -> (forall a, speaks (f a)) -> speaks (m ≫= f).
Proof.
  intros Hm Hf st e st' H. unfold mbind, M_bind in H. destruct (m st) as [[e'|a] st1] eqn:E.
  - simplify_eq. by eapply Hm.
  - by eapply Hf.
Qed.

Lemma speaks_prepared sql : speaks (prepared sql).
Proof.
  intros [s k] e st' H. unfold prepared, prepare in H. destruct (sql_prepare sql s) as [[rc ds] s'].
  destruct (ok rc); by simplify_eq.
Qed.

Lemma speaks_executed what sql st : what <> [] -> speaks (executed what sql st).
Proof.
  intros Hw [s k] e st' H. unfold executed in H. destruct (execute sql st s) as [[rp|e'] s']; simplify_eq.
  by destruct what.
Qed.

Lemma speaks_get : speaks get_scan_id.
Proof. by intros [s k] e st' H. Qed.
Lemma speaks_set id : speaks (set_scan_id id).
Proof. by intros [s k] e st' H. Qed.

End Db.

Create HintDb speaks.
#[export] Hint Resolve speaks_ret speaks_raise speaks_bind speaks_prepared speaks_executed speaks_get speaks_set
  : speaks.

Section Speaks.
Context {S : Type} {HO : Odbc S} {HW : Utf16}.

Lemma speaks_if {A} (b : bool) (m n : M (S:=S) A) : speaks m -> speaks n -> speaks (if b then m else n).
Proof. by destruct b. Qed.
Hint Resolve speaks_if : speaks.

Lemma speaks_host h : speaks (record_host (S:=S) h).
Proof.
  unfold record_host, insert_host. apply speaks_bind; [auto with speaks|]. intros _.
  apply speaks_bind; [by apply speaks_executed|]. intros rp. destruct (fetch_i64 rp 0) as [[fetched found] id].
  apply speaks_if; [by apply speaks_raise|]. apply speaks_if; [auto with speaks|].
  apply speaks_bind; [auto with speaks|]. intros _. apply speaks_bind; [by apply speaks_executed|].
  intros rp'. destruct (fetch_i64 rp' 0) as [[fetched' found'] id'].
  apply speaks_if; [by apply speaks_raise|auto with speaks].
Qed.

Lemma speaks_scan_row host_id inv fs : speaks (record_scan_row (S:=S) host_id inv fs).
Proof.
  unfold record_scan_row. apply speaks_bind; [auto with speaks|]. intros _.
  apply speaks_bind; [by apply speaks_executed|]. intros rp. apply speaks_bind; [auto with speaks|].
  intros k. destruct (fetch_i64 rp k) as [[fetched found] id]. apply speaks_bind; [auto with speaks|]. intros _.
  apply speaks_if; [by apply speaks_raise|auto with speaks].
Qed.

Lemma speaks_packages k st pkgs : forall o, speaks (insert_packages (S:=S) k o st pkgs).
Proof.
  revert st. induction pkgs as [|p pkgs IH]; intros st o; [apply speaks_ret|]. cbn [insert_packages].
  apply speaks_bind; [by apply speaks_executed|]. intros _. apply IH.
Qed.

Lemma speaks_findings k st fs : speaks (insert_findings (S:=S) k st fs).
Proof.
  revert st. induction fs as [|p fs IH]; intros st; [apply speaks_ret|]. cbn [insert_findings].
  apply speaks_bind; [by apply speaks_executed|]. intros _. apply IH.
Qed.

Lemma speaks_body inv fs : speaks (_ ← record_body (S:=S) inv fs; commit_tran).
Proof.
  apply speaks_bind; [|intros _ [s k] e st' H; unfold commit_tran in H;
    destruct (end_tran true s) as [[rc ds] s']; destruct (ok rc); by simplify_eq].
  unfold record_body, set_latest.
  repeat (apply speaks_bind; [first [apply speaks_host | apply speaks_scan_row | apply speaks_packages
    | apply speaks_findings | by apply speaks_executed | auto with speaks]|intros ?]).
  apply speaks_ret.
Qed.

(** What the agent relies on of its database. *)
#[global] Instance odbc_db_laws : DbLaws (Db (S:=S)).
Proof.
  split; cbn.
  - intros cs d d'. unfold connect. destruct (alloc_env _) as [rc s]. destruct (ok rc); [|done]. cbn [negb].
    destruct (alloc_dbc s) as [dbc s1]. destruct (driver_connect _ _) as [[rc' ds] s2].
    destruct (ok rc'); [|done]. by intros [= <-].
  - done.
  - intros cs d d' e. unfold connect. destruct (alloc_env _) as [rc s]. destruct (ok rc); cbn [negb];
      [|by intros [= <- <-]].
    destruct (alloc_dbc s) as [dbc s1]. destruct (driver_connect _ _) as [[rc' ds] s2].
    destruct (ok rc'); [done|]. by intros [= <- <-].
  - intros i fs k d e k' d'. unfold record_scan. destruct (connected d); cbn [negb]; [|by intros [= <- <- <-]].
    destruct ((_ ← record_body i fs; commit_tran) _) as [[what|[]] [s k1]] eqn:E; [|done].
    intros [= <- <- <-]. by eapply speaks_body.
Qed.

End Speaks.
