(* ===== verification/OdbcSql.v ===== *)
(** * The tables and the SQL of the storage (tools/db/schema.sql, src/db_odbc.cpp)

    The four tables of the schema; what the statements mean, read off their text:
    the changing ones are recognised word for word, the queries are parsed (the
    columns, the conditions, the order, TOP) and evaluated on the tables; and what
    SQL Server and ODBC promise about executing them ([SqlServer]).

    Only the agent's own connection writes in this model.  The server chooses
    identity values and the time; a statement may fail at any time; a failed
    statement may leave anything in the open transaction.  A call that switches
    the automatic mode may fail too; what holds after a failed one is not said. *)
From S2P Require Import Prelude CppStd Double Json Log Inventory Algorithms Cve WinStr Agent Odbc.
From Stdlib Require Import Ascii SpecFloat.

#[local] Open Scope Z_scope.

(** ** The tables *)

Record host_row := mkHostRow {
  hr_id : Z; hr_name : wstr; hr_os : wstr; hr_osver : wstr; hr_seen : Z; hr_latest : option Z }.
Record scan_row := mkScanRow {
  sc_id : Z; sc_host : Z; sc_at : timestamp; sc_agent : str; sc_packages : Z; sc_findings : Z }.
Record package_row := mkPackageRow {
  pr_scan : Z; pr_id : Z; pr_name : wstr; pr_version : wstr; pr_vendor : wstr; pr_source : str }.
Record finding_row := mkFindingRow {
  fr_id : Z; fr_scan : Z; fr_cve : str; fr_package : wstr; fr_version : wstr; fr_cvss : double;
  fr_severity : str; fr_exposed : bool }.

Record Tables := mkTables {
  t_hosts : list host_row; t_scans : list scan_row; t_packages : list package_row;
  t_findings : list finding_row }.

Definition no_tables : Tables := mkTables [] [] [] [].

Definition set_hosts (l : list host_row) (t : Tables) : Tables :=
  mkTables l (t_scans t) (t_packages t) (t_findings t).
Definition add_scan (r : scan_row) (t : Tables) : Tables :=
  mkTables (t_hosts t) (t_scans t ++ [r]) (t_packages t) (t_findings t).
Definition add_package (r : package_row) (t : Tables) : Tables :=
  mkTables (t_hosts t) (t_scans t) (t_packages t ++ [r]) (t_findings t).
Definition add_finding (r : finding_row) (t : Tables) : Tables :=
  mkTables (t_hosts t) (t_scans t) (t_packages t) (t_findings t ++ [r]).

(** The server's data types: text is compared by the sort key of the collation,
    and a score is stored as a [decimal(3,1)], which may overflow. *)
Class SqlTypes := {
  coll : wstr -> list Z;
  coll_char : str -> list Z;
  decimal31 : double -> option double
}.

(** ** Queries

    SELECT over the hosts [h] joined with the findings [f] of their latest scan. *)

Inductive sql_column := CHost | CCve | CPackage | CVersion | CCvss | CSeverity | CExposed | CScan.
Inductive sql_op := OpEq | OpLt | OpLe | OpGt | OpGe.

(** [sel_top]: whether the first parameter is the number of rows; the conditions
    compare a column with the next parameter; [true] in the order is DESC. *)
Record select := mkSelect {
  sel_top : bool; sel_columns : list sql_column; sel_where : list (sql_column * sql_op);
  sel_order : list (sql_column * bool) }.

Fixpoint assoc_str {A} (k : str) (l : list (str * A)) : option A :=
  match l with
  | [] => None
  | (x, a) :: l' => if str_eqb k x then Some a else assoc_str k l'
  end.

Definition column_named (s : str) : option sql_column :=
  assoc_str s [(lit "h.hostname", CHost); (lit "f.cve_id", CCve); (lit "f.package_name", CPackage);
               (lit "f.package_version", CVersion); (lit "f.cvss", CCvss); (lit "f.severity", CSeverity);
               (lit "f.exposed", CExposed); (lit "f.scan_id", CScan)].

(** A decimal is fetched as a float only when it is cast to one. *)
Definition selected_column (s : str) : option sql_column :=
  if str_eqb s (lit "CAST(f.cvss AS float)") then Some CCvss
  else if str_eqb s (lit "f.cvss") then None else column_named s.

Definition operator (s : str) : option sql_op :=
  assoc_str s [(lit "=", OpEq); (lit "<", OpLt); (lit "<=", OpLe); (lit ">", OpGt); (lit ">=", OpGe)].

Definition condition (s : str) : option (sql_column * sql_op) :=
  match words s with
  | [c; o; q] =>
      c ← column_named c; o ← operator o; if str_eqb q (lit "?") then Some (c, o) else None
  | _ => None
  end.

Definition order_item (s : str) : option (sql_column * bool) :=
  match words s with
  | [c] => c ← column_named c; Some (c, false)
  | [c; d] =>
      c ← column_named c; d ← assoc_str d [(lit "ASC", false); (lit "DESC", true)]; Some (c, d)
  | _ => None
  end.

(** [s] before and after the first [sep]. *)
Definition cut (sep s : str) : option (str * str) :=
  n ← find_sub sep s; Some (take n s, drop (n + length sep) s).

Fixpoint pieces (fuel : nat) (sep s : str) : list str :=
  match fuel, cut sep s with
  | Datatypes.S fuel, Some (a, b) => a :: pieces fuel sep b
  | _, _ => [s]
  end.

(** The join in either order of the tables. *)
Definition latest_join (s : str) : bool :=
  str_eqb s (lit "dbo.hosts h JOIN dbo.findings f ON f.scan_id = h.latest_scan_id") ||
  str_eqb s (lit "dbo.findings f JOIN dbo.hosts h ON h.latest_scan_id = f.scan_id").

Definition strip (p s : str) : option str := if starts_with p s then Some (drop (length p) s) else None.

Definition parse_select (sql : str) : option select :=
  s ← strip (lit "SELECT ") sql;
  let '(top, s) := match strip (lit "TOP (?) ") s with Some s' => (true, s') | None => (false, s) end in
  '(columns, s) ← cut (lit " FROM ") s;
  '(from, s) ← cut (lit " WHERE ") s;
  '(conditions, order) ← cut (lit " ORDER BY ") s;
  columns ← mapM selected_column (pieces (length columns) (lit ", ") columns);
  conditions ← mapM condition (pieces (length conditions) (lit " AND ") conditions);
  order ← mapM order_item (pieces (length order) (lit ", ") order);
  if latest_join from then Some (mkSelect top columns conditions order) else None.

(** ** The statements *)

Inductive query :=
| QUpdateHost | QInsertHost | QInsertScan | QInsertPackage | QInsertFinding | QSetLatest
| QSelect (q : select).

Definition changing : list (str * query) :=
  [(lit "UPDATE dbo.hosts SET os_name = ?, os_version = ?, last_seen = SYSUTCDATETIME() OUTPUT INSERTED.host_id WHERE hostname = ?",
    QUpdateHost);
   (lit "INSERT dbo.hosts (hostname, os_name, os_version, last_seen) OUTPUT INSERTED.host_id VALUES (?, ?, ?, SYSUTCDATETIME())",
    QInsertHost);
   (lit "INSERT dbo.scans (host_id, collected_at, agent_version, package_count, finding_count) OUTPUT INSERTED.scan_id VALUES (?, ?, ?, ?, ?)",
    QInsertScan);
   (lit "INSERT dbo.packages (scan_id, package_id, name, version, vendor, source) VALUES (?, ?, ?, ?, ?, ?)",
    QInsertPackage);
   (lit "INSERT dbo.findings (scan_id, cve_id, package_name, package_version, cvss, severity, exposed) VALUES (?, ?, ?, ?, ?, ?, ?)",
    QInsertFinding);
   (lit "UPDATE dbo.hosts SET latest_scan_id = ? WHERE host_id = ?", QSetLatest)].

Definition query_of (sql : str) : option query :=
  match assoc_str sql changing with
  | Some q => Some q
  | None => QSelect <$> parse_select sql
  end.

Definition is_read (q : query) : bool := match q with QSelect _ => true | _ => false end.

(** The parameters in the order of their placeholders. *)
Definition positional (ps : list (nat * param)) : option (list param) :=
  if bool_decide (ps.*1 = List.seq 1 (length ps)) then Some ps.*2 else None.

Section Tables.
Context {HT : SqlTypes}.

Definition named (name : wstr) (h : host_row) : bool := bool_decide (coll (hr_name h) = coll name).
Definition has_scan (k : Z) (t : Tables) : bool := existsb (fun r => sc_id r =? k) (t_scans t).

Definition touch (os ver name : wstr) (now : Z) (h : host_row) : host_row :=
  if named name h then mkHostRow (hr_id h) (hr_name h) os ver now (hr_latest h) else h.

Definition point (k host_id : Z) (h : host_row) : host_row :=
  if hr_id h =? host_id then mkHostRow (hr_id h) (hr_name h) (hr_os h) (hr_osver h) (hr_seen h) (Some k) else h.

(** A data-changing statement: the rows it outputs and the tables after it, with
    [id] the identity value and [now] the time the server uses; [None] when a
    constraint of the schema refuses it. *)
Definition effect (q : query) (ps : list param) (id now : Z) (t : Tables)
    : option (list (list value) * Tables) :=
  match q, ps with
  | QUpdateHost, [PWide os _; PWide ver _; PWide name _] =>
      Some ((fun h => [VInt (hr_id h)]) <$> List.filter (named name) (t_hosts t),
            set_hosts (touch os ver name now <$> t_hosts t) t)
  | QInsertHost, [PWide name _; PWide os _; PWide ver _] =>
      if existsb (named name) (t_hosts t) then None
      else Some ([[VInt id]], set_hosts (t_hosts t ++ [mkHostRow id name os ver now None]) t)
  | QInsertScan, [PInt h; PTime ts; PChar agent _; PInt np; PInt nf] =>
      if existsb (fun r => hr_id r =? h) (t_hosts t)
      then Some ([[VInt id]], add_scan (mkScanRow id h ts agent np nf) t) else None
  | QInsertPackage, [PInt k; PInt o; PWide n _; PWide v _; PWide vd _; PChar src _] =>
      if has_scan k t && negb (existsb (fun r => (pr_scan r =? k) && (pr_id r =? o)) (t_packages t))
      then Some ([], add_package (mkPackageRow k o n v vd src) t) else None
  | QInsertFinding, [PInt k; PChar cve _; PWide p _; PWide v _; PDouble d; PChar sev _; PBit b] =>
      match decimal31 d with
      | Some x =>
          if has_scan k t
          then Some ([], add_finding (mkFindingRow id k cve p v x sev (negb (b =? 0))) t) else None
      | None => None
      end
  | QSetLatest, [PInt k; PInt h] => Some ([], set_hosts (point k h <$> t_hosts t) t)
  | _, _ => None
  end.

(** An identity value is new in its table. *)
Definition fresh_for (q : query) (id : Z) (t : Tables) : Prop :=
  match q with
  | QInsertHost => id ∉ hr_id <$> t_hosts t
  | QInsertScan => id ∉ sc_id <$> t_scans t
  | QInsertFinding => id ∉ fr_id <$> t_findings t
  | _ => True
  end.

(** The value of a column in a joined row. *)
Definition column_value (c : sql_column) (hf : host_row * finding_row) : value :=
  let '(h, f) := hf in
  match c with
  | CHost => VWide (hr_name h)
  | CCve => VChar (fr_cve f)
  | CPackage => VWide (fr_package f)
  | CVersion => VWide (fr_version f)
  | CCvss => VFloat (fr_cvss f)
  | CSeverity => VChar (fr_severity f)
  | CExposed => VBit (fr_exposed f)
  | CScan => VInt (fr_scan f)
  end.

Definition row_values (cs : list sql_column) (hf : host_row * finding_row) : list value :=
  (fun c => column_value c hf) <$> cs.

Fixpoint keys_compare (a b : list Z) : comparison :=
  match a, b with
  | [], [] => Eq
  | [], _ => Lt
  | _, [] => Gt
  | x :: a', y :: b' => match x ?= y with Eq => keys_compare a' b' | c => c end
  end.

(** Values of different kinds, and those that are no numbers, do not compare. *)
Definition value_compare (a b : value) : option comparison :=
  match a, b with
  | VWide x, VWide y => Some (keys_compare (coll x) (coll y))
  | VChar x, VChar y => Some (keys_compare (coll_char x) (coll_char y))
  | VInt x, VInt y => Some (x ?= y)
  | VFloat x, VFloat y => SFcompare x y
  | _, _ => None
  end.

Definition value_lt (a b : value) : bool := match value_compare a b with Some Lt => true | _ => false end.
Definition value_le (a b : value) : bool := match value_compare a b with Some (Lt | Eq) => true | _ => false end.
Definition value_eq (a b : value) : bool := match value_compare a b with Some Eq => true | _ => false end.

Definition holds (o : sql_op) (a b : value) : bool :=
  match o with
  | OpEq => value_eq a b
  | OpLt => value_lt a b
  | OpLe => value_le a b
  | OpGt => value_lt b a
  | OpGe => value_le b a
  end.

Definition param_value (p : param) : value :=
  match p with
  | PWide w _ => VWide w
  | PChar s _ => VChar s
  | PInt z => VInt z
  | PDouble d => VFloat d
  | PBit b => VBit (negb (b =? 0))
  | PTime _ => VNull
  end.

(** The hosts with the findings of their latest scan. *)
Definition latest_of (h : host_row) (f : finding_row) : bool := bool_decide (hr_latest h = Some (fr_scan f)).
Definition joined (t : Tables) : list (host_row * finding_row) :=
  t_hosts t ≫= fun h => (fun f => (h, f)) <$> List.filter (latest_of h) (t_findings t).

Definition passes (conds : list (sql_column * sql_op)) (ps : list param) (hf : host_row * finding_row) : bool :=
  forallb (fun '((c, o), p) => holds o (column_value c hf) (param_value p)) (zip conds ps).

(** Whether ORDER BY puts [x] strictly before [y]. *)
Fixpoint row_before (order : list (sql_column * bool)) (x y : host_row * finding_row) : bool :=
  match order with
  | [] => false
  | (c, desc) :: order' =>
      let a := column_value c x in
      let b := column_value c y in
      if (if desc : bool then value_lt b a else value_lt a b) then true
      else if (if desc : bool then value_lt a b else value_lt b a) then false
      else row_before order' x y
  end.

(** The parameter of TOP and those of the conditions. *)
Definition select_params (q : select) (ps : list param) : option (option Z * list param) :=
  let checked n ps :=
    if (length ps =? length (sel_where q))%nat then Some (n, ps) else None in
  if sel_top q then match ps with PInt n :: ps' => checked (Some n) ps' | _ => None end
  else checked None ps.

Definition cut_off {A} (n : option Z) (l : list A) : list A :=
  match n with Some n => take (Z.to_nat n) l | None => l end.

(** What a query may answer: the rows in some order that its ORDER BY allows. *)
Definition answer (q : select) (ps : list param) (t : Tables) (rows : list (list value)) : Prop :=
  exists n args all, select_params q ps = Some (n, args) /\
    all ≡ₚ List.filter (passes (sel_where q) args) (joined t) /\
    StronglySorted (fun a b => row_before (sel_order q) b a = false) all /\
    rows = row_values (sel_columns q) <$> cut_off n all.

(** ** What is promised about the connection

    [sees] is what the connection sees, [committed] what everyone else does. *)
Class SqlServer (S : Type) {HO : Odbc S} := {
  sees : S -> Tables;
  committed : S -> Tables;
  autocommit : S -> bool;
  acp_ascii : forall s, ascii_text s = true -> acp_wide s = code <$> s;
  manual_mode : forall s rc s', sql_autocommit false s = (rc, s') -> ok rc = true ->
    autocommit s' = false /\ sees s' = sees s /\ committed s' = committed s;
  (* switching the automatic mode on commits what is open *)
  automatic_mode : forall s rc s', sql_autocommit true s = (rc, s') -> ok rc = true ->
    autocommit s' = true /\ sees s' = sees s /\ committed s' = sees s;
  prepare_pure : forall sql s, let s' := (sql_prepare sql s).2 in
    sees s' = sees s /\ committed s' = committed s /\ autocommit s' = autocommit s;
  execute_isolated : forall sql ps s, autocommit s = false ->
    let s' := (sql_execute sql ps s).2 in committed s' = committed s /\ autocommit s' = false;
  execute_writes : forall sql q ps s rp s',
    query_of sql = Some q -> is_read q = false -> autocommit s = false ->
    sql_execute sql ps s = (rp, s') -> is_no_data (rp_rc rp) || ok (rp_rc rp) = true ->
    exists pl id now, positional ps = Some pl /\ fresh_for q id (sees s) /\
      effect q pl id now (sees s) = Some (rp_rows rp, sees s');
  execute_reads : forall sql q ps s rp s',
    query_of sql = Some (QSelect q) -> sql_execute sql ps s = (rp, s') ->
    sees s' = sees s /\ committed s' = committed s /\ autocommit s' = autocommit s /\
    (is_no_data (rp_rc rp) || ok (rp_rc rp) = true ->
     exists pl, positional ps = Some pl /\ answer q pl (sees s) (rp_rows rp));
  commit_works : forall s rc ds s', end_tran true s = (rc, ds, s') -> ok rc = true ->
    committed s' = sees s /\ sees s' = sees s;
  commit_fails : forall s rc ds s', end_tran true s = (rc, ds, s') -> ok rc = false ->
    committed s' = committed s \/ committed s' = sees s;
  rollback_works : forall s rc ds s', end_tran false s = (rc, ds, s') -> ok rc = true ->
    committed s' = committed s /\ sees s' = committed s
}.

End Tables.


