(* ===== verification/OdbcSpec.v ===== *)
(** * Recording a scan, statement by statement (src/db_odbc.cpp)

    What follows from the promises of OdbcSql.v for the transaction that records a
    scan: the parameters each statement is executed with, what each step does to
    what the connection sees, and that the whole body stays in the transaction.
    The properties are in OdbcProps.v. *)
From S2P Require Import Prelude CppStd Double Json Log Inventory Algorithms Cve WinStr Agent Odbc OdbcSql.
From Stdlib Require Import Ascii SpecFloat.

#[local] Open Scope Z_scope.

(** ** Parameters of the statements *)

Fixpoint params_from (i : nat) (st : Stmt) : list (nat * param) :=
  match st with
  | [] => []
  | x :: st' =>
      match param_of x with
      | Some p => (i, p) :: params_from (S i) st'
      | None => params_from (S i) st'
      end
  end.

(** The kinds and sizes a statement was bound with. *)
Definition shape (st : Stmt) : list (slot_kind * Z) := (fun x => (s_kind x, column_size x)) <$> st.

Section Params.
Context {S : Type} {HO : Odbc S} {HW : Utf16}.

Lemma bind_slots_params i st (s : S) ps : bind_slots i st s = inl ps -> ps = params_from i st.
Proof.
  revert i ps. induction st as [|x st IH]; intros i ps; cbn; [by intros [= <-]|].
  destruct (param_of x) as [p|]; [|apply IH]. destruct (bind_parameter i p s) as [rc ds].
  destruct (ok rc); [|done]. destruct (bind_slots (Datatypes.S i) st s) as [ps'|] eqn:E; [|done].
  intros [= <-]. by rewrite (IH _ _ E).
Qed.

Definition package_params (k o : Z) (p : Package) : list param :=
  [PInt k; PInt o; PWide (widen (substr (pk_name p) 0 400)) 400;
   PWide (widen (substr (pk_version p) 0 128)) 128; PWide (widen (substr (pk_vendor p) 0 256)) 256;
   PChar (substr (source p) 0 32) 32].

Definition finding_params (k : Z) (x : Finding) : list param :=
  [PInt k; PChar (cve_id x) 32; PWide (widen (substr (package_name x) 0 400)) 400;
   PWide (widen (substr (package_version x) 0 128)) 128; PDouble (cvss_score x);
   PChar (severity_text x) 10; PBit (if network_exposed x then 1 else 0)].

(** Overwriting the slots of a bound statement: nothing of the row before is
    left in the parameters. *)
Lemma package_stmt_params k o p st : shape st = shape package_binds ->
  positional (params_from 1 (package_stmt k o p st)) = Some (package_params k o p) /\
  shape (package_stmt k o p st) = shape package_binds.
Proof.
  intros H. do 6 (destruct st as [|[? ? ? ? ? ? ? ? ?] st]; [done|]). destruct st; [|done].
  cbv in H. simplify_eq. done.
Qed.

Lemma finding_stmt_params k x st : shape st = shape finding_binds ->
  positional (params_from 1 (finding_stmt k x st)) = Some (finding_params k x) /\
  shape (finding_stmt k x st) = shape finding_binds.
Proof.
  intros H. do 7 (destruct st as [|[? ? ? ? ? ? ? ? ?] st]; [done|]). destruct st; [|done].
  cbv in H. simplify_eq. done.
Qed.

End Params.

(** ** Running inside the transaction *)

Section Transaction.
Context {S : Type} {HO : Odbc S} {HT : SqlTypes} {HV : SqlServer S} {HW : Utf16}.

(** The transaction is open and nothing of it is visible to others. *)
Definition in_tran (c : Tables) (s : S) : Prop := autocommit s = false /\ committed s = c.

(** Started where the connection sees [t] and the scan id is [k], [m] stays in the
    transaction, and where it ends without an error [Q] holds. *)
Definition runs {A} (c t : Tables) (k : Z) (m : M (S:=S) A) (Q : A -> Tables -> Z -> Prop) : Prop :=
  forall s, in_tran c s -> sees s = t ->
    match m (s, k) with
    | (inr a, (s', k')) => in_tran c s' /\ Q a (sees s') k'
    | (inl _, (s', _)) => in_tran c s'
    end.

Lemma runs_ret {A} c t k (a : A) (Q : A -> Tables -> Z -> Prop) : Q a t k -> runs c t k (mret a) Q.
Proof. intros H s Hs <-. done. Qed.

Lemma runs_raise {A} c t k e Q : runs (A:=A) c t k (raise e) Q.
Proof. intros s Hs <-. done. Qed.

Lemma runs_bind {A B} c t k (m : M A) (f : A -> M B) Q R :
  runs c t k m Q -> (forall a t' k', Q a t' k' -> runs c t' k' (f a) R) -> runs c t k (m ≫= f) R.
Proof.
  intros Hm Hf s Hs Ht. specialize (Hm s Hs Ht). unfold mbind, M_bind.
  destruct (m (s, k)) as [[e|a] [s' k']]; [done|]. destruct Hm as [Hs' HQ].
  by specialize (Hf a _ _ HQ s' Hs' eq_refl).
Qed.

Lemma runs_weaken {A} c t k (m : M A) (Q R : A -> Tables -> Z -> Prop) :
  runs c t k m Q -> (forall a t' k', Q a t' k' -> R a t' k') -> runs c t k m R.
Proof.
  intros Hm H s Hs Ht. specialize (Hm s Hs Ht). destruct (m (s, k)) as [[e|a] [s' k']]; naive_solver.
Qed.

Lemma runs_prepared c t k sql : runs c t k (prepared sql) (fun _ t' k' => t' = t /\ k' = k).
Proof.
  intros s [Ha Hc] <-. unfold prepared, prepare. pose proof (prepare_pure sql s) as (H1 & H2 & H3).
  destruct (sql_prepare sql s) as [[rc ds] s']. cbn in *. unfold in_tran.
  destruct (ok rc); rewrite ?H2, ?H3; done.
Qed.

Lemma runs_get c t k : runs c t k get_scan_id (fun a t' k' => a = k /\ t' = t /\ k' = k).
Proof. by intros s Hs <-. Qed.
Lemma runs_set c t k id : runs c t k (set_scan_id id) (fun _ t' k' => t' = t /\ k' = id).
Proof. by intros s Hs <-. Qed.

(** A data-changing statement that reports success had its effect. *)
Lemma runs_executed c t k what sql q st pl :
  query_of sql = Some q -> is_read q = false -> positional (params_from 1 st) = Some pl ->
  runs c t k (executed what sql st) (fun rp t' k' => k' = k /\ exists id now,
    fresh_for q id t /\ effect q pl id now t = Some (rp_rows rp, t')).
Proof.
  intros Hq Hr Hp s [Ha Hc] <-. unfold executed, execute.
  destruct (bind_slots 1 st s) as [ps|] eqn:Eb; [|done]. apply bind_slots_params in Eb as ->.
  pose proof (execute_isolated sql (params_from 1 st) s Ha) as [H1 H2].
  destruct (sql_execute sql (params_from 1 st) s) as [rp s'] eqn:Ee. cbn in H1, H2.
  unfold in_tran. rewrite H1, H2.
  destruct (is_no_data (rp_rc rp) || ok (rp_rc rp)) eqn:Eo; [|done].
  destruct (execute_writes sql q _ s rp s' Hq Hr Ha Ee Eo) as (pl' & id & now & E & Hf & He).
  rewrite Hp in E. injection E as <-. split; [done|]. split; [done|]. by exists id, now.
Qed.

(** ** The tables after each part *)

Definition host_wide (h : HostInfo) : wstr := widen (hostname h).

(** The host's row updated, or added with [id]. *)
Definition upsert_host (h : HostInfo) (id now : Z) (t : Tables) : Tables :=
  set_hosts
    (if existsb (named (host_wide h)) (t_hosts t)
     then touch (widen (os_name h)) (widen (os_version h)) (host_wide h) now <$> t_hosts t
     else t_hosts t ++ [mkHostRow id (host_wide h) (widen (os_name h)) (widen (os_version h)) now None]) t.

Definition host_ids (name : wstr) (t : Tables) : list Z := hr_id <$> List.filter (named name) (t_hosts t).

Lemma touch_named os ver name now h : named name (touch os ver name now h) = named name h.
Proof. unfold touch. destruct (named name h) eqn:E; [|done]. by rewrite <- E. Qed.

Lemma touch_id os ver name now h : hr_id (touch os ver name now h) = hr_id h.
Proof. unfold touch. by destruct (named name h). Qed.

Lemma touch_none os ver name now l :
  existsb (named name) l = false -> touch os ver name now <$> l = l.
Proof.
  induction l as [|h l IH]; [done|]. cbn. intros H. apply orb_false_iff in H as [H1 H2].
  rewrite IH by done. unfold touch. by rewrite H1.
Qed.

Lemma filter_none {A} (P : A -> bool) l : existsb P l = false -> List.filter P l = [].
Proof. induction l as [|x l IH]; [done|]. cbn. intros H. apply orb_false_iff in H as [-> H]. auto. Qed.

Lemma filter_some {A} (P : A -> bool) l x l' : List.filter P l = x :: l' -> existsb P l = true.
Proof.
  intros H. apply existsb_exists. exists x. apply List.filter_In. rewrite H. by left.
Qed.

Lemma runs_host c t k h :
  runs c t k (record_host h) (fun id t' k' => k' = k /\ exists now, t' = upsert_host h id now t /\
    (if existsb (named (host_wide h)) (t_hosts t) then head (host_ids (host_wide h) t) = Some id
     else id ∉ hr_id <$> t_hosts t)).
Proof.
  unfold record_host. eapply runs_bind; [apply runs_prepared|]. intros _ t1 k1 [-> ->].
  eapply runs_bind; [by eapply (runs_executed _ _ _ _ _ QUpdateHost)|].
  intros rp t2 k2 (-> & id & now & _ & [= E <-]). unfold fetch_i64. rewrite <- E. clear E.
  set (name := widen (hostname h)). fold (host_wide h) in name.
  destruct (List.filter (named name) (t_hosts t)) as [|r l] eqn:El; cbn.
  - destruct (is_no_data (rp_last rp)); [|apply runs_raise]. cbn.
    assert (existsb (named name) (t_hosts t) = false) as Hn.
    { destruct (existsb (named name) (t_hosts t)) eqn:Ex; [|done]. apply existsb_exists in Ex as (y & Hy & Hy').
      assert (y ∈ List.filter (named name) (t_hosts t)) as Hin by by apply list_elem_of_In, List.filter_In.
      rewrite El in Hin. by apply elem_of_nil in Hin. }
    unfold insert_host. eapply runs_bind; [apply runs_prepared|]. intros _ t3 k3 [-> ->].
    eapply runs_bind; [by eapply (runs_executed _ _ _ _ _ QInsertHost)|].
    intros rp' t4 k4 (-> & id' & now' & Hf & He). cbn in He, Hf.
    rewrite touch_none in He, Hf by done. change (widen (hostname h)) with name in He. rewrite Hn in He. injection He as E <-.
    unfold fetch_i64. rewrite <- E. cbn. apply runs_ret. split; [done|]. exists now'.
    unfold upsert_host. change (host_wide h) with name. rewrite Hn. done.
  - apply runs_ret. split; [done|]. exists now. unfold upsert_host, host_ids. change (host_wide h) with name.
    rewrite (filter_some _ _ _ _ El), El. done.
Qed.

Lemma runs_scan_row c t k host_id inv fs :
  runs c t k (record_scan_row host_id inv fs) (fun _ t' k' => k' ∉ sc_id <$> t_scans t /\
    existsb (fun r => hr_id r =? host_id) (t_hosts t) = true /\
    t' = add_scan (mkScanRow k' host_id (timestamp_of (collected_at_unix_ms inv)) kAgentVersion
                     (Z.of_nat (length (packages inv))) (Z.of_nat (length fs))) t).
Proof.
  unfold record_scan_row. eapply runs_bind; [apply runs_prepared|]. intros _ t1 k1 [-> ->].
  eapply runs_bind; [by eapply (runs_executed _ _ _ _ _ QInsertScan)|].
  intros rp t2 k2 (-> & id & now & Hf & He). cbn in He, Hf.
  eapply runs_bind; [apply runs_get|]. intros k3 t3 k4 (-> & -> & ->).
  destruct (existsb (fun r => hr_id r =? host_id) (t_hosts t)); [|done]. injection He as E <-.
  unfold fetch_i64. rewrite <- E. eapply runs_bind; [apply runs_set|]. intros _ t5 k5 [-> ->].
  cbn. by apply runs_ret.
Qed.

(** The rows of the packages of a scan, numbered from [o]. *)
Definition package_of (k o : Z) (p : Package) : package_row :=
  mkPackageRow k o (widen (substr (pk_name p) 0 400)) (widen (substr (pk_version p) 0 128))
    (widen (substr (pk_vendor p) 0 256)) (substr (source p) 0 32).

Definition package_rows (k o : Z) (pkgs : list Package) : list package_row :=
  imap (fun i p => package_of k (o + Z.of_nat i) p) pkgs.

Lemma package_rows_cons k o p pkgs :
  package_rows k o (p :: pkgs) = package_of k o p :: package_rows k (o + 1) pkgs.
Proof.
  unfold package_rows. rewrite imap_cons. f_equal; [by rewrite Z.add_0_r|].
  apply imap_ext. intros i q _. cbn. f_equal. lia.
Qed.

Definition add_packages (l : list package_row) (t : Tables) : Tables :=
  mkTables (t_hosts t) (t_scans t) (t_packages t ++ l) (t_findings t).
Definition add_findings (l : list finding_row) (t : Tables) : Tables :=
  mkTables (t_hosts t) (t_scans t) (t_packages t) (t_findings t ++ l).

Lemma runs_packages c k pkgs : forall t o st k0,
  shape st = shape package_binds -> 0 <= o -> o + Z.of_nat (length pkgs) < 2 ^ 63 ->
  runs c t k0 (insert_packages k o st pkgs) (fun _ t' k' => k' = k0 /\ t' = add_packages (package_rows k o pkgs) t).
Proof.
  induction pkgs as [|p pkgs IH]; intros t o st k0 Hs Ho Hl.
  { apply runs_ret. split; [done|]. destruct t. unfold add_packages. cbn. by rewrite app_nil_r. }
  cbn [insert_packages length] in *. destruct (package_stmt_params k o p st Hs) as [Hp Hs'].
  eapply runs_bind; [by eapply (runs_executed _ _ _ _ _ QInsertPackage)|].
  intros rp t2 k2 (-> & id & now & _ & He). cbn in He. case_match; [|done]. injection He as _ <-.
  rewrite i64_small by lia. eapply runs_weaken; [apply IH; [done|lia..]|].
  intros _ t' k' [-> ->]. split; [done|]. rewrite package_rows_cons. unfold add_packages, add_package. cbn.
  by rewrite <- app_assoc.
Qed.

(** A finding and the row that stores it. *)
Record stored (k : Z) (x : Finding) (r : finding_row) : Prop := {
  st_scan : fr_scan r = k;
  st_cve : fr_cve r = cve_id x;
  st_package : fr_package r = widen (substr (package_name x) 0 400);
  st_version : fr_version r = widen (substr (package_version x) 0 128);
  st_cvss : decimal31 (cvss_score x) = Some (fr_cvss r);
  st_severity : fr_severity r = severity_text x;
  st_exposed : fr_exposed r = network_exposed x }.

Lemma runs_findings c k fs : forall t st k0,
  shape st = shape finding_binds ->
  runs c t k0 (insert_findings k st fs) (fun _ t' k' => k' = k0 /\
    exists rows, t' = add_findings rows t /\ Forall2 (stored k) fs rows).
Proof.
  induction fs as [|x fs IH]; intros t st k0 Hs.
  { apply runs_ret. split; [done|]. exists []. split; [|done]. destruct t. unfold add_findings. cbn.
    by rewrite app_nil_r. }
  cbn [insert_findings]. destruct (finding_stmt_params k x st Hs) as [Hp Hs'].
  eapply runs_bind; [by eapply (runs_executed _ _ _ _ _ QInsertFinding)|].
  intros rp t2 k2 (-> & id & now & _ & He). cbn in He.
  destruct (decimal31 (cvss_score x)) as [d|] eqn:Ed; [|done]. destruct (has_scan k t); [|done].
  injection He as _ <-. eapply runs_weaken; [by apply IH|].
  intros _ t' k' (-> & rows & -> & Hr). split; [done|]. eexists (_ :: rows). split.
  - unfold add_findings, add_finding. cbn. by rewrite <- app_assoc.
  - constructor; [|done]. split; cbn; try done. by destruct (network_exposed x).
Qed.

Lemma runs_latest c t k0 k h :
  runs c t k0 (set_latest k h) (fun _ t' k' => k' = k0 /\ t' = set_hosts (point k h <$> t_hosts t) t).
Proof.
  unfold set_latest. eapply runs_bind; [apply runs_prepared|]. intros _ t1 k1 [-> ->].
  eapply runs_bind; [by eapply (runs_executed _ _ _ _ _ QSetLatest)|].
  intros rp t2 k2 (-> & id & now & _ & He). injection He as _ <-. by apply runs_ret.
Qed.

(** The host rows after a scan: only the host of that name has changed. *)
Definition pointed (h : HostInfo) (now k : Z) (r : host_row) : host_row :=
  if named (host_wide h) r
  then mkHostRow (hr_id r) (hr_name r) (widen (os_name h)) (widen (os_version h)) now (Some k) else r.

Definition hosts_after (h : HostInfo) (host_id now k : Z) (l : list host_row) : list host_row :=
  if existsb (named (host_wide h)) l then pointed h now k <$> l
  else l ++ [mkHostRow host_id (host_wide h) (widen (os_name h)) (widen (os_version h)) now (Some k)].

(** What a recorded scan changes: one new scan row with all the packages and all
    the findings, of the host that bears the name, whose latest scan it becomes. *)
Record recorded (inv : Inventory) (fs : list Finding) (k : Z) (t t' : Tables) : Prop := {
  rec_new : k ∉ sc_id <$> t_scans t;
  rec_rows : exists host_id now rows,
    (if existsb (named (host_wide (host inv))) (t_hosts t)
     then host_ids (host_wide (host inv)) t = [host_id] else host_id ∉ hr_id <$> t_hosts t) /\
    t' = mkTables (hosts_after (host inv) host_id now k (t_hosts t))
           (t_scans t ++ [mkScanRow k host_id (timestamp_of (collected_at_unix_ms inv)) kAgentVersion
                            (Z.of_nat (length (packages inv))) (Z.of_nat (length fs))])
           (t_packages t ++ package_rows k 0 (packages inv)) (t_findings t ++ rows) /\
    Forall2 (stored k) fs rows }.

(** ** Well-formed tables *)

Record tables_ok (t : Tables) : Prop := {
  ok_ids : NoDup (hr_id <$> t_hosts t);
  ok_names : NoDup (coll ∘ hr_name <$> t_hosts t);
  ok_scans : NoDup (sc_id <$> t_scans t);
  ok_latest : forall h k, h ∈ t_hosts t -> hr_latest h = Some k ->
    exists r, r ∈ t_scans t /\ sc_id r = k /\ sc_host r = hr_id h;
  ok_packages : forall p, p ∈ t_packages t -> pr_scan p ∈ sc_id <$> t_scans t;
  ok_findings : forall f, f ∈ t_findings t -> fr_scan f ∈ sc_id <$> t_scans t }.

(** At most one host bears a name. *)
Lemma named_unique name l h h' : NoDup (coll ∘ hr_name <$> l) ->
  h ∈ l -> h' ∈ l -> named name h = true -> named name h' = true -> h = h'.
Proof.
  induction l as [|x l IH]; [set_solver|]. rewrite fmap_cons, NoDup_cons. intros [Hn Hd] H1 H2 N1 N2.
  pose proof N1 as M1. pose proof N2 as M2. unfold named in M1, M2. apply bool_decide_eq_true in M1, M2.
  apply elem_of_cons in H1, H2. destruct H1 as [->|H1], H2 as [->|H2]; [done| | |by apply IH];
    exfalso; apply Hn, list_elem_of_fmap; [exists h'|exists h]; (split; [|done]); cbn; congruence.
Qed.

Lemma filter_named name l : NoDup (coll ∘ hr_name <$> l) -> existsb (named name) l = true ->
  exists h, h ∈ l /\ named name h = true /\ List.filter (named name) l = [h].
Proof.
  intros Hd He. apply existsb_exists in He as (h & Hh & Hn). apply list_elem_of_In in Hh.
  exists h. split_and!; try done.
  assert (forall x, x ∈ l -> named name x = true -> x = h) as Hu by (intros; by eapply named_unique).
  apply NoDup_fmap_1 in Hd. induction l as [|x l IH]; [set_solver|].
  apply NoDup_cons in Hd as [Hx Hd]. cbn. apply elem_of_cons in Hh.
  destruct (named name x) eqn:Ex.
  - assert (x = h) as -> by (apply Hu; set_solver). f_equal. apply filter_none.
    destruct (existsb (named name) l) eqn:E; [|done]. apply existsb_exists in E as (y & Hy & Hy').
    apply list_elem_of_In in Hy. assert (y = h) as -> by (apply Hu; set_solver). done.
  - destruct Hh as [->|Hh]; [congruence|]. apply IH; try done. intros y Hy. apply Hu. set_solver.
Qed.

(** Pointing the host with the id of the named one at the scan changes only that
    host. *)
Lemma point_upsert h id now k t :
  tables_ok t ->
  (if existsb (named (host_wide h)) (t_hosts t) then head (host_ids (host_wide h) t) = Some id
   else id ∉ hr_id <$> t_hosts t) ->
  point k id <$> t_hosts (upsert_host h id now t) = hosts_after h id now k (t_hosts t) /\
  (if existsb (named (host_wide h)) (t_hosts t)
   then host_ids (host_wide h) t = [id] else id ∉ hr_id <$> t_hosts t).
Proof.
  intros Hok. unfold upsert_host, hosts_after, host_ids. cbn.
  destruct (existsb (named (host_wide h)) (t_hosts t)) eqn:Ex; intros Hid.
  - destruct (filter_named _ _ (ok_names _ Hok) Ex) as (r & Hr & Hn & E). rewrite E in *. cbn in *.
    injection Hid as <-. split; [|done]. rewrite <- list_fmap_compose. apply list_fmap_ext.
    intros i x Hx. apply list_elem_of_lookup_2 in Hx. unfold point, touch, pointed. cbn.
    destruct (named (host_wide h) x) eqn:Ey; cbn.
    + rewrite (named_unique _ _ _ _ (ok_names _ Hok) Hr Hx Hn Ey), Z.eqb_refl. done.
    + destruct (Z.eqb_spec (hr_id x) (hr_id r)) as [Ei|]; [|done]. exfalso.
      assert (x = r) as ->; [|congruence]. pose proof (ok_ids _ Hok) as Hd.
      clear -Hd Hx Hr Ei. apply list_elem_of_lookup in Hx as [i Hi], Hr as [j Hj].
      assert (i = j) as ->; [|congruence].
      eapply (NoDup_lookup _ _ _ (hr_id x) Hd); rewrite list_lookup_fmap; [by rewrite Hi|by rewrite Hj, Ei].
  - split; [|done]. rewrite fmap_app. f_equal; [|cbn; unfold point; cbn; by rewrite Z.eqb_refl].
    rewrite <- (list_fmap_id (t_hosts t)) at 2. apply list_fmap_ext. intros i x Hx.
    apply list_elem_of_lookup_2 in Hx. unfold point. destruct (Z.eqb_spec (hr_id x) id) as [<-|]; [|done].
    exfalso. apply Hid, list_elem_of_fmap. by exists x.
Qed.

Lemma runs_body c t k inv fs :
  tables_ok t -> Z.of_nat (length (packages inv)) < 2 ^ 63 ->
  runs c t k (record_body inv fs) (fun _ t' k' => recorded inv fs k' t t').
Proof.
  intros Hok Hl. unfold record_body. eapply runs_bind; [apply runs_host|].
  intros id t1 k1 (-> & now & -> & Hid).
  eapply runs_bind; [apply runs_scan_row|]. intros _ t2 k2 (Hk & Hh & ->).
  eapply runs_bind; [apply runs_get|]. intros k3 t3 k4 (-> & -> & ->).
  eapply runs_bind; [apply runs_prepared|]. intros _ t4 k5 (-> & ->).
  eapply runs_bind; [apply runs_packages; [done|done|lia]|]. intros _ t5 k6 (-> & ->).
  eapply runs_bind; [apply runs_prepared|]. intros _ t6 k7 (-> & ->).
  eapply runs_bind; [by apply runs_findings|]. intros _ t7 k8 (-> & rows & -> & Hr).
  eapply runs_weaken; [apply runs_latest|]. intros _ t8 k9 [-> ->].
  destruct (point_upsert (host inv) id now k2 t Hok Hid) as [E Hid'].
  split; [done|]. exists id, now, rows. split; [done|]. split; [|done]. rewrite <- E. done.
Qed.

End Transaction.

(** ** Well-formedness is kept *)

Section Recorded.
Context {HT : SqlTypes} {HW : Utf16}.

Lemma existsb_named_false name l h : existsb (named name) l = false -> h ∈ l -> coll (hr_name h) <> coll name.
Proof.
  intros H Hh E. assert (existsb (named name) l = true); [|congruence]. apply existsb_exists.
  exists h. split; [by apply list_elem_of_In|]. by apply bool_decide_eq_true.
Qed.

Lemma pointed_keys h now k r : hr_id (pointed h now k r) = hr_id r /\ hr_name (pointed h now k r) = hr_name r.
Proof. unfold pointed. by destruct (named (host_wide h) r). Qed.

Lemma hosts_after_elem inv k host_id now t h :
  tables_ok t ->
  (if existsb (named (host_wide (host inv))) (t_hosts t)
   then host_ids (host_wide (host inv)) t = [host_id] else host_id ∉ hr_id <$> t_hosts t) ->
  h ∈ hosts_after (host inv) host_id now k (t_hosts t) ->
  h ∈ t_hosts t /\ named (host_wide (host inv)) h = false \/
  hr_id h = host_id /\ hr_latest h = Some k /\ named (host_wide (host inv)) h = true.
Proof.
  intros Hok Hid. unfold hosts_after, host_ids in *.
  destruct (existsb _ (t_hosts t)) eqn:Ex.
  - rewrite list_elem_of_fmap. intros (r & -> & Hr). unfold pointed.
    destruct (named (host_wide (host inv)) r) eqn:En; [|by left]. right.
    destruct (filter_named _ _ (ok_names _ Hok) Ex) as (r' & Hr' & Hn' & E). rewrite E in Hid.
    injection Hid as <-. rewrite (named_unique _ _ _ _ (ok_names _ Hok) Hr Hr' En Hn'). done.
  - rewrite elem_of_app, list_elem_of_singleton. intros [H| ->].
    + left. split; [done|]. apply bool_decide_eq_false. by eapply existsb_named_false.
    + right. split_and!; try done. by apply bool_decide_eq_true.
Qed.

Lemma recorded_ok inv fs k t t' : tables_ok t -> recorded inv fs k t t' -> tables_ok t'.
Proof.
  intros Hok [Hk (id & now & rows & Hid & -> & Hr)].
  assert (forall x, x ∈ sc_id <$> t_scans t -> forall r, x ∈ sc_id <$> (t_scans t ++ [r])) as Hmono.
  { intros x Hx r. rewrite fmap_app. set_solver. }
  split; cbn.
  - unfold hosts_after. destruct (existsb _ (t_hosts t)); [|rewrite fmap_app; apply NoDup_app].
    + rewrite <- list_fmap_compose.
      rewrite (list_fmap_ext _ hr_id (t_hosts t)); [apply Hok|]. intros i x _. apply pointed_keys.
    + split_and!; [apply Hok| |apply NoDup_singleton]. intros x Hx. cbn.
      rewrite list_elem_of_singleton. by intros ->.
  - unfold hosts_after. destruct (existsb _ (t_hosts t)) eqn:Ex; [|rewrite fmap_app; apply NoDup_app].
    + rewrite <- list_fmap_compose.
      rewrite (list_fmap_ext _ (coll ∘ hr_name) (t_hosts t)); [apply Hok|].
      intros i x _. cbn. f_equal. apply pointed_keys.
    + split_and!; [apply Hok| |apply NoDup_singleton]. intros x Hx. cbn. rewrite list_elem_of_singleton.
      intros ->. apply list_elem_of_fmap in Hx as (r & E & Hr'). by eapply existsb_named_false in Ex.
  - rewrite fmap_app. apply NoDup_app. split_and!; [apply Hok| |apply NoDup_singleton].
    intros x Hx. cbn. rewrite list_elem_of_singleton. by intros ->.
  - intros h k' Hh Hl. eapply hosts_after_elem in Hh; [|done..].
    destruct Hh as [[Hh _]|(E1 & E2 & _)].
    + destruct (ok_latest _ Hok h k' Hh Hl) as (r & Hr1 & Hr2). exists r. set_solver.
    + rewrite E2 in Hl. injection Hl as <-. eexists. split; [apply elem_of_app; right; by left|]. done.
  - intros p. rewrite elem_of_app. intros [Hp|Hp]; [by apply Hmono, Hok|].
    rewrite fmap_app, elem_of_app. right. cbn. apply list_elem_of_singleton.
    apply elem_of_lookup_imap in Hp as (i & q & -> & _). done.
  - intros f. rewrite elem_of_app. intros [Hf|Hf]; [by apply Hmono, Hok|].
    rewrite fmap_app, elem_of_app. right. cbn. apply list_elem_of_singleton.
    apply list_elem_of_lookup in Hf as [i Hi].
    destruct (Forall2_lookup_r _ _ _ _ _ Hr Hi) as (x & _ & Hs). apply Hs.
Qed.
End Recorded.

(** ** How a recording ends *)

Section Outcome.
Context {S : Type} {HO : Odbc S} {HT : SqlTypes} {HV : SqlServer S} {HW : Utf16}.

(** Between two calls the connection is in automatic mode and nothing is open. *)
Definition settled (s : S) : Prop := autocommit s = true /\ sees s = committed s.

(** The calls whose answers the code does not look at, and that work: every
    rollback and every switch of the automatic mode. *)
Record trusted_calls : Prop := {
  rollbacks_work : forall s : S, ok (end_tran false s).1.1 = true;
  switches_work : forall (on : bool) (s : S), ok (sql_autocommit on s).1 = true }.

Hypothesis Hcalls : trusted_calls.

Lemma manual_set (s : S) :
  autocommit (set_autocommit false s) = false /\ sees (set_autocommit false s) = sees s /\
  committed (set_autocommit false s) = committed s.
Proof.
  unfold set_autocommit. pose proof (switches_work Hcalls false s) as H.
  destruct (sql_autocommit false s) as [rc s'] eqn:E. by eapply manual_mode.
Qed.

Lemma automatic_set (s : S) :
  settled (set_autocommit true s) /\ committed (set_autocommit true s) = sees s.
Proof.
  unfold set_autocommit. pose proof (switches_work Hcalls true s) as H.
  destruct (sql_autocommit true s) as [rc s'] eqn:E.
  destruct (automatic_mode _ _ _ E H) as (A1 & A2 & A3). unfold settled. cbn. by rewrite A1, A2, A3.
Qed.

(** Ending the transaction by [roll_back]. *)
Lemma roll_back_settles (s : S) : settled (roll_back s) /\ committed (roll_back s) = committed s.
Proof.
  unfold roll_back. pose proof (rollbacks_work Hcalls s) as H.
  destruct (end_tran false s) as [[rc ds] s'] eqn:E. destruct (rollback_works _ _ _ _ E H) as [H1 H2].
  destruct (automatic_set s') as [A1 A2]. split; [done|]. congruence.
Qed.

Lemma record_outcome inv fs k (d : Db (S:=S)) :
  settled (srv d) -> tables_ok (committed (srv d)) -> Z.of_nat (length (packages inv)) < 2 ^ 63 ->
  let '(e, k', d') := record_scan inv fs k d in
  let t := committed (srv d) in
  let t' := committed (srv d') in
  settled (srv d') /\
  match e with
  | None => recorded inv fs k' t t'
  | Some m => t' = t \/ (exists ds, m = lit "commit: " ++ diag ds) /\ recorded inv fs k' t t'
  end.
Proof.
  intros [Ha Hs] Hok Hl. unfold record_scan. destruct (connected d); cbn [negb]; [|split; [by split|by left]].
  destruct (manual_set (srv d)) as (M1 & M2 & M3).
  pose proof (runs_body (committed (srv d)) (committed (srv d)) k inv fs Hok Hl (set_autocommit false (srv d))
    (conj M1 M3) ltac:(congruence)) as Hb.
  unfold mbind, M_bind.
  destruct (record_body inv fs _) as [[m|[]] [s k']] eqn:Eb.
  - destruct Hb as [_ Hc]. destruct (roll_back_settles s) as [R1 R2]. cbn.
    split; [done|]. left. congruence.
  - destruct Hb as [[_ Hc] Hr]. unfold commit_tran. destruct (end_tran true s) as [[rc ds] s'] eqn:Ec.
    destruct (ok rc) eqn:Eo; cbn.
    + destruct (commit_works _ _ _ _ Ec Eo) as [C1 C2]. destruct (automatic_set s') as [A1 A2].
      split; [done|]. by rewrite A2, C2.
    + destruct (roll_back_settles s') as [R1 R2]. split; [done|]. rewrite R2.
      destruct (commit_fails _ _ _ _ Ec Eo) as [->| ->]; [by left|]. right. split; [by exists ds|done].
Qed.

End Outcome.
