(* ===== verification/OdbcProps.v ===== *)
(** * Properties of the storage

    Recording a scan is atomic, keeps the tables well-formed, and what it
    recorded is what the query for the host's findings returns; a small server
    that keeps the promises of [SqlServer] shows that they can be kept, and what
    happens when a rollback fails. *)
From S2P Require Import Prelude CppStd Double Json Log Inventory Algorithms Cve WinStr Agent Odbc OdbcSql OdbcSpec.
From Stdlib Require Import Ascii SpecFloat.

#[local] Open Scope Z_scope.

Section Atomic.
Context {S : Type} {HO : Odbc S} {HT : SqlTypes} {HV : SqlServer S} {HW : Utf16}.

(** C7: Recording a scan is one transaction: when it reports success, exactly the
    scan, all its packages and all its findings were added and the host points at
    it; when it fails nothing of it is visible to anyone, except that a failed
    commit may have taken effect as a whole.  The tables stay well-formed and the
    connection is back in automatic mode with nothing open.  Rollbacks and the
    calls that switch the automatic mode are taken to work: the code does not look
    at their answers (see [failed_rollback_commits_half] and
    [failed_switch_commits_half]). *)
Theorem record_scan_atomic (inv : Inventory) (fs : list Finding) (k : Z) (d : Db (S:=S))
  (Hset : settled (srv d)) (Hok : tables_ok (committed (srv d)))
  (Hl : Z.of_nat (length (packages inv)) < 2 ^ 63)
  (Hcalls : trusted_calls (S:=S)) :
  let '(e, k', d') := record_scan inv fs k d in
  let t := committed (srv d) in
  let t' := committed (srv d') in
  settled (srv d') /\ tables_ok t' /\
  match e with
  | None => recorded inv fs k' t t'
  | Some m => t' = t \/ (exists ds, m = lit "commit: " ++ diag ds) /\ recorded inv fs k' t t'
  end.
Proof.
  pose proof (record_outcome Hcalls inv fs k d Hset Hok Hl) as H.
  destruct (record_scan inv fs k d) as [[[m|] k'] d']; destruct H as [H1 H2]; (split; [done|]); split; try done.
  - destruct H2 as [->|[_ H2]]; [done|by eapply recorded_ok].
  - by eapply recorded_ok.
Qed.

End Atomic.

(** ** Reading back *)





Section ReadBack.
Context {S : Type} {HO : Odbc S} {HT : SqlTypes} {HV : SqlServer S} {HW : Utf16}.







Lemma filter_true {A} (P : A -> bool) l : (forall x, x ∈ l -> P x = true) -> List.filter P l = l.
Proof. induction l as [|x l IH]; [done|]. cbn. intros H. rewrite H by set_solver. f_equal. apply IH. set_solver. Qed.















End ReadBack.

(** ** A server that keeps the promises

    Text is compared byte by byte and scores are stored as they are.  [y_budget]
    statements work, then everything fails; on a [toy rollback switch] rollbacks
    and the calls that switch the automatic mode work where the flags say so. *)

#[global] Instance plain_types : SqlTypes := {
  coll := id; coll_char s := code <$> s; decimal31 := Some }.

Record toy (rollback switch : bool) := mkToy {
  y_sees : Tables; y_committed : Tables; y_auto : bool; y_budget : nat }.
Arguments mkToy {_ _}.
Arguments y_sees {_ _}.
Arguments y_committed {_ _}.
Arguments y_auto {_ _}.
Arguments y_budget {_ _}.

Definition next_id (l : list Z) : Z := 1 + fold_right Z.max 0 l.

Definition toy_id (q : query) (t : Tables) : Z :=
  match q with
  | QInsertHost => next_id (hr_id <$> t_hosts t)
  | QInsertScan => next_id (sc_id <$> t_scans t)
  | QInsertFinding => next_id (fr_id <$> t_findings t)
  | _ => 0
  end.

Fixpoint sorted_rows (order : list (sql_column * bool)) (l : list (host_row * finding_row)) : bool :=
  match l with
  | [] => true
  | a :: l' => forallb (fun b => negb (row_before order b a)) l' && sorted_rows order l'
  end.

Definition toy_select (q : select) (ps : list param) (t : Tables) : option (list (list value)) :=
  match select_params q ps with
  | Some (n, args) =>
      let all := insertion_sort (row_before (sel_order q)) (List.filter (passes (sel_where q) args) (joined t)) in
      if sorted_rows (sel_order q) all then Some (row_values (sel_columns q) <$> cut_off n all) else None
  | None => None
  end.

Definition refused : reply := mkReply SQL_ERROR [code <$> lit "refused"] [] SQL_ERROR [] [].
Definition accepted (rows : list (list value)) : reply := mkReply SQL_SUCCESS [] rows SQL_NO_DATA [] [].

Definition toy_execute {r w} (sql : str) (ps : list (nat * param)) (s : toy r w) : reply * toy r w :=
  match query_of sql, positional ps, y_budget s with
  | Some (QSelect q), Some pl, Datatypes.S n =>
      match toy_select q pl (y_sees s) with Some rows => (accepted rows, s) | None => (refused, s) end
  | Some q, Some pl, Datatypes.S n =>
      match effect q pl (toy_id q (y_sees s)) 0 (y_sees s) with
      | Some (rows, t) =>
          (accepted rows, mkToy t (if y_auto s then t else y_committed s) (y_auto s) n)
      | None => (refused, s)
      end
  | _, _, _ => (refused, s)
  end.

#[global] Instance toy_odbc (r w : bool) : Odbc (toy r w) := {
  alloc_env s := (SQL_SUCCESS, s);
  alloc_dbc s := (true, s);
  driver_connect _ s := (SQL_SUCCESS, [], s);
  sql_disconnect s := s;
  sql_autocommit b s :=
    if w then (SQL_SUCCESS, mkToy (y_sees s) (if b then y_sees s else y_committed s) b (y_budget s))
    else (SQL_ERROR, s);
  end_tran b s :=
    if b then (SQL_SUCCESS, [], mkToy (y_sees s) (y_sees s) (y_auto s) (y_budget s))
    else if r
    then (SQL_SUCCESS, [], mkToy (y_committed s) (y_committed s) (y_auto s) (y_budget s))
    else (SQL_ERROR, [], s);
  sql_prepare _ s := (SQL_SUCCESS, [], s);
  bind_parameter _ _ _ := (SQL_SUCCESS, []);
  sql_execute := toy_execute;
  exec_direct _ s := (refused, s);
  acp_wide s := code <$> s;
  stack := []
}.

Lemma next_id_fresh l : next_id l ∉ l.
Proof.
  assert (forall x, x ∈ l -> x <= fold_right Z.max 0 l) as H.
  { induction l as [|y l IH]; intros x; [by rewrite elem_of_nil|]. cbn. rewrite elem_of_cons.
    intros [->|Hx]; [lia|]. apply IH in Hx. lia. }
  intros Hx. apply H in Hx. unfold next_id in Hx. lia.
Qed.

Lemma sorted_rows_ok order l :
  sorted_rows order l = true -> StronglySorted (fun a b => row_before order b a = false) l.
Proof.
  induction l as [|a l IH]; [constructor|]. cbn. intros H. apply andb_true_iff in H as [H1 H2].
  constructor; [by apply IH|]. apply List.Forall_forall. intros b Hb. rewrite forallb_forall in H1.
  by apply negb_true_iff, H1.
Qed.

Lemma toy_select_ok q pl t rows : toy_select q pl t = Some rows -> answer q pl t rows.
Proof.
  unfold toy_select, answer. destruct (select_params q pl) as [[n args]|]; [|done].
  destruct (sorted_rows _ _) eqn:E; [|done]. intros [= <-]. eexists n, args, _.
  split; [done|]. split; [apply insertion_sort_perm|]. split; [by apply sorted_rows_ok|done].
Qed.

Lemma toy_execute_isolated {r w} sql ps (s : toy r w) : y_auto s = false ->
  let s' := (toy_execute sql ps s).2 in y_committed s' = y_committed s /\ y_auto s' = false.
Proof.
  intros Ha. cbn. unfold toy_execute. destruct (query_of sql) as [q|]; [|done].
  destruct (positional ps) as [pl|]; [|by destruct q]. destruct (y_budget s); [by destruct q|].
  destruct q as [| | | | | |q]; [..|by destruct (toy_select q pl (y_sees s))];
    (destruct (effect _ pl _ _ _) as [[rows t]|]; [|done]); cbn; by rewrite Ha.
Qed.

Lemma toy_execute_writes {r w} sql q ps (s : toy r w) rp s' : query_of sql = Some q -> is_read q = false ->
  toy_execute sql ps s = (rp, s') -> is_no_data (rp_rc rp) || ok (rp_rc rp) = true ->
  exists pl, positional ps = Some pl /\
    effect q pl (toy_id q (y_sees s)) 0 (y_sees s) = Some (rp_rows rp, y_sees s').
Proof.
  intros Hq Hr. unfold toy_execute. rewrite Hq.
  destruct (positional ps) as [pl|]; [|by destruct q; intros [= <- <-]].
  destruct (y_budget s); [by destruct q; intros [= <- <-]|].
  destruct q as [| | | | | |q]; [..|done];
    (destruct (effect _ pl _ _ _) as [[rows t]|] eqn:Ee; [|by intros [= <- <-]]);
    intros [= <- <-] _; exists pl; (split; [done|]); exact Ee.
Qed.

#[global] Instance toy_server (r w : bool) : SqlServer (toy r w).
Proof.
  refine {| sees := y_sees; committed := y_committed; autocommit := y_auto |}; try done.
  - intros s rc s'. cbn. by destruct w; intros [= <- <-].
  - intros s rc s'. cbn. by destruct w; intros [= <- <-].
  - intros sql ps s Ha. by apply toy_execute_isolated.
  - intros sql q ps s rp s' Hq Hr Ha He Hok. destruct (toy_execute_writes _ _ _ _ _ _ Hq Hr He Hok) as (pl & H1 & H2).
    exists pl, (toy_id q (y_sees s)), 0. split_and!; try done. destruct q; cbn; try done; apply next_id_fresh.
  - intros sql q ps s rp s' Hq. cbn. unfold toy_execute. rewrite Hq.
    destruct (positional ps) as [pl|] eqn:Ep; [|by intros [= <- <-]].
    destruct (y_budget s); [by intros [= <- <-]|].
    destruct (toy_select q pl (y_sees s)) as [rows|] eqn:Es; [|by intros [= <- <-]].
    intros [= <- <-]. split_and!; try done. intros _. exists pl. split; [done|]. by apply toy_select_ok.
  - intros s rc ds s' [= <- <- <-] _. done.
  - intros s rc ds s' [= <- <- <-]. done.
  - intros s rc ds s'. cbn. destruct r; [by intros [= <- <- <-]|by intros [= <- <- <-]].
Defined.

Lemma toy_calls : trusted_calls (S:=toy true true).
Proof. done. Qed.

(** ** Witnesses *)

Definition sample_inventory : Inventory :=
  mkInventory [] [] [] [] 1709210096007 5 (mkHost (lit "web1") (lit "Windows 11") (lit "23H2") [] [])
    [] [] [] [mkPackage (lit "OpenSSL") (lit "1.1.1") (lit "OpenSSL") (lit "windows-registry");
              mkPackage (lit "zlib") (lit "1.2") [] (lit "windows-registry")] [].

Definition sample_finding (cve : str) (score : double) : Finding :=
  mkFinding cve (lit "OpenSSL") (lit "1.1.1") (lit "1.1.1") (lit "openssl") (lit "openssl") score
    (lit "HIGH") (lit "3.1") true.

Definition sample_findings : list Finding :=
  [sample_finding (lit "CVE-2024-0001") (strtod (lit "5.3"));
   sample_finding (lit "CVE-2024-0002") (strtod (lit "9.8"));
   sample_finding (lit "CVE-2024-0003") (strtod (lit "3.1"))].

Definition toy_db (rollback switch : bool) (budget : nat) : Db (S:=toy rollback switch) :=
  mkDb (mkToy no_tables no_tables true budget) true true true.

Lemma no_tables_ok : tables_ok no_tables.
Proof. split; cbn; try apply NoDup_nil_2; set_solver. Qed.

Lemma toy_settled r w n : settled (srv (toy_db r w n)).
Proof. done. Qed.

Lemma record_scan_atomic_witness :
  exists k' d', record_scan sample_inventory sample_findings 0 (toy_db true true 100) = (None, k', d') /\
    recorded sample_inventory sample_findings k' no_tables (committed (srv d')).
Proof.
  pose proof (record_scan_atomic sample_inventory sample_findings 0 (toy_db true true 100)
    (toy_settled true true 100) no_tables_ok ltac:(vm_compute; reflexivity) toy_calls) as H.
  destruct (record_scan sample_inventory sample_findings 0 (toy_db true true 100)) as [[e k'] d'] eqn:E.
  assert (e = None) as -> by (vm_compute in E; congruence).
  exists k', d'. split; [reflexivity|]. apply H.
Defined.


(** Where a rollback fails the code does not notice: it switches the automatic
    mode back on, which commits the part of the scan that had been written.  Here
    the insertion of the first finding fails: [record_scan] reports an error and leaves a scan
    with its packages but without its findings for everyone to see. *)
Theorem failed_rollback_commits_half :
  let '(e, _, d') := record_scan sample_inventory sample_findings 0 (toy_db false true 5) in
  e <> None /\ t_scans (committed (srv d')) <> [] /\ length (t_packages (committed (srv d'))) = 2%nat /\
  t_findings (committed (srv d')) = [].
Proof. vm_compute. split_and!; done. Qed.

(** Where the automatic mode cannot be switched off the code does not notice
    either: every statement is then a transaction of its own, a rollback undoes
    nothing, and the scan without its findings is there for everyone to see. *)
Theorem failed_switch_commits_half :
  let '(e, _, d') := record_scan sample_inventory sample_findings 0 (toy_db true false 5) in
  e <> None /\ t_scans (committed (srv d')) <> [] /\ length (t_packages (committed (srv d'))) = 2%nat /\
  t_findings (committed (srv d')) = [].
Proof. vm_compute. split_and!; done. Qed.
