(* ===== verification/Nsctl.v ===== *)
(** * The console client (src/nsctl.cpp) and the Linux service layer
      (src/service_linux.cpp)

    [nsctl] turns its arguments into one request, chooses how long to wait, and
    exits with 1 when the reply is an error report.  The call over the pipe is an
    argument.  The service layer on Linux is a stop flag and three signal
    dispositions. *)
From S2P Require Import Prelude CppStd Json Log Inventory Algorithms Cve Spool Agent.
From Stdlib Require Import Ascii.

#[local] Open Scope Z_scope.

(** ** Arguments *)

(** [strtoul] where [unsigned long] has [bits] bits. *)
Definition strtoul (bits : Z) (s : str) : Z :=
  let '(neg, s1) := scan_sign (skip_ws s) in
  let v := dec_value (fst (span isdigit s1)) in
  if 2 ^ bits - 1 <? v then 2 ^ bits - 1 else if neg then (- v) mod 2 ^ bits else v.

Record nsctl_opts := mkNsctl { c_pipe : str; c_timeout : Z; c_request : str }.

(** The arguments after the program's name; [None] asks for the usage text. *)
Fixpoint nsctl_args (bits : Z) (args : list str) (o : nsctl_opts) : option nsctl_opts :=
  match args with
  | [] => Some o
  | a :: rest =>
      let other :=
        if str_eqb a (lit "-h") || str_eqb a (lit "--help") then None
        else nsctl_args bits rest
               (mkNsctl (c_pipe o) (c_timeout o)
                  (match c_request o with [] => a | r => r ++ lit " " ++ a end)) in
      match rest with
      | v :: rest' =>
          if str_eqb a (lit "--pipe") then nsctl_args bits rest' (mkNsctl v (c_timeout o) (c_request o))
          else if str_eqb a (lit "--timeout") then
            nsctl_args bits rest' (mkNsctl (c_pipe o) (u32 (strtoul bits v)) (c_request o))
          else other
      | [] => other
      end
  end.

(** The timeout after the adjustment for a scan. *)
Definition scan_timeout (bits : Z) (request : str) (timeout : Z) : Z :=
  if starts_with (lit "scan") request then
    let wait :=
      match find_sub (lit " ") request with
      | None => 30000
      | Some sp => strtoul bits (drop (sp + 1) request)
      end in
    let needed := (wait + 5000) mod 2 ^ bits in
    if timeout <? needed then u32 needed else timeout
  else timeout.

Definition error_prefix : str := lit "{" ++ [quote] ++ lit "error" ++ [quote].

(** Exit code 2 asks for usage.  [call] is [ipc::call]: the response or the error,
    and the error code of the last call.  Exit code, standard output, standard
    error. *)
Definition nsctl_main (bits : Z) (kDefaultPipe : str) (call : str -> str -> Z -> (str + str) * Z)
    (args : list str) : option (Z * str * str) :=
  match args with
  | [] => None
  | _ =>
      match nsctl_args bits args (mkNsctl kDefaultPipe 10000 []) with
      | None => None
      | Some o =>
          let timeout := scan_timeout bits (c_request o) (c_timeout o) in
          match call (c_pipe o) (c_request o) timeout with
          | (inr error, code) =>
              Some (1, [], lit "nsctl: " ++ error ++ [nl] ++
                if code =? 5 then
                  lit "nsctl: the service only answers SYSTEM, elevated Administrators " ++
                  lit "and itself -- run from an elevated prompt." ++ [nl]
                else [])
          | (inl response, _) =>
              Some (if starts_with error_prefix response then 1 else 0, response ++ [nl], [])
          end
      end
  end.

(** ** The Linux service layer *)

Inductive signal := SIGTERM | SIGINT | SIGPIPE.
Inductive disposition := DefaultAction | Ignore | HandleStop.

Record service_state := mkService {
  g_stop : bool; on_term : disposition; on_int : disposition; on_pipe : disposition; killed : bool }.

Definition service_fresh : service_state := mkService false DefaultAction DefaultAction DefaultAction false.

Definition service_name : str := lit "nano-sensor".

Definition stop_requested (s : service_state) : bool := g_stop s.
Definition request_stop (s : service_state) : service_state :=
  mkService true (on_term s) (on_int s) (on_pipe s) (killed s).

(** [run] up to the call of the body. *)
Definition service_run (s : service_state) : service_state :=
  mkService (g_stop s) HandleStop HandleStop Ignore (killed s).

(** A signal arrives: the default action of all three ends the process. *)
Definition deliver_signal (g : signal) (s : service_state) : service_state :=
  match (match g with SIGTERM => on_term s | SIGINT => on_int s | SIGPIPE => on_pipe s end) with
  | HandleStop => request_stop s
  | Ignore => s
  | DefaultAction => mkService (g_stop s) (on_term s) (on_int s) (on_pipe s) true
  end.

Definition linux_install (exe args : str) : option str :=
  Some (lit "install the systemd unit from deploy/nano-sensor.service instead").
Definition linux_uninstall : option str :=
  Some (lit "remove the systemd unit with systemctl disable --now nano-sensor").

(** ** Lemmas *)

Lemma strtoul_to_string bits n r :
  32 <= bits -> 0 <= n < 2 ^ 32 -> match r with [] => True | c :: _ => isdigit c = false end ->
  strtoul bits (to_string n ++ r) = n.
Proof.
  intros Hb Hn Hr. rewrite to_string_nonneg by lia.
  destruct (to_string_u_spec n) as (Hd & Hv & Hne); [lia|]. unfold strtoul.
  rewrite digits_skip_ws, digits_scan_sign, span_all by done. cbn [fst]. rewrite Hv.
  pose proof (Z.pow_le_mono_r 2 32 bits ltac:(lia) Hb).
  destruct (Z.ltb_spec (2 ^ bits - 1) n); [lia|done].
Qed.

Lemma extract_int_to_string n :
  0 <= n < 2 ^ 31 -> (extract_int (lit " " ++ to_string n)).1 = Some n.
Proof.
  intros Hn. rewrite to_string_nonneg by lia. destruct (to_string_u_spec n) as (Hd & Hv & Hne); [lia|].
  unfold extract_int.
  replace (skip_ws (lit " " ++ to_string_u n)) with (skip_ws (to_string_u n ++ [])).
  - rewrite digits_skip_ws, digits_scan_sign, span_all by done.
    destruct (to_string_u n) as [|c ds] eqn:E; [done|]. rewrite <- E in *. rewrite Hv. cbn [fst].
    destruct (Z.leb_spec (- 2 ^ 31) n); [|lia]. destruct (Z.ltb_spec n (2 ^ 31)); [done|lia].
  - rewrite app_nil_r. unfold skip_ws. change (lit " ") with [" "%char]. cbn [app span].
    change (isspace " ") with true. by destruct (span isspace (to_string_u n)).
Qed.

Lemma render_first_key k v ms : exists t, render false 0 (JObj ((k, v) :: ms)) = lit "{" ++ quoted k ++ t.
Proof.
  cbn [render]. unfold wrap. cbn [items break app]. eexists. by rewrite <- !app_assoc.
Qed.

(** A reply starts with the error prefix exactly when it is an error report. *)
Lemma reply_error_prefix reply ms :
  is_reply reply ms -> starts_with error_prefix reply = true <-> exists msg, ms = error_tree msg.
Proof.
  intros (-> & _ & k & v & ms' & -> & Hk). destruct (render_first_key k v ms') as [t ->].
  destruct (str_eqb k (lit "error")) eqn:E.
  - apply str_eqb_eq in E as ->. split; [done|]. intros _.
    change (lit "{" ++ quoted (lit "error") ++ t) with (error_prefix ++ t). apply starts_with_app.
  - split.
    + apply existsb_exists in Hk as (k' & Hin & Ek). apply str_eqb_eq in Ek as ->.
      by repeat (destruct Hin as [<-|Hin]; [done|]).
    + intros [msg [= -> _ _]]. by rewrite str_eqb_refl in E.
Qed.

(** ** Properties *)

Section Properties.
Context {HS : StdSort} {HU : UnorderedIter} {D : Type} {HD : DbOps D}.

(** [nsctl]'s exit code tells whether the agent's answer is an error: for
    every request the agent handles, it is 1 exactly when the reply is an error
    report, whatever the report contains, and the reply is printed either way. *)
Theorem nsctl_exit_tells_error (bits : Z) (dflt : str) (args : list str) (o : nsctl_opts)
  (e : handle_env) (who : ClientInfo) (m : Impl) (code : Z)
  (Hargs : nsctl_args bits args (mkNsctl dflt 10000 []) = Some o) (Hne : args <> []) (Hp : printable_db) :
  let reply := (handle e (c_request o) who m).1.1 in
  exists rc ms, nsctl_main bits dflt (fun _ req _ => (inl (handle e req who m).1.1, code)) args
      = Some (rc, reply ++ [nl], []) /\
    parse reply = Some (JObj ms) /\
    (rc = 1 /\ (exists msg, ms = error_tree msg) \/ rc = 0 /\ forall msg, ms <> error_tree msg).
Proof.
  intros reply. destruct (handle_reply e (c_request o) who m Hp) as [ms Hr]. fold reply in Hr.
  pose proof (reply_error_prefix reply ms Hr) as Herr.
  unfold nsctl_main. destruct args as [|a args]; [done|]. rewrite Hargs. fold reply.
  eexists _, ms. split; [done|]. split; [destruct Hr as (-> & Hw & _); by apply render_reads|].
  destruct (starts_with error_prefix reply); [left; naive_solver|right].
  split; [done|]. intros msg E. assert (false = true) by (apply Herr; by exists msg). done.
Qed.

(** For "scan" and "scan N" the client waits at least five seconds longer than
    the agent does, so the agent's answer is always in time. *)
Theorem nsctl_outwaits_agent (bits n timeout : Z) (cfg : AgentConfig)
  (Hb : 32 <= bits) (Hn : 0 <= n < 2 ^ 31) (Hc : 0 <= scan_cap cfg) :
  let asked request := default 30000 (extract_int (extract_word request).2).1 in
  scan_wait cfg (asked (lit "scan")) + 5000 <= scan_timeout bits (lit "scan") timeout /\
  scan_wait cfg (asked (lit "scan " ++ to_string n)) + 5000
    <= scan_timeout bits (lit "scan " ++ to_string n) timeout.
Proof.
  intros asked. pose proof (Z.pow_le_mono_r 2 32 bits ltac:(lia) Hb) as Hpow.
  assert (forall w, 0 <= w < 2 ^ 31 -> scan_wait cfg w <= w) as Hle
    by (intros w Hw; unfold scan_wait, clamp; split_ifs; bools; lia).
  split.
  - unfold asked. change (default 30000 _) with 30000. pose proof (Hle 30000 ltac:(lia)).
    unfold scan_timeout. change (starts_with _ (lit "scan")) with true.
    change (find_sub _ (lit "scan")) with (@None nat). cbn iota.
    rewrite Z.mod_small by lia. split_ifs; bools; rewrite ?u32_small by lia; lia.
  - assert (extract_word (lit "scan " ++ to_string n) = (Some (lit "scan"), lit " " ++ to_string n)) as Ew
      by reflexivity.
    unfold asked. rewrite Ew. cbn [snd]. rewrite extract_int_to_string by lia. change (default 30000 (Some n)) with n.
    pose proof (Hle n Hn). unfold scan_timeout.
    change (starts_with (lit "scan") (lit "scan " ++ to_string n)) with true.
    change (find_sub (lit " ") (lit "scan " ++ to_string n)) with (Some 4%nat). cbn iota.
    change (drop (4 + 1) (lit "scan " ++ to_string n)) with (to_string n).
    rewrite <- (app_nil_r (to_string n)), strtoul_to_string by (done || lia).
    rewrite Z.mod_small by lia. split_ifs; bools; rewrite ?u32_small by lia; lia.
Qed.
End Properties.

(** Once [run] has set up the signals, SIGTERM and SIGINT ask the loop to
    stop and never end the process, however often they arrive and in whatever
    order with SIGPIPE, which is ignored. *)
Theorem signals_stop_cleanly (s : service_state) (gs : list signal) (Hk : killed s = false) :
  let s' := fold_left (fun s g => deliver_signal g s) gs (service_run s) in
  killed s' = false /\
  (stop_requested s' = true <-> stop_requested s = true \/ SIGTERM ∈ gs \/ SIGINT ∈ gs).
Proof.
  intros s'. enough (forall t, on_term t = HandleStop -> on_int t = HandleStop -> on_pipe t = Ignore ->
    killed t = false -> let t' := fold_left (fun s g => deliver_signal g s) gs t in
    killed t' = false /\ (stop_requested t' = true <-> stop_requested t = true \/ SIGTERM ∈ gs \/ SIGINT ∈ gs))
    as H by exact (H (service_run s) eq_refl eq_refl eq_refl Hk).
  clear. induction gs as [|g gs IH]; intros t H1 H2 H3 H4; cbn [fold_left].
  - split; [done|]. split; [by left|]. intros [H|[H|H]]; [done|by apply elem_of_nil in H..].
  - destruct (IH (deliver_signal g t)) as [Hk Hs];
      try (unfold deliver_signal; destruct g; rewrite ?H1, ?H2, ?H3; done).
    split; [done|]. rewrite Hs, !elem_of_cons. unfold deliver_signal, stop_requested.
    destruct g; rewrite ?H1, ?H2, ?H3; cbn; naive_solver.
Qed.

(** ** The properties at work *)

Lemma nsctl_exit_tells_error_witness :
  let e := mkHandleEnv (mkProcInfo 1 [] false 0 0 0 0 0 0) 0 0 0 false (fun _ => None) (inr (lit "no")) in
  let reply := (handle e (lit "findings 7.0") (mkClient 7 (lit "u")) sample_agent).1.1 in
  exists rc ms, nsctl_main 32 (lit "p") (fun _ req _ => (inl (handle e req (mkClient 7 (lit "u")) sample_agent).1.1, 0))
      [lit "findings"; lit "7.0"] = Some (rc, reply ++ [nl], []) /\ parse reply = Some (JObj ms) /\
    (rc = 1 /\ (exists msg, ms = error_tree msg) \/ rc = 0 /\ forall msg, ms <> error_tree msg).
Proof.
  intros e. apply (nsctl_exit_tells_error 32 (lit "p") [lit "findings"; lit "7.0"]
    (mkNsctl (lit "p") 10000 (lit "findings 7.0")));
    [vm_compute; reflexivity|discriminate|exact linux_db_printable].
Defined.

Lemma nsctl_outwaits_agent_witness :
  let cfg := mkAgentConfig [] [] [] [] [] 300 120 FaultNone in
  scan_wait cfg 45000 + 5000 <= scan_timeout 32 (lit "scan 45000") 10000.
Proof.
  intros cfg. exact (proj2 (nsctl_outwaits_agent 32 45000 10000 cfg ltac:(lia) ltac:(lia) ltac:(vm_compute; congruence))).
Defined.

Lemma signals_stop_cleanly_witness :
  let s' := fold_left (fun s g => deliver_signal g s) [SIGPIPE; SIGTERM; SIGTERM] (service_run service_fresh) in
  killed s' = false /\ stop_requested s' = true.
Proof.
  destruct (signals_stop_cleanly service_fresh [SIGPIPE; SIGTERM; SIGTERM] eq_refl) as [H1 H2].
  split; [exact H1|]. apply H2. right. left. set_solver.
Defined.

(** An argument that is not a number: the agent waits its default of thirty
    seconds, the client only ten. *)
Example nsctl_scan_word_gives_up :
  let cfg := mkAgentConfig [] [] [] [] [] 300 120 FaultNone in
  scan_wait cfg (default 30000 (extract_int (extract_word (lit "scan now")).2).1) = 30000 /\
  scan_timeout 32 (lit "scan now") 10000 = 10000.
Proof. split; reflexivity. Qed.
