(* ===== verification/Ipc.v ===== *)
(** * The control pipe (src/ipc_windows.cpp, include/ns/ipc.hpp)

    One request over the named pipe, from both ends: what a server thread does
    with a connected client ([serve]) and what [ipc::call] does on the client's
    side.  What Windows answers is an argument; error codes are its numbers.  The
    server's threads and instances are in IpcServer.v. *)
From S2P Require Import Prelude CppStd Json Log Inventory Algorithms Cve Spool WinStr Agent Nsctl.
From Stdlib Require Import Ascii.

#[local] Open Scope Z_scope.

Definition kErrorFileNotFound : Z := 2.
Definition kErrorAccessDenied : Z := 5.
Definition kErrorSemTimeout : Z := 121.
Definition kErrorPipeBusy : Z := 231.
Definition kErrorMoreData : Z := 234.
Definition kWaitTimeout : Z := 258.

Definition kMaxInstances : nat := 8.
Definition kMaxRequestBytes : Z := 4 * 1024.
Definition kReadBytes : Z := 16 * 1024.

Definition win_error (what : str) (err : Z) : str :=
  what ++ lit " failed, error " ++ to_string err ++
  (if err =? kErrorAccessDenied then lit " (access denied)" else []).

Definition default_sddl : str := lit "D:P(D;;GA;;;NU)(A;;GA;;;SY)(A;;GA;;;BA)(A;;GA;;;OW)".

(** ** Who is on the other end *)

Record user_env := mkUser {
  impersonate_error : option Z;
  thread_sid : str + Z;             (* the SID copied out of the thread's token *)
  reverts : bool;
  lookup_sid : str -> (wstr * wstr) + Z  (* domain and name *) }.

Inductive user_event := Impersonated | ReadToken | Reverted | Terminated | LookedUp.

(** [None]: the process ended itself. *)
Definition client_user `{Utf16} (e : user_env) : option str * list user_event :=
  match impersonate_error e with
  | Some err => (Some (lit "?(impersonate " ++ to_string err ++ lit ")"), [])
  | None =>
      let tr := [Impersonated; ReadToken] in
      if negb (reverts e) then (None, tr ++ [Terminated])
      else
        let tr := tr ++ [Reverted] in
        match thread_sid e with
        | inr err => (Some (lit "?(token " ++ to_string err ++ lit ")"), tr)
        | inl sid =>
            (Some (match lookup_sid e sid with
                   | inr err => lit "?(lookup " ++ to_string err ++ lit ")"
                   | inl (domain, name) => narrow (domain ++ [92] ++ name)
                   end), tr ++ [LookedUp])
        end
  end.

(** ** The server's side of a request *)

Record serve_env := mkServe {
  incoming : str + Z;          (* the client's message, or why it cannot be read *)
  client_pid : option Z;
  who_env : user_env;
  write_works : bool }.

(** Reading into the buffer: a longer message is an error. *)
Definition read_request (e : serve_env) : str + Z :=
  match incoming e with
  | inr err => inr err
  | inl m => if len m <=? kMaxRequestBytes then inl m else inr kErrorMoreData
  end.

Definition too_large : str := lit "{" ++ [quote] ++ lit "error" ++ [quote] ++ lit ":" ++ [quote] ++
  lit "request too large" ++ [quote] ++ lit "}".

(** What is written to the pipe, whether the request counts as served, and
    whether the thread waits for the client before it closes its end. *)
Record serve_result := mkServed {
  written : option str; counted : bool; waited : bool; serve_log : list log_call }.

Definition serve `{Utf16} (handler : str -> ClientInfo -> str) (e : serve_env) : option serve_result :=
  match read_request e with
  | inr err => Some (mkServed (if err =? kErrorMoreData then Some too_large else None) false false [])
  | inl request =>
      let pid := default 0 (client_pid e) in
      match (client_user (who_env e)).1 with
      | None => None
      | Some user =>
          let who := mkClient pid user in
          let response := handler request who in
          Some (mkServed (if write_works e then Some response else None) true (write_works e)
            [(Debug, lit "pipe request",
              [(lit "request", request); (lit "client_pid", to_string pid); (lit "client_user", user)])])
      end
  end.

(** ** The client's side *)

(** An overlapped operation: finished at once with a result, refused, or pending
    and then signalled in time with a result, or not.  Zero is success. *)
Inductive io := IoDone (err : Z) | IoRefused (err : Z) | IoPending (in_time : bool) (err : Z).

Definition wait_io (x : io) : Z :=
  match x with
  | IoDone err => err
  | IoRefused err => err
  | IoPending in_time err => if in_time then err else kWaitTimeout
  end.

Record call_env := mkCall {
  opening : nat -> option Z;    (* the n-th CreateFile: an error *)
  waiting : nat -> option Z;    (* the n-th WaitNamedPipe: an error *)
  writing : io;
  reading : nat -> io * str     (* the n-th ReadFile, with the bytes it reads *) }.

(** A failed call: the error text and the error code. *)
Definition call_fail (what : str) (err : Z) : str * Z := (win_error what err, err).

Definition not_opened (pipe : str) (err : Z) : str * Z :=
  if err =? kErrorFileNotFound then (lit "no server on " ++ pipe ++ lit " (is the service running?)", err)
  else call_fail (lit "opening the pipe") err.

(** The loop that opens the pipe; [None]: it has not ended yet. *)
Fixpoint open_pipe (fuel : nat) (e : call_env) (pipe : str) (n : nat) : option (option (str * Z)) :=
  match fuel with
  | O => None
  | S f =>
      match opening e n with
      | None => Some None
      | Some err =>
          if err =? kErrorPipeBusy then
            match waiting e n with
            | None => open_pipe f e pipe (S n)
            | Some err =>
                if err =? kErrorSemTimeout
                then Some (Some (call_fail (lit "waiting for a free pipe instance") err))
                else Some (Some (not_opened pipe err))
            end
          else Some (Some (not_opened pipe err))
      end
  end.

Fixpoint read_reply (fuel : nat) (e : call_env) (timeout_ms : Z) (n : nat) (response : str)
    : option (str + (str * Z)) :=
  match fuel with
  | O => None
  | S f =>
      let '(x, bytes) := reading e n in
      let err := wait_io x in
      let response := if (err =? 0) || (err =? kErrorMoreData) then response ++ bytes else response in
      if err =? kErrorMoreData then read_reply f e timeout_ms (S n) response
      else if err =? 0 then Some (inl response)
      else if err =? kWaitTimeout then
        Some (inr (lit "server did not answer within " ++ to_string timeout_ms ++ lit " ms", err))
      else Some (inr (call_fail (lit "reading the response") err))
  end.

(** [ipc::call] with [last_call_error] afterwards. *)
Definition call (fuel : nat) (e : call_env) (pipe request : str) (timeout_ms : Z) : option ((str + str) * Z) :=
  match open_pipe fuel e pipe 0 with
  | None => None
  | Some (Some (m, err)) => Some (inr m, err)
  | Some None =>
      let err := wait_io (writing e) in
      if negb (err =? 0) then Some (inr (win_error (lit "writing the request") err), err)
      else
        match read_reply fuel e timeout_ms 0 [] with
        | None => None
        | Some (inl response) => Some (inl response, 0)
        | Some (inr (m, err)) => Some (inr m, err)
        end
  end.

#[global] Opaque kReadBytes.

(** ** Lemmas *)

(** How a message of the pipe is read: in pieces of the buffer's size, every one
    but the last with ERROR_MORE_DATA. *)
Fixpoint pieces (fuel : nat) (m : str) : list (Z * str) :=
  match fuel with
  | O => [(0, m)]
  | S f =>
      if len m <=? kReadBytes then [(0, m)]
      else (kErrorMoreData, take (Z.to_nat kReadBytes) m) :: pieces f (drop (Z.to_nat kReadBytes) m)
  end.

Definition message_pieces (m : str) : list (Z * str) := pieces (length m) m.

(** The client's reads, from the [n]-th on, deliver these pieces. *)
Definition delivers (e : call_env) (n : nat) (ps : list (Z * str)) : Prop :=
  forall i p, ps !! i = Some p -> wait_io (reading e (n + i)).1 = p.1 /\ (reading e (n + i)).2 = p.2.

Lemma read_pieces e timeout fuel m : forall n acc k,
  delivers e n (pieces k m) -> (length (pieces k m) <= fuel)%nat ->
  read_reply fuel e timeout n acc = Some (inl (acc ++ m)).
Proof.
  revert m. induction fuel as [|f IH]; intros m n acc k Hd Hf.
  { destruct k; simpl in Hf; [lia|]. destruct (len m <=? kReadBytes); simpl in Hf; lia. }
  cbn [read_reply].
  assert (forall p ps, pieces k m = p :: ps -> wait_io (reading e n).1 = p.1 /\ (reading e n).2 = p.2) as H0.
  { intros p ps E. specialize (Hd 0%nat p). rewrite Nat.add_0_r, E in Hd. by apply Hd. }
  destruct (reading e n) as [x bytes] eqn:Er. cbn in H0.
  assert (pieces k m = [(0, m)] -> Some (inl (acc ++ m)) = (let err := wait_io x in
    let response := if (err =? 0) || (err =? kErrorMoreData) then acc ++ bytes else acc in
    if err =? kErrorMoreData then read_reply f e timeout (S n) response
    else if err =? 0 then Some (inl response)
    else if err =? kWaitTimeout then
      Some (inr (lit "server did not answer within " ++ to_string timeout ++ lit " ms", err))
    else Some (inr (call_fail (lit "reading the response") err)))) as Hlast.
  { intros E. destruct (H0 _ _ E) as [-> ->]. done. }
  destruct k as [|k]; [by rewrite Hlast|]. cbn [pieces] in *.
  destruct (len m <=? kReadBytes) eqn:El; [by rewrite Hlast|].
  destruct (H0 _ _ eq_refl) as [E1 E2]. cbn in E1, E2. rewrite E1, E2. cbn iota.
  change (kErrorMoreData =? 0) with false. change (kErrorMoreData =? kErrorMoreData) with true. cbn iota.
  cbn [orb]. rewrite (IH (drop (Z.to_nat kReadBytes) m) (S n) _ k).
  - by rewrite <- app_assoc, take_drop.
  - intros i p Hi. specialize (Hd (S i) p Hi). by rewrite Nat.add_succ_r in Hd.
  - simpl in Hf. lia.
Qed.

Lemma pieces_length k m : (length (pieces k m) <= S k)%nat.
Proof.
  revert m. induction k as [|k IH]; intros m; [done|]. simpl. destruct (len m <=? kReadBytes); simpl; [lia|].
  specialize (IH (drop (Z.to_nat kReadBytes) m)). lia.
Qed.

(** ** Properties *)

(** Errors are never reported as code zero, which is success. *)
Definition real_errors (e : call_env) : Prop :=
  (forall n, opening e n <> Some 0) /\ (forall n, waiting e n <> Some 0).

(** Whether the thread impersonates its client after these events. *)
Definition acting (tr : list user_event) : bool :=
  fold_left (fun a ev => match ev with Impersonated => true | Reverted => false | _ => a end) tr false.

(** The caller's identity is looked up only after the thread has stopped
    impersonating it; the thread is never left impersonating: if it cannot
    revert, the process ends. *)
Theorem client_user_reverts `{Utf16} (e : user_env) :
  let '(user, tr) := client_user e in
  (user = None <-> Terminated ∈ tr) /\
  (user <> None -> acting tr = false) /\
  (forall before after, tr = before ++ LookedUp :: after -> acting before = false).
Proof.
  unfold client_user. destruct (impersonate_error e) as [err|].
  { split_and!; [set_solver|done|]. intros [|? before] after; done. }
  destruct (reverts e); cbn [negb].
  - destruct (thread_sid e) as [sid|err]; cbn.
    + split_and!; [set_solver|done|]. intros before after E.
      do 3 (destruct before as [|? before]; [done|]; injection E as <- E).
      destruct before as [|? before]; [done|]. by destruct before.
    + split_and!; [set_solver|done|]. intros before after E.
      do 3 (destruct before as [|? before]; [done|]; injection E as <- E). by destruct before.
  - cbn. split_and!; [set_solver|done|]. intros before after E.
    do 3 (destruct before as [|? before]; [done|]; injection E as <- E). by destruct before.
Qed.

Lemma call_message e pipe request m timeout_ms fuel :
  opening e 0 = None -> wait_io (writing e) = 0 -> delivers e 0 (message_pieces m) -> (length m < fuel)%nat ->
  call fuel e pipe request timeout_ms = Some (inl m, 0).
Proof.
  intros Ho Hw Hd Hf. unfold call. destruct fuel as [|f]; [lia|]. cbn [open_pipe]. rewrite Ho, Hw. cbn iota.
  change (negb (0 =? 0)) with false. cbn iota.
  rewrite (read_pieces e timeout_ms (S f) m 0 [] (length m)); [done|done|].
  pose proof (pieces_length (length m) m). lia.
Qed.

(** [call] tells success from failure: there is a response exactly when the error
    code is zero. *)
Theorem call_error_code (fuel : nat) (e : call_env) (pipe request : str) (timeout_ms : Z)
  (r : (str + str) * Z) (He : real_errors e) (Hr : call fuel e pipe request timeout_ms = Some r) :
  r.2 = 0 <-> exists response, r.1 = inl response.
Proof.
  destruct He as [H1 H2].
  assert (forall f n m err, open_pipe f e pipe n = Some (Some (m, err)) -> err <> 0) as Hopen.
  { induction f as [|f IH]; intros n m err; [done|]. cbn [open_pipe].
    assert (forall x, x <> 0 -> forall m err, not_opened pipe x = (m, err) -> err <> 0) as Hn.
    { intros x Hx m' err'. unfold not_opened, call_fail. destruct (x =? _); by intros [= <- <-]. }
    destruct (opening e n) as [err1|] eqn:E1; [|done]. pose proof (H1 n).
    destruct (err1 =? kErrorPipeBusy); [|intros [= E]; eapply Hn; [|exact E]; congruence].
    destruct (waiting e n) as [err2|] eqn:E2; [|apply IH]. pose proof (H2 n).
    destruct (err2 =? kErrorSemTimeout); intros [= E]; [intros ->; congruence|].
    eapply Hn; [|exact E]; congruence. }
  assert (forall f n acc m err, read_reply f e timeout_ms n acc = Some (inr (m, err)) -> err <> 0) as Hread.
  { induction f as [|f IH]; intros n acc m err; [done|]. cbn [read_reply].
    destruct (reading e n) as [x bytes]. destruct (wait_io x =? kErrorMoreData); [apply IH|].
    destruct (Z.eqb_spec (wait_io x) 0); [done|]. destruct (wait_io x =? kWaitTimeout); by intros [= <- <-]. }
  revert Hr. unfold call. destruct (open_pipe fuel e pipe 0) as [[[m err]|]|] eqn:E; [|..|done].
  - intros [= <-]. apply Hopen in E. cbn. naive_solver.
  - destruct (Z.eqb_spec (wait_io (writing e)) 0); cbn [negb]; [|intros [= <-]; cbn; naive_solver].
    destruct (read_reply fuel e timeout_ms 0 []) as [[m|[m err]]|] eqn:Er; [|..|done]; intros [= <-]; cbn;
      [naive_solver|]. apply Hread in Er. naive_solver.
Qed.

(** ** From nsctl to the agent and back *)

Section EndToEnd.
Context {HS : StdSort} {HU : UnorderedIter} {D : Type} {HD : DbOps D} {HW : Utf16}.

(** The request reaches the server's thread and its reply reaches the client. *)
Record connected_to (e : call_env) (request : str) (se : serve_env) (r : serve_result) (reply : str) : Prop := {
  con_open : opening e 0 = None;
  con_write : wait_io (writing e) = 0;
  con_request : incoming se = inl request;
  con_reply : written r = Some reply;
  con_read : delivers e 0 (message_pieces reply) }.

(** C19: Over the pipe, [nsctl] prints what the agent's handler answers to its
    request, which it gets as it was sent together with the caller's process and
    user, and exits with 1 exactly when that is an error report; a request longer than the server's buffer is answered by an error
    report and makes [nsctl] exit with 1. *)
Theorem nsctl_reaches_agent (bits : Z) (dflt : str) (args : list str) (o : nsctl_opts)
  (he : handle_env) (m : Impl) (e : call_env) (se : serve_env) (r : serve_result) (reply : str) (fuel : nat)
  (Hargs : nsctl_args bits args (mkNsctl dflt 10000 []) = Some o) (Hne : args <> [])
  (Hserve : serve (fun request who => (handle he request who m).1.1) se = Some r)
  (Hcon : connected_to e (c_request o) se r reply) (Hfuel : (length reply < fuel)%nat) :
  let rc := if starts_with error_prefix reply then 1 else 0 in
  nsctl_main bits dflt (fun pipe request timeout => default (inr [], 0) (call fuel e pipe request timeout)) args
    = Some (rc, reply ++ [nl], []) /\
  (len (c_request o) <= kMaxRequestBytes ->
     exists user, (client_user (who_env se)).1 = Some user /\ counted r = true /\
       reply = (handle he (c_request o) (mkClient (default 0 (client_pid se)) user) m).1.1) /\
  (kMaxRequestBytes < len (c_request o) -> reply = too_large /\ rc = 1 /\ counted r = false).
Proof.
  destruct Hcon as [C1 C2 C3 C4 C5]. unfold nsctl_main. destruct args as [|a args]; [done|]. rewrite Hargs.
  rewrite (call_message e _ _ reply _ fuel C1 C2 C5 Hfuel). cbn [default].
  cbv zeta. split; [done|]. revert Hserve. unfold serve, read_request. rewrite C3.
  destruct (Z.leb_spec (len (c_request o)) kMaxRequestBytes) as [Hl|Hl].
  - destruct (client_user (who_env se)).1 as [user|]; [|done]. intros [= <-]. cbn in *.
    destruct (write_works se); [|done]. injection C4 as <-. split; [intros _; by exists user|lia].
  - intros [= <-]. cbn in C4. injection C4 as <-. split; [lia|]. intros _. done.
Qed.
End EndToEnd.

(** ** The properties at work *)

(** A pipe that delivers [reply] in pieces, the first read pending for a while. *)
Definition sample_pipe (reply : str) : call_env :=
  mkCall (fun _ => None) (fun _ => None) (IoDone 0)
    (fun n => match message_pieces reply !! n with
              | Some (err, bytes) => (IoPending true err, bytes)
              | None => (IoRefused 109, [])
              end).

Lemma sample_pipe_delivers reply : delivers (sample_pipe reply) 0 (message_pieces reply).
Proof. intros i [err bytes] H. cbn. by rewrite H. Qed.

Definition sample_user : user_env :=
  mkUser None (inl (lit "S-1")) true (fun _ => inl (code <$> lit "HOST", code <$> lit "admin")).

Lemma call_error_code_witness :
  call 5 (sample_pipe (lit "{}")) (lit "p") (lit "ping") 5000 = Some (inl (lit "{}"), 0) /\
  exists response, @inl str str (lit "{}") = inl response.
Proof.
  assert (call 5 (sample_pipe (lit "{}")) (lit "p") (lit "ping") 5000 = Some (inl (lit "{}"), 0)) as E
    by (vm_compute; reflexivity).
  split; [exact E|]. refine (proj1 (call_error_code 5 (sample_pipe (lit "{}")) (lit "p") (lit "ping") 5000 _ _ E) eq_refl).
  split; intros n; discriminate.
Defined.

Lemma nsctl_reaches_agent_witness :
  let he := mkHandleEnv (mkProcInfo 1 [] false 0 0 0 0 0 0) 0 0 0 false (fun _ => None) (inr (lit "no")) in
  let se := mkServe (inl (lit "ping")) (Some 7) sample_user true in
  let reply := (handle he (lit "ping") (mkClient 7 (lit "HOST\admin")) sample_agent).1.1 in
  nsctl_main 32 (lit "p")
    (fun pipe request timeout => default (inr [], 0) (call 100 (sample_pipe reply) pipe request timeout))
    [lit "ping"] = Some (0, reply ++ [nl], []).
Proof.
  intros he se reply.
  destruct (serve (fun request who => (handle he request who sample_agent).1.1) se) as [r|] eqn:Er;
    [|vm_compute in Er; discriminate].
  destruct (nsctl_reaches_agent 32 (lit "p") [lit "ping"] (mkNsctl (lit "p") 10000 (lit "ping")) he sample_agent
    (sample_pipe reply) se r reply 100) as (H & _).
  - vm_compute; reflexivity.
  - discriminate.
  - exact Er.
  - split; try reflexivity; [|apply sample_pipe_delivers]. vm_compute in Er. injection Er as <-. vm_compute. reflexivity.
  - vm_compute. lia.
  - exact H.
Defined.
