(* ===== verification/IpcServer.v ===== *)
(** * The threads of the pipe server (src/ipc_windows.cpp: Server::Impl)

    The acceptor, one thread per connected client, and the thread that calls
    [stop], as a transition system over the pipe's instances.  An instance is a
    handle that has a client or is waiting for one; creating one fails when there
    are [kMaxInstances].  A thread blocked in the operating system moves only when
    the peer acts or when its call is cancelled.  The list of clients is guarded
    by a mutex and only the acceptor touches it until it has been joined, so the
    lock itself is left out. *)
From S2P Require Import Prelude CppStd Json Log Inventory Algorithms Cve Spool WinStr Agent Nsctl Ipc.

#[local] Open Scope nat_scope.

(** Where the acceptor stands: the handle in [instance] ([None] is the invalid
    handle), the connected one, and whether connecting worked. *)
Inductive acceptor :=
| ALoop (i : option nat)                          (* the test of the loop *)
| AConnect (i : nat)                              (* in ConnectNamedPipe *)
| AChecked (i : nat) (c : bool)                   (* before the second test of stopping *)
| ANext (conn : nat) (c : bool)                   (* in next_instance, about to create *)
| ARetry (conn : nat) (c : bool)                  (* ... after it failed *)
| AHandOff (conn : nat) (c : bool) (i : option nat)
| AReap (i : option nat)
| AClose (i : option nat)                         (* after the loop *)
| ADone.

(** Where a client's thread stands in [serve]. *)
Inductive cpc :=
| CRead     (* blocked reading the request *)
| CHandle   (* in the handler *)
| CWrite
| CSink     (* blocked until the client closes its end *)
| CClose | CClosed
| CDone     (* the done flag is set *).

#[global] Instance cpc_eq_dec : EqDecision cpc.
Proof. solve_decision. Defined.

Record client := mkThread { c_inst : nat; c_pc : cpc }.

(** Where [stop] stands. *)
Inductive stopper := SNot | SCancel | SConnect | SJoined | SReap | SFreed.

#[global] Instance stopper_eq_dec : EqDecision stopper.
Proof. solve_decision. Defined.

Record server := mkServer {
  acc : acceptor; clients : list client; insts : gmap nat bool; stopping_ : bool; stop_pc : stopper }.

Definition set_acc (a : acceptor) (s : server) : server :=
  mkServer a (clients s) (insts s) (stopping_ s) (stop_pc s).
Definition set_clients (l : list client) (s : server) : server :=
  mkServer (acc s) l (insts s) (stopping_ s) (stop_pc s).
Definition set_insts (m : gmap nat bool) (s : server) : server :=
  mkServer (acc s) (clients s) m (stopping_ s) (stop_pc s).
Definition set_stop (p : stopper) (s : server) : server :=
  mkServer (acc s) (clients s) (insts s) (stopping_ s) p.

(** The server after [start]: the first instance is there. *)
Definition started : server := mkServer (ALoop (Some 0)) [] {[0 := false]} false SNot.

(** [Server::start]: the answers of Windows to the security descriptor and to the
    first instance; a pipe of that name that is already there is not shared. *)
Definition server_start (sddl_error first_error : option Z) : server + str :=
  match sddl_error with
  | Some err => inr (win_error (lit "parsing the pipe SDDL") err)
  | None =>
      match first_error with
      | Some err =>
          inr (if (err =? kErrorAccessDenied)%Z
               then lit "pipe name already in use by another process (possible squatter); refusing to share it"
               else win_error (lit "CreateNamedPipe") err)
      | None => inl started
      end
  end.

Definition close_inst (i : nat) (s : server) : server := set_insts (delete i (insts s)) s.

Definition is_done (c : client) : bool := match c_pc c with CDone => true | _ => false end.

(** [reap(false)]: joins and removes the threads that are done. *)
Definition reap (s : server) : server := set_clients (List.filter (fun c => negb (is_done c)) (clients s)) s.

(** The acceptor's next step.  [b]: the call into the operating system fails for
    a reason of its own (a client that has connected and left already is
    [ERROR_NO_DATA]).  [None]: it waits. *)
Definition acceptor_step (b : bool) (s : server) : option server :=
  match acc s with
  | ALoop i =>
      Some (set_acc (if stopping_ s then AClose i
                     else match i with Some n => AConnect n | None => AClose None end) s)
  | AConnect n =>
      if default false (insts s !! n) then Some (set_acc (AChecked n (negb b)) s)
      else if b then Some (set_acc (AChecked n false) s) else None
  | AChecked n c => Some (set_acc (if stopping_ s then AClose (Some n) else ANext n c) s)
  | ANext conn c =>
      if (size (insts s) <? kMaxInstances) && negb b then
        let h := fresh (dom (insts s)) in
        Some (set_acc (AHandOff conn c (Some h)) (set_insts (<[h := false]> (insts s)) s))
      else if stopping_ s then Some (set_acc (AHandOff conn c None) s)
      else Some (set_acc (ARetry conn c) s)
  | ARetry conn c => Some (set_acc (ANext conn c) (reap s))
  | AHandOff conn c i =>
      Some (set_acc (AReap i)
        (if c then set_clients (clients s ++ [mkThread conn CRead]) s else close_inst conn s))
  | AReap i => Some (set_acc (ALoop i) (reap s))
  | AClose i => Some (set_acc ADone (match i with Some n => close_inst n s | None => s end))
  | ADone => None
  end.

(** Threads are named by their place in the list of clients. *)
Definition move (k : nat) (p : cpc) (s : server) : server :=
  set_clients (alter (fun c => mkThread (c_inst c) p) k (clients s)) s.

(** A client thread's next step of its own; [b]: writing the response works. *)
Definition client_step (k : nat) (b : bool) (s : server) : option server :=
  match clients s !! k with
  | Some c =>
      match c_pc c with
      | CHandle => Some (move k CWrite s)
      | CWrite => Some (move k (if b then CSink else CClose) s)
      | CClose => Some (move k CClosed (close_inst (c_inst c) s))
      | CClosed => Some (move k CDone s)
      | CRead | CSink | CDone => None
      end
  | None => None
  end.

(** The client at the other end sends its request ([b]) or goes away. *)
Definition peer_step (k : nat) (b : bool) (s : server) : option server :=
  match clients s !! k with
  | Some c =>
      match c_pc c with
      | CRead => Some (move k (if b then CHandle else CClose) s)
      | CSink => Some (move k CClose s)
      | _ => None
      end
  | None => None
  end.

(** A client connects to an instance that waits for one. *)
Definition connect_step (i : nat) (s : server) : option server :=
  match insts s !! i with
  | Some false => Some (set_insts (<[i := true]> (insts s)) s)
  | _ => None
  end.

(** Cancelling a thread's I/O wakes it only if it is blocked right now. *)
Definition cancel_client (c : client) : client :=
  match c_pc c with
  | CRead | CSink => mkThread (c_inst c) CClose
  | _ => c
  end.

(** The next step of [stop]; [i] is the instance its own connection gets. *)
Definition stop_step (i : nat) (s : server) : option server :=
  match stop_pc s with
  | SNot => Some (mkServer (acc s) (clients s) (insts s) true SCancel)
  | SCancel =>
      match acc s with
      | ADone => Some (set_stop SJoined s)
      | AConnect n => Some (set_stop SConnect (set_acc (AChecked n false) s))
      | _ => Some (set_stop SConnect s)
      end
  | SConnect => Some (set_stop SCancel (default s (connect_step i s)))
  | SJoined => Some (set_stop SReap (set_clients (cancel_client <$> clients s) s))
  | SReap => if forallb is_done (clients s) then Some (set_stop SFreed (set_clients [] s)) else None
  | SFreed => None
  end.

Inductive action :=
| Accept (b : bool) | Client (k : nat) (b : bool) | Peer (k : nat) (b : bool) | Connects (i : nat) | Stop (i : nat).

Definition step (a : action) (s : server) : option server :=
  match a with
  | Accept b => acceptor_step b s
  | Client k b => client_step k b s
  | Peer k b => peer_step k b s
  | Connects i => connect_step i s
  | Stop i => stop_step i s
  end.

Inductive reachable : server -> Prop :=
| reach_start : reachable started
| reach_step a s s' : reachable s -> step a s = Some s' -> reachable s'.

Fixpoint run (l : list action) (s : server) : option server :=
  match l with
  | [] => Some s
  | a :: l' => match step a s with Some s' => run l' s' | None => None end
  end.

Lemma run_reachable l s s' : reachable s -> run l s = Some s' -> reachable s'.
Proof.
  revert s. induction l as [|a l IH]; intros s Hs; cbn; [by intros [= <-]|].
  destruct (step a s) as [s1|] eqn:E; [|done]. apply IH. by econstructor.
Qed.

(** ** Who owns which instance *)

Definition acc_owned (a : acceptor) : list nat :=
  match a with
  | ALoop i | AReap i | AClose i => match i with Some n => [n] | None => [] end
  | AConnect n | AChecked n _ | ANext n _ | ARetry n _ => [n]
  | AHandOff conn _ i => conn :: match i with Some n => [n] | None => [] end
  | ADone => []
  end.

Definition is_open (c : client) : bool := match c_pc c with CClosed | CDone => false | _ => true end.

Definition client_owned (l : list client) : list nat := c_inst <$> List.filter is_open l.

Arguments client_owned : simpl never.

Definition owned (s : server) : list nat := acc_owned (acc s) ++ client_owned (clients s).

(** Every open instance has exactly one owner. *)
Definition handles_ok (s : server) : Prop := NoDup (owned s) /\ dom (insts s) = list_to_set (owned s).


(** *** Lemmas on the clients' instances *)

Lemma client_owned_app l l' : client_owned (l ++ l') = client_owned l ++ client_owned l'.
Proof. unfold client_owned. by rewrite List.filter_app, fmap_app. Qed.

Lemma client_owned_reap l : client_owned (List.filter (fun c => negb (is_done c)) l) = client_owned l.
Proof.
  induction l as [|[i []] l IH]; [done|..]; unfold client_owned in *; cbn; by rewrite ?IH.
Qed.

Lemma client_owned_cancel l : client_owned (cancel_client <$> l) = client_owned l.
Proof.
  induction l as [|[i []] l IH]; [done|..]; unfold client_owned in *; cbn; by rewrite ?IH.
Qed.

(** Moving a thread that keeps its instance, and one that has just closed it. *)
Lemma client_owned_move l k c p :
  l !! k = Some c -> is_open c = is_open (mkThread (c_inst c) p) ->
  client_owned (alter (fun c => mkThread (c_inst c) p) k l) = client_owned l.
Proof.
  intros Hk Ho. revert k Hk. induction l as [|x l IH]; intros [|k] Hk; try done.
  - injection Hk as ->. unfold client_owned. cbn. rewrite <- Ho. by destruct (is_open c).
  - unfold client_owned in *. cbn. specialize (IH k Hk). by destruct (is_open x); cbn; rewrite IH.
Qed.

Lemma client_owned_close l k c :
  l !! k = Some c -> is_open c = true ->
  exists before after, client_owned l = before ++ c_inst c :: after /\
    client_owned (alter (fun c => mkThread (c_inst c) CClosed) k l) = before ++ after.
Proof.
  revert k. induction l as [|x l IH]; intros [|k] Hk Ho; try done.
  - injection Hk as ->. exists [], (client_owned l). unfold client_owned. cbn. by rewrite Ho.
  - destruct (IH k Hk Ho) as (before & after & E1 & E2). unfold client_owned in *. cbn.
    destruct (is_open x); cbn; rewrite E1, E2; [|by exists before, after]. by exists (c_inst x :: before), after.
Qed.

(** *** The invariant *)

(** While nobody has asked the server to stop, the acceptor holds an instance
    that it is not about to give away; [stop] goes past its loop only when the acceptor is done, and nothing is left
    when it has finished. *)
Definition acc_holds (a : acceptor) : bool :=
  match a with
  | ALoop None | AReap None | AHandOff _ _ None | AClose _ | ADone => false
  | _ => true
  end.

Record server_ok (s : server) : Prop := {
  ok_handles : handles_ok s;
  ok_size : size (insts s) <= kMaxInstances;
  ok_listening : stopping_ s = false -> acc_holds (acc s) = true;
  ok_stopping : stop_pc s <> SNot -> stopping_ s = true;
  ok_joined : stop_pc s = SJoined \/ stop_pc s = SReap \/ stop_pc s = SFreed -> acc s = ADone;
  ok_freed : stop_pc s = SFreed -> clients s = [] }.

Lemma handles_perm s s' :
  handles_ok s -> owned s' ≡ₚ owned s -> dom (insts s') = dom (insts s) -> handles_ok s'.
Proof.
  intros [H1 H2] Hp Hd. split; [by rewrite Hp|]. rewrite Hd, H2.
  apply set_eq. intros x. by rewrite !elem_of_list_to_set, Hp.
Qed.

Lemma handles_close s s' i :
  handles_ok s -> owned s ≡ₚ i :: owned s' -> insts s' = delete i (insts s) -> handles_ok s'.
Proof.
  intros [H1 H2] Hp Hd. rewrite Hp in H1. apply NoDup_cons in H1 as [Hi H1]. split; [done|].
  rewrite Hd, dom_delete_L, H2. apply set_eq. intros x.
  rewrite elem_of_difference, elem_of_singleton, !elem_of_list_to_set, Hp. set_solver.
Qed.

Lemma handles_open s s' i b :
  handles_ok s -> i ∉ dom (insts s) -> owned s' ≡ₚ i :: owned s -> insts s' = <[i := b]> (insts s) ->
  handles_ok s'.
Proof.
  intros [H1 H2] Hi Hp Hd. split; [rewrite Hp; apply NoDup_cons; split; [|done]; rewrite H2 in Hi; set_solver|].
  rewrite Hd, dom_insert_L, H2. apply set_eq. intros x.
  rewrite elem_of_union, elem_of_singleton, !elem_of_list_to_set, Hp. set_solver.
Qed.

Lemma started_ok : server_ok started.
Proof.
  split; cbn; try done; [|by rewrite map_size_singleton; unfold kMaxInstances; lia|naive_solver].
  split; cbn; [apply NoDup_singleton|]. rewrite dom_singleton_L. set_solver.
Qed.

Lemma size_close s i : size (delete i (insts s)) <= size (insts s).
Proof. rewrite map_size_delete. destruct (insts s !! i); simpl; lia. Qed.

Lemma size_new s : size (insts s) < kMaxInstances ->
  size (<[fresh (dom (insts s)) := false]> (insts s)) <= kMaxInstances.
Proof. intros H. rewrite map_size_insert. destruct (insts s !! _); simpl; lia. Qed.

(** The acceptor runs only before [stop] has joined it. *)
Lemma acceptor_not_joined s : server_ok s -> acc s <> ADone ->
  stop_pc s <> SJoined /\ stop_pc s <> SReap /\ stop_pc s <> SFreed.
Proof. intros Hok Ha. split_and!; intros E; apply Ha, (ok_joined _ Hok); auto. Qed.

Lemma acceptor_ok b s s' : server_ok s -> acceptor_step b s = Some s' -> server_ok s'.
Proof.
  intros Hok Hs. pose proof Hok as [Hh Hsz Hl Hst Hj Hf]. revert Hs. unfold acceptor_step.
  assert (forall a, handles_ok s -> acc_owned a ≡ₚ acc_owned (acc s) -> acc s <> ADone ->
    (stopping_ s = false -> acc_holds a = true) -> server_ok (set_acc a s)) as Hmove.
  { intros a _ Hp Hd Hne. destruct (acceptor_not_joined s Hok Hd) as (J1 & J2 & J3).
    split; cbn; try done; [|naive_solver]. eapply handles_perm; [exact Hh| |done]. unfold owned. cbn. by rewrite Hp. }
  destruct (acc s) as [i|n|n c|conn c|conn c|conn c i|i|i|] eqn:Ea; cbn in Hl.
  - intros [= <-]. apply Hmove; try done; destruct (stopping_ s), i; try done; auto.
  - destruct (default false (insts s !! n)); [intros [= <-]; by apply Hmove|].
    destruct b; [intros [= <-]; by apply Hmove|done].
  - intros [= <-]. destruct (stopping_ s) eqn:Es; by apply Hmove.
  - destruct ((size (insts s) <? kMaxInstances) && negb b) eqn:Ec.
    + apply andb_true_iff in Ec as [Ec _]. apply Nat.ltb_lt in Ec. intros [= <-].
      destruct (acceptor_not_joined s Hok ltac:(congruence)) as (J1 & J2 & J3).
      split; cbn; try done; [|by apply size_new|naive_solver].
      eapply (handles_open s); [done|apply is_fresh| |done]. unfold owned. cbn. rewrite Ea. cbn. apply Permutation_swap.
    + destruct (stopping_ s); intros [= <-]; by apply Hmove.
  - intros [= <-]. destruct (acceptor_not_joined s Hok ltac:(congruence)) as (J1 & J2 & J3).
    split; cbn; try done; [|naive_solver]. eapply handles_perm; [exact Hh| |done].
    unfold owned. cbn. by rewrite client_owned_reap, Ea.
  - intros [= <-]. destruct (acceptor_not_joined s Hok ltac:(congruence)) as (J1 & J2 & J3).
    assert (stopping_ s = false -> acc_holds (AReap i) = true) as Hi by done.
    destruct c; (split; cbn; [| |done|done|naive_solver|done]); try done.
    + eapply handles_perm; [exact Hh| |done]. unfold owned. cbn. rewrite client_owned_app, Ea. cbn.
      change (client_owned [mkThread conn CRead]) with [conn]. by rewrite app_assoc, <- Permutation_cons_append.
    + eapply (handles_close s); [done| |done]. unfold owned. cbn. by rewrite Ea.
    + pose proof (size_close s conn). lia.
  - intros [= <-]. destruct (acceptor_not_joined s Hok ltac:(congruence)) as (J1 & J2 & J3).
    split; cbn; try done; [|naive_solver]. eapply handles_perm; [exact Hh| |done].
    unfold owned. cbn. by rewrite client_owned_reap, Ea.
  - intros [= <-]. destruct (acceptor_not_joined s Hok ltac:(congruence)) as (J1 & J2 & J3).
    destruct i as [n|]; (split; cbn; [| |done|done|naive_solver|done]); try done.
    + eapply (handles_close s); [done| |done]. unfold owned. cbn. by rewrite Ea.
    + pose proof (size_close s n). lia.
    + eapply handles_perm; [exact Hh| |done]. unfold owned. cbn. by rewrite Ea.
  - done.
Qed.

(** Steps that leave the acceptor, the flag and [stop] alone. *)
Lemma server_ok_same s s' :
  server_ok s -> acc s' = acc s -> stopping_ s' = stopping_ s -> stop_pc s' = stop_pc s ->
  (clients s = [] -> clients s' = []) -> handles_ok s' -> size (insts s') <= kMaxInstances -> server_ok s'.
Proof. intros [H1 H2 H3 H4 H5 H6] Ea Es Ep Hc Hh Hz. split; rewrite ?Ea, ?Es, ?Ep; auto. Qed.

Lemma move_ok k p c s :
  server_ok s -> clients s !! k = Some c -> is_open c = is_open (mkThread (c_inst c) p) -> server_ok (move k p s).
Proof.
  intros Hok Hk Ho. eapply server_ok_same; try done; [intros E; by rewrite E in Hk| |apply Hok].
  eapply handles_perm; [apply Hok| |done]. unfold owned. cbn. by erewrite client_owned_move.
Qed.

Lemma client_ok k b s s' : server_ok s -> client_step k b s = Some s' -> server_ok s'.
Proof.
  intros Hok. unfold client_step. destruct (clients s !! k) as [c|] eqn:Hk; [|done].
  destruct (c_pc c) eqn:Ep; try done; intros [= <-];
    try (eapply move_ok; [done..|]; unfold is_open; rewrite Ep; by destruct b).
  eapply server_ok_same; try done; [intros E; by rewrite E in Hk| |].
  - destruct (client_owned_close (clients s) k c Hk) as (before & after & E1 & E2).
    { unfold is_open. by rewrite Ep. }
    eapply (handles_close s); [apply Hok| |done]. unfold owned. cbn. rewrite E1, E2.
    by rewrite !app_assoc, <- Permutation_middle.
  - pose proof (size_close s (c_inst c)). pose proof (ok_size _ Hok). cbn. lia.
Qed.

Lemma peer_ok k b s s' : server_ok s -> peer_step k b s = Some s' -> server_ok s'.
Proof.
  intros Hok. unfold peer_step. destruct (clients s !! k) as [c|] eqn:Hk; [|done].
  destruct (c_pc c) eqn:Ep; try done; intros [= <-]; eapply move_ok; try done; unfold is_open; rewrite Ep;
    by destruct b.
Qed.

Lemma connect_ok i s s' : server_ok s -> connect_step i s = Some s' ->
  server_ok s' /\ acc s' = acc s /\ clients s' = clients s /\ stopping_ s' = stopping_ s /\ stop_pc s' = stop_pc s.
Proof.
  intros Hok. unfold connect_step. destruct (insts s !! i) as [[]|] eqn:Hi; try done. intros [= <-].
  split_and!; try done. eapply server_ok_same; try done; cbn.
  - eapply handles_perm; [apply Hok|done|]. cbn. rewrite dom_insert_lookup_L; [done|by eexists].
  - rewrite map_size_insert, Hi. apply Hok.
Qed.

Lemma stop_ok i s s' : server_ok s -> stop_step i s = Some s' -> server_ok s'.
Proof.
  intros Hok. pose proof Hok as [Hh Hz Hl Hs Hj Hf]. unfold stop_step. destruct (stop_pc s) eqn:Ep; try done.
  - intros [= <-]. split; cbn; try done. by intros [?|[?|?]].
  - assert (stopping_ s = true) as Est by by apply Hs.
    assert (forall a, acc_owned a = acc_owned (acc s) -> server_ok (set_stop SConnect (set_acc a s))) as Hgo.
    { intros a Ha. split; cbn; rewrite ?Est; try done; [|by intros [?|[?|?]]].
      eapply handles_perm; [exact Hh| |done]. unfold owned. cbn. by rewrite Ha. }
    assert (acc s = ADone -> server_ok (set_stop SJoined s)) as Hdone.
    { intros Ea. by split; cbn; rewrite ?Est. }
    destruct (acc s) eqn:Ea; intros [= <-]; [| | | | | | | |by apply Hdone];
      match goal with
      | |- server_ok (set_stop _ (set_acc _ _)) => by apply Hgo
      | |- _ => replace s with (set_acc (acc s) s) by (by destruct s); apply Hgo; by rewrite Ea
      end.
  - intros [= <-]. destruct (connect_step i s) as [s1|] eqn:Ec; cbn.
    + destruct (connect_ok i s s1 Hok Ec) as ([H1 H2 H3 H4 H5 H6] & E1 & E2 & E3 & E4).
      split; cbn; try done; [|by intros [?|[?|?]]]. intros _. rewrite E3. by apply Hs.
    + split; cbn; try done; [intros _; by apply Hs|by intros [?|[?|?]]].
  - intros [= <-]. split; cbn; try done; [|intros _; by apply Hs|intros _; apply Hj; auto].
    eapply handles_perm; [exact Hh| |done]. unfold owned. cbn. by rewrite client_owned_cancel.
  - destruct (forallb is_done (clients s)) eqn:Ed; [|done]. intros [= <-].
    assert (client_owned (clients s) = []) as Ec.
    { clear -Ed. induction (clients s) as [|[h p] l IH]; [done|]. cbn in Ed. apply andb_true_iff in Ed as [E1 E2].
      destruct p; try done. by apply IH. }
    split; cbn; try done; [|intros _; by apply Hs|intros _; apply Hj; auto].
    eapply handles_perm; [exact Hh| |done]. unfold owned. cbn. by rewrite Ec.
Qed.

Lemma reachable_ok s : reachable s -> server_ok s.
Proof.
  induction 1 as [|a s s' _ IH Hs]; [apply started_ok|]. destruct a; cbn in Hs.
  - by eapply acceptor_ok.
  - by eapply client_ok.
  - by eapply peer_ok.
  - by eapply connect_ok in Hs as [? _].
  - by eapply stop_ok.
Qed.

(** ** Properties *)

(** C14: Until the server is told to stop there is always an instance of the pipe that
    the acceptor holds, also while clients come and go, so a client that looks for
    the pipe finds it; and there are never more than eight. *)
Theorem pipe_always_there (s : server) (Hr : reachable s) :
  size (insts s) <= kMaxInstances /\
  (stopping_ s = false -> exists i, i ∈ acc_owned (acc s) /\ is_Some (insts s !! i) /\
     i ∉ client_owned (clients s)).
Proof.
  destruct (reachable_ok s Hr) as [[Hn Hd] Hz Hl _ _ _]. split; [done|]. intros Hs. specialize (Hl Hs).
  assert (exists i, i ∈ acc_owned (acc s)) as [i Hi].
  { destruct (acc s) as [[n|]|n|n c|conn c|conn c|conn c [n|]|[n|]|i|] eqn:Ea; try done; cbn; eexists; by left. }
  exists i. split; [done|]. unfold owned in *. apply NoDup_app in Hn as (_ & Hn & _). split; [|by apply Hn].
  apply elem_of_dom. rewrite Hd, elem_of_list_to_set. set_solver.
Qed.

(** C17: Every instance that is open is held by exactly one thread, the acceptor or the
    one thread that serves its client, and that thread closes it: none is closed
    twice and none is lost.  When [stop] has finished, every thread has been
    joined and no instance is left. *)
Theorem instances_owned_once (s : server) (Hr : reachable s) :
  NoDup (owned s) /\ (forall i, is_Some (insts s !! i) <-> i ∈ owned s) /\
  (stop_pc s = SFreed -> acc s = ADone /\ clients s = [] /\ insts s = ∅).
Proof.
  destruct (reachable_ok s Hr) as [[Hn Hd] _ _ _ Hj Hf]. split; [done|]. split.
  - intros i. by rewrite <- elem_of_dom, Hd, elem_of_list_to_set.
  - intros Hs. pose proof (Hj ltac:(auto)) as Ea. pose proof (Hf Hs) as Ec. split_and!; try done.
    apply dom_empty_iff_L. rewrite Hd. unfold owned. by rewrite Ea, Ec.
Qed.

(** How many steps the acceptor still makes once it is to stop. *)
Definition acc_measure (a : acceptor) : nat :=
  match a with
  | ARetry _ _ => 7
  | ANext _ _ => 6
  | AHandOff _ _ _ => 5
  | AReap _ => 4
  | ALoop _ | AConnect _ => 3
  | AChecked _ _ => 2
  | AClose _ => 1
  | ADone => 0
  end.

(** C18: Once the server is to stop, the acceptor ends: each of its steps brings it
    closer, no step of another thread takes it back, it never waits except for a
    client in ConnectNamedPipe, and there the next round of [stop]'s loop wakes
    it. *)
Theorem acceptor_ends_on_stop (s : server) (Hs : stopping_ s = true) :
  (forall a s', step a s = Some s' -> stopping_ s' = true /\ acc_measure (acc s') <= acc_measure (acc s) /\
     (forall b, a = Accept b -> acc_measure (acc s') < acc_measure (acc s))) /\
  (forall b, acc s <> ADone -> (forall n, acc s <> AConnect n) -> is_Some (acceptor_step b s)) /\
  (forall n i s', acc s = AConnect n -> stop_pc s = SCancel -> stop_step i s = Some s' ->
     acc s' = AChecked n false).
Proof.
  split_and!.
  - intros a s' H.
    assert (forall i s1, connect_step i s = Some s1 -> acc s1 = acc s /\ stopping_ s1 = stopping_ s) as Hcon.
    { intros i s1. unfold connect_step. destruct (insts s !! i) as [[]|]; try done. by intros [= <-]. }
    destruct a as [b|k b|k b|i|i]; cbn in H.
    + assert (stopping_ s' = true /\ acc_measure (acc s') < acc_measure (acc s)) as [? ?]; [|naive_solver lia].
      revert H. unfold acceptor_step. destruct (acc s) as [o|n|n c|conn c|conn c|conn c o|o|o|]; rewrite ?Hs;
        repeat case_match; try done; intros [= <-]; cbn; (split; [try done|lia]); by destruct o.
    + revert H. unfold client_step. destruct (clients s !! k) as [c|]; [|done].
      destruct (c_pc c); try done; intros [= <-]; cbn; naive_solver lia.
    + revert H. unfold peer_step. destruct (clients s !! k) as [c|]; [|done].
      destruct (c_pc c); try done; intros [= <-]; cbn; naive_solver lia.
    + apply Hcon in H as [-> ->]. naive_solver lia.
    + revert H. unfold stop_step. destruct (stop_pc s); [| |destruct (connect_step i s) as [s1|] eqn:Ec| | |done].
      * intros [= <-]. cbn. naive_solver lia.
      * destruct (acc s) eqn:Ea; intros [= <-]; cbn; rewrite ?Ea; cbn; naive_solver lia.
      * apply Hcon in Ec as [E1 E2]. intros [= <-]. cbn. rewrite E1, E2. naive_solver lia.
      * intros [= <-]. cbn. naive_solver lia.
      * intros [= <-]. cbn. naive_solver lia.
      * case_match; [|done]. intros [= <-]. cbn. naive_solver lia.
  - intros b H1 H2. unfold acceptor_step. destruct (acc s) as [o|n|n c|conn c|conn c|conn c o|o|o|]; first [done | by eexists | idtac].
    + by destruct (H2 n).
    + repeat case_match; by eexists.
  - intros n i s' Ea Ep. unfold stop_step. rewrite Ep, Ea. by intros [= <-].
Qed.

(** ** Where stopping hangs

    [stop] cancels the blocked I/O of the clients' threads once.  A thread that is
    in its handler at that moment goes on to wait for its client to close the
    pipe, and nothing wakes it any more: [stop] waits for that thread as long as
    the client keeps its end open. *)
Definition hung : list action :=
  [Accept false; Connects 0; Accept false; Accept false; Accept false; Accept false; Accept false;
   Peer 0 true; Stop 0; Accept false; Accept false; Stop 0; Stop 0; Client 0 true; Client 0 true].

Theorem stop_waits_for_client :
  exists s, run hung started = Some s /\ reachable s /\ stop_pc s = SReap /\
    clients s = [mkThread 0 CSink] /\
    (forall a s', step a s = Some s' -> (exists k b, a = Peer k b) \/ exists i, a = Connects i).
Proof.
  destruct (run hung started) as [s|] eqn:E; [|vm_compute in E; discriminate]. exists s. split; [done|].
  split; [by eapply run_reachable; [constructor|exact E]|].
  vm_compute in E. injection E as <-. split_and!; try done.
  intros [b|k b|k b|i|i] s'; cbn; try done; [|by eauto..].
  unfold client_step. cbn. destruct k as [|k]; [done|]. cbn. by destruct k.
Qed.

(** ** The properties at work *)

Definition serving : list action :=
  [Accept false; Connects 0; Accept false; Accept false; Accept false; Accept false; Peer 0 true].

Definition serving_state : server :=
  mkServer (AReap (Some 1)) [mkThread 0 CHandle] (<[1 := false]> {[0 := true]}) false SNot.

Lemma serving_reachable : reachable serving_state.
Proof. eapply (run_reachable serving); [constructor|]. vm_compute. reflexivity. Qed.

Lemma pipe_always_there_witness :
  exists i, i ∈ acc_owned (acc serving_state) /\ is_Some (insts serving_state !! i) /\
    i ∉ client_owned (clients serving_state).
Proof. exact (proj2 (pipe_always_there serving_state serving_reachable) eq_refl). Defined.

Lemma instances_owned_once_witness : NoDup (owned serving_state) /\ owned serving_state = [1; 0].
Proof. split; [exact (proj1 (instances_owned_once serving_state serving_reachable))|reflexivity]. Defined.

Lemma acceptor_ends_on_stop_witness :
  exists s, stop_step 0 serving_state = Some s /\ is_Some (acceptor_step false s).
Proof.
  eexists. split; [reflexivity|].
  apply (acceptor_ends_on_stop (mkServer (AReap (Some 1)) [mkThread 0 CHandle] (<[1 := false]> {[0 := true]}) true SCancel)
    eq_refl); [discriminate|intros n; discriminate].
Defined.
