(* ===== verification/Main.v ===== *)
(** * The command line (src/main.cpp)

    Option parsing, the commands [inventory], [vuln], [report], [version], [run]
    and [service], and the dispatch of [main].  Files are a function from
    paths to contents; what the collectors return is an argument; a command
    returns its exit code, what it writes to standard output and the log calls
    it makes. *)
From S2P Require Import Prelude CppStd Double Vercmp Json Log Inventory Algorithms Cve Frame.
From S2P Require Import Spool SpoolLemmas SpoolQueue SpoolSpec Transport Reporter Agent.
From Stdlib Require Import Ascii.

#[local] Open Scope Z_scope.

(** ** Options *)

Definition kDefaultPipe : str := lit "\\.\pipe\nano-sensor".

Definition default_options : Options :=
  mkOptions false (lit "data/cve_index.tsv") (lit "data/cpe_aliases.tsv") []
    [] [] [] [] [] (lit "spool") (64 * 1024 * 1024) 32 6 0 false 300 [] [] [] kDefaultPipe (lit "none") 120.

Definition set_pretty (o : Options) : Options :=
  mkOptions true (index_path o) (alias_path o) (packages_path o) (o_url o) (client_cert o) (client_key o)
    (pin o) (pin_file o) (spool_dir o) (spool_max_bytes o) (batch_size o) (max_attempts o) (synthetic o)
    (drain_only o) (interval_s o) (db o) (state_dir o) (log_file o) (pipe o) (fault o) (hang_timeout_s o).
Definition set_drain_only (o : Options) : Options :=
  mkOptions (pretty_ o) (index_path o) (alias_path o) (packages_path o) (o_url o) (client_cert o)
    (client_key o) (pin o) (pin_file o) (spool_dir o) (spool_max_bytes o) (batch_size o) (max_attempts o)
    (synthetic o) true (interval_s o) (db o) (state_dir o) (log_file o) (pipe o) (fault o) (hang_timeout_s o).

(** The options that take a value, in the order of the code's tests, with what
    each stores. *)
Inductive value_flag :=
| FIndex | FAliases | FPackages | FUrl | FClientCert | FClientKey | FPin | FPinFile | FSpool
| FSpoolMax | FBatch | FMaxAttempts | FSynthetic | FInterval | FDb | FStateDir | FLogFile | FPipe
| FHangTimeout | FFault.

#[global] Instance value_flag_eq_dec : EqDecision value_flag.
Proof. solve_decision. Defined.

Definition flag_name (f : value_flag) : str :=
  match f with
  | FIndex => lit "--index" | FAliases => lit "--aliases" | FPackages => lit "--packages"
  | FUrl => lit "--url" | FClientCert => lit "--client-cert" | FClientKey => lit "--client-key"
  | FPin => lit "--pin" | FPinFile => lit "--pin-file" | FSpool => lit "--spool"
  | FSpoolMax => lit "--spool-max-bytes" | FBatch => lit "--batch-size"
  | FMaxAttempts => lit "--max-attempts" | FSynthetic => lit "--synthetic"
  | FInterval => lit "--interval" | FDb => lit "--db" | FStateDir => lit "--state-dir"
  | FLogFile => lit "--log-file" | FPipe => lit "--pipe" | FHangTimeout => lit "--hang-timeout"
  | FFault => lit "--inject-fault"
  end.

Definition value_flags : list value_flag :=
  [FIndex; FAliases; FPackages; FUrl; FClientCert; FClientKey; FPin; FPinFile; FSpool; FSpoolMax; FBatch;
   FMaxAttempts; FSynthetic; FInterval; FDb; FStateDir; FLogFile; FPipe; FHangTimeout; FFault].

Definition set_flag (f : value_flag) (v : str) (o : Options) : Options :=
  let pick {A} (g : value_flag) (new old : A) : A := if bool_decide (f = g) then new else old in
  mkOptions (pretty_ o) (pick FIndex v (index_path o)) (pick FAliases v (alias_path o))
    (pick FPackages v (packages_path o)) (pick FUrl v (o_url o)) (pick FClientCert v (client_cert o))
    (pick FClientKey v (client_key o)) (pick FPin v (pin o)) (pick FPinFile v (pin_file o))
    (pick FSpool v (spool_dir o)) (pick FSpoolMax (strtoull10 v) (spool_max_bytes o))
    (pick FBatch (strtoull10 v) (batch_size o)) (pick FMaxAttempts (atoi v) (max_attempts o))
    (pick FSynthetic (atoi v) (synthetic o)) (drain_only o) (pick FInterval (atoi v) (interval_s o))
    (pick FDb v (db o)) (pick FStateDir v (state_dir o)) (pick FLogFile v (log_file o))
    (pick FPipe v (pipe o)) (pick FFault v (fault o)) (pick FHangTimeout (atoi v) (hang_timeout_s o)).

(** How the parsing of the flags ends: options and log level, or an exit code
    with the text on standard error ([None] for the usage text). *)
Inductive parsed :=
| Parsed (o : Options) (lg : log_state)
| Exit (rc : Z) (message : option str).

Definition needs_value (arg : str) : parsed := Exit 2 (Some (arg ++ lit " needs a value" ++ [nl])).

Fixpoint parse_args (args : list str) (o : Options) (lg : log_state) : parsed :=
  match args with
  | [] => Parsed o lg
  | arg :: rest =>
      if str_eqb arg (lit "--pretty") then parse_args rest (set_pretty o) lg
      else if str_eqb arg (lit "--log-level") then
        match rest with
        | [] => needs_value arg
        | v :: rest' =>
            let '(known, lg) := log_set_level_by_name v lg in
            if known then parse_args rest' o lg
            else Exit 2 (Some (lit "unknown log level: " ++ v ++ [nl]))
        end
      else if str_eqb arg (lit "--drain-only") then parse_args rest (set_drain_only o) lg
      else
        match List.find (fun f => str_eqb arg (flag_name f)) value_flags with
        | Some f =>
            match rest with
            | [] => needs_value arg
            | v :: rest' => parse_args rest' (set_flag f v o) lg
            end
        | None =>
            if str_eqb arg (lit "-h") || str_eqb arg (lit "--help") then Exit 0 None
            else Exit 2 (Some (lit "unknown option: " ++ arg ++ [nl]))
        end
  end.

(** ** Dispatch *)

Inductive command := CInventory | CVuln | CReport | CRun | CService (action : str) | CVersion.

Inductive outcome :=
| Do (c : command) (o : Options) (lg : log_state)
| Stop (rc : Z) (message : option str).

(** [argv] without the program's name. *)
Definition main_ (argv : list str) (lg : log_state) : outcome :=
  match argv with
  | [] => Stop 2 None
  | cmd :: rest =>
      let service := str_eqb cmd (lit "service") in
      match parse_args (if service then tail rest else rest) default_options lg with
      | Exit rc m => Stop rc m
      | Parsed o lg =>
          if str_eqb cmd (lit "inventory") then Do CInventory o lg
          else if str_eqb cmd (lit "vuln") then Do CVuln o lg
          else if str_eqb cmd (lit "report") then Do CReport o lg
          else if str_eqb cmd (lit "run") then Do CRun o lg
          else if service then
            match rest with
            | [] => Stop 2 (Some (lit "service needs install or uninstall" ++ [nl]))
            | action :: _ => Do (CService action) o lg
            end
          else if str_eqb cmd (lit "version") then Do CVersion o lg
          else if str_eqb cmd (lit "-h") || str_eqb cmd (lit "--help") then Stop 0 None
          else Stop 2 (Some (lit "unknown command: " ++ cmd ++ [nl]))
      end
  end.

(** ** Commands that print *)

Definition cmd_version (platform : str) : Z * str :=
  (0, kAgentName ++ lit " " ++ kAgentVersion ++ lit " (" ++ kAgentStage ++ lit ", " ++ platform ++
      lit " backend)" ++ [nl]).

Definition cmd_inventory (o : Options) (inv : Inventory) : Z * str := (0, to_json inv (pretty_ o) ++ [nl]).

(** [load_package_list]: a line is [name<TAB>version]; the rest is ignored. *)
Definition package_of_line (line : str) : list Package :=
  if is_comment_or_blank line then []
  else
    let c := getlines tab line in
    match nth 0 c [] with
    | [] => []
    | name => [mkPackage name (nth 1 c []) [] (lit "package-list")]
    end.

Definition load_package_list (file : option str) (inv : Inventory) : option Inventory :=
  match file with
  | None => None
  | Some text =>
      Some (mkInventory (agent_name inv) (agent_version inv) (agent_stage inv) (inv_platform inv)
        (collected_at_unix_ms inv) (collect_duration_ms inv) (host inv) (interfaces inv) (sockets inv)
        (processes inv) (packages inv ++ (getlines nl text ≫= package_of_line)) (warnings inv))
  end.

Section Vuln.
Context {HS : StdSort} {HU : UnorderedIter}.

(** [live] is what [collect_inventory] returns, [now] the clock. *)
Definition cmd_vuln (files : str -> option str) (platform : str) (now : Z) (live : Inventory)
    (o : Options) : Z * str * list log_call :=
  match load_rules (index_path o) (files (index_path o)) new_index with
  | (_, Some err) => (1, [], [(Error, lit "cve index load failed", [(lit "error", err)])])
  | (idx, None) =>
      match load_aliases (alias_path o) (files (alias_path o)) idx with
      | (_, Some err) => (1, [], [(Error, lit "alias table load failed", [(lit "error", err)])])
      | (idx, None) =>
          let loaded := (Info, lit "cve index loaded",
            [(lit "rules", to_string (rule_count idx)); (lit "products", to_string (product_count idx));
             (lit "aliases", to_string (alias_count idx))]) in
          let inv :=
            match packages_path o with
            | [] => Some live
            | p => load_package_list (files p)
                     (mkInventory [] [] [] platform (unix_time_ms now) 0 default_host [] [] [] [] [])
            end in
          match inv with
          | None =>
              (1, [], [loaded; (Error, lit "cannot read package list", [(lit "path", packages_path o)])])
          | Some inv =>
              let '(fs, summary) := scan idx inv new_summary in
              (0, findings_to_json fs summary inv (pretty_ o) ++ [nl],
               [loaded; (Info, lit "vulnerability scan complete",
                  [(lit "findings", to_string (n_findings summary));
                   (lit "critical", to_string (critical summary));
                   (lit "exposed", to_string (exposed_findings summary))])])
          end
      end
  end.
End Vuln.

(** ** [report] *)

Section Report.
Context {W : Type} {HW : World W} {HUni : UniformInt} {HS : StdSort} {HU : UnorderedIter}.

(** [None] when the fuel for the drain loop runs out. *)
Definition cmd_report (fuel : nat) (files : str -> option str) (make : TransportConfig -> option str)
    (r1 r2 : Z) (live : Inventory) (o : Options) (s : Spool) (w : W)
    : option (Z * str * list log_call * Spool * W) :=
  match o_url o with
  | [] => Some (2, [], [], s, w)
  | _ =>
      match reporter_init o (files (pin_file o)) s make r1 r2 with
      | inr (err, s) =>
          Some (1, [], [(Error, lit "cannot start reporter; records remain spooled", [(lit "error", err)])], s, w)
      | inl r =>
          let '(collected, r, err, w) :=
            if drain_only o then (true, r, None, w) else collect r live w in
          if negb collected then
            Some (1, [], [(Error, lit "spool append failed", [(lit "error", default [] err)])], spool r, w)
          else
            match drain fuel r w with
            | None => None
            | Some (r, d, w, logs) =>
                let '(out, r) := print_stats r d (pretty_ o) in
                Some (report_exit d, out, logs, spool r, w)
            end
      end
  end.
End Report.

(** ** [run] *)

(** How the setup of [run] ends: an exit code with what it prints to standard
    output and standard error, or the agent's configuration with the reporter
    behind its inventory hook. *)
Inductive run_setup :=
| RunExit (rc : Z) (out err : str) (logs : list log_call)
| RunAgent (cfg : AgentConfig) (r : option Reporter) (logs : list log_call).

(** [log_ok]: the log file could be opened; [dumps_ok]: crash dumps could be
    installed. *)
Definition cmd_run (files : str -> option str) (make : TransportConfig -> option str) (r1 r2 : Z)
    (log_ok dumps_ok : bool) {HS : StdSort} {HU : UnorderedIter} (o : Options) (s : Spool) : run_setup :=
  if negb (empty (log_file o)) && negb log_ok then
    RunExit 1 (lit "cannot open log file " ++ log_file o ++ [nl]) [] []
  else
    let logs := if negb (empty (state_dir o)) && negb dumps_ok
                then [(Warn, lit "crash dumps not enabled on this platform", [])] else [] in
    match parse_fault (fault o) with
    | None => RunExit 2 [] (lit "unknown fault: " ++ fault o ++ [nl]) logs
    | Some f =>
        let cfg := mkAgentConfig (index_path o) (alias_path o) (db o) (pipe o) [] (interval_s o)
                     (hang_timeout_s o) f in
        if empty (o_url o) then RunAgent cfg None logs
        else
          match reporter_init o (files (pin_file o)) s make r1 r2 with
          | inr (err, _) =>
              RunExit 1 [] [] (logs ++ [(Error, lit "cannot start reporter", [(lit "error", err)])])
          | inl r => RunAgent cfg (Some r) logs
          end
    end.

(** The body handed to the service layer: how starting the agent ended, and the
    answers to the polls of [stop_requested]; the exit code with the number of
    waits of 200 ms.  [None]: not stopped yet. *)
Fixpoint wait_for_stop (fuel : nat) (stop_requested : nat -> bool) (n : nat) : option nat :=
  match fuel with
  | O => None
  | S f => if stop_requested n then Some n else wait_for_stop f stop_requested (S n)
  end.

Definition run_body (fuel : nat) (start_error : option str) (stop_requested : nat -> bool)
    : option (Z * nat * list log_call) :=
  match start_error with
  | Some err => Some (1, 0%nat, [(Error, lit "cannot start agent", [(lit "error", err)])])
  | None =>
      match wait_for_stop fuel stop_requested 0 with
      | None => None
      | Some n => Some (0, n, [(Info, lit "agent stopped cleanly", [])])
      end
  end.

(** The inventory hook: spool the report, then drain. *)
Definition on_inventory {W} {HW : World W} {HUni : UniformInt} (fuel : nat) (r : Reporter) (inv : Inventory)
    (w : W) : option (Reporter * W * list log_call) :=
  let '(okb, r, err, w) := append_inventory r inv w in
  let logs := if okb then [] else [(Error, lit "spool append failed", [(lit "error", default [] err)])] in
  match drain fuel r w with
  | None => None
  | Some (r, d, w, dlogs) =>
      let '(st, s) := stats io_ok (spool r) in
      Some (with_spool r s, w, logs ++ dlogs ++
        [(Info, lit "telemetry cycle",
          [(lit "sent", to_string (sent d)); (lit "pending", to_string (st_pending st))])])
  end.

(** ** [service install] *)

(** Quotes one argument of a Windows command line. *)
Definition quote_arg (s : str) : str :=
  if negb (empty s) && forallb (fun c => negb (elem_of_set [" "; "009"; quote]%char c)) s then s
  else [quote] ++ (s ≫= fun c => if Ascii.eqb c quote then [backslash; c] else [c]) ++ [quote].

(** The flags the installed service is started with, each with its value and
    whether the value is quoted; [abs] is [std::filesystem::absolute]. *)
Definition service_flags (abs : str -> str) (o : Options) : list (value_flag * bool * str) :=
  [(FIndex, true, abs (index_path o)); (FAliases, true, abs (alias_path o));
   (FInterval, false, to_string (interval_s o))] ++
  (if empty (state_dir o) then [] else
     [(FStateDir, true, abs (state_dir o)); (FLogFile, true, abs (state_dir o ++ lit "/agent.log"))]) ++
  (if empty (db o) then [] else [(FDb, true, db o)]) ++
  (if empty (o_url o) then [] else
     [(FUrl, true, o_url o); (FSpool, true, abs (spool_dir o))] ++
     (if empty (pin_file o) then [] else [(FPinFile, true, abs (pin_file o))]) ++
     (if empty (client_cert o) then [] else [(FClientCert, true, abs (client_cert o))])).

Definition service_args (abs : str -> str) (o : Options) : str :=
  lit "run" ++ (service_flags abs o ≫= fun '(f, q, v) =>
    lit " " ++ flag_name f ++ lit " " ++ if (q : bool) then quote_arg v else v).

(** [cmd_service]: [exe] is the path of the running program, [install] and
    [uninstall] the functions of the service layer ([Some] is their error).  The
    exit code, standard output and standard error. *)
Definition cmd_service (abs : str -> str) (name exe : str) (install : str -> str -> option str)
    (uninstall : option str) (o : Options) (action : str) : Z * str * str :=
  if str_eqb action (lit "install") then
    match install exe (service_args abs o) with
    | Some err => (1, [], lit "install failed: " ++ err ++ [nl])
    | None => (0, lit "installed the " ++ name ++ lit " service" ++ [nl], [])
    end
  else if str_eqb action (lit "uninstall") then
    match uninstall with
    | Some err => (1, [], lit "uninstall failed: " ++ err ++ [nl])
    | None => (0, lit "removed the " ++ name ++ lit " service" ++ [nl], [])
    end
  else (2, [], lit "unknown service action: " ++ action ++ lit " (expected install|uninstall)" ++ [nl]).

(** ** How Windows hands a command line to [main]

    The C runtime's documented rules: words end at a space or tab outside quotes;
    2n backslashes before a quote stand for n backslashes and the quote opens or
    closes, 2n+1 for n backslashes and a literal quote; other backslashes are
    literal; two quotes inside a quoted part are a literal quote.  [bs] counts the
    backslashes just read, [cur] is the word being read. *)
Definition word_so_far (cur : option str) (bs : nat) : str := default [] cur ++ replicate bs backslash.

Fixpoint split_from (s : str) (bs : nat) (inq : bool) (cur : option str) : list str :=
  match s with
  | [] => match cur, bs with None, O => [] | _, _ => [word_so_far cur bs] end
  | c :: s' =>
      if Ascii.eqb c backslash then split_from s' (S bs) inq cur
      else if Ascii.eqb c quote then
        let w := word_so_far cur (Nat.div2 bs) in
        if Nat.odd bs then split_from s' 0 inq (Some (w ++ [quote]))
        else
          match s' with
          | c' :: s'' =>
              if inq && Ascii.eqb c' quote then split_from s'' 0 true (Some (w ++ [quote]))
              else split_from s' 0 (negb inq) (Some w)
          | [] => split_from s' 0 (negb inq) (Some w)
          end
      else if negb inq && elem_of_set [" "; "009"]%char c then
        match cur, bs with
        | None, O => split_from s' 0 false None
        | _, _ => word_so_far cur bs :: split_from s' 0 false None
        end
      else split_from s' 0 inq (Some (word_so_far cur bs ++ [c]))
  end.

Definition split_command_line (s : str) : list str := split_from s 0 false None.

(** ** Lemmas: quoting and splitting *)

(** No quote and no end of the text right after a backslash. *)
Fixpoint no_trap (slash : bool) (s : str) : bool :=
  match s with
  | [] => negb slash
  | c :: s' =>
      if Ascii.eqb c quote then negb slash && no_trap false s' else no_trap (Ascii.eqb c backslash) s'
  end.

Definition plain_arg (s : str) : bool :=
  negb (empty s) && forallb (fun c => negb (elem_of_set [" "; "009"; quote]%char c)) s.

(** The arguments [quote_arg] gets right: those it leaves alone, and those with
    no backslash before a quote or at the end. *)
Definition quotable (s : str) : bool := plain_arg s || no_trap false s.

(** [t] is read back as the one word [w]. *)
Definition reads_as (t w : str) : Prop :=
  split_command_line t = [w] /\
  forall r, split_command_line (t ++ " "%char :: r) = w :: split_command_line r.

Lemma word_so_far_slash cur bs s :
  word_so_far cur (S bs) ++ s = word_so_far cur bs ++ backslash :: s.
Proof. unfold word_so_far. rewrite replicate_S_end, <- !app_assoc. done. Qed.

Lemma word_so_far_char w c s : word_so_far (Some (w ++ [c])) 0 ++ s = w ++ c :: s.
Proof. unfold word_so_far. cbn. by rewrite app_nil_r, <- app_assoc. Qed.

Lemma split_escaped s bs cur r :
  no_trap (negb (bs =? 0)%nat) s = true ->
  split_from ((s ≫= fun c => if Ascii.eqb c quote then [backslash; c] else [c]) ++ quote :: r) bs true cur
  = split_from (quote :: r) 0 true (Some (word_so_far cur bs ++ s)).
Proof.
  revert bs cur. induction s as [|c s IH]; intros bs cur Hn.
  - destruct bs; [|done]. rewrite app_nil_r. cbn. unfold word_so_far. cbn. by rewrite !app_nil_r.
  - rewrite bind_cons, <- app_assoc. cbn [no_trap] in Hn.
    destruct (Ascii.eqb_spec c quote) as [->|Hq].
    + apply andb_true_iff in Hn as [Hb Hn]. destruct bs as [|bs]; [|done].
      cbn [app split_from Ascii.eqb]. change (Ascii.eqb backslash backslash) with true.
      change (Ascii.eqb quote backslash) with false. change (Ascii.eqb quote quote) with true.
      cbn [Nat.odd Nat.even negb Nat.div2]. by rewrite IH, word_so_far_char by done.
    + cbn [app split_from]. destruct (Ascii.eqb_spec c backslash) as [->|Hb].
      * by rewrite IH, word_so_far_slash by done.
      * apply Ascii.eqb_neq in Hq. rewrite Hq. cbn [negb andb]. by rewrite IH, word_so_far_char by done.
Qed.

Lemma split_plain s bs cur :
  forallb (fun c => negb (elem_of_set [" "; "009"; quote]%char c)) s = true ->
  s <> [] \/ cur <> None \/ bs <> 0%nat ->
  split_from s bs false cur = [word_so_far cur bs ++ s] /\
  forall r, split_from (s ++ " "%char :: r) bs false cur = (word_so_far cur bs ++ s) :: split_command_line r.
Proof.
  revert bs cur. induction s as [|c s IH]; intros bs cur Hp Hs.
  - rewrite app_nil_r. destruct Hs as [|Hs]; [done|]. cbn.
    destruct cur, bs; try (split; intros; reflexivity). by destruct Hs.
  - cbn [forallb] in Hp. apply andb_true_iff in Hp as [Hc Hp]. apply negb_true_iff in Hc.
    unfold elem_of_set in Hc. cbn [existsb] in Hc. rewrite !orb_false_iff in Hc.
    destruct Hc as (Hs1 & Hs2 & Hq & _). cbn [app split_from]. rewrite Hq.
    unfold elem_of_set. cbn [existsb]. rewrite Hs1, Hs2. cbn [negb andb orb].
    destruct (Ascii.eqb_spec c backslash) as [->|Hb].
    + destruct (IH (S bs) cur Hp ltac:(right; right; done)) as [H1 H2].
      rewrite word_so_far_slash in H1. split; [exact H1|]. intros r. by rewrite H2, word_so_far_slash.
    + destruct (IH 0%nat (Some (word_so_far cur bs ++ [c])) Hp ltac:(right; left; done)) as [H1 H2].
      rewrite word_so_far_char in H1. split; [exact H1|]. intros r. by rewrite H2, word_so_far_char.
Qed.

Lemma reads_plain s : plain_arg s = true -> reads_as s s.
Proof.
  unfold plain_arg. rewrite andb_true_iff. intros [Hne Hp].
  destruct (split_plain s 0 None Hp) as [H1 H2]; [left; by intros ->|]. split; [exact H1|exact H2].
Qed.

Lemma reads_quote_arg s : quotable s = true -> reads_as (quote_arg s) s.
Proof.
  unfold quotable, quote_arg. fold (plain_arg s). destruct (plain_arg s) eqn:E; [intros _; by apply reads_plain|].
  cbn [orb]. intros Hn. unfold reads_as, split_command_line. split; [|intros r].
  - cbn [app split_from]. change (Ascii.eqb quote backslash) with false.
    change (Ascii.eqb quote quote) with true. cbn [Nat.odd Nat.even negb andb].
    destruct (_ ++ [quote]) as [|c' s''] eqn:Es; [by destruct (s ≫= _)|]. rewrite <- Es.
    rewrite split_escaped by done. unfold word_so_far. cbn. by rewrite !app_nil_r.
  - cbn [app split_from]. change (Ascii.eqb quote backslash) with false.
    change (Ascii.eqb quote quote) with true. cbn [Nat.odd Nat.even negb andb]. rewrite <- app_assoc. cbn [app].
    destruct (_ ++ quote :: _) as [|c' s''] eqn:Es; [by destruct (s ≫= _)|]. rewrite <- Es.
    rewrite split_escaped by done. unfold word_so_far. cbn. by rewrite !app_nil_r.
Qed.

(** A word followed by more words, each after a space. *)
Lemma reads_words t w (l : list (str * str)) :
  reads_as t w -> Forall (fun p => reads_as p.1 p.2) l ->
  split_command_line (t ++ (l ≫= fun p => " "%char :: p.1)) = w :: (snd <$> l).
Proof.
  intros Ht Hl. revert t w Ht. induction Hl as [|[t' w'] l Hp Hl IH]; intros t w [H1 H2].
  - cbn. by rewrite app_nil_r.
  - rewrite bind_cons. cbn [app]. rewrite H2, (IH _ _ Hp). done.
Qed.

Lemma to_string_plain n : plain_arg (to_string n) = true.
Proof.
  assert (forall m, 0 <= m -> forallb (fun c => negb (elem_of_set [" "; "009"; quote]%char c)) (to_string_u m) = true)
    as Hd.
  { intros m Hm. destruct (to_string_u_spec m Hm) as (Hd & _ & _). apply forallb_forall.
    intros c Hc%list_elem_of_In. rewrite Forall_forall in Hd. specialize (Hd c Hc).
    destruct (elem_of_set _ c) eqn:E; [|done]. unfold elem_of_set in E. apply existsb_exists in E as (x & Hx & E).
    apply Ascii.eqb_eq in E as ->. by repeat (destruct Hx as [<-|Hx]; [vm_compute in Hd|]). }
  unfold plain_arg, to_string. destruct (Z.ltb_spec n 0).
  - cbn [forallb empty negb andb]. rewrite Hd by lia. done.
  - rewrite Hd by lia. destruct (to_string_u_spec n) as (_ & _ & Hne); [lia|]. by destruct (to_string_u n).
Qed.

(** ** Lemmas: options *)

Definition flags_argv (l : list (value_flag * str)) : list str := l ≫= fun '(f, v) => [flag_name f; v].

Definition set_flags (l : list (value_flag * str)) (o : Options) : Options :=
  fold_left (fun o '(f, v) => set_flag f v o) l o.

Lemma parse_args_flag f v rest o lg :
  parse_args (flag_name f :: v :: rest) o lg = parse_args rest (set_flag f v o) lg.
Proof. by destruct f. Qed.

Lemma parse_args_flags_app l rest o lg :
  parse_args (flags_argv l ++ rest) o lg = parse_args rest (set_flags l o) lg.
Proof.
  revert o. induction l as [|[f v] l IH]; intros o; [done|].
  unfold flags_argv. rewrite bind_cons, <- app_assoc. cbn [app].
  rewrite parse_args_flag. apply IH.
Qed.

Lemma atoi_to_string n : - 2 ^ 31 <= n < 2 ^ 31 -> atoi (to_string n) = n.
Proof. intros Hn. unfold atoi. rewrite strtoll10_to_string by lia. by apply i32_small. Qed.

(** The options of the installed service: what [service install] writes down,
    everything else at its default. *)
Definition installed (abs : str -> str) (o : Options) : Options :=
  let when (c : str) (new old : str) : str := if empty c then old else new in
  let sends := o_url o in
  mkOptions false (abs (index_path o)) (abs (alias_path o)) []
    (o_url o) (when sends (when (client_cert o) (abs (client_cert o)) []) []) [] []
    (when sends (when (pin_file o) (abs (pin_file o)) []) []) (when sends (abs (spool_dir o)) (lit "spool"))
    (64 * 1024 * 1024) 32 6 0 false (interval_s o) (db o)
    (when (state_dir o) (abs (state_dir o)) []) (when (state_dir o) (abs (state_dir o ++ lit "/agent.log")) [])
    kDefaultPipe (lit "none") 120.

Lemma set_service_flags abs o :
  - 2 ^ 31 <= interval_s o < 2 ^ 31 ->
  set_flags ((fun '(f, _, v) => (f, v)) <$> service_flags abs o) default_options = installed abs o.
Proof.
  intros Hi. unfold service_flags, installed.
  destruct (state_dir o), (db o), (o_url o) eqn:Eu; try destruct (pin_file o), (client_cert o);
    rewrite <- (atoi_to_string _ Hi) at 2; reflexivity.
Qed.

Lemma service_flags_unquoted abs o :
  Forall (fun '(_, q, v) => q = false -> plain_arg v = true) (service_flags abs o).
Proof.
  unfold service_flags. destruct (empty (state_dir o)), (empty (db o)), (empty (o_url o)),
    (empty (pin_file o)), (empty (client_cert o));
    repeat constructor; try done; intros _; apply to_string_plain.
Qed.

Lemma service_args_words abs o :
  service_args abs o = lit "run" ++
    ((service_flags abs o ≫= fun '(f, q, v) =>
       [(flag_name f, flag_name f); (if (q : bool) then quote_arg v else v, v)])
     ≫= fun p => " "%char :: p.1).
Proof.
  unfold service_args. f_equal. induction (service_flags abs o) as [|[[f q] v] fs IH]; [done|].
  rewrite !bind_cons, IH, bind_app, !bind_cons. cbn [fst app]. rewrite !app_nil_r, <- !app_assoc. done.
Qed.

Lemma service_args_split abs o :
  Forall (fun '(_, q, v) => q = true -> quotable v = true) (service_flags abs o) ->
  split_command_line (service_args abs o) =
  lit "run" :: flags_argv ((fun '(f, _, v) => (f, v)) <$> service_flags abs o).
Proof.
  intros Hq. rewrite service_args_words, (reads_words _ (lit "run")).
  - f_equal. unfold flags_argv. clear. induction (service_flags abs o) as [|[[f q] v] fs IH]; [done|].
    cbn. by rewrite <- IH.
  - by apply reads_plain.
  - pose proof (service_flags_unquoted abs o) as Hu.
    induction (service_flags abs o) as [|[[f q] v] fs IH]; [done|].
    apply Forall_cons_iff in Hq as [Hq1 Hq2], Hu as [Hu1 Hu2]. rewrite bind_cons. apply Forall_app.
    split; [|auto]. constructor; [apply reads_plain; by destruct f|]. constructor; [|done].
    destruct q; [by apply reads_quote_arg, Hq1|by apply reads_plain, Hu1].
Qed.

(** The installed command line, split again and parsed. *)
Lemma installed_main abs o lg :
  - 2 ^ 31 <= interval_s o < 2 ^ 31 ->
  Forall (fun '(_, q, v) => q = true -> quotable v = true) (service_flags abs o) ->
  main_ (split_command_line (service_args abs o)) lg = Do CRun (installed abs o) lg.
Proof.
  intros Hi Hq. rewrite service_args_split by done. unfold main_.
  change (str_eqb (lit "run") (lit "service")) with false. cbn iota.
  rewrite <- (app_nil_r (flags_argv _)), parse_args_flags_app, set_service_flags by done. done.
Qed.

Lemma bind_fmap_list {A B C} (f : A -> B) (g : B -> list C) (l : list A) :
  (f <$> l) ≫= g = l ≫= fun x => g (f x).
Proof. induction l as [|x l IH]; [done|]. rewrite fmap_cons, !bind_cons. by rewrite IH. Qed.

(** ** Properties *)

(** Arguments that [quote_arg] writes one after the other into a command line
    come out of the C runtime's splitting as themselves, provided none that needs
    quotes has a backslash right before a quote or at its end. *)
Theorem quote_arg_roundtrip (ss : list str) (Hq : Forall (fun s => quotable s = true) ss) :
  split_command_line (join (quote_arg <$> ss)) = ss.
Proof.
  destruct ss as [|s ss]; [done|]. apply Forall_cons_iff in Hq as [Hs Hss].
  pose proof (reads_words _ _ ((fun s => (quote_arg s, s)) <$> ss) (reads_quote_arg s Hs)) as H.
  rewrite bind_fmap_list in H. rewrite fmap_cons. cbn [join]. rewrite bind_fmap_list. cbn [fst] in H.
  rewrite H, <- list_fmap_compose; [f_equal; apply list_fmap_id|].
  apply Forall_fmap. eapply Forall_impl; [exact Hss|]. intros x Hx. by apply reads_quote_arg.
Qed.

(** The service that [service install] registers starts as [run] with the
    index, aliases, interval, state directory, log file, database, endpoint, spool,
    pin file and client certificate of the installing command, paths made
    absolute; every other option is back at its default. *)
Theorem service_install_starts_run (abs : str -> str) (o : Options) (lg : log_state)
  (Hi : - 2 ^ 31 <= interval_s o < 2 ^ 31)
  (Hq : Forall (fun '(_, q, v) => q = true -> quotable v = true) (service_flags abs o)) :
  main_ (split_command_line (service_args abs o)) lg = Do CRun (installed abs o) lg.
Proof. by apply installed_main. Qed.

(** Options given as a flag and its value are stored in the order given, a
    later one overwriting an earlier one; a value flag at the very end, or a word
    that is no option, stops the program with exit code 2 and a message that names
    it. *)
Theorem parse_args_pairs (l : list (value_flag * str)) (f : value_flag) (w : str) (rest : list str)
  (o : Options) (lg : log_state) (Hw : starts_with (lit "-") w = false) :
  parse_args (flags_argv l) o lg = Parsed (set_flags l o) lg /\
  parse_args (flags_argv l ++ [flag_name f]) o lg
    = Exit 2 (Some (flag_name f ++ lit " needs a value" ++ [nl])) /\
  parse_args (flags_argv l ++ w :: rest) o lg = Exit 2 (Some (lit "unknown option: " ++ w ++ [nl])).
Proof.
  split_and!; [rewrite <- (app_nil_r (flags_argv l))| |]; rewrite parse_args_flags_app; [done|by destruct f|].
  assert (forall t, starts_with (lit "-") t = true -> str_eqb w t = false) as Hno.
  { intros t Ht. apply str_eqb_neq. intros ->. congruence. }
  cbn [parse_args List.find value_flags flag_name]. rewrite !Hno by done. done.
Qed.

Lemma parse_args_pairs_witness :
  exists o, parse_args (flags_argv [(FUrl, lit "https://a/"); (FBatch, lit "7"); (FUrl, lit "https://b/")])
    default_options (mkLog Info []) = Parsed o (mkLog Info []) /\ o_url o = lit "https://b/" /\ batch_size o = 7.
Proof.
  eexists. split; [|split].
  - exact (proj1 (parse_args_pairs [(FUrl, lit "https://a/"); (FBatch, lit "7"); (FUrl, lit "https://b/")]
      FPin (lit "x") [] default_options (mkLog Info []) eq_refl)).
  - reflexivity.
  - vm_compute. reflexivity.
Defined.

(** A Linux-like absolute path, and options with a pin given on the command line. *)
Definition sample_abs (p : str) : str := lit "C:\Program Files\ns\" ++ p.

Definition install_options : Options :=
  set_flags [(FUrl, lit "https://cloud/ingest"); (FPin, lit "ab12"); (FStateDir, lit "state")] default_options.

Lemma quote_arg_roundtrip_witness :
  split_command_line (lit "run " ++ quote_arg (lit "C:\Program Files\x")) = [lit "run"; lit "C:\Program Files\x"].
Proof.
  apply (quote_arg_roundtrip [lit "run"; lit "C:\Program Files\x"]).
  repeat constructor.
Defined.

Lemma service_install_starts_run_witness :
  main_ (split_command_line (service_args sample_abs install_options)) (mkLog Info [])
  = Do CRun (installed sample_abs install_options) (mkLog Info []).
Proof.
  apply service_install_starts_run; [vm_compute; split; congruence|].
  repeat constructor; intros _; vm_compute; reflexivity.
Defined.

(** A pin given with --pin is not part of what [service install] writes
    down: the installed service starts [run] with the endpoint and without a pin,
    where the reporter refuses to start and the process ends with exit code 1. *)
Theorem service_install_loses_pin {HS : StdSort} {HU : UnorderedIter} (abs : str -> str) (o : Options)
  (lg : log_state)
  (Hi : - 2 ^ 31 <= interval_s o < 2 ^ 31)
  (Hq : Forall (fun '(_, q, v) => q = true -> quotable v = true) (service_flags abs o))
  (Hu : o_url o <> []) (Hf : pin_file o = []) :
  exists o', main_ (split_command_line (service_args abs o)) lg = Do CRun o' lg /\
    forall files make r1 r2 s, exists logs,
      cmd_run files make r1 r2 true true o' s
      = RunExit 1 [] [] (logs ++ [(Error, lit "cannot start reporter",
                                   [(lit "error", lit "report needs --pin or --pin-file")])]).
Proof.
  exists (installed abs o). split; [by apply installed_main|]. intros files make r1 r2 s. exists [].
  unfold cmd_run. cbn [negb andb]. rewrite !andb_false_r.
  change (parse_fault (fault (installed abs o))) with (Some FaultNone).
  unfold reporter_init, installed. cbn [o_url pin pin_file]. rewrite Hf.
  by destruct (o_url o).
Qed.

Lemma service_install_loses_pin_witness :
  pin install_options = lit "ab12" /\
  exists o', main_ (split_command_line (service_args sample_abs install_options)) (mkLog Info [])
               = Do CRun o' (mkLog Info []) /\
    forall files make r1 r2 s, exists logs,
      cmd_run files make r1 r2 true true o' s
      = RunExit 1 [] [] (logs ++ [(Error, lit "cannot start reporter",
                                   [(lit "error", lit "report needs --pin or --pin-file")])]).
Proof.
  split; [reflexivity|]. apply (service_install_loses_pin sample_abs install_options).
  - vm_compute. split; congruence.
  - repeat constructor; intros _; vm_compute; reflexivity.
  - vm_compute. congruence.
  - reflexivity.
Defined.

(** A quoted argument that ends in a backslash escapes its own closing quote, and
    the flags after it become part of the argument. *)
Example quote_arg_trailing_backslash :
  split_command_line (lit "run --state-dir " ++ quote_arg (lit "C:\my state\") ++ lit " --db " ++
    quote_arg (lit "DSN=ns"))
  = [lit "run"; lit "--state-dir"; lit "C:\my state" ++ [quote] ++ lit " --db DSN=ns"].
Proof. vm_compute. reflexivity. Qed.

(** ** [vuln --packages] *)

(** A package list as it is written: one [name<TAB>version] per line. *)
Definition listing (ps : list (str * str)) : str :=
  concat ((fun l => l ++ [nl]) <$> ((fun '(n, v) => n ++ tab :: v) <$> ps)).

Definition one_field (s : str) : Prop := Forall (fun c => Ascii.eqb c tab = false /\ Ascii.eqb c nl = false) s.

Definition listable (p : str * str) : Prop :=
  one_field p.1 /\ one_field p.2 /\ match p.1 with [] => False | c :: _ => c <> "#"%char end.

Definition listed (p : str * str) : Package := mkPackage p.1 p.2 [] (lit "package-list").

Lemma getlines_one d s : Forall (fun c => Ascii.eqb c d = false) s -> nth 0 (getlines d s) [] = s.
Proof.
  intros Hs. unfold getlines.
  assert (forall cur st, (st = false -> cur = []) -> nth 0 (getlines_from d s cur st) [] = cur ++ s) as H;
    [|by apply H].
  induction Hs as [|c s Hc Hs IH]; intros cur st Hst; simpl.
  - rewrite app_nil_r. destruct st; [done|by rewrite Hst].
  - rewrite Hc, IH by done. by rewrite <- app_assoc.
Qed.

Lemma package_of_listed p : listable p -> package_of_line (p.1 ++ tab :: p.2) = [listed p].
Proof.
  destruct p as [n v]. unfold listable, listed. cbn [fst snd]. intros (Hn & Hv & Hc).
  unfold package_of_line. rewrite getlines_cons by (eapply Forall_impl; [exact Hn|]; by intros c [? _]).
  destruct n as [|c n]; [done|]. cbn [app is_comment_or_blank nth].
  destruct (Ascii.eqb_spec c "#"); [done|]. rewrite getlines_one; [done|].
  eapply Forall_impl; [exact Hv|]. by intros ? [? _].
Qed.

Lemma listing_packages ps :
  Forall listable ps -> getlines nl (listing ps) ≫= package_of_line = listed <$> ps.
Proof.
  intros Hps. unfold listing. rewrite getlines_concat.
  - rewrite bind_fmap_list. induction Hps as [|[n v] ps Hp _ IH]; [done|].
    rewrite bind_cons, fmap_cons, IH. apply package_of_listed in Hp. cbn [fst snd] in Hp. by rewrite Hp.
  - apply Forall_fmap. eapply Forall_impl; [exact Hps|]. intros [n v] (Hn & Hv & _). cbn.
    apply Forall_app. split; [|constructor; [done|]]; eapply Forall_impl; [exact Hn| |exact Hv|]; by intros ? [_ ?].
Qed.

Section VulnProperties.
Context {HS : StdSort} {HU : UnorderedIter}.

(** [vuln --packages] scans exactly the packages written in the list, each
    with its version, in order, and prints the report of that scan and a newline
    with exit code 0; when the list cannot be read it prints nothing and exits
    with 1. *)
Theorem vuln_scans_listed_packages (files : str -> option str) (platform : str) (now : Z)
  (live : Inventory) (o : Options) (idx1 idx : CveIndex) (ps : list (str * str))
  (Hr : load_rules (index_path o) (files (index_path o)) new_index = (idx1, None))
  (Ha : load_aliases (alias_path o) (files (alias_path o)) idx1 = (idx, None))
  (Hp : packages_path o <> []) (Hps : Forall listable ps) :
  let host_of ps := mkInventory [] [] [] platform (unix_time_ms now) 0 default_host [] [] []
                      (listed <$> ps) [] in
  (files (packages_path o) = Some (listing ps) ->
   (cmd_vuln files platform now live o).1 =
   (0, let '(fs, summary) := scan idx (host_of ps) new_summary in
       findings_to_json fs summary (host_of ps) (pretty_ o) ++ [nl])) /\
  (files (packages_path o) = None -> (cmd_vuln files platform now live o).1 = (1, [])).
Proof.
  intros host_of. unfold cmd_vuln. rewrite Hr, Ha.
  destruct (packages_path o) as [|c p] eqn:E; [done|]. split; intros ->; [|done].
  cbn [load_package_list packages agent_name agent_version agent_stage inv_platform collected_at_unix_ms
    collect_duration_ms host interfaces sockets processes warnings].
  rewrite listing_packages by done. cbn [app]. fold (host_of ps). by destruct (scan idx (host_of ps) new_summary).
Qed.
End VulnProperties.

Lemma vuln_scans_listed_packages_witness :
  let files p := if str_eqb p (lit "data/cve_index.tsv") then Some sample_rules
                 else if str_eqb p (lit "data/cpe_aliases.tsv") then Some sample_aliases
                 else Some (listing [(lit "libssl1.1", lit "1.1.0")]) in
  let o := set_flags [(FPackages, lit "list.tsv")] default_options in
  (cmd_vuln files (lit "linux") 0 sample_inventory o).1.1 = 0.
Proof.
  intros files o.
  destruct (vuln_scans_listed_packages files (lit "linux") 0 sample_inventory o
    (load_rules (index_path o) (files (index_path o)) new_index).1
    (load_aliases (alias_path o) (files (alias_path o))
       (load_rules (index_path o) (files (index_path o)) new_index).1).1
    [(lit "libssl1.1", lit "1.1.0")]) as [H _].
  - vm_compute. reflexivity.
  - vm_compute. reflexivity.
  - done.
  - constructor; [|done]. split; [|split]; [repeat constructor..|]. vm_compute. congruence.
  - rewrite H by (vm_compute; reflexivity). done.
Defined.
