(* ===== verification/Usage.v ===== *)
(** * The usage text (src/main.cpp: usage)

    The text [usage] prints, line by line, and that it documents exactly the options
    the parser of Main.v accepts. *)
From S2P Require Import Prelude CppStd Double Vercmp Json Log Inventory Algorithms Cve Frame.
From S2P Require Import Spool SpoolLemmas SpoolQueue SpoolSpec Transport Reporter Agent Main.
From Stdlib Require Import Ascii.

#[local] Open Scope Z_scope.

Definition usage_lines : list str :=
  [kAgentName ++ lit " " ++ kAgentVersion ++ lit " (" ++ kAgentStage ++ lit ")";
   [];
   lit "usage: nano-sensor <command> [options]";
   [];
   lit "commands:";
   lit "  inventory     collect the host asset inventory and print it as JSON";
   lit "  vuln          collect the inventory, match it against the CVE index,";
   lit "                and print the findings as JSON";
   lit "  report        spool a report and deliver it over mTLS, replaying";
   lit "                anything left over from earlier runs";
   lit "  run           run continuously until stopped (systemd / Windows SCM)";
   lit "  service       install | uninstall the Windows service";
   lit "  version       print version information";
   [];
   lit "options:";
   lit "  --pretty            indent the JSON output";
   lit "  --log-level LEVEL   debug | info | warn | error   (default: info)";
   lit "  --index PATH        CVE index TSV      (default: data/cve_index.tsv)";
   lit "  --aliases PATH      CPE alias table    (default: data/cpe_aliases.tsv)";
   lit "  --packages PATH     match this name<TAB>version list instead of the";
   lit "                      live host; used by the evaluation harness";
   [];
   lit "report / run options:";
   lit "  --url URL           https endpoint to POST batches to (required)";
   lit "  --pin HEX           SHA-256 of the server certificate (required)";
   lit "  --pin-file PATH     read the pin from a file instead";
   lit "  --client-cert PATH  .pfx on Windows, .pem on Linux";
   lit "  --client-key PATH   PEM private key (Linux only)";
   lit "  --spool DIR         spool directory       (default: spool)";
   lit "  --spool-max-bytes N on-disk budget        (default: 64 MiB)";
   lit "  --batch-size N      records per POST      (default: 32)";
   lit "  --max-attempts N    retries before deferring to the next cycle";
   lit "  --interval N        seconds between cycles in `run`  (default: 300)";
   lit "  --drain-only        send what is spooled; collect nothing new";
   lit "  --synthetic N       spool N synthetic records; used by the chaos test";
   [];
   lit "run options (Windows service; --url is optional for `run`):";
   lit "  --db CONN           ODBC connection string for SQL Server";
   lit "  --state-dir DIR     write crash/hang minidumps to DIR\dumps";
   lit "  --log-file PATH     append logs here instead of stderr";
   lit "  --pipe NAME         control pipe   (default: \\.\pipe\nano-sensor)";
   lit "  --hang-timeout N    seconds before a stuck scan/request is dumped and";
   lit "                      the process exits for the SCM to restart (default 120)";
   lit "  --inject-fault F    uaf | deadlock | worker-crash -- re-enable a planted";
   lit "                      bug; see docs/DEBUGGING.md";
   [];
   lit "Command output goes to stdout; structured logs go to stderr, so";
   lit "`nano-sensor inventory > host.json` stays a clean JSON file."].

(** What goes to standard error; the exit code is the caller's. *)
Definition usage (rc : Z) : Z * str := (rc, concat ((fun l => l ++ [nl]) <$> usage_lines)).

(** What ends up on standard error when [main] stops before a command. *)
Definition stop_output (rc : Z) (message : option str) : Z * str :=
  match message with Some m => (rc, m) | None => usage rc end.

(** The options a text documents: the first words of its lines that start with two
    dashes. *)
Definition documented (text : str) : list str :=
  omap (fun l => match words l with w :: _ => if starts_with (lit "--") w then Some w else None | [] => None end)
    (getlines nl text).

(** The option names the parser knows, without the request for help. *)
Definition known_options : list str := [lit "--pretty"; lit "--log-level"; lit "--drain-only"] ++ (flag_name <$> value_flags).

Lemma documented_known : forall w, w ∈ documented (usage 0).2 <-> w ∈ known_options.
Proof.
  assert (documented (usage 0).2 ≡ₚ known_options) as Hp.
  { apply (bool_decide_unpack _). vm_compute. exact I. }
  intros w. by rewrite Hp.
Qed.

(** An option the parser does not know ends the program at once. *)
Lemma unknown_option arg rest o lg :
  arg ∉ known_options -> arg <> lit "-h" -> arg <> lit "--help" ->
  parse_args (arg :: rest) o lg = Exit 2 (Some (lit "unknown option: " ++ arg ++ [nl])).
Proof.
  intros Hk H1 H2. cbn [parse_args].
  assert (forall x, x ∈ known_options -> str_eqb arg x = false) as Hne.
  { intros x Hx. apply not_true_iff_false. rewrite str_eqb_eq. by intros ->. }
  rewrite !Hne by (apply (bool_decide_unpack _); vm_compute; exact I).
  destruct (List.find (fun f => str_eqb arg (flag_name f)) value_flags) as [f|] eqn:Ef.
  - apply List.find_some in Ef as [Hf E]. rewrite Hne in E; [done|]. unfold known_options.
    apply elem_of_app. right. apply list_elem_of_fmap. exists f. split; [done|]. by apply list_elem_of_In.
  - assert (str_eqb arg (lit "-h") = false) as -> by (apply not_true_iff_false; by rewrite str_eqb_eq).
    assert (str_eqb arg (lit "--help") = false) as -> by (apply not_true_iff_false; by rewrite str_eqb_eq). done.
Qed.

(** A known option with a value is read, and parsing goes on behind it. *)
Lemma known_flag f v rest o lg : parse_args (flag_name f :: v :: rest) o lg = parse_args rest (set_flag f v o) lg.
Proof. by destruct f. Qed.

(** The usage text and the parser agree: an option is documented exactly when the
    parser accepts it. *)
Theorem usage_documents_options (arg : str) (Hh : arg <> lit "-h") (Hh' : arg <> lit "--help") :
  arg ∈ documented (usage 0).2 <->
  exists values o, forall lg, exists lg', parse_args (arg :: values) default_options lg = Parsed o lg'.
Proof.
  rewrite documented_known. split.
  - unfold known_options. rewrite elem_of_app, !elem_of_cons, elem_of_nil, list_elem_of_fmap.
    intros [[->|[->|[->|[]]]]|(f & -> & _)].
    + exists [], (set_pretty default_options). intros lg. by eexists.
    + exists [lit "info"], default_options. intros lg. by eexists.
    + exists [], (set_drain_only default_options). intros lg. by eexists.
    + exists [lit "0"], (set_flag f (lit "0") default_options). intros lg. rewrite known_flag. by eexists.
  - intros (values & o & H). destruct (decide (arg ∈ known_options)) as [|Hn]; [done|].
    destruct (H (mkLog Info [])) as [lg' E]. by rewrite unknown_option in E.
Qed.

Lemma usage_documents_options_witness :
  lit "--pin-file" ∈ documented (usage 0).2 /\
  exists values o, forall lg, exists lg', parse_args (lit "--pin-file" :: values) default_options lg = Parsed o lg'.
Proof.
  assert (lit "--pin-file" ∈ documented (usage 0).2) as H by (apply (bool_decide_unpack _); vm_compute; exact I).
  split; [exact H|]. apply (usage_documents_options (lit "--pin-file")); [discriminate|discriminate|exact H].
Defined.
