(* ===== verification/ServiceWindows.v ===== *)
(** * The Windows service layer (src/service_windows.cpp)

    The status the service reports to the service control manager, with the main
    thread of the service and the dispatcher's thread that runs the control
    handler as two threads of a transition system whose steps are the single
    statements of [report_status] on the shared [g_status]; the console fallback;
    and the registration, whose command line is followed to the options [main]
    sees. *)
From S2P Require Import Prelude CppStd Double Vercmp Json Log Inventory Algorithms Cve Frame.
From S2P Require Import Spool SpoolLemmas SpoolQueue SpoolSpec WinStr Transport Reporter Agent Main.
From Stdlib Require Import Ascii.

#[local] Open Scope Z_scope.

(** ** Status reports *)

Inductive svc_state := StartPending | Running | StopPending | Stopped.

#[global] Instance svc_state_eq_dec : EqDecision svc_state.
Proof. solve_decision. Defined.

(** What [SetServiceStatus] is handed: the state, the exit code, whether STOP and
    SHUTDOWN are accepted, the checkpoint and the wait hint. *)
Record report := mkReport {
  rp_state : svc_state; rp_exit : Z; rp_accepts : bool; rp_checkpoint : Z; rp_hint : Z }.

(** The statements of [report_status]: the test of the handle, one assignment to
    a field of [g_status] each (the service type never changes), and the call. *)
Inductive rpc := PEnter | PState | PExit | PHint | PAccepts | PCheckpoint | PSend.

(** Where [service_main] and the control handler stand. *)
Inductive main_pc := MRegister | MReport (st : svc_state) (hint : Z) (p : rpc) | MBody | MEnd.
Inductive ctl_pc := KIdle | KReport (p : rpc) | KFlag.

Record svc := mkSvc {
  g_stop : bool; g_status_handle : bool; g_status : report; checkpoint : Z; reports : list report;
  g_exit_code : Z; v_main : main_pc; v_ctl : ctl_pc }.

(** [g_status] starts zeroed; a zero state is no state of a service, and stands as
    [Stopped] here until it is written. *)
Definition svc_fresh : svc := mkSvc false false (mkReport Stopped 0 false 0 0) 1 [] 0 MRegister KIdle.

Definition set_main (p : main_pc) (s : svc) : svc :=
  mkSvc (g_stop s) (g_status_handle s) (g_status s) (checkpoint s) (reports s) (g_exit_code s) p (v_ctl s).
Definition set_ctl (p : ctl_pc) (s : svc) : svc :=
  mkSvc (g_stop s) (g_status_handle s) (g_status s) (checkpoint s) (reports s) (g_exit_code s) (v_main s) p.
Definition set_status (g : report) (s : svc) : svc :=
  mkSvc (g_stop s) (g_status_handle s) g (checkpoint s) (reports s) (g_exit_code s) (v_main s) (v_ctl s).

Definition is_pending (st : svc_state) : bool := match st with Running | Stopped => false | _ => true end.

(** One statement of [report_status(st, hint)]: the next one, if any. *)
Definition report_status (st : svc_state) (hint : Z) (p : rpc) (s : svc) : option rpc * svc :=
  let g := g_status s in
  match p with
  | PEnter => (if g_status_handle s then Some PState else None, s)
  | PState => (Some PExit, set_status (mkReport st (rp_exit g) (rp_accepts g) (rp_checkpoint g) (rp_hint g)) s)
  | PExit => (Some PHint, set_status (mkReport (rp_state g) 0 (rp_accepts g) (rp_checkpoint g) (rp_hint g)) s)
  | PHint => (Some PAccepts, set_status (mkReport (rp_state g) (rp_exit g) (rp_accepts g) (rp_checkpoint g) hint) s)
  | PAccepts =>
      (Some PCheckpoint,
       set_status (mkReport (rp_state g) (rp_exit g) (bool_decide (st = Running)) (rp_checkpoint g) (rp_hint g)) s)
  | PCheckpoint =>
      let c := checkpoint s in
      (Some PSend,
       mkSvc (g_stop s) (g_status_handle s)
         (mkReport (rp_state g) (rp_exit g) (rp_accepts g) (if is_pending st then c else 0) (rp_hint g))
         (if is_pending st then u32 (c + 1) else c) (reports s) (g_exit_code s) (v_main s) (v_ctl s))
  | PSend =>
      (None, mkSvc (g_stop s) (g_status_handle s) g (checkpoint s) (reports s ++ [g]) (g_exit_code s) (v_main s) (v_ctl s))
  end.

Definition request_stop (s : svc) : svc :=
  mkSvc true (g_status_handle s) (g_status s) (checkpoint s) (reports s) (g_exit_code s) (v_main s) (v_ctl s).
Definition stop_requested (s : svc) : bool := g_stop s.

Inductive control := CtlStop | CtlShutdown | CtlOther.

(** What [service_main] does after a report. *)
Definition after_report (st : svc_state) : main_pc :=
  match st with StartPending => MReport Running 0 PEnter | Running => MBody | _ => MEnd end.

(** [service_main], one statement at a time: [r] says whether registering the
    handler works, [code] is what the body returns. *)
Definition main_step (r : bool) (code : Z) (s : svc) : option svc :=
  match v_main s with
  | MRegister =>
      Some (if r then mkSvc (g_stop s) true (g_status s) (checkpoint s) (reports s) (g_exit_code s)
                        (MReport StartPending 5000 PEnter) (v_ctl s)
            else set_main MEnd s)
  | MReport st hint p =>
      let '(next, s) := report_status st hint p s in
      Some (set_main (match next with Some p => MReport st hint p | None => after_report st end) s)
  | MBody =>
      Some (mkSvc (g_stop s) (g_status_handle s) (g_status s) (checkpoint s) (reports s) code
              (MReport Stopped 0 PEnter) (v_ctl s))
  | MEnd => None
  end.

(** The manager sends a control while the handler is idle; it sends STOP and
    SHUTDOWN only to a service whose last report accepts them. *)
Definition send_control (c : control) (s : svc) : option svc :=
  match v_ctl s with
  | KIdle =>
      match c with
      | CtlStop | CtlShutdown =>
          match last (reports s) with
          | Some r => if rp_accepts r then Some (set_ctl (KReport PEnter) s) else None
          | None => None
          end
      | CtlOther => Some s
      end
  | _ => None
  end.

(** [control_handler] for STOP and SHUTDOWN, one statement at a time. *)
Definition control_step (s : svc) : option svc :=
  match v_ctl s with
  | KIdle => None
  | KReport p =>
      let '(next, s) := report_status StopPending 30000 p s in
      Some (set_ctl (match next with Some p => KReport p | None => KFlag end) s)
  | KFlag => Some (set_ctl KIdle (request_stop s))
  end.

Inductive svc_action := SMain (r : bool) (code : Z) | SSend (c : control) | SHandler.

Definition svc_step (a : svc_action) (s : svc) : option svc :=
  match a with
  | SMain r code => main_step r code s
  | SSend c => send_control c s
  | SHandler => control_step s
  end.

Inductive svc_reachable : svc -> Prop :=
| svc_start : svc_reachable svc_fresh
| svc_next a s s' : svc_reachable s -> svc_step a s = Some s' -> svc_reachable s'.

Fixpoint svc_run (l : list svc_action) (s : svc) : option svc :=
  match l with
  | [] => Some s
  | a :: l' => match svc_step a s with Some s' => svc_run l' s' | None => None end
  end.

Lemma svc_run_reachable l s s' : svc_reachable s -> svc_run l s = Some s' -> svc_reachable s'.
Proof.
  revert s. induction l as [|a l IH]; intros s Hs; cbn; [by intros [= <-]|].
  destruct (svc_step a s) as [s1|] eqn:E; [|done]. apply IH. by econstructor.
Qed.

(** ** The console *)

Definition console_handler (type : Z) (stop : bool) : bool * bool :=
  if (type =? 0) || (type =? 1) || (type =? 2) then (true, true) else (stop, false).

(** [run]: what the dispatcher answers (the exit code [service_main] left, or an
    error), and what the body returns in the foreground. *)
Definition service_run (dispatched : Z + Z) (body : Z) : Z * list log_call :=
  match dispatched with
  | inl code => (code, [])
  | inr err =>
      (body, if negb (err =? 1063)
             then [(Warn, lit "service dispatcher failed; running in the foreground", [(lit "error", to_string err)])]
             else [])
  end.

(** ** Registration *)

Definition service_command (exe_path arguments : str) : str :=
  [quote] ++ exe_path ++ [quote] ++ (match arguments with [] => [] | _ => lit " " ++ arguments end).

Inductive sc_event :=
| OpenedManager | ClosedManager
| CreatedService (command : wstr) | OpenedService | ClosedService
| SetFailureActions (restarts : list Z) | SetPrivileges (keep : str) | SetServiceSid | SetDescription
| SentStop | Deleted.

Record sc_env := mkSc { manager_error : option Z; service_error : option Z; delete_error : option Z }.

Definition install `{Utf16} (e : sc_env) (exe_path arguments : str) : option str * list sc_event :=
  match manager_error e with
  | Some err => (Some (lit "OpenSCManager failed (Administrator required), error " ++ to_string err), [])
  | None =>
      match service_error e with
      | Some err =>
          (Some (if err =? 1073 then lit "the nano-sensor service is already installed"
                 else lit "CreateService failed, error " ++ to_string err), [OpenedManager; ClosedManager])
      | None =>
          (None, [OpenedManager; CreatedService (widen (service_command exe_path arguments));
                  SetFailureActions [10000; 30000]; SetPrivileges (lit "SeChangeNotifyPrivilege");
                  SetServiceSid; SetDescription; ClosedService; ClosedManager])
      end
  end.

Definition uninstall (e : sc_env) : option str * list sc_event :=
  match manager_error e with
  | Some err => (Some (lit "OpenSCManager failed (Administrator required), error " ++ to_string err), [])
  | None =>
      match service_error e with
      | Some _ => (Some (lit "the nano-sensor service is not installed"), [OpenedManager; ClosedManager])
      | None =>
          match delete_error e with
          | Some err =>
              (Some (lit "DeleteService failed, error " ++ to_string err),
               [OpenedManager; OpenedService; SentStop; ClosedService; ClosedManager])
          | None => (None, [OpenedManager; OpenedService; SentStop; Deleted; ClosedService; ClosedManager])
          end
      end
  end.

(** ** The reports of a run *)

(** The reports of an orderly life. *)
Definition starting : report := mkReport StartPending 0 false 1 5000.
Definition running : report := mkReport Running 0 true 0 0.
Definition stopping : report := mkReport StopPending 0 false 2 30000.
Definition stopped : report := mkReport Stopped 0 false 0 0.

Definition rank (p : rpc) : nat :=
  match p with
  | PEnter => 0 | PState => 1 | PExit => 2 | PHint => 3 | PAccepts => 4 | PCheckpoint => 5 | PSend => 6
  end.

(** The fields of [g_status] that a lone caller of [report_status] has written of
    the report [r] when it stands at [p]. *)
Record filled (r : report) (p : rpc) (g : report) : Prop := {
  fi_state : (1 < rank p)%nat -> rp_state g = rp_state r;
  fi_exit : (2 < rank p)%nat -> rp_exit g = rp_exit r;
  fi_hint : (3 < rank p)%nat -> rp_hint g = rp_hint r;
  fi_accepts : (4 < rank p)%nat -> rp_accepts g = rp_accepts r;
  fi_checkpoint : (5 < rank p)%nat -> rp_checkpoint g = rp_checkpoint r }.

Lemma filled_enter r g : filled r PEnter g.
Proof. split; cbn; lia. Qed.

Lemma filled_send r g : filled r PSend g -> g = r.
Proof.
  intros [H1 H2 H3 H4 H5]. destruct g, r. cbn in *.
  rewrite H1, H2, H3, H4, H5 by lia. done.
Qed.

(** A report after which the service is on its way out: no control is accepted. *)
Definition closing (r : report) : Prop :=
  (rp_state r = StopPending \/ rp_state r = Stopped) /\ rp_exit r = 0 /\ rp_accepts r = false.

(** The statements a thread of the closing phase has behind it. *)
Definition main_rank (s : svc) : nat := match v_main s with MReport Stopped _ p => rank p | _ => 0 end.
Definition ctl_rank (s : svc) : nat := match v_ctl s with KReport p => rank p | _ => 0 end.

(** The handler has sent its report. *)
Definition handled (s : svc) : bool := match v_ctl s with KFlag => true | KIdle => g_stop s | KReport _ => false end.
Definition ended (s : svc) : bool := match v_main s with MEnd => true | _ => false end.

(** From the running report on, with the two threads anywhere. *)
Record up_inv (s : svc) (rest : list report) : Prop := {
  up_reports : reports s = [starting; running] ++ rest;
  up_closing : Forall closing rest;
  up_length : length rest = ((if ended s then 1 else 0) + (if handled s then 1 else 0))%nat;
  up_handle : g_status_handle s = true;
  up_main : v_main s = MBody \/ v_main s = MEnd \/ exists p, v_main s = MReport Stopped 0 p;
  up_stop : v_ctl s <> KIdle -> g_stop s = false;
  up_exit : rp_exit (g_status s) = 0;
  up_state : (1 < main_rank s \/ 1 < ctl_rank s)%nat ->
    rp_state (g_status s) = StopPending \/ rp_state (g_status s) = Stopped;
  up_accepts : (4 < main_rank s \/ 4 < ctl_rank s)%nat -> rp_accepts (g_status s) = false;
  up_body : v_main s = MBody ->
    match v_ctl s with
    | KReport p => filled stopping p (g_status s) /\ (p <> PSend -> checkpoint s = 2)
    | KFlag => rest = [stopping]
    | KIdle => rest = if g_stop s then [stopping] else []
    end /\ (v_ctl s = KIdle -> g_stop s = false -> checkpoint s = 2) }.

(** Every state the two threads can be in. *)
Inductive svc_inv (s : svc) : Prop :=
| inv_fresh : v_main s = MRegister -> v_ctl s = KIdle -> g_stop s = false -> g_status_handle s = false ->
    reports s = [] -> checkpoint s = 1 -> svc_inv s
| inv_failed : v_main s = MEnd -> v_ctl s = KIdle -> g_stop s = false -> g_status_handle s = false ->
    reports s = [] -> svc_inv s
| inv_starting p : v_main s = MReport StartPending 5000 p -> v_ctl s = KIdle -> g_stop s = false ->
    g_status_handle s = true -> reports s = [] -> filled starting p (g_status s) ->
    checkpoint s = (if (5 <? rank p)%nat then 2 else 1) -> svc_inv s
| inv_running p : v_main s = MReport Running 0 p -> v_ctl s = KIdle -> g_stop s = false ->
    g_status_handle s = true -> reports s = [starting] -> filled running p (g_status s) ->
    checkpoint s = 2 -> svc_inv s
| inv_up rest : up_inv s rest -> svc_inv s.

(** The obligations of a step: every field of the invariant, computed. *)
Ltac fields := split; cbn in *; intros; try (exfalso; lia); try lia; try done; eauto with lia.

Lemma starting_inv p r code s s' :
  v_main s = MReport StartPending 5000 p -> v_ctl s = KIdle -> g_stop s = false ->
  g_status_handle s = true -> reports s = [] -> filled starting p (g_status s) ->
  checkpoint s = (if (5 <? rank p)%nat then 2 else 1) -> main_step r code s = Some s' -> svc_inv s'.
Proof.
  intros E1 E2 E3 E4 E5 Hf Ec. unfold main_step. rewrite E1.
  destruct p; cbn in Ec |- *; rewrite ?E4, ?Ec; cbn; intros [= <-];
    try (destruct Hf as [F1 F2 F3 F4 F5];
         lazymatch goal with |- svc_inv ?x =>
           lazymatch eval cbn in (v_main x) with MReport _ _ ?q => apply (inv_starting _ q) end end; try done; fields).
  apply filled_send in Hf. apply (inv_running _ PEnter); try done; [|apply filled_enter].
  cbn. by rewrite E5, Hf.
Qed.

Lemma running_inv p r code s s' :
  v_main s = MReport Running 0 p -> v_ctl s = KIdle -> g_stop s = false ->
  g_status_handle s = true -> reports s = [starting] -> filled running p (g_status s) ->
  checkpoint s = 2 -> main_step r code s = Some s' -> svc_inv s'.
Proof.
  intros E1 E2 E3 E4 E5 Hf Ec. unfold main_step. rewrite E1.
  destruct p; cbn; rewrite ?E4, ?Ec; cbn; intros [= <-];
    try (destruct Hf as [F1 F2 F3 F4 F5];
         lazymatch goal with |- svc_inv ?x =>
           lazymatch eval cbn in (v_main x) with MReport _ _ ?q => apply (inv_running _ q) end end; try done; fields).
  apply filled_send in Hf. apply (inv_up _ []).
  split; unfold ended, Datatypes.id, main_rank, ctl_rank, handled; cbn; rewrite ?E2, ?E3; try done;
    [by rewrite E5, Hf|by left|by rewrite Hf|lia|lia].
Qed.

Lemma up_main_step rest r code s s' :
  up_inv s rest -> main_step r code s = Some s' -> svc_inv s'.
Proof.
  intros [H1 H2 H3 H4 H5 H6 H7 H8 H9 H10]. unfold main_step.
  unfold ended, handled, main_rank, ctl_rank in *.
  destruct H5 as [E|[E|[p E]]]; rewrite E in *; [|done|].
  - intros [= <-]. apply (inv_up _ rest). split; unfold ended, handled, main_rank, ctl_rank; cbn; try done; eauto.
  - destruct p; cbn in H8, H9 |- *; rewrite ?H4; cbn; intros [= <-];
      try (apply (inv_up _ rest); split; unfold ended, handled, main_rank, ctl_rank; cbn; try done;
           [right; right; eauto|intros; auto with lia..]).
    apply (inv_up _ (rest ++ [g_status s])).
    split; unfold ended, handled, main_rank, ctl_rank; cbn; try done.
    + rewrite H1. by rewrite <- app_assoc.
    + apply Forall_app. split; [done|]. constructor; [|done]. split; [apply H8; lia|]. split; [done|apply H9; lia].
    + rewrite length_app, H3. cbn. lia.
    + auto.
    + intros [?|?]; [lia|auto].
    + intros [?|?]; [lia|auto].
Qed.

Lemma up_control_step rest s s' :
  up_inv s rest -> control_step s = Some s' -> svc_inv s'.
Proof.
  intros [H1 H2 H3 H4 H5 H6 H7 H8 H9 H10]. unfold control_step.
  unfold ended, handled, main_rank, ctl_rank in *. destruct (v_ctl s) as [|p|] eqn:Ec; [done| |].
  - destruct p; cbn in H8, H9 |- *; rewrite ?H4; cbn; intros [= <-];
      try (apply (inv_up _ rest); split; unfold ended, handled, main_rank, ctl_rank; cbn; try done;
           [intros; auto with lia..|intros Hb; destruct (H10 Hb) as [[[F1 F2 F3 F4 F5] Hc] _];
            split; [|done]; cbn in *; rewrite ?Hc by done; split; [fields|done]]).
    apply (inv_up _ (rest ++ [g_status s])).
    split; unfold ended, handled, main_rank, ctl_rank; cbn; try done.
    + rewrite H1. by rewrite <- app_assoc.
    + apply Forall_app. split; [done|]. constructor; [|done]. split; [apply H8; lia|]. split; [done|apply H9; lia].
    + rewrite length_app, H3. cbn. lia.
    + intros _. by apply H6.
    + intros [?|?]; [auto|lia].
    + intros [?|?]; [auto|lia].
    + intros Hb. destruct (H10 Hb) as [[Hf _] _]. apply filled_send in Hf. split; [|done].
      rewrite Hb in H3. apply length_zero_iff_nil in H3. by rewrite H3, Hf.
  - intros [= <-]. apply (inv_up _ rest).
    split; unfold ended, handled, main_rank, ctl_rank; cbn; try done.
    intros Hb. destruct (H10 Hb) as [Hr _]. by split.
Qed.

Lemma up_last s rest r :
  up_inv s rest -> last (reports s) = Some r -> rp_accepts r = true -> rest = [].
Proof.
  intros H Hl Hr. rewrite (up_reports _ _ H) in Hl. destruct rest as [|x rest]; [done|]. exfalso.
  assert (last (x :: rest) = Some r) as Hx by (rewrite last_app in Hl; by destruct (last (x :: rest)) eqn:E; [|by apply last_None in E]).
  apply last_Some_elem_of in Hx.
  pose proof (proj1 (Forall_forall _ _) (up_closing _ _ H) r Hx) as (_ & _ & Ha). congruence.
Qed.

Lemma send_inv c s s' : svc_inv s -> send_control c s = Some s' -> svc_inv s'.
Proof.
  intros Hi. unfold send_control. destruct (v_ctl s) eqn:Ec; try done.
  assert (forall r, last (reports s) = Some r -> rp_accepts r = true -> svc_inv (set_ctl (KReport PEnter) s)) as Hacc.
  { intros r Hl Hr.
    destruct Hi as [E1 E2 E3 E4 E5 E6|E1 E2 E3 E4 E5|p E1 E2 E3 E4 E5 E6 E7|p E1 E2 E3 E4 E5 E6 E7|rest Hup];
      [by rewrite E5 in Hl|by rewrite E5 in Hl|by rewrite E5 in Hl|rewrite E5 in Hl; by injection Hl as <-|].
    pose proof (up_last s rest r Hup Hl Hr) as ->. destruct Hup as [H1 H2 H3 H4 H5 H6 H7 H8 H9 H10].
    unfold ended, handled, main_rank, ctl_rank in *. rewrite Ec in *. cbn in H3.
    assert (g_stop s = false) as Hs by (destruct (v_main s), (g_stop s); cbn in H3; try done; lia).
    apply (inv_up _ []). split; unfold ended, handled, main_rank, ctl_rank; cbn; try done.
    - rewrite Hs in H3. lia.
    - intros Hb. destruct (H10 Hb) as [_ Hc]. split; [|done]. split; [apply filled_enter|auto]. }
  destruct c; [| |by intros [= <-]]; destruct (last (reports s)) as [r|]; try done;
    destruct (rp_accepts r) eqn:Er; try done; intros [= <-]; by eapply Hacc.
Qed.

Lemma svc_reachable_inv s : svc_reachable s -> svc_inv s.
Proof.
  induction 1 as [|a s s' _ IH Hs]; [by apply inv_fresh|]. destruct a as [r code|c|]; cbn in Hs.
  - destruct IH as [E1 E2 E3 E4 E5 E6|E1 E2 E3 E4 E5|p E1 E2 E3 E4 E5 E6 E7|p E1 E2 E3 E4 E5 E6 E7|rest Hup].
    + unfold main_step in Hs. rewrite E1 in Hs. injection Hs as <-. destruct r; [|by apply inv_failed].
      by apply (inv_starting _ PEnter); [..|apply filled_enter|].
    + unfold main_step in Hs. by rewrite E1 in Hs.
    + by eapply starting_inv.
    + by eapply running_inv.
    + by eapply up_main_step.
  - by eapply send_inv.
  - destruct IH as [E1 E2 E3 E4 E5 E6|E1 E2 E3 E4 E5|p E1 E2 E3 E4 E5 E6 E7|p E1 E2 E3 E4 E5 E6 E7|rest Hup];
      try (unfold control_step in Hs; by rewrite E2 in Hs). by eapply up_control_step.
Qed.

(** ** Properties *)

(** C30: In every interleaving of [service_main] and the control handler, statement
    by statement, although both fill the same status without a lock: the service
    reports its start, then that it runs, and then at most two reports that accept
    no control, one of each thread; the manager can send a stop only while the
    last report is that it runs, so the handler runs at most once; the body is told
    to stop only after a closing report was sent, and while the body still runs
    that report is exactly the pending stop with its hint and checkpoint. *)
Theorem status_reports (s : svc) (Hr : svc_reachable s) :
  (reports s = [] \/ reports s = [starting] \/
   exists rest, reports s = [starting; running] ++ rest /\ (length rest <= 2)%nat /\
     Forall (fun r => (rp_state r = StopPending \/ rp_state r = Stopped) /\ rp_exit r = 0 /\
                      rp_accepts r = false) rest) /\
  (forall c s', send_control c s = Some s' -> c = CtlOther \/ reports s = [starting; running]) /\
  (stop_requested s = true -> exists r rest, reports s = [starting; running] ++ r :: rest) /\
  (stop_requested s = true -> v_main s = MBody -> reports s = [starting; running; stopping]) /\
  (v_main s = MEnd -> g_status_handle s = true -> exists r rest, reports s = [starting; running] ++ r :: rest).
Proof.
  destruct (svc_reachable_inv s Hr) as
    [E1 E2 E3 E4 E5 E6|E1 E2 E3 E4 E5|p E1 E2 E3 E4 E5 E6 E7|p E1 E2 E3 E4 E5 E6 E7|rest Hup];
    unfold stop_requested.
  1-4: split_and!; [by auto| |congruence..]; intros c s' Hs; unfold send_control in Hs; rewrite E2, E5 in Hs;
       destruct c; try done; by left.
  assert (forall b c : bool, length rest = ((if b then 1 else 0) + (if c then 1 else 0))%nat -> (length rest <= 2)%nat)
    as Hlen by (intros [] [] ->; cbn; lia).
  assert (ended s || handled s = true -> exists r l, rest = r :: l) as Hne.
  { pose proof (up_length _ _ Hup) as Hl. destruct rest as [|r l]; [|eauto].
    destruct (ended s), (handled s); done. }
  assert (g_stop s = true -> handled s = true) as Hh.
  { intros Hs. unfold handled. destruct (v_ctl s) eqn:Ec; [done| |done].
    rewrite (up_stop _ _ Hup) in Hs; [done|congruence]. }
  split_and!.
  - right; right. exists rest. split; [by apply up_reports|]. split; [by eapply Hlen, up_length|].
    by apply (up_closing _ _ Hup).
  - intros c s'. unfold send_control. destruct (v_ctl s); try done.
    destruct c; [| |by left]; destruct (last (reports s)) as [r|] eqn:El; try done;
      destruct (rp_accepts r) eqn:Er; try done; intros _; right;
      by rewrite (up_reports _ _ Hup), (up_last s rest r Hup El Er).
  - intros Hs. destruct Hne as (r & l & ->); [by rewrite Hh, orb_true_r|]. exists r, l. by apply up_reports.
  - intros Hs Hb. rewrite (up_reports _ _ Hup). destruct (up_body _ _ Hup Hb) as [Hbody _].
    destruct (v_ctl s) eqn:Ec; [by rewrite Hbody, Hs| |by rewrite Hbody].
    rewrite (up_stop _ _ Hup) in Hs; [done|congruence].
  - intros Hm _. destruct Hne as (r & l & ->); [unfold ended; by rewrite Hm|]. exists r, l. by apply up_reports.
Qed.

(** One thread's statements up to the end of its report. *)
Definition whole_report : list svc_action := replicate 7 (SMain true 0).
Definition whole_handler : list svc_action := replicate 7 SHandler ++ [SHandler].

(** Registering, the two first reports. *)
Definition boot : list svc_action := SMain true 0 :: whole_report ++ whole_report.

(** An orderly stop: the handler is done before the body ends. *)
Example orderly_stop :
  reports <$> svc_run (boot ++ [SSend CtlStop] ++ whole_handler ++ [SMain true 0] ++ whole_report) svc_fresh
  = Some [starting; running; stopping; stopped].
Proof. vm_compute. reflexivity. Qed.

(** The service is told to stop between its body's end and its last report: the
    handler then reports a pending stop after the service has reported that it
    stopped, and the last thing the manager heard is that the service is still
    stopping. *)
Theorem stop_reported_after_stopped :
  exists s, svc_reachable s /\ v_main s = MEnd /\
    rp_state <$> reports s = [StartPending; Running; Stopped; StopPending].
Proof.
  destruct (svc_run (boot ++ [SSend CtlStop; SMain true 1] ++ whole_report ++ whole_handler) svc_fresh)
    as [s|] eqn:E; [|vm_compute in E; discriminate].
  exists s. split; [exact (svc_run_reachable _ _ _ svc_start E)|].
  vm_compute in E. injection E as <-. split; reflexivity.
Qed.

(** The two threads write one status: the handler fills it and is about to send it
    when the service fills it with its last report; both then send the same, and
    the manager hears twice that the service stopped and never that it was
    stopping. *)
Theorem stopped_reported_twice :
  exists s, svc_reachable s /\ v_main s = MEnd /\
    rp_state <$> reports s = [StartPending; Running; Stopped; Stopped].
Proof.
  destruct (svc_run (boot ++ [SSend CtlStop] ++ replicate 6 SHandler ++ [SMain true 1] ++ whole_report ++
    [SHandler; SHandler]) svc_fresh) as [s|] eqn:E; [|vm_compute in E; discriminate].
  exists s. split; [exact (svc_run_reachable _ _ _ svc_start E)|].
  vm_compute in E. injection E as <-. split; reflexivity.
Qed.

Lemma status_reports_witness :
  exists s, svc_run (boot ++ [SSend CtlShutdown] ++ whole_handler) svc_fresh = Some s /\
    stop_requested s = true /\ v_main s = MBody /\ reports s = [starting; running; stopping].
Proof.
  destruct (svc_run (boot ++ [SSend CtlShutdown] ++ whole_handler) svc_fresh) as [s|] eqn:E;
    [|vm_compute in E; discriminate].
  assert (stop_requested s = true /\ v_main s = MBody) as [H1 H2]
    by (vm_compute in E; injection E as <-; split; reflexivity).
  exists s. split; [reflexivity|]. split; [exact H1|]. split; [exact H2|].
  destruct (status_reports s (svc_run_reachable _ _ _ svc_start E)) as (_ & _ & _ & H & _). exact (H H1 H2).
Defined.

(** ** The registered command line *)

Lemma unquoted_bind s : forallb (fun c => negb (Ascii.eqb c quote)) s = true ->
  (s ≫= fun c => if Ascii.eqb c quote then [backslash; c] else [c]) = s.
Proof.
  induction s as [|c s IH]; [done|]. cbn [forallb]. intros H. apply andb_true_iff in H as [H1 H2].
  rewrite bind_cons, IH by done. apply negb_true_iff in H1. by rewrite H1.
Qed.

(** A path as Windows allows it: no quote in it, and not a directory with a
    trailing backslash. *)
Definition exe_path_ok (s : str) : bool := forallb (fun c => negb (Ascii.eqb c quote)) s && no_trap false s.

Lemma command_words exe args : exe_path_ok exe = true ->
  split_command_line (service_command exe args) = exe :: split_command_line args.
Proof.
  unfold exe_path_ok. rewrite andb_true_iff. intros [H1 H2].
  assert (forall r, split_command_line ([quote] ++ exe ++ quote :: r) = split_from (quote :: r) 0 true (Some exe)) as E.
  { intros r. rewrite <- (unquoted_bind exe H1) at 1.
    change exe with (word_so_far (Some []) 0 ++ exe) at 2. rewrite <- (split_escaped exe 0 (Some []) r H2).
    unfold split_command_line. cbn [app split_from]. change (Ascii.eqb quote backslash) with false.
    change (Ascii.eqb quote quote) with true. cbn [Nat.odd Nat.even negb andb].
    by destruct (_ ++ quote :: r). }
  unfold service_command. destruct args as [|c args]; [rewrite app_nil_r, E; unfold split_command_line, word_so_far; cbn; unfold word_so_far; cbn; by rewrite ?app_nil_r|].
  replace ([quote] ++ exe ++ [quote] ++ lit " " ++ c :: args)
    with ([quote] ++ exe ++ quote :: " "%char :: c :: args) by done.
  rewrite E. unfold split_command_line. cbn. unfold word_so_far. cbn. by rewrite !app_nil_r.
Qed.

(** C38: From [service install] to the installed service, for a command line in
    ASCII (the only text on which the ANSI code page of [GetModuleFileNameA] and of
    [argv] and the UTF-8 of [widen] agree) whose arguments [quote_arg] gets right:
    the text that is registered, split by the C runtime, starts the very program
    that installed it, as [run], with the absolute paths of the index and the
    aliases, the interval, the database, the endpoint, the absolute path of the
    state directory if one was given and, with an endpoint, those of the spool, the
    pin file and the client certificate.  The rest is not kept: a pin or client key given directly and
    the batch, retry, spool size and pipe options are at their defaults. *)
Theorem installed_service_runs `{Utf16} (e : sc_env) (exe : str) (abs : str -> str) (o : Options) (lg : log_state)
  (tr : list sc_event) (Hx : exe_path_ok exe = true) (Hi : - 2 ^ 31 <= interval_s o < 2 ^ 31)
  (Hq : Forall (fun '(_, q, v) => q = true -> quotable v = true) (service_flags abs o))
  (Ha : ascii_text (service_command exe (service_args abs o)) = true)
  (Hins : install e exe (service_args abs o) = (None, tr)) :
  exists registered argv o', CreatedService registered ∈ tr /\
    split_command_line (chr <$> registered) = exe :: argv /\ main_ argv lg = Do CRun o' lg /\
    (index_path o', alias_path o', interval_s o', db o', o_url o') =
      (abs (index_path o), abs (alias_path o), interval_s o, db o, o_url o) /\
    (state_dir o <> [] -> state_dir o' = abs (state_dir o)) /\
    (o_url o <> [] -> spool_dir o' = abs (spool_dir o) /\
       pin_file o' = (if bool_decide (pin_file o = []) then [] else abs (pin_file o)) /\
       client_cert o' = (if bool_decide (client_cert o = []) then [] else abs (client_cert o))) /\
    (pin o', client_key o', batch_size o', max_attempts o', spool_max_bytes o', pipe o') =
      ([], [], 32, 6, 64 * 1024 * 1024, kDefaultPipe).
Proof.
  set (command := service_command exe (service_args abs o)) in *.
  exists (code <$> command), (split_command_line (service_args abs o)), (installed abs o).
  assert (chr <$> (code <$> command) = command) as ->.
  { rewrite <- list_fmap_compose. rewrite <- (list_fmap_id command) at 2.
    apply list_fmap_ext. intros i c _. apply chr_code. }
  split_and!; [|by apply command_words|by apply installed_main|done| | |done].
  - revert Hins. unfold install. destruct (manager_error e); [done|]. destruct (service_error e); [done|].
    fold command. rewrite widen_ascii by done. intros [= <-]. set_solver.
  - intros Hs. unfold installed. cbn. by destruct (state_dir o).
  - intros Hu. unfold installed. cbn. destruct (o_url o); [done|]. cbn.
    by destruct (pin_file o), (client_cert o).
Qed.

Lemma installed_service_runs_witness :
  exists registered argv o',
    split_command_line (chr <$> registered) = lit "C:\Program Files\ns\nano-sensor.exe" :: argv /\
    main_ argv (mkLog Info []) = Do CRun o' (mkLog Info []) /\ o_url o' = lit "https://cloud/ingest" /\ pin o' = [].
Proof.
  destruct (installed_service_runs (mkSc None None None) (lit "C:\Program Files\ns\nano-sensor.exe") sample_abs
    install_options (mkLog Info []) _ eq_refl ltac:(vm_compute; split; congruence)
    ltac:(repeat constructor; vm_compute; congruence) eq_refl eq_refl)
    as (registered & argv & o' & _ & H1 & H2 & H3 & _ & _ & H4).
  exists registered, argv, o'. split; [exact H1|]. split; [exact H2|].
  split; [exact (f_equal snd H3)|]. exact (f_equal (fun x => x.1.1.1.1.1) H4).
Defined.
