(* ===== verification/DbBench.v ===== *)
(** * The database benchmark (tools/dbbench.cpp)

    The synthetic fleet: the catalog built from the two data files, the hosts drawn
    from it and run through the matcher, and the loop that records them; and the
    measurement: the choice of CVEs, the queries of each, the page reads taken from
    the server's messages, the medians and the summary.  How long a query took is an
    argument, in nanoseconds; the mean and the printing of the summaries are left
    out.  The generator and [std::shuffle] are an interface. *)
From S2P Require Import Prelude CppStd Double Vercmp Json Log Inventory Algorithms Cve Frame.
From S2P Require Import Spool SpoolLemmas WinStr Inet Agent Odbc.
From Stdlib Require Import Ascii.

#[local] Open Scope Z_scope.

(** ** Arguments *)

Record Args := mkArgs {
  b_cmd : str; b_db : str; b_index : str; b_aliases : str; b_cves_file : str; b_tag : str;
  b_hosts : Z; b_queries : Z; b_repeat : Z; b_seed : Z }.

Definition default_args (cmd : str) : Args :=
  mkArgs cmd [] (lit "data/cve_index.tsv") (lit "data/cpe_aliases.tsv") [] (lit "x") 1000 30 9 42.

(** [strtoul(s, nullptr, 10)] with a 32-bit [unsigned long]. *)
Definition strtoul10 (s : str) : Z :=
  let '(neg, s1) := scan_sign (skip_ws s) in
  let v := dec_value (fst (span isdigit s1)) in
  if 2 ^ 32 - 1 <? v then 2 ^ 32 - 1 else if neg then u32 (- v) else v.

Definition set_option (k v : str) (a : Args) : option Args :=
  let opt o := str_eqb k (lit o) in
  let '(mkArgs c db ix al cf tag h q r sd) := a in
  if opt "--db" then Some (mkArgs c v ix al cf tag h q r sd)
  else if opt "--hosts" then Some (mkArgs c db ix al cf tag (atoi v) q r sd)
  else if opt "--seed" then Some (mkArgs c db ix al cf tag h q r (strtoul10 v))
  else if opt "--queries" then Some (mkArgs c db ix al cf tag h (atoi v) r sd)
  else if opt "--repeat" then Some (mkArgs c db ix al cf tag h q (atoi v) sd)
  else if opt "--cves-file" then Some (mkArgs c db ix al v tag h q r sd)
  else if opt "--tag" then Some (mkArgs c db ix al cf v h q r sd)
  else if opt "--index" then Some (mkArgs c db v al cf tag h q r sd)
  else if opt "--aliases" then Some (mkArgs c db ix v cf tag h q r sd)
  else None.

(** Options come in pairs; one left over at the end is not looked at. *)
Fixpoint set_options (l : list str) (a : Args) : Args + str :=
  match l with
  | k :: v :: l' => match set_option k v a with Some a => set_options l' a | None => inr k end
  | _ => inl a
  end.

(** What [main] goes on with: a fleet to write under a prefix, or a measurement. *)
Inductive bench := BenchExit (rc : Z) (message : str) | BenchWrite (a : Args) (prefix : str) | BenchMeasure (a : Args).

Definition bench_main (argv : list str) : bench :=
  match argv with
  | [] => BenchExit 2 (lit "usage: ns_dbbench load|measure|insert --db CONN [...]")
  | cmd :: l =>
      match set_options l (default_args cmd) with
      | inr k => BenchExit 2 (lit "unknown option " ++ k)
      | inl a =>
          if str_eqb cmd (lit "load") then BenchWrite a (lit "bench-")
          else if str_eqb cmd (lit "insert") then
            BenchWrite (mkArgs (b_cmd a) (b_db a) (b_index a) (b_aliases a) (b_cves_file a) (b_tag a) (b_hosts a)
                          (b_queries a) (b_repeat a) (u32 (b_seed a + 1000)))
              (lit "bench-ins-" ++ b_tag a ++ lit "-")
          else if str_eqb cmd (lit "measure") then BenchMeasure a
          else BenchExit 2 (lit "unknown command " ++ cmd)
      end
  end.

(** ** Ordered containers *)

(** [std::map<std::string, V>] as its entries in key order. *)
Section OrderedMap.
Context {V : Type}.

(** [emplace]: an entry that is there stays. *)
Fixpoint emplace (k : str) (v : V) (m : list (str * V)) : list (str * V) :=
  match m with
  | [] => [(k, v)]
  | (k', v') :: m' =>
      if str_ltb k k' then (k, v) :: m else if str_ltb k' k then (k', v') :: emplace k v m' else m
  end.

(** [f(m[k])], with a fresh value if the key is new. *)
Fixpoint update_at (d : V) (f : V -> V) (k : str) (m : list (str * V)) : list (str * V) :=
  match m with
  | [] => [(k, f d)]
  | (k', v') :: m' =>
      if str_ltb k k' then (k, f d) :: m
      else if str_ltb k' k then (k', v') :: update_at d f k m' else (k', f v') :: m'
  end.

Definition find_key (k : str) (m : list (str * V)) : option V := snd <$> List.find (fun e => str_eqb e.1 k) m.
End OrderedMap.

(** [std::set<std::string>::insert]. *)
Fixpoint set_insert (x : str) (s : list str) : list str :=
  match s with
  | [] => [x]
  | y :: s' => if str_ltb x y then x :: s else if str_ltb y x then y :: set_insert x s' else s
  end.

(** ** The catalog *)

Definition split_tab (line : str) : list str := getlines tab line.

Record Catalog := mkCatalog { names : list str; versions : list (list str) }.

(** A line of the alias table; comments and empty lines are skipped. *)
Definition alias_line (m : list (str * str)) (line : str) : list (str * str) :=
  match line with
  | [] => m
  | c :: _ =>
      if Ascii.eqb c "#" then m
      else
        match split_tab line with
        | kind :: name :: vendor :: product :: _ =>
            if str_eqb kind (lit "exact") then emplace (vendor ++ lit ":" ++ product) name m else m
        | _ => m
        end
  end.

Definition real_version (v : str) : bool := negb (empty v) && negb (str_eqb v (lit "*")) && negb (str_eqb v (lit "-")).

Definition rule_line (m : list (str * list str)) (line : str) : list (str * list str) :=
  match split_tab line with
  | c0 :: c1 :: c2 :: c3 :: c4 :: c5 :: c6 :: c7 :: c8 :: _ =>
      update_at [] (fun s => fold_left (fun s v => if real_version v then set_insert v s else s) [c3; c5; c7; c8] s)
        (c1 ++ lit ":" ++ c2) m
  | _ => m
  end.

(** The two files as they are read; one that cannot be opened has no lines. *)
Definition build_catalog (aliases_file index_file : option str) : Catalog :=
  let name_for := fold_left alias_line (getlines nl (default [] aliases_file)) [] in
  let vers := fold_left rule_line (tail (getlines nl (default [] index_file))) [] in
  let kept := name_for ≫= fun '(key, name) =>
    match find_key key vers with
    | Some (v :: vs) => [(name, v :: vs)]
    | _ => []
    end in
  mkCatalog (fst <$> kept) (snd <$> kept).

(** ** The fleet *)

(** [std::mt19937] and [std::shuffle]. *)
Class Rng (R : Type) := {
  rng_seed : Z -> R;
  rng_next : R -> Z * R;
  shuffle : R -> list nat -> list nat * R;
  rng_next_range : forall r, 0 <= (rng_next r).1 < 2 ^ 32;
  shuffle_perm : forall r l, (shuffle r l).1 ≡ₚ l
}.

Section Fleet.
Context {HS : StdSort} {HU : UnorderedIter} {R : Type} {HR : Rng R} {D : Type} {HD : DbOps D}.

Record Fleet := mkFleet { fl_index : CveIndex; fl_cat : Catalog; fl_rng : R }.

(** One product of a host; [None]: a read outside a vector or a remainder by zero. *)
Definition draw_package (cat : Catalog) (i : nat) (r : R) : option (Package * R) :=
  match versions cat !! i, names cat !! i with
  | Some vs, Some name =>
      match vs with
      | [] => None
      | _ =>
          let '(x, r) := rng_next r in
          match vs !! Z.to_nat (x mod Z.of_nat (length vs)) with
          | Some v => Some (mkPackage name v (lit "bench") (lit "synthetic"), r)
          | None => None
          end
      end
  | _, _ => None
  end.

Fixpoint draw_packages (cat : Catalog) (l : list nat) (r : R) : option (list Package * R) :=
  match l with
  | [] => Some ([], r)
  | i :: l' =>
      match draw_package cat i r with
      | None => None
      | Some (p, r) =>
          match draw_packages cat l' r with
          | None => None
          | Some (ps, r) => Some (p :: ps, r)
          end
      end
  end.

Definition host_inventory (hostname : str) (now : Z) (ps : list Package) : Inventory :=
  mkInventory [] [] [] [] (unix_time_ms now) 0
    (mkHost hostname (lit "Windows 11 Enterprise") (lit "10.0.26100") [] []) [] [] [] ps [].

Definition make_host (fl : Fleet) (hostname : str) (now : Z) : option (Inventory * list Finding * Fleet) :=
  let '(idx, r) := shuffle (fl_rng fl) (List.seq 0%nat (length (names (fl_cat fl)))) in
  let '(x, r) := rng_next r in
  let n := Z.min (Z.of_nat (length idx)) (6 + x mod 7) in
  match draw_packages (fl_cat fl) (take (Z.to_nat n) idx) r with
  | None => None
  | Some (ps, r) =>
      Some (host_inventory hostname now ps, ps ≫= match_package (fl_index fl), mkFleet (fl_index fl) (fl_cat fl) r)
  end.

(** The files by their paths. *)
Definition open_fleet (file : str -> option str) (a : Args) : Fleet + str :=
  let '(idx, err) := load_rules (b_index a) (file (b_index a)) new_index in
  match err with
  | Some e => inr e
  | None =>
      let '(idx, err) := load_aliases (b_aliases a) (file (b_aliases a)) idx in
      match err with
      | Some e => inr e
      | None => inl (mkFleet idx (build_catalog (file (b_aliases a)) (file (b_index a))) (rng_seed (b_seed a)))
      end
  end.

(** [snprintf] into 64 bytes. *)
Definition host_name (prefix : str) (h : nat) : str := take 63 (prefix ++ pad0 6 (to_string (Z.of_nat h))).

(** The loop over the hosts from [h] on: the scans that were recorded, and the
    error that ended it.  [None]: undefined behaviour. *)
Fixpoint record_hosts (k h : nat) (prefix : str) (now : nat -> Z) (fl : Fleet) (d : D)
    : option (list (Inventory * list Finding) * option str * D) :=
  match k with
  | O => Some ([], None, d)
  | S k' =>
      match make_host fl (host_name prefix h) (now h) with
      | None => None
      | Some (inv, findings, fl) =>
          match db_record_scan inv findings 0 d with
          | (Some err, _, d) => Some ([], Some err, d)
          | (None, _, d) =>
              match record_hosts k' (S h) prefix now fl d with
              | None => None
              | Some (l, err, d) => Some ((inv, findings) :: l, err, d)
              end
          end
      end
  end.

(** The exit code and what was recorded. *)
Definition write_hosts (file : str -> option str) (now : nat -> Z) (a : Args) (prefix : str) (d : D)
    : option (Z * list (Inventory * list Finding) * D) :=
  match open_fleet file a with
  | inr _ => Some (1, [], d)
  | inl fl =>
      match db_connect (b_db a) d with
      | (Some _, d) => Some (1, [], d)
      | (None, d) =>
          match record_hosts (Z.to_nat (b_hosts a)) 0 prefix now fl d with
          | None => None
          | Some (l, None, d) => Some (0, l, d)
          | Some (l, Some _, d) => Some (1, l, d)
          end
      end
  end.

End Fleet.

(** ** Measuring *)

(** [std::regex] "logical reads (\d+)", every match from left to right; [None]: a
    number [std::stoll] throws on. *)
Definition kReads : str := lit "logical reads ".

Fixpoint read_counts (fuel : nat) (s : str) : list str :=
  match fuel, s with
  | S f, _ :: s' =>
      if starts_with kReads s then
        let '(ds, r) := span isdigit (drop (length kReads) s) in
        match ds with [] => read_counts f s' | _ => ds :: read_counts f r end
      else read_counts f s'
  | _, _ => []
  end.

Definition logical_reads (messages : str) : option Z :=
  fold_left (fun t ds => match t with
                         | Some t => if dec_value ds <? 2 ^ 63 then Some (i64 (t + dec_value ds)) else None
                         | None => None
                         end) (read_counts (S (length messages)) messages) (Some 0).

(** The rank of the [q]-th CVE among [n] of them; [size_t] arithmetic. *)
Definition cve_rank (n queries q : Z) : Z := u64 (u64 (n - 1) * q) / Z.max 1 (queries - 1).

(** The CVEs of the file if it names any, else the ranks. *)
Definition pick_cves (cves_file : option str) (all : list str) (queries : Z) : option (list str) :=
  match List.filter (fun l => negb (empty l)) (getlines nl (default [] cves_file)) with
  | [] =>
      mapM (fun q => all !! Z.to_nat (cve_rank (Z.of_nat (length all)) queries (Z.of_nat q))) (List.seq 0%nat (Z.to_nat queries))
  | cves => Some cves
  end.

(** The sorted sample read at its middle, and at nine tenths. *)
Definition median {A} (l : list A) : option A := l !! (length l / 2)%nat.
Definition percentile_90 {A} (l : list A) : option A := l !! (length l * 9 / 10)%nat.

(** What [measure] prints at its end, without the mean. *)
Record summary := mkSummary {
  findings_rows : Z; findings_pages : Z; sm_queries : Z; rows_returned : Z;
  median_ns : Z; p90_ns : Z; max_ns : Z; median_reads : Z; max_reads : Z }.

(** [Uncaught]: an exception leaves [main]. *)
Inductive measured := Failed (message : str) | Uncaught | Done (sm : summary).

Section Measure.
Context {HS : StdSort} {S : Type} {HO : Odbc S} {HW : Utf16}.

(** The repetitions: the rows of the last one, whose failure is not looked at. *)
Fixpoint repeat_query (k : nat) (cve : str) (rows : list FindingRow) (d : Db (S:=S)) : list FindingRow * Db (S:=S) :=
  match k with
  | O => (rows, d)
  | Datatypes.S k' => let '(_, rows, _, d) := hosts_affected cve None d in repeat_query k' cve rows d
  end.

(** The loop over the CVEs from the [i]-th on; [took] is how long each repetition
    took.  The medians, the page reads and the rows.  [None]: undefined. *)
Fixpoint measure_cves (took : nat -> nat -> Z) (repeat : Z) (i : nat) (cves : list str)
    (ms reads : list Z) (rows : Z) (d : Db (S:=S)) : option (measured + (list Z * list Z * Z * Db (S:=S))) :=
  match cves with
  | [] => Some (inr (ms, reads, rows, d))
  | cve :: cves' =>
      let '(err, out, messages, d) := hosts_affected cve (Some []) d in
      match err with
      | Some e => Some (inl (Failed (cve ++ lit ": " ++ e)))
      | None =>
          match logical_reads (default [] messages) with
          | None => Some (inl Uncaught)
          | Some lr =>
              let '(out, d) := repeat_query (Z.to_nat repeat) cve out d in
              match median (std_sort Z.ltb (took i <$> List.seq 0%nat (Z.to_nat repeat))) with
              | None => None
              | Some med =>
                  measure_cves took repeat (Datatypes.S i) cves' (ms ++ [med]) (reads ++ [lr])
                    (i64 (rows + Z.of_nat (length out))) d
              end
          end
      end
  end.

Definition kListCves : str :=
  lit "SELECT cve_id FROM dbo.findings GROUP BY cve_id " ++ lit "ORDER BY COUNT(" ++ lit "*), cve_id".

(** The CVEs of the file, or chosen from the database; [None]: a rank outside the
    list. *)
Definition choose_cves (cves_file : option str) (queries : Z) (d : Db (S:=S)) : option ((list str + str) * Db (S:=S)) :=
  match List.filter (fun l => negb (empty l)) (getlines nl (default [] cves_file)) with
  | [] =>
      let '(err, all, d) := column kListCves [] d in
      match err, all with
      | Some e, _ => Some (inr (lit "cannot list CVEs: " ++ e), d)
      | None, [] => Some (inr (lit "cannot list CVEs: "), d)
      | None, _ => match pick_cves None all queries with Some l => Some (inl l, d) | None => None end
      end
  | l => Some (inl l, d)
  end.

Definition summarize (rows_total pages rows : Z) (ms reads : list Z) : option summary :=
  let sm := std_sort Z.ltb ms in
  let sr := std_sort Z.ltb reads in
  match median sm, percentile_90 sm, last sm, median sr, last sr with
  | Some m, Some p, Some x, Some r, Some y =>
      Some (mkSummary rows_total pages (Z.of_nat (length ms)) rows m p x r y)
  | _, _, _, _, _ => None
  end.

Definition measure (cves_file : option str) (took : nat -> nat -> Z) (a : Args) (d : Db (S:=S))
    : option (measured * Db (S:=S)) :=
  match connect (b_db a) d with
  | (Some e, d) => Some (Failed e, d)
  | (None, d) =>
      match choose_cves cves_file (b_queries a) d with
      | None => None
      | Some (inr e, d) => Some (Failed e, d)
      | Some (inl cves, d) =>
          let '(_, rows_total, d) := scalar (lit "SELECT COUNT_BIG(" ++ lit "*) FROM dbo.findings") 0 d in
          let '(_, pages, d) :=
            scalar (lit "SELECT SUM(used_page_count) FROM sys.dm_db_partition_stats " ++
                    lit "WHERE object_id = OBJECT_ID('dbo.findings')") 0 d in
          match exec (lit "SET STATISTICS IO ON") None d with
          | (Some e, _, d) => Some (Failed e, d)
          | (None, _, d) =>
              match measure_cves took (b_repeat a) 0 cves [] [] 0 d with
              | None => None
              | Some (inl x) => Some (x, d)
              | Some (inr (ms, reads, rows, d)) =>
                  match summarize rows_total pages rows ms reads with
                  | None => None
                  | Some sm => Some (Done sm, d)
                  end
              end
          end
      end
  end.

End Measure.

(** ** Lemmas *)

(** Every name of the catalog has versions to draw from. *)
Definition catalog_ok (c : Catalog) : Prop :=
  length (names c) = length (versions c) /\ Forall (fun vs => vs <> []) (versions c).

Lemma build_catalog_ok al ix : catalog_ok (build_catalog al ix).
Proof.
  unfold build_catalog, catalog_ok. cbn [names versions]. rewrite !length_fmap. split; [done|].
  apply Forall_fmap, Forall_forall. intros [name vs] H. apply list_elem_of_bind in H as ([key n] & H & _).
  destruct (find_key key _) as [[|v l]|]; [by apply elem_of_nil in H| |by apply elem_of_nil in H].
  apply list_elem_of_singleton in H as [= -> ->]. done.
Qed.

Section Lemmas.
Context {HS : StdSort} {HU : UnorderedIter} {R : Type} {HR : Rng R} {D : Type} {HD : DbOps D}.

Lemma draw_package_ok (cat : Catalog) i (r : R) :
  catalog_ok cat -> (i < length (names cat))%nat -> exists p r', draw_package cat i r = Some (p, r').
Proof.
  intros [Hl Hv] Hi. unfold draw_package.
  destruct (lookup_lt_is_Some_2 (versions cat) i) as [vs Ev]; [lia|].
  destruct (lookup_lt_is_Some_2 (names cat) i) as [n En]; [lia|]. rewrite Ev, En.
  pose proof (Forall_lookup_1 _ _ _ _ Hv Ev) as Hne. destruct vs as [|v vs]; [done|].
  destruct (rng_next r) as [x r'].
  destruct (lookup_lt_is_Some_2 (v :: vs) (Z.to_nat (x mod Z.of_nat (length (v :: vs))))) as [w Ew].
  { pose proof (Z.mod_pos_bound x (Z.of_nat (length (v :: vs))) ltac:(cbn; lia)). lia. }
  rewrite Ew. eauto.
Qed.

Lemma draw_packages_ok (cat : Catalog) l (r : R) :
  catalog_ok cat -> Forall (fun i => (i < length (names cat))%nat) l ->
  exists ps r', draw_packages cat l r = Some (ps, r') /\ length ps = length l.
Proof.
  intros Hc Hl. revert r. induction Hl as [|i l Hi _ IH]; intros r; [by eexists _, _|]. cbn [draw_packages].
  destruct (draw_package_ok cat i r Hc Hi) as (p & r1 & ->). destruct (IH r1) as (ps & r2 & -> & Hlen).
  eexists _, _. split; [done|]. cbn. by rewrite Hlen.
Qed.

(** A host that was made from a fleet: its name, a believable number of products
    and exactly the matcher's findings for them. *)
Definition host_of (fl : Fleet (R:=R)) (name : str) (x : Inventory * list Finding) : Prop :=
  hostname (host x.1) = name /\ x.2 = packages x.1 ≫= match_package (fl_index fl) /\
  (Nat.min (length (names (fl_cat fl))) 6 <= length (packages x.1) <= 12)%nat.

Lemma make_host_ok (fl : Fleet (R:=R)) name now :
  catalog_ok (fl_cat fl) ->
  exists inv fs r, make_host fl name now = Some (inv, fs, mkFleet (fl_index fl) (fl_cat fl) r) /\
    host_of fl name (inv, fs).
Proof.
  intros Hc. unfold make_host.
  pose proof (shuffle_perm (fl_rng fl) (List.seq 0%nat (length (names (fl_cat fl))))) as Hp.
  destruct (shuffle _ _) as [idx r]. cbn [fst] in Hp. destruct (rng_next r) as [x r1].
  assert (length idx = length (names (fl_cat fl))) as Hlen by (by rewrite Hp, length_seq).
  pose proof (Z.mod_pos_bound x 7 ltac:(lia)).
  set (n := Z.to_nat _).
  assert (Forall (fun i => (i < length (names (fl_cat fl)))%nat) (take n idx)) as Hidx.
  { apply Forall_take. rewrite Hp. apply Forall_forall. intros i Hi%list_elem_of_In%in_seq. lia. }
  destruct (draw_packages_ok (fl_cat fl) _ r1 Hc Hidx) as (ps & r2 & -> & Hps).
  eexists _, _, _. split; [done|]. split_and!; [done|done|..]; cbn; rewrite Hps, length_take; subst n; lia.
Qed.

Lemma record_hosts_ok k h prefix now (fl : Fleet (R:=R)) (d : D) :
  catalog_ok (fl_cat fl) ->
  exists l err d', record_hosts k h prefix now fl d = Some (l, err, d') /\
    (length l <= k)%nat /\ (err = None -> length l = k) /\
    Forall2 (fun i => host_of fl (host_name prefix i)) (List.seq h (length l)) l.
Proof.
  revert h fl d. induction k as [|k IH]; intros h fl d Hc; cbn [record_hosts].
  { eexists _, _, _. split_and!; [done|done|done|constructor]. }
  destruct (make_host_ok fl (host_name prefix h) (now h) Hc) as (inv & fs & r & -> & Hh).
  destruct (db_record_scan inv fs 0 d) as [[[err|] k'] d1].
  { eexists _, _, _. split_and!; [done|cbn; lia|done|constructor]. }
  destruct (IH (S h) (mkFleet (fl_index fl) (fl_cat fl) r) d1 Hc) as (l & err & d2 & -> & Hle & Herr & Hl).
  eexists _, _, _. split_and!; [done|cbn; lia|intros E; cbn; by rewrite Herr|]. cbn. by constructor.
Qed.

End Lemmas.

Lemma host_name_inj prefix i j :
  (length prefix <= 53)%nat -> Z.of_nat i < 2 ^ 31 -> Z.of_nat j < 2 ^ 31 ->
  host_name prefix i = host_name prefix j -> i = j.
Proof.
  intros Hp Hi Hj. unfold host_name.
  assert (forall h, Z.of_nat h < 2 ^ 31 -> (length (prefix ++ pad0 6 (to_string (Z.of_nat h))) <= 63)%nat) as Hl.
  { intros h Hh. rewrite to_string_nonneg by lia. unfold pad0. rewrite !length_app, length_replicate.
    pose proof (to_string_u_length (Z.of_nat h) 10 ltac:(change (10 ^ Z.of_nat 10) with 10000000000; lia) ltac:(lia)). lia. }
  rewrite !take_ge by auto. rewrite !to_string_nonneg by lia. intros E%app_inv_head.
  destruct (pad0_digits 6 (Z.of_nat i)) as (_ & Ei & _); [lia|]. destruct (pad0_digits 6 (Z.of_nat j)) as (_ & Ej & _); [lia|].
  rewrite E in Ei. lia.
Qed.

Lemma rank_small n queries q :
  0 < n < 2 ^ 32 -> 0 <= q < 2 ^ 31 -> cve_rank n queries q = (n - 1) * q / Z.max 1 (queries - 1).
Proof. intros Hn Hq. unfold cve_rank. rewrite (u64_small (n - 1)) by lia. rewrite u64_small by nia. done. Qed.

(** ** Properties *)

(** The fleet writer never reads outside a vector or divides by zero, whatever the
    data files hold; what it records are hosts of the fleet in order, under names
    that are all different, each with the matcher's findings for its products;
    and it reports success only when every host was recorded. *)
Theorem bench_fleet_recorded {HS : StdSort} {HU : UnorderedIter} {R : Type} {HR : Rng R} {D : Type} {HD : DbOps D}
  (file : str -> option str) (now : nat -> Z) (a : Args) (prefix : str) (d : D)
  (Hp : (length prefix <= 53)%nat) (Hh : b_hosts a < 2 ^ 31) :
  exists rc l d', write_hosts (R:=R) file now a prefix d = Some (rc, l, d') /\
    NoDup ((fun x => hostname (host x.1)) <$> l) /\
    (rc = 0 -> length l = Z.to_nat (b_hosts a)) /\
    forall fl : Fleet (R:=R), open_fleet file a = inl fl ->
      Forall2 (fun i => host_of fl (host_name prefix i)) (List.seq 0%nat (length l)) l.
Proof.
  unfold write_hosts. destruct (open_fleet (R:=R) file a) as [fl|e] eqn:Ef.
  2:{ eexists _, _, _. split_and!; [done|constructor|done|done]. }
  assert (catalog_ok (fl_cat fl)) as Hc.
  { unfold open_fleet in Ef. destruct (load_rules _ _ _) as [idx [e|]]; [done|].
    destruct (load_aliases _ _ idx) as [idx' [e|]]; [done|]. injection Ef as <-. apply build_catalog_ok. }
  destruct (db_connect (b_db a) d) as [[e|] d1].
  { eexists _, _, _. split_and!; [done|constructor|done|]. intros fl' _. constructor. }
  destruct (record_hosts_ok (Z.to_nat (b_hosts a)) 0 prefix now fl d1 Hc) as (l & err & d2 & -> & Hle & Herr & Hl).
  assert (NoDup ((fun x => hostname (host x.1)) <$> l)) as Hnd.
  { assert ((fun x : Inventory * list Finding => hostname (host x.1)) <$> l = host_name prefix <$> List.seq 0%nat (length l)) as ->.
    { clear -Hl. induction Hl as [|i x ns l Hx _ IH]; [done|]. rewrite !fmap_cons, IH. f_equal. apply Hx. }
    apply NoDup_fmap_2_strong; [|apply NoDup_ListNoDup, seq_NoDup].
    intros i j Hi%list_elem_of_In%in_seq Hj%list_elem_of_In%in_seq. apply host_name_inj; [done|lia|lia]. }
  destruct err as [e|]; eexists _, _, _; (split_and!; [done|done| |]).
  - done.
  - by intros fl' [= <-].
  - intros _. by apply Herr.
  - by intros fl' [= <-].
Qed.

(** The CVEs that are measured run, as intended, from the rarest to the most
    widespread one: the ranks stay inside the list, never go down, begin at the
    first entry and end at the last. *)
Theorem bench_ranks_spread (all : list str) (queries : Z)
  (Hn : all <> []) (Hl : Z.of_nat (length all) < 2 ^ 32) (Hq : 2 <= queries < 2 ^ 31) :
  exists cves, pick_cves None all queries = Some cves /\ length cves = Z.to_nat queries /\
    head cves = head all /\ last cves = last all /\
    forall q q', 0 <= q <= q' -> q' < queries ->
      0 <= cve_rank (Z.of_nat (length all)) queries q /\
      cve_rank (Z.of_nat (length all)) queries q <= cve_rank (Z.of_nat (length all)) queries q' /\
      cve_rank (Z.of_nat (length all)) queries q' < Z.of_nat (length all).
Proof.
  set (n := Z.of_nat (length all)) in *. assert (0 < n) as Hpos by (subst n; destruct all; [done|cbn; lia]).
  assert (forall q, 0 <= q < queries -> cve_rank n queries q = (n - 1) * q / (queries - 1)) as Hr
    by (intros q Hqq; rewrite rank_small by lia; f_equal; lia).
  assert (forall q, 0 <= q < queries -> 0 <= (n - 1) * q / (queries - 1) < n) as Hin.
  { intros q Hqq. split; [apply Z.div_pos; nia|]. apply Z.div_lt_upper_bound; nia. }
  set (pick := fun q => all !! Z.to_nat (cve_rank n queries (Z.of_nat q))).
  assert (exists cves, mapM pick (List.seq 0%nat (Z.to_nat queries)) = Some cves) as [cves Hc].
  { apply mapM_is_Some. apply Forall_forall. intros q Hqq%list_elem_of_In%in_seq. apply lookup_lt_is_Some_2.
    rewrite Hr by lia. specialize (Hin (Z.of_nat q) ltac:(lia)). subst n. lia. }
  exists cves. unfold pick_cves. cbn [default List.filter getlines getlines_from]. split; [exact Hc|].
  pose proof (length_mapM _ _ _ Hc) as Hlen. rewrite length_seq in Hlen. apply mapM_Some in Hc.
  assert (forall q, (q < Z.to_nat queries)%nat -> cves !! q = pick q) as Hat.
  { intros q Hqq. destruct (lookup_lt_is_Some_2 cves q) as [c Ec]; [lia|].
    destruct (Forall2_lookup_r _ _ _ _ _ Hc Ec) as (q' & Eq & Ep).
    apply lookup_seq in Eq as [-> _]. by rewrite Ec, <- Ep. }
  split_and!; [lia| | |].
  - rewrite !head_lookup, Hat by lia. unfold pick. by rewrite Hr, Z.mul_0_r by lia.
  - rewrite !last_lookup, Hat by lia. unfold pick. rewrite Hr by lia. f_equal.
    rewrite <- Hlen, Nat2Z.inj_pred, Z2Nat.id by lia. replace (Z.pred queries) with (queries - 1) by lia.
    rewrite Z.div_mul by lia. subst n. lia.
  - intros q q' Hqq Hq'. rewrite !Hr by lia. split; [apply Hin; lia|]. split; [|apply Hin; lia].
    apply Z.div_le_mono; nia.
Qed.

(** ** Lemmas: the measurement *)

Section MeasureLemmas.
Context {HS : StdSort} {S : Type} {HO : Odbc S} {HW : Utf16}.

Lemma ltb_swo (l : list Z) : StrictWeakOn Z.ltb l.
Proof. split; intros; bools; apply Z.ltb_ge; lia. Qed.

Lemma sort_length (l : list Z) : length (std_sort Z.ltb l) = length l.
Proof. apply Permutation_length, std_sort_perm, ltb_swo. Qed.

Lemma median_some {A} (l : list A) : l <> [] -> is_Some (median l).
Proof.
  intros Hl. apply lookup_lt_is_Some_2. pose proof (Nat.div_lt (length l) 2). destruct l; [done|cbn in *; lia].
Qed.

Lemma percentile_some {A} (l : list A) : l <> [] -> is_Some (percentile_90 l).
Proof.
  intros Hl. apply lookup_lt_is_Some_2. apply Nat.Div0.div_lt_upper_bound. destruct l; [done|cbn; lia].
Qed.

Lemma sort_nonempty (l : list Z) : l <> [] -> std_sort Z.ltb l <> [].
Proof. intros Hl E. apply Hl, length_zero_iff_nil. by rewrite <- sort_length, E. Qed.

Lemma measure_cves_defined took repeat cves : forall i ms reads rows (d : Db (S:=S)),
  0 < repeat -> length ms = length reads ->
  exists r, measure_cves took repeat i cves ms reads rows d = Some r /\
    (forall ms' reads' rows' d', r = inr (ms', reads', rows', d') ->
      length ms' = (length ms + length cves)%nat /\ length reads' = length ms') /\ forall sm, r <> inl (Done sm).
Proof.
  induction cves as [|cve cves IH]; intros i ms reads rows d Hr Hl; cbn [measure_cves].
  { eexists. split_and!; [done| |done]. intros ms' reads' rows' d' [= <- <- <- <-]. cbn. lia. }
  destruct (hosts_affected cve (Some []) d) as [[[[e|] out] messages] d1]; [by eexists|].
  destruct (logical_reads (default [] messages)) as [lr|]; [|by eexists].
  destruct (repeat_query (Z.to_nat repeat) cve out d1) as [out' d2].
  destruct (median_some (std_sort Z.ltb (took i <$> List.seq 0%nat (Z.to_nat repeat)))) as [med ->].
  { apply sort_nonempty. destruct (Z.to_nat repeat) eqn:E; [lia|done]. }
  destruct (IH (Datatypes.S i) (ms ++ [med]) (reads ++ [lr]) (i64 (rows + Z.of_nat (length out'))) d2 Hr) as (r & -> & Hd & Hn).
  { rewrite !length_app. cbn. lia. }
  exists r. split_and!; [done| |done]. intros ms' reads' rows' d' E. apply Hd in E as [E1 E2]. rewrite length_app in E1. cbn in *. lia.
Qed.

Lemma summarize_defined rows_total pages rows ms reads :
  ms <> [] -> length reads = length ms ->
  exists sm, summarize rows_total pages rows ms reads = Some sm /\ sm_queries sm = Z.of_nat (length ms) /\
    In (median_ns sm) ms /\ In (max_ns sm) ms /\ (forall x, In x ms -> x <= max_ns sm) /\ In (max_reads sm) reads.
Proof.
  intros Hne Hl. assert (reads <> []) as Hne' by (intros ->; by destruct ms).
  pose proof (std_sort_perm _ Z.ltb ms (ltb_swo ms)) as Pm. pose proof (std_sort_perm _ Z.ltb reads (ltb_swo reads)) as Pr.
  pose proof (std_sort_sorted _ Z.ltb ms (ltb_swo ms)) as Sm.
  apply sort_nonempty in Hne, Hne'. unfold summarize.
  destruct (median_some _ Hne) as [m Em]. destruct (percentile_some _ Hne) as [p ->].
  destruct (median_some _ Hne') as [r ->]. rewrite Em.
  destruct (last (std_sort Z.ltb ms)) as [x|] eqn:Ex; [|by apply last_None in Ex].
  destruct (last (std_sort Z.ltb reads)) as [y|] eqn:Ey; [|by apply last_None in Ey].
  eexists. split; [done|]. cbn. split; [done|].
  apply last_Some in Ex as [l Ex]. apply last_Some in Ey as [l' Ey].
  split_and!.
  - apply list_elem_of_In. rewrite <- Pm. by eapply list_elem_of_lookup_2.
  - apply list_elem_of_In. rewrite <- Pm, Ex. set_solver.
  - intros z Hz%list_elem_of_In. rewrite <- Pm, Ex in Hz. rewrite Ex in Sm.
    apply elem_of_app in Hz as [Hz|Hz%list_elem_of_singleton]; [|lia].
    enough (Z.ltb x z = false) by (bools; lia).
    clear -Hz Sm. induction l as [|w l IH]; [by apply elem_of_nil in Hz|].
    apply StronglySorted_inv in Sm as [Sm Hw]. apply elem_of_cons in Hz as [->|Hz]; [|by apply IH].
    rewrite Forall_forall in Hw. apply Hw. set_solver.
  - apply list_elem_of_In. rewrite <- Pr, Ey. set_solver.
Qed.
End MeasureLemmas.

(** With at least two queries and one repetition the measurement never reads
    outside a vector, whatever the database answers; and a summary counts every
    CVE that was chosen, its median and maximum are times that were measured, and
    no measured median is above the maximum. *)
Theorem bench_measure_defined {HS : StdSort} {S : Type} {HO : Odbc S} {HW : Utf16} (cves_file : option str)
  (took : nat -> nat -> Z) (a : Args) (d : Db (S:=S))
  (Hq : 2 <= b_queries a < 2 ^ 31) (Hr : 0 < b_repeat a)
  (Hl : forall all, Z.of_nat (length (column kListCves [] all).1.2) < 2 ^ 32) :
  exists r d', measure cves_file took a d = Some (r, d') /\
    forall sm, r = Done sm ->
      0 < sm_queries sm /\ (cves_file = None -> sm_queries sm = b_queries a) /\ median_ns sm <= max_ns sm.
Proof.
  unfold measure. destruct (connect (b_db a) d) as [[e|] d1]; [by eexists _, _|].
  assert (exists c d2, choose_cves cves_file (b_queries a) d1 = Some (c, d2) /\
    forall l, c = inl l -> l <> [] /\ (cves_file = None -> length l = Z.to_nat (b_queries a))) as (c & d2 & -> & Hc).
  { unfold choose_cves. destruct (List.filter _ _) as [|l0 l] eqn:Ef.
    2:{ eexists _, _. split; [done|]. intros l' [= <-]. split; [done|]. by intros ->. }
    specialize (Hl d1). destruct (column kListCves [] d1) as [[[e|] all] d2]; [by eexists _, _|].
    destruct all as [|c0 all]; [by eexists _, _|].
    destruct (bench_ranks_spread (c0 :: all) (b_queries a) ltac:(done) Hl Hq) as (cves & E & Hlen & _).
    rewrite E. eexists _, _. split; [done|]. intros l [= <-]. split; [|done].
    intros ->. cbn in Hlen. lia. }
  destruct c as [cves|e]; [|by eexists _, _]. destruct (Hc cves eq_refl) as [Hne Hlen].
  destruct (scalar _ 0 d2) as [[? rt] d3]. destruct (scalar _ 0 d3) as [[? pg] d4].
  destruct (exec _ None d4) as [[[e|] ?] d5]; [by eexists _, _|].
  destruct (measure_cves_defined took (b_repeat a) cves 0 [] [] 0 d5 Hr eq_refl) as (r & -> & Hm & Hn).
  destruct r as [x|[[[ms reads] rows] d6]].
  { eexists _, _. split; [done|]. intros sm ->. by destruct (Hn sm). }
  destruct (Hm ms reads rows d6 eq_refl) as [Hml Hrl]. cbn in Hml.
  destruct (summarize_defined rt pg rows ms reads) as (sm & -> & Hs & Hmed & _ & Hmax & _).
  { destruct ms; [by destruct cves|done]. }
  { done. }
  eexists _, _. split; [done|]. intros sm' [= <-]. rewrite Hs. split_and!.
  - destruct cves; [done|cbn in Hml; lia].
  - intros E. apply Hlen in E. lia.
  - by apply Hmax.
Qed.

(** ** The properties at work *)

(** A generator that counts, a shuffle that turns the list around. *)
Definition counting_rng : Rng Z.
Proof.
  refine {| rng_seed s := s; rng_next r := (u32 r, u32 r + 1); shuffle r l := (rev l, r) |}.
  - intros r. apply u32_range.
  - intros r l. cbn. symmetry. apply Permutation_rev.
Defined.

(** A database that keeps the names of the hosts it is given. *)
Definition keeping_db : DbOps (list str) := {|
  db_connected _ := true;
  db_connect _ d := (None, d);
  db_disconnect d := d;
  db_record_scan inv _ k d := (None, k, d ++ [hostname (host inv)]);
  db_host_findings _ _ _ d := (None, [], d);
  db_hosts_affected _ d := (None, [], d)
|}.

Definition tabbed (l : list str) : str := match l with [] => [] | x :: l' => x ++ (l' ≫= fun y => tab :: y) end.

Definition sample_files (p : str) : option str :=
  if str_eqb p (lit "data/cve_index.tsv") then
    Some (kRuleHeader ++ [nl] ++
      tabbed [lit "CVE-1"; lit "openbsd"; lit "openssh"; lit "*"; lit "*"; []; []; lit "9.3"; lit "9.4"; lit "7.5";
              lit "HIGH"; lit "3.1"] ++ [nl])
  else Some (tabbed [lit "exact"; lit "openssh"; lit "openbsd"; lit "openssh"] ++ [nl]).

Definition sample_bench : Args := mkArgs (lit "load") [] (lit "data/cve_index.tsv") (lit "data/cpe_aliases.tsv") [] [] 3 0 0 42.

Lemma bench_fleet_recorded_witness :
  exists rc l d', write_hosts (HR := counting_rng) (HD := keeping_db) sample_files (fun _ => 0) sample_bench (lit "bench-") []
    = Some (rc, l, d') /\ rc = 0 /\ d' = [lit "bench-000000"; lit "bench-000001"; lit "bench-000002"] /\
    length l = 3%nat /\ NoDup ((fun x => hostname (host x.1)) <$> l).
Proof.
  destruct (bench_fleet_recorded (HR := counting_rng) (HD := keeping_db) sample_files (fun _ => 0) sample_bench (lit "bench-") []
    ltac:(vm_compute; lia) ltac:(vm_compute; reflexivity)) as (rc & l & d' & E & Hnd & Hlen & _).
  exists rc, l, d'. split; [exact E|].
  assert (rc = 0 /\ d' = [lit "bench-000000"; lit "bench-000001"; lit "bench-000002"]) as [Hrc Hd]
    by (vm_compute in E; injection E as <- _ <-; split; reflexivity).
  split; [exact Hrc|]. split; [exact Hd|]. split; [exact (Hlen Hrc)|exact Hnd].
Defined.

Lemma bench_ranks_spread_witness :
  exists cves, pick_cves None [lit "CVE-1"; lit "CVE-2"; lit "CVE-3"; lit "CVE-4"] 3 = Some cves /\
    cves = [lit "CVE-1"; lit "CVE-2"; lit "CVE-4"] /\ last cves = Some (lit "CVE-4").
Proof.
  destruct (bench_ranks_spread [lit "CVE-1"; lit "CVE-2"; lit "CVE-3"; lit "CVE-4"] 3 ltac:(discriminate)
    ltac:(vm_compute; reflexivity) ltac:(lia)) as (cves & E & _ & _ & Hl & _).
  exists cves. split; [exact E|]. split; [vm_compute in E; injection E as <-; reflexivity|exact Hl].
Defined.

(** The server's messages: the counts of every table are added up. *)
Example logical_reads_sum :
  logical_reads (lit "Table 'hosts'. Scan count 0, logical reads 12, physical reads 0. Table 'findings'. logical reads 30.")
  = Some 42.
Proof. vm_compute. reflexivity. Qed.

(** With no repetitions there is no sample, and its middle is read all the same;
    with no queries the same happens to the summary. *)
Example empty_sample_read : median (@nil Z) = None /\ percentile_90 (@nil Z) = None.
Proof. split; reflexivity. Qed.
